(** * Configuration reconciliation core of the ingress controller

    A shallow embedding of [internal/k8s/configuration.go]: the resource
    wrappers, the host and listener arbiters, the change engine, the
    problem tracker and the public mutators of the [Configuration] store,
    followed by the properties of that code.

    Conventions of the embedding:
    - Go maps are [gmap]s; a [nil] map and an empty map read the same, and
      both are [∅], except for [Annotations], where [reflect.DeepEqual]
      tells them apart.
    - Go integers are [Z]; timestamps are instants in [Z].
    - Strings are byte strings; Go's [<] on strings is the bytewise
      lexicographic order, which is [String.le] here.
    - A run-time panic (index out of range, nil dereference) is [None] in
      the [option] monad.
    - Derived resources are Go pointers that several maps alias while a
      rebuild mutates them; the rebuild threads an explicit heap of derived
      objects, addressed by the kind and store key of the object they were
      made from.
    - Go leaves the order of [range] over a map unspecified, and it can
      differ from one loop to the next. Where the source sorts the keys
      first, the embedding visits them in ascending order. Where it ranges
      over the map itself and the order can show in the result, the
      embedding visits the entries in the order that a [RangeOrder] gives,
      and the properties hold for every such order. *)

From stdpp Require Import gmap strings list fin_maps sorting.

Local Open Scope Z_scope.

(** ** Kubernetes objects *)

Record ObjectMeta := {
  Namespace : string;
  Name : string;
  CreationTimestamp : Z;
  UID : string;
  Generation : Z;
  Annotations : option (gmap string string);
  Labels : gmap string string;
}.

Record IngressServiceBackend := {
  isb_Name : string;
  isb_PortNumber : Z;
}.

Record HTTPIngressPath := {
  hip_Path : string;
  hip_BackendService : option IngressServiceBackend;
}.

Record IngressRule := {
  rule_Host : string;
  rule_HTTP : option (list HTTPIngressPath);
}.

Record Ingress := {
  ing_ObjectMeta : ObjectMeta;
  ing_Rules : list IngressRule;
}.

Record Action := { Pass : string }.

Record Route := {
  route_Path : string;
  route_Route : string;
  route_Action : option Action;
}.

Record Upstream := {
  up_Name : string;
  up_Service : string;
  up_Port : Z;
}.

Record VirtualServerListener := {
  vsl_HTTP : string;
  vsl_HTTPS : string;
}.

Record VirtualServer := {
  vs_ObjectMeta : ObjectMeta;
  vs_Host : string;
  vs_Listener : option VirtualServerListener;
  vs_Routes : list Route;
}.

Record VirtualServerRoute := {
  vsr_ObjectMeta : ObjectMeta;
  vsr_Host : string;
  vsr_Upstreams : list Upstream;
  vsr_Subroutes : list Route;
}.

Record TransportServer := {
  ts_ObjectMeta : ObjectMeta;
  ts_ListenerName : string;
  ts_ListenerProtocol : string;
  ts_Host : string;
}.

Record Listener := {
  l_Name : string;
  l_Port : Z;
  l_Protocol : string;
  l_Ssl : bool;
  l_IPv4 : string;
  l_IPv6 : string;
}.

Record GlobalConfiguration := {
  gc_ObjectMeta : ObjectMeta;
  gc_Listeners : list Listener;
}.

(** [runtime.Object] / [interface{}]: the objects handed to the class
    filter and carried by problems. *)
Inductive Object :=
  | ObjIngress (ing : Ingress)
  | ObjVirtualServer (vs : VirtualServer)
  | ObjVirtualServerRoute (vsr : VirtualServerRoute)
  | ObjTransportServer (ts : TransportServer).

#[global] Instance ObjectMeta_eq_dec : EqDecision ObjectMeta.
Proof. solve_decision. Defined.
#[global] Instance IngressServiceBackend_eq_dec : EqDecision IngressServiceBackend.
Proof. solve_decision. Defined.
#[global] Instance HTTPIngressPath_eq_dec : EqDecision HTTPIngressPath.
Proof. solve_decision. Defined.
#[global] Instance IngressRule_eq_dec : EqDecision IngressRule.
Proof. solve_decision. Defined.
#[global] Instance Ingress_eq_dec : EqDecision Ingress.
Proof. solve_decision. Defined.
#[global] Instance Action_eq_dec : EqDecision Action.
Proof. solve_decision. Defined.
#[global] Instance Route_eq_dec : EqDecision Route.
Proof. solve_decision. Defined.
#[global] Instance Upstream_eq_dec : EqDecision Upstream.
Proof. solve_decision. Defined.
#[global] Instance VirtualServerListener_eq_dec : EqDecision VirtualServerListener.
Proof. solve_decision. Defined.
#[global] Instance VirtualServer_eq_dec : EqDecision VirtualServer.
Proof. solve_decision. Defined.
#[global] Instance VirtualServerRoute_eq_dec : EqDecision VirtualServerRoute.
Proof. solve_decision. Defined.
#[global] Instance TransportServer_eq_dec : EqDecision TransportServer.
Proof. solve_decision. Defined.
#[global] Instance Listener_eq_dec : EqDecision Listener.
Proof. solve_decision. Defined.

(** ** Constants of the source and of the packages it imports *)

Definition ingressKind : string := "Ingress".
Definition virtualServerKind : string := "VirtualServer".
Definition virtualServerRouteKind : string := "VirtualServerRoute".
Definition transportServerKind : string := "TransportServer".

Definition TLSPassthroughListenerName : string := "tls-passthrough".
Definition TLSPassthroughListenerProtocol : string := "TLS_PASSTHROUGH".
Definition HTTPProtocol : string := "HTTP".

Definition EventReasonRejected : string := "Rejected".
Definition EventReasonNoIngressMasterFound : string := "NoIngressMasterFound".
Definition EventReasonNoVirtualServerFound : string := "NoVirtualServerFound".
Definition EventReasonIgnored : string := "Ignored".

Inductive Operation := Delete | AddOrUpdate.

#[global] Instance Operation_eq_dec : EqDecision Operation.
Proof. solve_decision. Defined.

(** ** Conflict order *)

(** Go's [s1 > s2] on strings. *)
Definition string_gtb (s1 s2 : string) : bool :=
  negb (bool_decide (String.le s1 s2)).

Definition chooseObjectMetaWinner (meta1 meta2 : ObjectMeta) : bool :=
  if bool_decide (CreationTimestamp meta1 = CreationTimestamp meta2) then
    string_gtb (UID meta1) (UID meta2)
  else
    bool_decide (CreationTimestamp meta1 < CreationTimestamp meta2).

Definition compareObjectMetas (meta1 meta2 : ObjectMeta) : bool :=
  bool_decide (Namespace meta1 = Namespace meta2) &&
  bool_decide (Name meta1 = Name meta2) &&
  bool_decide (Generation meta1 = Generation meta2).

Definition compareObjectMetasWithAnnotations (meta1 meta2 : ObjectMeta) : bool :=
  compareObjectMetas meta1 meta2 &&
  bool_decide (Annotations meta1 = Annotations meta2).

Definition getResourceKey (meta : ObjectMeta) : string :=
  Namespace meta +:+ "/" +:+ Name meta.

Definition getResourceKeyWithKind (kind : string) (objectMeta : ObjectMeta) : string :=
  kind +:+ "/" +:+ Namespace objectMeta +:+ "/" +:+ Name objectMeta.

(** ** Problems and changes *)

Record ConfigurationProblem := {
  p_Object : Object;
  p_IsError : bool;
  p_Reason : string;
  p_Message : string;
}.

Definition compareConfigurationProblems (problem1 problem2 : ConfigurationProblem) : bool :=
  bool_decide (p_IsError problem1 = p_IsError problem2) &&
  bool_decide (p_Reason problem1 = p_Reason problem2) &&
  bool_decide (p_Message problem1 = p_Message problem2).

(** ** Derived resources *)

Record MinionConfiguration := {
  mc_Ingress : Ingress;
  mc_ValidPaths : gmap string bool;
}.

Record IngressConfiguration := {
  ic_Ingress : Ingress;
  ic_IsMaster : bool;
  ic_Minions : list MinionConfiguration;
  ic_ValidHosts : gmap string bool;
  ic_Warnings : list string;
  ic_ChildWarnings : gmap string (list string);
}.

Record VirtualServerConfiguration := {
  vsc_VirtualServer : VirtualServer;
  vsc_VirtualServerRoutes : list VirtualServerRoute;
  vsc_Warnings : list string;
  vsc_HTTPPort : Z;
  vsc_HTTPSPort : Z;
  vsc_HTTPIPv4 : string;
  vsc_HTTPIPv6 : string;
  vsc_HTTPSIPv4 : string;
  vsc_HTTPSIPv6 : string;
}.

Record TransportServerConfiguration := {
  tsc_ListenerPort : Z;
  tsc_IPv4 : string;
  tsc_IPv6 : string;
  tsc_TransportServer : TransportServer;
  tsc_Warnings : list string;
}.

(** The [Resource] interface with its three implementations. *)
Inductive Resource :=
  | IngressRes (ic : IngressConfiguration)
  | VirtualServerRes (vsc : VirtualServerConfiguration)
  | TransportServerRes (tsc : TransportServerConfiguration).

Definition NewMinionConfiguration (ing : Ingress) : MinionConfiguration :=
  {| mc_Ingress := ing; mc_ValidPaths := ∅ |}.

Definition NewRegularIngressConfiguration (ing : Ingress) : IngressConfiguration :=
  {| ic_Ingress := ing; ic_IsMaster := false; ic_Minions := [];
     ic_ValidHosts := ∅; ic_Warnings := []; ic_ChildWarnings := ∅ |}.

Definition NewMasterIngressConfiguration (ing : Ingress)
    (minions : list MinionConfiguration)
    (childWarnings : gmap string (list string)) : IngressConfiguration :=
  {| ic_Ingress := ing; ic_IsMaster := true; ic_Minions := minions;
     ic_ValidHosts := ∅; ic_Warnings := []; ic_ChildWarnings := childWarnings |}.

Definition NewVirtualServerConfiguration (vs : VirtualServer)
    (vsrs : list VirtualServerRoute) (warnings : list string)
    : VirtualServerConfiguration :=
  {| vsc_VirtualServer := vs; vsc_VirtualServerRoutes := vsrs;
     vsc_Warnings := warnings; vsc_HTTPPort := 0; vsc_HTTPSPort := 0;
     vsc_HTTPIPv4 := ""; vsc_HTTPIPv6 := ""; vsc_HTTPSIPv4 := "";
     vsc_HTTPSIPv6 := "" |}.

Definition NewTransportServerConfiguration (ts : TransportServer)
    : TransportServerConfiguration :=
  {| tsc_ListenerPort := 0; tsc_IPv4 := ""; tsc_IPv6 := "";
     tsc_TransportServer := ts; tsc_Warnings := [] |}.

Definition GetObjectMeta (r : Resource) : ObjectMeta :=
  match r with
  | IngressRes ic => ing_ObjectMeta (ic_Ingress ic)
  | VirtualServerRes vsc => vs_ObjectMeta (vsc_VirtualServer vsc)
  | TransportServerRes tsc => ts_ObjectMeta (tsc_TransportServer tsc)
  end.

Definition tsc_GetKeyWithKind (tsc : TransportServerConfiguration) : string :=
  transportServerKind +:+ "/" +:+ getResourceKey (ts_ObjectMeta (tsc_TransportServer tsc)).

Definition GetKeyWithKind (r : Resource) : string :=
  match r with
  | IngressRes ic =>
      ingressKind +:+ "/" +:+ getResourceKey (ing_ObjectMeta (ic_Ingress ic))
  | VirtualServerRes vsc =>
      virtualServerKind +:+ "/" +:+ getResourceKey (vs_ObjectMeta (vsc_VirtualServer vsc))
  | TransportServerRes tsc => tsc_GetKeyWithKind tsc
  end.

Definition Wins (r resource : Resource) : bool :=
  chooseObjectMetaWinner (GetObjectMeta r) (GetObjectMeta resource).

Definition tsc_AddWarning (warning : string) (tsc : TransportServerConfiguration)
    : TransportServerConfiguration :=
  {| tsc_ListenerPort := tsc_ListenerPort tsc; tsc_IPv4 := tsc_IPv4 tsc;
     tsc_IPv6 := tsc_IPv6 tsc; tsc_TransportServer := tsc_TransportServer tsc;
     tsc_Warnings := tsc_Warnings tsc ++ [warning] |}.

Definition AddWarning (warning : string) (r : Resource) : Resource :=
  match r with
  | IngressRes ic =>
      IngressRes
        {| ic_Ingress := ic_Ingress ic; ic_IsMaster := ic_IsMaster ic;
           ic_Minions := ic_Minions ic; ic_ValidHosts := ic_ValidHosts ic;
           ic_Warnings := ic_Warnings ic ++ [warning];
           ic_ChildWarnings := ic_ChildWarnings ic |}
  | VirtualServerRes vsc =>
      VirtualServerRes
        {| vsc_VirtualServer := vsc_VirtualServer vsc;
           vsc_VirtualServerRoutes := vsc_VirtualServerRoutes vsc;
           vsc_Warnings := vsc_Warnings vsc ++ [warning];
           vsc_HTTPPort := vsc_HTTPPort vsc; vsc_HTTPSPort := vsc_HTTPSPort vsc;
           vsc_HTTPIPv4 := vsc_HTTPIPv4 vsc; vsc_HTTPIPv6 := vsc_HTTPIPv6 vsc;
           vsc_HTTPSIPv4 := vsc_HTTPSIPv4 vsc; vsc_HTTPSIPv6 := vsc_HTTPSIPv6 vsc |}
  | TransportServerRes tsc => TransportServerRes (tsc_AddWarning warning tsc)
  end.

Definition GetWarnings (r : Resource) : list string :=
  match r with
  | IngressRes ic => ic_Warnings ic
  | VirtualServerRes vsc => vsc_Warnings vsc
  | TransportServerRes tsc => tsc_Warnings tsc
  end.

(** The loop [for i := range xs { if !f(xs[i], ys[i]) { return false } }]
    that follows a check of equal lengths. *)
Definition allPairs {A} (f : A → A → bool) (xs ys : list A) : bool :=
  forallb (λ p, f p.1 p.2) (zip xs ys).

Definition ic_IsEqual (ic ingConfig : IngressConfiguration) : bool :=
  if negb (compareObjectMetasWithAnnotations
             (ing_ObjectMeta (ic_Ingress ic)) (ing_ObjectMeta (ic_Ingress ingConfig)))
  then false
  else if negb (bool_decide (ic_ValidHosts ic = ic_ValidHosts ingConfig)) then false
  else if negb (bool_decide (ic_IsMaster ic = ic_IsMaster ingConfig)) then false
  else if negb (bool_decide (length (ic_Minions ic) = length (ic_Minions ingConfig)))
  then false
  else allPairs
         (λ m1 m2, compareObjectMetasWithAnnotations
                     (ing_ObjectMeta (mc_Ingress m1)) (ing_ObjectMeta (mc_Ingress m2)))
         (ic_Minions ic) (ic_Minions ingConfig).

Definition vsc_IsEqual (vsc vsConfig : VirtualServerConfiguration) : bool :=
  if negb (compareObjectMetas
             (vs_ObjectMeta (vsc_VirtualServer vsc))
             (vs_ObjectMeta (vsc_VirtualServer vsConfig)))
  then false
  else if negb (bool_decide (length (vsc_VirtualServerRoutes vsc)
                             = length (vsc_VirtualServerRoutes vsConfig)))
  then false
  else allPairs (λ r1 r2, compareObjectMetas (vsr_ObjectMeta r1) (vsr_ObjectMeta r2))
         (vsc_VirtualServerRoutes vsc) (vsc_VirtualServerRoutes vsConfig).

Definition tsc_IsEqual (tsc tsConfig : TransportServerConfiguration) : bool :=
  compareObjectMetas (ts_ObjectMeta (tsc_TransportServer tsc))
                     (ts_ObjectMeta (tsc_TransportServer tsConfig))
  && bool_decide (tsc_ListenerPort tsc = tsc_ListenerPort tsConfig).

Definition IsEqual (r resource : Resource) : bool :=
  match r, resource with
  | IngressRes ic, IngressRes ingConfig => ic_IsEqual ic ingConfig
  | VirtualServerRes vsc, VirtualServerRes vsConfig => vsc_IsEqual vsc vsConfig
  | TransportServerRes tsc, TransportServerRes tsConfig => tsc_IsEqual tsc tsConfig
  | _, _ => false
  end.

(** ** Sorted keys *)

(** [sort.Strings] over the keys of a map. *)
Definition getSortedKeys {V} (m : gmap string V) : list string :=
  merge_sort String.le (map_to_list m).*1.

Definition getSortedIngressKeys (m : gmap string Ingress) := getSortedKeys m.
Definition getSortedVirtualServerKeys (m : gmap string VirtualServer) := getSortedKeys m.
Definition getSortedVirtualServerRouteKeys (m : gmap string VirtualServerRoute) :=
  getSortedKeys m.
Definition getSortedTransportServerKeys (m : gmap string TransportServer) :=
  getSortedKeys m.
Definition getSortedProblemKeys (m : gmap string ConfigurationProblem) := getSortedKeys m.
Definition getSortedResourceKeys (m : gmap string Resource) := getSortedKeys m.

Record listenerHostKey := {
  lhk_ListenerName : string;
  lhk_Host : string;
}.

#[global] Instance listenerHostKey_eq_dec : EqDecision listenerHostKey.
Proof. solve_decision. Defined.

#[global] Instance listenerHostKey_countable : Countable listenerHostKey :=
  inj_countable'
    (λ k, (lhk_ListenerName k, lhk_Host k))
    (λ p, {| lhk_ListenerName := p.1; lhk_Host := p.2 |})
    (λ k, match k with Build_listenerHostKey _ _ => eq_refl end).

Definition lhk_String (lhk : listenerHostKey) : string :=
  lhk_ListenerName lhk +:+ "|" +:+ lhk_Host lhk.

Definition lhk_le (k1 k2 : listenerHostKey) : Prop :=
  String.le (lhk_String k1) (lhk_String k2).

#[global] Instance lhk_le_dec : RelDecision lhk_le.
Proof. intros k1 k2. unfold lhk_le. apply _. Defined.

(** ** The order of [range] over a map

    The order in which the loops of one call range over their maps: any
    listing of the entries of the map, each entry once. Two calls need not
    range in the same order, so each call has a [RangeOrder] of its own.
    Within a call the loops whose order can show range over different
    maps; only [detectChangesInListenerHosts] lists the keys of two maps
    that can be equal, and it then returns three empty lists in any
    order. *)
Class RangeOrder := {
  rangeItems : ∀ {K} `{Countable K} {V}, gmap K V → list (K * V);
  rangeItems_Permutation :
    ∀ {K} `{Countable K} {V} (m : gmap K V), rangeItems m ≡ₚ map_to_list m;
}.

(** [sort.Slice] by [String()] over the keys as [range] yields them: keys
    with the same [String()] come in the order of the range. *)
Definition getSortedListenerHostKeys {order : RangeOrder}
    (m : gmap listenerHostKey TransportServerConfiguration) : list listenerHostKey :=
  merge_sort lhk_le (rangeItems m).*1.

(** Loops whose body can panic. *)
Fixpoint forM {A S} (f : A → S → option S) (l : list A) (s : S) : option S :=
  match l with
  | [] => Some s
  | x :: l' => s' ← f x s; forM f l' s'
  end.

(** ** Change engine *)

Record ResourceChange := {
  Op : Operation;
  rc_Resource : Resource;
  rc_Error : string;
}.

Definition mkChange (op : Operation) (r : Resource) : ResourceChange :=
  {| Op := op; rc_Resource := r; rc_Error := "" |}.

Definition rc_key (c : ResourceChange) : string := GetKeyWithKind (rc_Resource c).

Definition detectChangesInHosts (oldHosts newHosts : gmap string Resource)
    : list string * list string * list string :=
  let removedHosts :=
    filter (λ h, newHosts !! h = None) (getSortedResourceKeys oldHosts) in
  let addedHosts :=
    filter (λ h, oldHosts !! h = None) (getSortedResourceKeys newHosts) in
  let updatedHosts :=
    h ← getSortedResourceKeys newHosts;
    match oldHosts !! h with
    | None => []
    | Some oldR =>
        match newHosts !! h with
        | None => [h]
        | Some newR =>
            if negb (IsEqual oldR newR) then [h]
            else
              match newR, oldR with
              | VirtualServerRes newVsc, VirtualServerRes oldVsc =>
                  (if bool_decide (vsc_HTTPPort newVsc ≠ vsc_HTTPPort oldVsc
                                   ∨ vsc_HTTPSPort newVsc ≠ vsc_HTTPSPort oldVsc)
                   then [h] else [])
                  ++ (if bool_decide (vsc_HTTPIPv4 newVsc ≠ vsc_HTTPIPv4 oldVsc)
                      then [h] else [])
                  ++ (if bool_decide (vsc_HTTPIPv6 newVsc ≠ vsc_HTTPIPv6 oldVsc)
                      then [h] else [])
              | _, _ => []
              end
        end
    end in
  (removedHosts, updatedHosts, addedHosts).

Definition detectChangesInListenerHosts {order : RangeOrder}
    (oldListenerHosts newListenerHosts : gmap listenerHostKey TransportServerConfiguration)
    : list listenerHostKey * list listenerHostKey * list listenerHostKey :=
  let oldKeys := getSortedListenerHostKeys oldListenerHosts in
  let newKeys := getSortedListenerHostKeys newListenerHosts in
  let removedListenerHosts := filter (λ key, newListenerHosts !! key = None) oldKeys in
  let addedListenerHosts := filter (λ key, oldListenerHosts !! key = None) newKeys in
  let updatedListenerHosts :=
    key ← newKeys;
    match oldListenerHosts !! key with
    | None => []
    | Some oldConfig =>
        match newListenerHosts !! key with
        | None => [key]
        | Some newConfig => if negb (tsc_IsEqual oldConfig newConfig) then [key] else []
        end
    end in
  (removedListenerHosts, updatedListenerHosts, addedListenerHosts).

(** The changes of one updated key: the delete of the old owner when the
    owner changed, and the upsert of the new owner. *)
Definition updatedChange {K} `{Countable K} (oldM newM : gmap K Resource) (h : K)
    : option (list ResourceChange * ResourceChange) :=
  oldR ← oldM !! h;
  newR ← newM !! h;
  Some (if bool_decide (GetKeyWithKind oldR ≠ GetKeyWithKind newR)
        then [mkChange Delete oldR] else [],
        mkChange AddOrUpdate newR).

Definition createResourceChangesForHosts (removedHosts updatedHosts addedHosts : list string)
    (oldHosts newHosts : gmap string Resource) : option (list ResourceChange) :=
  removedChanges ← mapM (λ h, mkChange Delete <$> oldHosts !! h) removedHosts;
  updated ← mapM (updatedChange oldHosts newHosts) updatedHosts;
  addedChanges ← mapM (λ h, mkChange AddOrUpdate <$> newHosts !! h) addedHosts;
  let deleteChanges := removedChanges ++ concat updated.*1 in
  let changes := updated.*2 ++ addedChanges in
  Some (deleteChanges ++ changes).

Definition createResourceChangesForListeners
    (removedListeners updatedListeners addedListeners : list listenerHostKey)
    (oldListeners newListeners : gmap listenerHostKey TransportServerConfiguration)
    : option (list ResourceChange) :=
  let oldL := TransportServerRes <$> oldListeners in
  let newL := TransportServerRes <$> newListeners in
  removedChanges ← mapM (λ l, mkChange Delete <$> oldL !! l) removedListeners;
  updated ← mapM (updatedChange oldL newL) updatedListeners;
  addedChanges ← mapM (λ l, mkChange AddOrUpdate <$> newL !! l) addedListeners;
  let deleteChanges := removedChanges ++ concat updated.*1 in
  let changes := updated.*2 ++ addedChanges in
  Some (deleteChanges ++ changes).

(** First loop of [squashResourceChanges]: the changes of each resource,
    in their order. *)
Definition groupChanges (changes : list ResourceChange)
    : gmap string (list ResourceChange) :=
  foldl (λ m c, <[rc_key c := default [] (m !! rc_key c) ++ [c]]> m) ∅ changes.

(** Body of the second loop. A list stored in [changesPerResource] is
    never empty, so [last] always finds the squashed change. *)
Definition squashStep
    (acc : list ResourceChange * list ResourceChange * gmap string (list ResourceChange))
    (c : ResourceChange) :=
  let '(deletes, updates, changesPerResource) := acc in
  match changesPerResource !! rc_key c with
  | None => acc
  | Some resChanges =>
      match last resChanges with
      | None => (deletes, updates, delete (rc_key c) changesPerResource)
      | Some squashedChanged =>
          if bool_decide (Op squashedChanged = Delete)
          then (deletes ++ [squashedChanged], updates,
                delete (rc_key c) changesPerResource)
          else (deletes, updates ++ [squashedChanged],
                delete (rc_key c) changesPerResource)
      end
  end.

Definition squashResourceChanges (changes : list ResourceChange) : list ResourceChange :=
  let '(deletes, updates, _) :=
    foldl squashStep ([], [], groupChanges changes) changes in
  deletes ++ updates.

(** ** Problem tracker *)

Definition detectChangesInProblems (newProblems oldProblems : gmap string ConfigurationProblem)
    : list ConfigurationProblem :=
  key ← getSortedProblemKeys newProblems;
  match newProblems !! key with
  | None => []
  | Some newP =>
      match oldProblems !! key with
      | None => [newP]
      | Some oldP => if negb (compareConfigurationProblems newP oldP) then [newP] else []
      end
  end.

(** ** The store *)

(** The validators of package [validation]; an error is its message. *)
Record VirtualServerValidator := {
  ValidateVirtualServer : VirtualServer → option string;
  ValidateVirtualServerRoute : VirtualServerRoute → option string;
  ValidateVirtualServerRouteForVirtualServer :
    VirtualServerRoute → string → string → option string;
}.

Record GlobalConfigurationValidator := {
  ValidateGlobalConfiguration : GlobalConfiguration → option string;
}.

Record TransportServerValidator := {
  ValidateTransportServer : TransportServer → option string;
}.

(** The reference checkers of the source serve the lookup queries only and
    are left out. *)
Record Configuration := {
  hosts : gmap string Resource;
  listenerHosts : gmap listenerHostKey TransportServerConfiguration;
  listenerMap : gmap string Listener;
  ingresses : gmap string Ingress;
  virtualServers : gmap string VirtualServer;
  virtualServerRoutes : gmap string VirtualServerRoute;
  transportServers : gmap string TransportServer;
  globalConfiguration : option GlobalConfiguration;
  hostProblems : gmap string ConfigurationProblem;
  listenerProblems : gmap string ConfigurationProblem;
  hasCorrectIngressClass : Object → bool;
  virtualServerValidator : VirtualServerValidator;
  globalConfigurationValidator : GlobalConfigurationValidator;
  transportServerValidator : TransportServerValidator;
  isPlus : bool;
  appProtectEnabled : bool;
  appProtectDosEnabled : bool;
  internalRoutesEnabled : bool;
  isTLSPassthroughEnabled : bool;
  snippetsEnabled : bool;
  isCertManagerEnabled : bool;
  isIPV6Disabled : bool;
}.

Definition NewConfiguration
    (hasCorrectIngressClass : Object → bool)
    (isPlus appProtectEnabled appProtectDosEnabled internalRoutesEnabled : bool)
    (virtualServerValidator : VirtualServerValidator)
    (globalConfigurationValidator : GlobalConfigurationValidator)
    (transportServerValidator : TransportServerValidator)
    (isTLSPassthroughEnabled snippetsEnabled isCertManagerEnabled isIPV6Disabled : bool)
    : Configuration :=
  {| hosts := ∅; listenerHosts := ∅; listenerMap := ∅; ingresses := ∅;
     virtualServers := ∅; virtualServerRoutes := ∅; transportServers := ∅;
     globalConfiguration := None; hostProblems := ∅; listenerProblems := ∅;
     hasCorrectIngressClass := hasCorrectIngressClass;
     virtualServerValidator := virtualServerValidator;
     globalConfigurationValidator := globalConfigurationValidator;
     transportServerValidator := transportServerValidator;
     isPlus := isPlus; appProtectEnabled := appProtectEnabled;
     appProtectDosEnabled := appProtectDosEnabled;
     internalRoutesEnabled := internalRoutesEnabled;
     isTLSPassthroughEnabled := isTLSPassthroughEnabled;
     snippetsEnabled := snippetsEnabled;
     isCertManagerEnabled := isCertManagerEnabled;
     isIPV6Disabled := isIPV6Disabled |}.

(** Field assignments [c.f = v]. *)
Definition set_ingresses (m : gmap string Ingress) (c : Configuration) : Configuration :=
  {| hosts := hosts c; listenerHosts := listenerHosts c; listenerMap := listenerMap c;
     ingresses := m; virtualServers := virtualServers c;
     virtualServerRoutes := virtualServerRoutes c; transportServers := transportServers c;
     globalConfiguration := globalConfiguration c; hostProblems := hostProblems c;
     listenerProblems := listenerProblems c;
     hasCorrectIngressClass := hasCorrectIngressClass c;
     virtualServerValidator := virtualServerValidator c;
     globalConfigurationValidator := globalConfigurationValidator c;
     transportServerValidator := transportServerValidator c;
     isPlus := isPlus c; appProtectEnabled := appProtectEnabled c;
     appProtectDosEnabled := appProtectDosEnabled c;
     internalRoutesEnabled := internalRoutesEnabled c;
     isTLSPassthroughEnabled := isTLSPassthroughEnabled c;
     snippetsEnabled := snippetsEnabled c;
     isCertManagerEnabled := isCertManagerEnabled c;
     isIPV6Disabled := isIPV6Disabled c |}.

Definition set_virtualServers (m : gmap string VirtualServer) (c : Configuration)
    : Configuration :=
  {| hosts := hosts c; listenerHosts := listenerHosts c; listenerMap := listenerMap c;
     ingresses := ingresses c; virtualServers := m;
     virtualServerRoutes := virtualServerRoutes c; transportServers := transportServers c;
     globalConfiguration := globalConfiguration c; hostProblems := hostProblems c;
     listenerProblems := listenerProblems c;
     hasCorrectIngressClass := hasCorrectIngressClass c;
     virtualServerValidator := virtualServerValidator c;
     globalConfigurationValidator := globalConfigurationValidator c;
     transportServerValidator := transportServerValidator c;
     isPlus := isPlus c; appProtectEnabled := appProtectEnabled c;
     appProtectDosEnabled := appProtectDosEnabled c;
     internalRoutesEnabled := internalRoutesEnabled c;
     isTLSPassthroughEnabled := isTLSPassthroughEnabled c;
     snippetsEnabled := snippetsEnabled c;
     isCertManagerEnabled := isCertManagerEnabled c;
     isIPV6Disabled := isIPV6Disabled c |}.

Definition set_virtualServerRoutes (m : gmap string VirtualServerRoute) (c : Configuration)
    : Configuration :=
  {| hosts := hosts c; listenerHosts := listenerHosts c; listenerMap := listenerMap c;
     ingresses := ingresses c; virtualServers := virtualServers c;
     virtualServerRoutes := m; transportServers := transportServers c;
     globalConfiguration := globalConfiguration c; hostProblems := hostProblems c;
     listenerProblems := listenerProblems c;
     hasCorrectIngressClass := hasCorrectIngressClass c;
     virtualServerValidator := virtualServerValidator c;
     globalConfigurationValidator := globalConfigurationValidator c;
     transportServerValidator := transportServerValidator c;
     isPlus := isPlus c; appProtectEnabled := appProtectEnabled c;
     appProtectDosEnabled := appProtectDosEnabled c;
     internalRoutesEnabled := internalRoutesEnabled c;
     isTLSPassthroughEnabled := isTLSPassthroughEnabled c;
     snippetsEnabled := snippetsEnabled c;
     isCertManagerEnabled := isCertManagerEnabled c;
     isIPV6Disabled := isIPV6Disabled c |}.

Definition set_transportServers (m : gmap string TransportServer) (c : Configuration)
    : Configuration :=
  {| hosts := hosts c; listenerHosts := listenerHosts c; listenerMap := listenerMap c;
     ingresses := ingresses c; virtualServers := virtualServers c;
     virtualServerRoutes := virtualServerRoutes c; transportServers := m;
     globalConfiguration := globalConfiguration c; hostProblems := hostProblems c;
     listenerProblems := listenerProblems c;
     hasCorrectIngressClass := hasCorrectIngressClass c;
     virtualServerValidator := virtualServerValidator c;
     globalConfigurationValidator := globalConfigurationValidator c;
     transportServerValidator := transportServerValidator c;
     isPlus := isPlus c; appProtectEnabled := appProtectEnabled c;
     appProtectDosEnabled := appProtectDosEnabled c;
     internalRoutesEnabled := internalRoutesEnabled c;
     isTLSPassthroughEnabled := isTLSPassthroughEnabled c;
     snippetsEnabled := snippetsEnabled c;
     isCertManagerEnabled := isCertManagerEnabled c;
     isIPV6Disabled := isIPV6Disabled c |}.

Definition set_globalConfiguration (gc : option GlobalConfiguration) (c : Configuration)
    : Configuration :=
  {| hosts := hosts c; listenerHosts := listenerHosts c; listenerMap := listenerMap c;
     ingresses := ingresses c; virtualServers := virtualServers c;
     virtualServerRoutes := virtualServerRoutes c; transportServers := transportServers c;
     globalConfiguration := gc; hostProblems := hostProblems c;
     listenerProblems := listenerProblems c;
     hasCorrectIngressClass := hasCorrectIngressClass c;
     virtualServerValidator := virtualServerValidator c;
     globalConfigurationValidator := globalConfigurationValidator c;
     transportServerValidator := transportServerValidator c;
     isPlus := isPlus c; appProtectEnabled := appProtectEnabled c;
     appProtectDosEnabled := appProtectDosEnabled c;
     internalRoutesEnabled := internalRoutesEnabled c;
     isTLSPassthroughEnabled := isTLSPassthroughEnabled c;
     snippetsEnabled := snippetsEnabled c;
     isCertManagerEnabled := isCertManagerEnabled c;
     isIPV6Disabled := isIPV6Disabled c |}.

Definition set_listenerMap (m : gmap string Listener) (c : Configuration) : Configuration :=
  {| hosts := hosts c; listenerHosts := listenerHosts c; listenerMap := m;
     ingresses := ingresses c; virtualServers := virtualServers c;
     virtualServerRoutes := virtualServerRoutes c; transportServers := transportServers c;
     globalConfiguration := globalConfiguration c; hostProblems := hostProblems c;
     listenerProblems := listenerProblems c;
     hasCorrectIngressClass := hasCorrectIngressClass c;
     virtualServerValidator := virtualServerValidator c;
     globalConfigurationValidator := globalConfigurationValidator c;
     transportServerValidator := transportServerValidator c;
     isPlus := isPlus c; appProtectEnabled := appProtectEnabled c;
     appProtectDosEnabled := appProtectDosEnabled c;
     internalRoutesEnabled := internalRoutesEnabled c;
     isTLSPassthroughEnabled := isTLSPassthroughEnabled c;
     snippetsEnabled := snippetsEnabled c;
     isCertManagerEnabled := isCertManagerEnabled c;
     isIPV6Disabled := isIPV6Disabled c |}.

(** [c.hosts = h; c.hostProblems = p], the two assignments of a host rebuild. *)
Definition set_hosts (h : gmap string Resource) (p : gmap string ConfigurationProblem)
    (c : Configuration) : Configuration :=
  {| hosts := h; listenerHosts := listenerHosts c; listenerMap := listenerMap c;
     ingresses := ingresses c; virtualServers := virtualServers c;
     virtualServerRoutes := virtualServerRoutes c; transportServers := transportServers c;
     globalConfiguration := globalConfiguration c; hostProblems := p;
     listenerProblems := listenerProblems c;
     hasCorrectIngressClass := hasCorrectIngressClass c;
     virtualServerValidator := virtualServerValidator c;
     globalConfigurationValidator := globalConfigurationValidator c;
     transportServerValidator := transportServerValidator c;
     isPlus := isPlus c; appProtectEnabled := appProtectEnabled c;
     appProtectDosEnabled := appProtectDosEnabled c;
     internalRoutesEnabled := internalRoutesEnabled c;
     isTLSPassthroughEnabled := isTLSPassthroughEnabled c;
     snippetsEnabled := snippetsEnabled c;
     isCertManagerEnabled := isCertManagerEnabled c;
     isIPV6Disabled := isIPV6Disabled c |}.

(** [c.listenerHosts = h; c.listenerProblems = p], the two assignments of a
    listener rebuild. *)
Definition set_listenerHosts (h : gmap listenerHostKey TransportServerConfiguration)
    (p : gmap string ConfigurationProblem) (c : Configuration) : Configuration :=
  {| hosts := hosts c; listenerHosts := h; listenerMap := listenerMap c;
     ingresses := ingresses c; virtualServers := virtualServers c;
     virtualServerRoutes := virtualServerRoutes c; transportServers := transportServers c;
     globalConfiguration := globalConfiguration c; hostProblems := hostProblems c;
     listenerProblems := p;
     hasCorrectIngressClass := hasCorrectIngressClass c;
     virtualServerValidator := virtualServerValidator c;
     globalConfigurationValidator := globalConfigurationValidator c;
     transportServerValidator := transportServerValidator c;
     isPlus := isPlus c; appProtectEnabled := appProtectEnabled c;
     appProtectDosEnabled := appProtectDosEnabled c;
     internalRoutesEnabled := internalRoutesEnabled c;
     isTLSPassthroughEnabled := isTLSPassthroughEnabled c;
     snippetsEnabled := snippetsEnabled c;
     isCertManagerEnabled := isCertManagerEnabled c;
     isIPV6Disabled := isIPV6Disabled c |}.

Definition setGlobalConfigListenerMap (c : Configuration) : Configuration :=
  set_listenerMap
    (match globalConfiguration c with
     | None => ∅
     | Some gc => foldl (λ m listener, <[l_Name listener := listener]> m) ∅ (gc_Listeners gc)
     end) c.

(** The entries of a map by ascending key: [for _, key := range
    getSorted...Keys(m)] with [m[key]], and the loops [for key, v := range
    m] whose steps write only what belongs to their own entry, so that
    their order cannot show. *)
Definition sortedItems {V} (m : gmap string V) : list (string * V) :=
  omap (λ k, pair k <$> m !! k) (getSortedKeys m).

(** The pointers held by a map, read through the heap they point into. *)
Definition deref {K A} `{Countable K} `{Countable A} {V}
    (heap : gmap A V) (m : gmap K A) : gmap K V :=
  omap (λ a, heap !! a) m.

(** ** Listener arbiter *)

(** A TransportServerConfiguration of a listener rebuild is addressed by
    the store key of its TransportServer, which is also its key in
    [newTSConfigs]. *)
Record listenerBuild := {
  lb_newListenerHosts : gmap listenerHostKey string;
  lb_newTSConfigs : gmap string TransportServerConfiguration;
}.

Definition tsc_setListener (listener : Listener) (tsc : TransportServerConfiguration)
    : TransportServerConfiguration :=
  {| tsc_ListenerPort := l_Port listener; tsc_IPv4 := l_IPv4 listener;
     tsc_IPv6 := l_IPv6 listener; tsc_TransportServer := tsc_TransportServer tsc;
     tsc_Warnings := tsc_Warnings tsc |}.

Definition findListener (ts : TransportServer) (listeners : list Listener) : option Listener :=
  List.find (λ l, bool_decide (ts_ListenerName ts = l_Name l)
                  && bool_decide (ts_ListenerProtocol ts = l_Protocol l)) listeners.

Definition tsc_Wins (holder tsc : TransportServerConfiguration) : bool :=
  chooseObjectMetaWinner (ts_ObjectMeta (tsc_TransportServer holder))
                         (ts_ObjectMeta (tsc_TransportServer tsc)).

Definition listenerStep (c : Configuration) (kv : string * TransportServer)
    (st : listenerBuild) : option listenerBuild :=
  let '(key, ts) := kv in
  if bool_decide (ts_ListenerProtocol ts = TLSPassthroughListenerProtocol) then Some st
  else
    let tsc := NewTransportServerConfiguration ts in
    let cfgs := <[key := tsc]> (lb_newTSConfigs st) in
    match globalConfiguration c with
    | None => Some {| lb_newListenerHosts := lb_newListenerHosts st; lb_newTSConfigs := cfgs |}
    | Some gc =>
        match findListener ts (gc_Listeners gc) with
        | None =>
            Some {| lb_newListenerHosts := lb_newListenerHosts st; lb_newTSConfigs := cfgs |}
        | Some listener =>
            let tsc := tsc_setListener listener tsc in
            let cfgs := <[key := tsc]> cfgs in
            let host := ts_Host ts in
            let listenerKey := {| lhk_ListenerName := l_Name listener; lhk_Host := host |} in
            match lb_newListenerHosts st !! listenerKey with
            | None =>
                Some {| lb_newListenerHosts := <[listenerKey := key]> (lb_newListenerHosts st);
                        lb_newTSConfigs := cfgs |}
            | Some holderKey =>
                holder ← cfgs !! holderKey;
                let warning :=
                  "listener " +:+ l_Name listener +:+ " and host " +:+ host
                  +:+ " are taken by another resource" in
                if negb (tsc_Wins holder tsc) then
                  Some {| lb_newListenerHosts :=
                            <[listenerKey := key]> (lb_newListenerHosts st);
                          lb_newTSConfigs := alter (tsc_AddWarning warning) holderKey cfgs |}
                else
                  Some {| lb_newListenerHosts := lb_newListenerHosts st;
                          lb_newTSConfigs := alter (tsc_AddWarning warning) key cfgs |}
            end
        end
    end.

(** [for key, ts := range c.transportServers]: the order of the range
    decides who holds a (listener, host) key when neither of two
    TransportServers wins over the other. *)
Definition buildListenerHostsAndTSConfigurations {order : RangeOrder} (c : Configuration)
    : option listenerBuild :=
  forM (listenerStep c) (rangeItems (transportServers c))
       {| lb_newListenerHosts := ∅; lb_newTSConfigs := ∅ |}.

Definition mkProblem (o : Object) (isError : bool) (reason message : string)
    : ConfigurationProblem :=
  {| p_Object := o; p_IsError := isError; p_Reason := reason; p_Message := message |}.

(** [listenerHosts] is [c.listenerHosts], already set to the new map. *)
Definition addProblemsForTSConfigsWithoutActiveListener
    (listenerHosts : gmap listenerHostKey TransportServerConfiguration)
    (tsConfigs : gmap string TransportServerConfiguration)
    (problems : gmap string ConfigurationProblem) : gmap string ConfigurationProblem :=
  foldl (λ problems kv,
    let tsc : TransportServerConfiguration := kv.2 in
    let listenerName := ts_ListenerName (tsc_TransportServer tsc) in
    let host := ts_Host (tsc_TransportServer tsc) in
    let hostDescription := if bool_decide (host ≠ "") then host else "empty host" in
    let key := {| lhk_ListenerName := listenerName; lhk_Host := host |} in
    match listenerHosts !! key with
    | None =>
        <[tsc_GetKeyWithKind tsc :=
            mkProblem (ObjTransportServer (tsc_TransportServer tsc)) false
              EventReasonRejected ("Listener " +:+ listenerName +:+ " doesn't exist")]>
          problems
    | Some holder =>
        if negb (tsc_IsEqual tsc holder) then
          <[tsc_GetKeyWithKind tsc :=
              mkProblem (ObjTransportServer (tsc_TransportServer tsc)) false
                EventReasonRejected
                ("Listener " +:+ listenerName +:+ " with host " +:+ hostDescription
                 +:+ " is taken by another resource")]> problems
        else problems
    end) problems (sortedItems tsConfigs).

Definition set_rc_Resource (r : Resource) (ch : ResourceChange) : ResourceChange :=
  {| Op := Op ch; rc_Resource := r; rc_Error := rc_Error ch |}.

Definition set_rc_Error (e : string) (ch : ResourceChange) : ResourceChange :=
  {| Op := Op ch; rc_Resource := rc_Resource ch; rc_Error := e |}.

(** [if r, exists := latest[key]; exists { changes[i].Resource = r }]. *)
Definition refresh (latest : gmap string Resource) (ch : ResourceChange) : ResourceChange :=
  match latest !! rc_key ch with
  | Some r => set_rc_Resource r ch
  | None => ch
  end.

Definition rebuildListenerHosts {order : RangeOrder} (c : Configuration)
    : option (list ResourceChange * list ConfigurationProblem * Configuration) :=
  lb ← buildListenerHostsAndTSConfigurations c;
  let newTSConfigs := lb_newTSConfigs lb in
  let newListenerHosts := deref newTSConfigs (lb_newListenerHosts lb) in
  let '(removedListenerHosts, updatedListenerHosts, addedListenerHosts) :=
    detectChangesInListenerHosts (listenerHosts c) newListenerHosts in
  changes ← createResourceChangesForListeners removedListenerHosts updatedListenerHosts
              addedListenerHosts (listenerHosts c) newListenerHosts;
  let changes := squashResourceChanges changes in
  let changes := refresh (TransportServerRes <$> newTSConfigs) <$> changes in
  let newProblems :=
    addProblemsForTSConfigsWithoutActiveListener newListenerHosts newTSConfigs ∅ in
  let newOrUpdatedProblems := detectChangesInProblems newProblems (listenerProblems c) in
  Some (changes, newOrUpdatedProblems, set_listenerHosts newListenerHosts newProblems c).

(** ** Host arbiter *)

Inductive ResKind := KIngress | KVirtualServer | KTransportServer.

#[global] Instance ResKind_eq_dec : EqDecision ResKind.
Proof. solve_decision. Defined.

#[global] Instance ResKind_countable : Countable ResKind :=
  inj_countable'
    (λ k, match k with KIngress => 0%nat | KVirtualServer => 1%nat
                     | KTransportServer => 2%nat end)
    (λ n, match n with 0%nat => KIngress | 1%nat => KVirtualServer
                     | _ => KTransportServer end)
    (λ k, match k with KIngress | KVirtualServer | KTransportServer => eq_refl end).

(** The address of a derived object of a host rebuild: its kind and the
    store key of the object it was made from. Each pass makes at most one
    object per store key, so an address is never allocated twice. *)
Abbreviation Addr := (ResKind * string)%type.

Record hostBuild := {
  hb_newHosts : gmap string Addr;
  hb_newResources : gmap string Addr;
  hb_heap : gmap Addr Resource;
  hb_challengesVSR : list VirtualServerRoute;
}.

Definition emptyHostBuild : hostBuild :=
  {| hb_newHosts := ∅; hb_newResources := ∅; hb_heap := ∅; hb_challengesVSR := [] |}.

(** [resource := New...; newResources[resource.GetKeyWithKind()] = resource]. *)
Definition register (a : Addr) (resource : Resource) (st : hostBuild) : hostBuild :=
  {| hb_newHosts := hb_newHosts st;
     hb_newResources := <[GetKeyWithKind resource := a]> (hb_newResources st);
     hb_heap := <[a := resource]> (hb_heap st);
     hb_challengesVSR := hb_challengesVSR st |}.

Definition hostTakenWarning (host : string) : string :=
  "host " +:+ host +:+ " is taken by another resource".

(** The collision rule, written three times in [buildHostsAndResources]:
    the object at [a] claims [host]. *)
Definition claimHost (host : string) (a : Addr) (st : hostBuild) : option hostBuild :=
  match hb_newHosts st !! host with
  | None =>
      Some {| hb_newHosts := <[host := a]> (hb_newHosts st);
              hb_newResources := hb_newResources st; hb_heap := hb_heap st;
              hb_challengesVSR := hb_challengesVSR st |}
  | Some holderAddr =>
      holder ← hb_heap st !! holderAddr;
      resource ← hb_heap st !! a;
      let warning := hostTakenWarning host in
      if negb (Wins holder resource) then
        Some {| hb_newHosts := <[host := a]> (hb_newHosts st);
                hb_newResources := hb_newResources st;
                hb_heap := alter (AddWarning warning) holderAddr (hb_heap st);
                hb_challengesVSR := hb_challengesVSR st |}
      else
        Some {| hb_newHosts := hb_newHosts st;
                hb_newResources := hb_newResources st;
                hb_heap := alter (AddWarning warning) a (hb_heap st);
                hb_challengesVSR := hb_challengesVSR st |}
  end.

Definition addChallenge (vsr : VirtualServerRoute) (st : hostBuild) : hostBuild :=
  {| hb_newHosts := hb_newHosts st; hb_newResources := hb_newResources st;
     hb_heap := hb_heap st; hb_challengesVSR := hb_challengesVSR st ++ [vsr] |}.

Definition isChallengeIngress (c : Configuration) (ing : Ingress) : bool :=
  if negb (isCertManagerEnabled c) then false
  else bool_decide (Labels (ing_ObjectMeta ing) !! "acme.cert-manager.io/http01-solver"
                    = Some "true").

Definition isChallengeIngressOwnerVs (c : Configuration) (host : string) : bool :=
  existsb (λ kv, bool_decide (host = vs_Host kv.2)) (sortedItems (virtualServers c)).

Definition zeroObjectMeta (namespace name : string) : ObjectMeta :=
  {| Namespace := namespace; Name := name; CreationTimestamp := 0; UID := "";
     Generation := 0; Annotations := None; Labels := ∅ |}.

(** The conversion [uint16(n)]. *)
Definition uint16 (n : Z) : Z := n mod 65536.

(** The outer [option] is a panic, the inner one the [nil] result. *)
Definition convertIngressToVSR (c : Configuration) (ing : Ingress)
    : option (option VirtualServerRoute) :=
  rule ← head (ing_Rules ing);
  if negb (isChallengeIngressOwnerVs c (rule_Host rule)) then Some None
  else
    http ← rule_HTTP rule;
    path0 ← head http;
    service ← hip_BackendService path0;
    Some (Some
      {| vsr_ObjectMeta :=
           zeroObjectMeta (Namespace (ing_ObjectMeta ing)) (Name (ing_ObjectMeta ing));
         vsr_Host := rule_Host rule;
         vsr_Upstreams :=
           [ {| up_Name := "challenge"; up_Service := isb_Name service;
                up_Port := uint16 (isb_PortNumber service) |} ];
         vsr_Subroutes :=
           [ {| route_Path := hip_Path path0; route_Route := "";
                route_Action := Some {| Pass := "challenge" |} |} ] |}).

(** [strings.Contains]. *)
Fixpoint hasPrefix (p s : string) : bool :=
  match p, s with
  | EmptyString, _ => true
  | String a p', String b s' => bool_decide (a = b) && hasPrefix p' s'
  | String _ _, EmptyString => false
  end.

Fixpoint stringsContains (s substr : string) : bool :=
  hasPrefix substr s ||
  match s with
  | EmptyString => false
  | String _ s' => stringsContains s' substr
  end.

Definition buildVirtualServerRoutes (c : Configuration) (vs : VirtualServer)
    : list VirtualServerRoute * list string :=
  foldl (λ '(vsrs, warnings) r,
    if bool_decide (route_Route r = "") then (vsrs, warnings)
    else
      let vsrKey :=
        if negb (stringsContains (route_Route r) "/")
        then Namespace (vs_ObjectMeta vs) +:+ "/" +:+ route_Route r
        else route_Route r in
      match virtualServerRoutes c !! vsrKey with
      | None =>
          (vsrs, warnings ++ ["VirtualServerRoute " +:+ vsrKey +:+ " doesn't exist or invalid"])
      | Some vsr =>
          match ValidateVirtualServerRouteForVirtualServer (virtualServerValidator c)
                  vsr (vs_Host vs) (route_Path r) with
          | Some err =>
              (vsrs,
               warnings ++ ["VirtualServerRoute " +:+ vsrKey +:+ " is invalid: " +:+ err])
          | None => (vsrs ++ [vsr], warnings)
          end
      end) ([], []) (vs_Routes vs).

Definition vsc_setHTTP (l : Listener) (vsc : VirtualServerConfiguration)
    : VirtualServerConfiguration :=
  {| vsc_VirtualServer := vsc_VirtualServer vsc;
     vsc_VirtualServerRoutes := vsc_VirtualServerRoutes vsc;
     vsc_Warnings := vsc_Warnings vsc;
     vsc_HTTPPort := l_Port l; vsc_HTTPSPort := vsc_HTTPSPort vsc;
     vsc_HTTPIPv4 := l_IPv4 l; vsc_HTTPIPv6 := l_IPv6 l;
     vsc_HTTPSIPv4 := vsc_HTTPSIPv4 vsc; vsc_HTTPSIPv6 := vsc_HTTPSIPv6 vsc |}.

Definition vsc_setHTTPS (l : Listener) (vsc : VirtualServerConfiguration)
    : VirtualServerConfiguration :=
  {| vsc_VirtualServer := vsc_VirtualServer vsc;
     vsc_VirtualServerRoutes := vsc_VirtualServerRoutes vsc;
     vsc_Warnings := vsc_Warnings vsc;
     vsc_HTTPPort := vsc_HTTPPort vsc; vsc_HTTPSPort := l_Port l;
     vsc_HTTPIPv4 := vsc_HTTPIPv4 vsc; vsc_HTTPIPv6 := vsc_HTTPIPv6 vsc;
     vsc_HTTPSIPv4 := l_IPv4 l; vsc_HTTPSIPv6 := l_IPv6 l |}.

(** The closure [assignListener] of [buildListenersForVSConfiguration];
    [set] writes through the three pointers it is given. *)
Definition assignListener (c : Configuration) (listenerName : string) (isSSL : bool)
    (set : Listener → VirtualServerConfiguration → VirtualServerConfiguration)
    (vsc : VirtualServerConfiguration) : VirtualServerConfiguration :=
  match listenerMap c !! listenerName with
  | Some gcListener =>
      if bool_decide (l_Protocol gcListener = HTTPProtocol)
         && bool_decide (l_Ssl gcListener = isSSL)
      then set gcListener vsc else vsc
  | None => vsc
  end.

Definition buildListenersForVSConfiguration (c : Configuration)
    (vsc : VirtualServerConfiguration) : VirtualServerConfiguration :=
  match vs_Listener (vsc_VirtualServer vsc), globalConfiguration c with
  | Some listener, Some _ =>
      assignListener c (vsl_HTTPS listener) true vsc_setHTTPS
        (assignListener c (vsl_HTTP listener) false vsc_setHTTP vsc)
  | _, _ => vsc
  end.


(** ** Helpers of the package

    [isMinion], [isMaster] and [validateIngress] belong to other files of
    the package; the store takes them as an interface. [validateIngress]
    stands for the aggregate of the error list it returns, and its five
    flags are [isPlus], [appProtectEnabled], [appProtectDosEnabled],
    [internalRoutesEnabled] and [snippetsEnabled]. *)
Class IngressHelpers := {
  isMinion : Ingress → bool;
  isMaster : Ingress → bool;
  validateIngress : Ingress → bool → bool → bool → bool → bool → option string;
}.
Section Store.

(** The store uses the package helpers through [IngressHelpers]. *)
Context {pkg : IngressHelpers}.

(** The order in which the call at hand ranges over its maps. *)
Context {order : RangeOrder}.

(** *** Master/minion composer *)

(** The minion configurations under construction are pointers shared by
    [paths] and [minionConfigs]; they are addressed by the store key of
    the minion. *)
Record minionBuild := {
  mb_minionConfigs : list string;
  mb_childWarnings : gmap string (list string);
  mb_paths : gmap string string;
  mb_heap : gmap string MinionConfiguration;
}.

Definition mc_setValidPath (path : string) (b : bool) (mc : MinionConfiguration)
    : MinionConfiguration :=
  {| mc_Ingress := mc_Ingress mc; mc_ValidPaths := <[path := b]> (mc_ValidPaths mc) |}.

Definition appendWarning (key warning : string) (m : gmap string (list string))
    : gmap string (list string) :=
  <[key := default [] (m !! key) ++ [warning]]> m.

Definition minionPathStep (minionKey : string) (ingress : Ingress) (p : HTTPIngressPath)
    (st : minionBuild) : option minionBuild :=
  match mb_paths st !! hip_Path p with
  | None =>
      Some {| mb_minionConfigs := mb_minionConfigs st;
              mb_childWarnings := mb_childWarnings st;
              mb_paths := <[hip_Path p := minionKey]> (mb_paths st);
              mb_heap := alter (mc_setValidPath (hip_Path p) true) minionKey (mb_heap st) |}
  | Some holderKey =>
      holder ← mb_heap st !! holderKey;
      let warning := "path " +:+ hip_Path p +:+ " is taken by another resource" in
      if negb (chooseObjectMetaWinner (ing_ObjectMeta (mc_Ingress holder))
                                      (ing_ObjectMeta ingress)) then
        Some {| mb_minionConfigs := mb_minionConfigs st;
                mb_childWarnings :=
                  appendWarning (getResourceKey (ing_ObjectMeta (mc_Ingress holder)))
                    warning (mb_childWarnings st);
                mb_paths := <[hip_Path p := minionKey]> (mb_paths st);
                mb_heap :=
                  alter (mc_setValidPath (hip_Path p) false) holderKey
                    (alter (mc_setValidPath (hip_Path p) true) minionKey (mb_heap st)) |}
      else
        Some {| mb_minionConfigs := mb_minionConfigs st;
                mb_childWarnings :=
                  appendWarning (getResourceKey (ing_ObjectMeta ingress)) warning
                    (mb_childWarnings st);
                mb_paths := mb_paths st; mb_heap := mb_heap st |}
  end.

Definition minionStep (masterHost : string) (kv : string * Ingress) (st : minionBuild)
    : option minionBuild :=
  let '(minionKey, ingress) := kv in
  if negb (isMinion ingress) then Some st
  else
    rule ← head (ing_Rules ingress);
    if bool_decide (masterHost ≠ rule_Host rule) then Some st
    else
      let st :=
        {| mb_minionConfigs := mb_minionConfigs st;
           mb_childWarnings := mb_childWarnings st; mb_paths := mb_paths st;
           mb_heap := <[minionKey := NewMinionConfiguration ingress]> (mb_heap st) |} in
      http ← rule_HTTP rule;
      st ← forM (minionPathStep minionKey ingress) http st;
      Some {| mb_minionConfigs := mb_minionConfigs st ++ [minionKey];
              mb_childWarnings := mb_childWarnings st; mb_paths := mb_paths st;
              mb_heap := mb_heap st |}.

Definition buildMinionConfigs (c : Configuration) (masterHost : string)
    : option (list MinionConfiguration * gmap string (list string)) :=
  st ← forM (minionStep masterHost) (sortedItems (ingresses c))
         {| mb_minionConfigs := []; mb_childWarnings := ∅; mb_paths := ∅; mb_heap := ∅ |};
  minionConfigs ← mapM (λ k, mb_heap st !! k) (mb_minionConfigs st);
  Some (minionConfigs, mb_childWarnings st).

(** *** The three passes *)

Definition ingressStep (c : Configuration) (kv : string * Ingress) (st : hostBuild)
    : option hostBuild :=
  let '(key, ing) := kv in
  if isMinion ing then Some st
  else
    vsr ← (if isChallengeIngress c ing then convertIngressToVSR c ing else Some None);
    match vsr with
    | Some vsr => Some (addChallenge vsr st)
    | None =>
        resource ←
          (if isMaster ing then
             rule ← head (ing_Rules ing);
             '(minions, childWarnings) ← buildMinionConfigs c (rule_Host rule);
             Some (NewMasterIngressConfiguration ing minions childWarnings)
           else Some (NewRegularIngressConfiguration ing));
        let a := (KIngress, key) in
        forM (λ rule, claimHost (rule_Host rule) a) (ing_Rules ing)
             (register a (IngressRes resource) st)
    end.

Definition virtualServerStep (c : Configuration) (kv : string * VirtualServer)
    (st : hostBuild) : option hostBuild :=
  let '(key, vs) := kv in
  let '(vsrs, warnings) := buildVirtualServerRoutes c vs in
  let vsrs :=
    vsrs ++ filter (λ vsr, vs_Host vs = vsr_Host vsr) (hb_challengesVSR st) in
  let resource :=
    buildListenersForVSConfiguration c (NewVirtualServerConfiguration vs vsrs warnings) in
  let a := (KVirtualServer, key) in
  claimHost (vs_Host vs) a (register a (VirtualServerRes resource) st).

Definition transportServerStep (kv : string * TransportServer) (st : hostBuild)
    : option hostBuild :=
  let '(key, ts) := kv in
  if bool_decide (ts_ListenerName ts ≠ TLSPassthroughListenerName)
     && bool_decide (ts_ListenerProtocol ts ≠ TLSPassthroughListenerProtocol)
  then Some st
  else
    let resource := NewTransportServerConfiguration ts in
    let a := (KTransportServer, key) in
    claimHost (ts_Host ts) a (register a (TransportServerRes resource) st).

Definition buildHostsAndResources (c : Configuration) : option hostBuild :=
  st ← forM (ingressStep c) (sortedItems (ingresses c)) emptyHostBuild;
  st ← forM (virtualServerStep c) (sortedItems (virtualServers c)) st;
  if isTLSPassthroughEnabled c then
    forM transportServerStep (sortedItems (transportServers c)) st
  else Some st.

(** *** Rebuild of the hosts *)

Definition ic_setValidHost (host : string) (b : bool) (r : Resource) : Resource :=
  match r with
  | IngressRes ic =>
      IngressRes
        {| ic_Ingress := ic_Ingress ic; ic_IsMaster := ic_IsMaster ic;
           ic_Minions := ic_Minions ic;
           ic_ValidHosts := <[host := b]> (ic_ValidHosts ic);
           ic_Warnings := ic_Warnings ic; ic_ChildWarnings := ic_ChildWarnings ic |}
  | _ => r
  end.

(** [m[k]] for a map of pointers, read through the heap. *)
Definition lookupRes (heap : gmap Addr Resource) (m : gmap string Addr) (k : string)
    : option Resource :=
  a ← m !! k; heap !! a.

Definition updateActiveHostsForIngresses (hosts resources : gmap string Addr)
    (heap : gmap Addr Resource) : option (gmap Addr Resource) :=
  forM (λ kv heap,
    r ← heap !! kv.2;
    match r with
    | IngressRes ingConfig =>
        forM (λ rule heap,
          res ← lookupRes heap hosts (rule_Host rule);
          Some (alter (ic_setValidHost (rule_Host rule)
                         (bool_decide (GetKeyWithKind res = GetKeyWithKind r)))
                      kv.2 heap))
          (ing_Rules (ic_Ingress ingConfig)) heap
    | _ => Some heap
    end) (sortedItems resources) heap.

(** [hosts] is [c.hosts], already set to the new map. *)
Definition addProblemsForResourcesWithoutActiveHost (hosts : gmap string Addr)
    (heap : gmap Addr Resource) (resources : gmap string Addr)
    (problems : gmap string ConfigurationProblem)
    : option (gmap string ConfigurationProblem) :=
  forM (λ kv problems,
    r ← heap !! kv.2;
    match r with
    | IngressRes impl =>
        let atLeastOneValidHost :=
          existsb (λ hv : string * bool, hv.2) (map_to_list (ic_ValidHosts impl)) in
        if negb atLeastOneValidHost then
          Some (<[GetKeyWithKind r :=
                    mkProblem (ObjIngress (ic_Ingress impl)) false EventReasonRejected
                      "All hosts are taken by other resources"]> problems)
        else Some problems
    | VirtualServerRes impl =>
        res ← lookupRes heap hosts (vs_Host (vsc_VirtualServer impl));
        if bool_decide (GetKeyWithKind res ≠ GetKeyWithKind r) then
          Some (<[GetKeyWithKind r :=
                    mkProblem (ObjVirtualServer (vsc_VirtualServer impl)) false
                      EventReasonRejected "Host is taken by another resource"]> problems)
        else Some problems
    | TransportServerRes impl =>
        res ← lookupRes heap hosts (ts_Host (tsc_TransportServer impl));
        if bool_decide (GetKeyWithKind res ≠ GetKeyWithKind r) then
          Some (<[GetKeyWithKind r :=
                    mkProblem (ObjTransportServer (tsc_TransportServer impl)) false
                      EventReasonRejected "Host is taken by another resource"]> problems)
        else Some problems
    end) (sortedItems resources) problems.

Definition addProblemsForOrphanMinions (c : Configuration) (hosts : gmap string Addr)
    (heap : gmap Addr Resource) (problems : gmap string ConfigurationProblem)
    : option (gmap string ConfigurationProblem) :=
  forM (λ kv problems,
    let ing : Ingress := kv.2 in
    if negb (isMinion ing) then Some problems
    else
      rule ← head (ing_Rules ing);
      let orphan :=
        match lookupRes heap hosts (rule_Host rule) with
        | Some (IngressRes ingressConf) => negb (ic_IsMaster ingressConf)
        | _ => true
        end in
      if orphan then
        Some (<[getResourceKeyWithKind ingressKind (ing_ObjectMeta ing) :=
                  mkProblem (ObjIngress ing) false EventReasonNoIngressMasterFound
                    "Ingress master is invalid or doesn't exist"]> problems)
      else Some problems) (sortedItems (ingresses c)) problems.

Definition addProblemsForOrphanOrIgnoredVsrs (c : Configuration) (hosts : gmap string Addr)
    (heap : gmap Addr Resource) (problems : gmap string ConfigurationProblem)
    : gmap string ConfigurationProblem :=
  foldl (λ problems kv,
    let vsr : VirtualServerRoute := kv.2 in
    let k := getResourceKeyWithKind virtualServerRouteKind (vsr_ObjectMeta vsr) in
    match lookupRes heap hosts (vsr_Host vsr) with
    | Some (VirtualServerRes vsConfig) =>
        let found :=
          existsb (λ v, bool_decide (Namespace (vsr_ObjectMeta vsr)
                                     = Namespace (vsr_ObjectMeta v))
                        && bool_decide (Name (vsr_ObjectMeta vsr) = Name (vsr_ObjectMeta v)))
                  (vsc_VirtualServerRoutes vsConfig) in
        if negb found then
          <[k := mkProblem (ObjVirtualServerRoute vsr) false EventReasonIgnored
                   ("VirtualServer "
                    +:+ getResourceKey (vs_ObjectMeta (vsc_VirtualServer vsConfig))
                    +:+ " ignores VirtualServerRoute")]> problems
        else problems
    | _ =>
        <[k := mkProblem (ObjVirtualServerRoute vsr) false EventReasonNoVirtualServerFound
                 "VirtualServer is invalid or doesn't exist"]> problems
    end) problems (sortedItems (virtualServerRoutes c)).

Definition isListenerInCorrectBlock (c : Configuration) (listenerName : string)
    (expectedSsl : bool) : bool :=
  match listenerMap c !! listenerName with
  | Some listener => if bool_decide (l_Ssl listener ≠ expectedSsl) then false else true
  | None => true
  end.

(** The warning a VirtualServer's listener block earns, if any. *)
Definition listenerWarning (c : Configuration) (listener : VirtualServerListener)
    : option string :=
  if bool_decide (globalConfiguration c = None) then
    Some "Listeners defined, but no GlobalConfiguration is deployed"
  else if negb (isListenerInCorrectBlock c (vsl_HTTP listener) false) then
    Some ("Listener " +:+ vsl_HTTP listener
          +:+ " can't be use in `listener.http` context as SSL is enabled for that listener.")
  else if negb (isListenerInCorrectBlock c (vsl_HTTPS listener) true) then
    Some ("Listener " +:+ vsl_HTTPS listener
          +:+ " can't be use in `listener.https` context as SSL is not enabled for that listener.")
  else if bool_decide (vsl_HTTP listener ≠ "")
          && bool_decide (listenerMap c !! vsl_HTTP listener = None) then
    Some ("Listener " +:+ vsl_HTTP listener +:+ " is not defined in GlobalConfiguration")
  else if bool_decide (vsl_HTTPS listener ≠ "")
          && bool_decide (listenerMap c !! vsl_HTTPS listener = None) then
    Some ("Listener " +:+ vsl_HTTPS listener +:+ " is not defined in GlobalConfiguration")
  else None.

(** [for _, r := range resources]: a warning goes to the holder of the
    host of the VirtualServer, so the order of the range is the order of
    the warnings that one holder gets for several VirtualServers. *)
Definition addWarningsForVirtualServersWithMissConfiguredListeners (c : Configuration)
    (hosts resources : gmap string Addr) (heap : gmap Addr Resource)
    : option (gmap Addr Resource) :=
  forM (λ kv heap,
    r ← heap !! kv.2;
    match r with
    | VirtualServerRes vsc =>
        match vs_Listener (vsc_VirtualServer vsc) with
        | Some listener =>
            match listenerWarning c listener with
            | Some warningMsg =>
                holder ← hosts !! vs_Host (vsc_VirtualServer vsc);
                Some (alter (AddWarning warningMsg) holder heap)
            | None => Some heap
            end
        | None => Some heap
        end
    | _ => Some heap
    end) (rangeItems resources) heap.

(** The changes carry pointers: a change that names a rebuilt resource is
    pointed to the new object, which later steps of the rebuild still
    mutate, so it is read when the rebuild returns. A change that is not
    redirected holds an object of the previous rebuild, since every new
    object is entered in [newResources] under its own key. *)
Definition rebuildHosts (c : Configuration)
    : option (list ResourceChange * list ConfigurationProblem * Configuration) :=
  st ← buildHostsAndResources c;
  let newHosts := hb_newHosts st in
  let newResources := hb_newResources st in
  heap ← updateActiveHostsForIngresses newHosts newResources (hb_heap st);
  let '(removedHosts, updatedHosts, addedHosts) :=
    detectChangesInHosts (hosts c) (deref heap newHosts) in
  changes ← createResourceChangesForHosts removedHosts updatedHosts addedHosts
              (hosts c) (deref heap newHosts);
  let changes := squashResourceChanges changes in
  newProblems ← addProblemsForResourcesWithoutActiveHost newHosts heap newResources ∅;
  newProblems ← addProblemsForOrphanMinions c newHosts heap newProblems;
  let newProblems := addProblemsForOrphanOrIgnoredVsrs c newHosts heap newProblems in
  heap ← addWarningsForVirtualServersWithMissConfiguredListeners c newHosts newResources heap;
  let changes := refresh (deref heap newResources) <$> changes in
  let newOrUpdatedProblems := detectChangesInProblems newProblems (hostProblems c) in
  Some (changes, newOrUpdatedProblems, set_hosts (deref heap newHosts) newProblems c).

(** *** Public mutators *)

(** The loop that attaches a validation error to the first change of the
    failing resource; [None] when no change names it. *)
Fixpoint attachError (keyWithKind err : string) (changes : list ResourceChange)
    : option (list ResourceChange) :=
  match changes with
  | [] => None
  | ch :: rest =>
      if bool_decide (rc_key ch = keyWithKind) then Some (set_rc_Error err ch :: rest)
      else cons ch <$> attachError keyWithKind err rest
  end.

(** The tail of an [AddOrUpdate] mutator: the error goes to the change of
    the resource, or else becomes a problem of its own. *)
Definition reportValidationError (validationError : option string) (keyWithKind : string)
    (p : string → ConfigurationProblem)
    (changes : list ResourceChange) (problems : list ConfigurationProblem)
    : list ResourceChange * list ConfigurationProblem :=
  match validationError with
  | None => (changes, problems)
  | Some err =>
      match attachError keyWithKind err changes with
      | Some changes' => (changes', problems)
      | None => (changes, problems ++ [p err])
      end
  end.

Definition AddOrUpdateIngress (c : Configuration) (ing : Ingress)
    : option (list ResourceChange * list ConfigurationProblem * Configuration) :=
  let key := getResourceKey (ing_ObjectMeta ing) in
  let validationError :=
    if negb (hasCorrectIngressClass c (ObjIngress ing)) then None
    else validateIngress ing (isPlus c) (appProtectEnabled c) (appProtectDosEnabled c)
           (internalRoutesEnabled c) (snippetsEnabled c) in
  let c :=
    if negb (hasCorrectIngressClass c (ObjIngress ing)) then
      set_ingresses (delete key (ingresses c)) c
    else if validationError is Some _ then set_ingresses (delete key (ingresses c)) c
    else set_ingresses (<[key := ing]> (ingresses c)) c in
  '(changes, problems, c) ← rebuildHosts c;
  let '(changes, problems) :=
    reportValidationError validationError
      (getResourceKeyWithKind ingressKind (ing_ObjectMeta ing))
      (λ err, mkProblem (ObjIngress ing) true EventReasonRejected err)
      changes problems in
  Some (changes, problems, c).

Definition DeleteIngress (c : Configuration) (key : string)
    : option (list ResourceChange * list ConfigurationProblem * Configuration) :=
  match ingresses c !! key with
  | None => Some ([], [], c)
  | Some _ => rebuildHosts (set_ingresses (delete key (ingresses c)) c)
  end.

Definition AddOrUpdateVirtualServer (c : Configuration) (vs : VirtualServer)
    : option (list ResourceChange * list ConfigurationProblem * Configuration) :=
  let key := getResourceKey (vs_ObjectMeta vs) in
  let validationError :=
    if negb (hasCorrectIngressClass c (ObjVirtualServer vs)) then None
    else ValidateVirtualServer (virtualServerValidator c) vs in
  let c :=
    if negb (hasCorrectIngressClass c (ObjVirtualServer vs)) then
      set_virtualServers (delete key (virtualServers c)) c
    else if validationError is Some _ then
      set_virtualServers (delete key (virtualServers c)) c
    else set_virtualServers (<[key := vs]> (virtualServers c)) c in
  '(changes, problems, c) ← rebuildHosts c;
  let '(changes, problems) :=
    reportValidationError validationError
      (getResourceKeyWithKind virtualServerKind (vs_ObjectMeta vs))
      (λ err, mkProblem (ObjVirtualServer vs) true EventReasonRejected
                ("VirtualServer " +:+ getResourceKey (vs_ObjectMeta vs)
                 +:+ " was rejected with error: " +:+ err))
      changes problems in
  Some (changes, problems, c).

Definition DeleteVirtualServer (c : Configuration) (key : string)
    : option (list ResourceChange * list ConfigurationProblem * Configuration) :=
  match virtualServers c !! key with
  | None => Some ([], [], c)
  | Some _ => rebuildHosts (set_virtualServers (delete key (virtualServers c)) c)
  end.

Definition AddOrUpdateVirtualServerRoute (c : Configuration) (vsr : VirtualServerRoute)
    : option (list ResourceChange * list ConfigurationProblem * Configuration) :=
  let key := getResourceKey (vsr_ObjectMeta vsr) in
  let validationError :=
    if negb (hasCorrectIngressClass c (ObjVirtualServerRoute vsr)) then None
    else ValidateVirtualServerRoute (virtualServerValidator c) vsr in
  let c :=
    if negb (hasCorrectIngressClass c (ObjVirtualServerRoute vsr)) then
      set_virtualServerRoutes (delete key (virtualServerRoutes c)) c
    else if validationError is Some _ then
      set_virtualServerRoutes (delete key (virtualServerRoutes c)) c
    else set_virtualServerRoutes (<[key := vsr]> (virtualServerRoutes c)) c in
  '(changes, problems, c) ← rebuildHosts c;
  let problems :=
    match validationError with
    | Some err =>
        problems ++ [mkProblem (ObjVirtualServerRoute vsr) true EventReasonRejected
                       ("VirtualServerRoute " +:+ getResourceKey (vsr_ObjectMeta vsr)
                        +:+ " was rejected with error: " +:+ err)]
    | None => problems
    end in
  Some (changes, problems, c).

Definition DeleteVirtualServerRoute (c : Configuration) (key : string)
    : option (list ResourceChange * list ConfigurationProblem * Configuration) :=
  match virtualServerRoutes c !! key with
  | None => Some ([], [], c)
  | Some _ => rebuildHosts (set_virtualServerRoutes (delete key (virtualServerRoutes c)) c)
  end.

(** The listener rebuild followed by the host rebuild, their results
    appended. *)
Definition rebuildListenerHostsThenHosts (c : Configuration)
    : option (list ResourceChange * list ConfigurationProblem * Configuration) :=
  '(listenerChanges, listenerProblems, c) ← rebuildListenerHosts c;
  '(hostChanges, hostProblems, c) ← rebuildHosts c;
  Some (listenerChanges ++ hostChanges, listenerProblems ++ hostProblems, c).

Definition AddOrUpdateGlobalConfiguration (c : Configuration) (gc : GlobalConfiguration)
    : option (list ResourceChange * list ConfigurationProblem * option string
              * Configuration) :=
  let validationErr := ValidateGlobalConfiguration (globalConfigurationValidator c) gc in
  let c := setGlobalConfigListenerMap (set_globalConfiguration (Some gc) c) in
  '(changes, problems, c) ← rebuildListenerHostsThenHosts c;
  Some (changes, problems, validationErr, c).

Definition DeleteGlobalConfiguration (c : Configuration)
    : option (list ResourceChange * list ConfigurationProblem * Configuration) :=
  let c := setGlobalConfigListenerMap (set_globalConfiguration None c) in
  rebuildListenerHostsThenHosts c.

Definition GetGlobalConfiguration (c : Configuration) : option GlobalConfiguration :=
  globalConfiguration c.

(** [rebuildListenerHosts], then [rebuildHosts] when TLS passthrough is
    enabled. *)
Definition rebuildForTransportServers (c : Configuration)
    : option (list ResourceChange * list ConfigurationProblem * Configuration) :=
  if isTLSPassthroughEnabled c then rebuildListenerHostsThenHosts c
  else rebuildListenerHosts c.

Definition AddOrUpdateTransportServer (c : Configuration) (ts : TransportServer)
    : option (list ResourceChange * list ConfigurationProblem * Configuration) :=
  let key := getResourceKey (ts_ObjectMeta ts) in
  let validationErr :=
    if negb (hasCorrectIngressClass c (ObjTransportServer ts)) then None
    else ValidateTransportServer (transportServerValidator c) ts in
  let c :=
    if negb (hasCorrectIngressClass c (ObjTransportServer ts)) then
      set_transportServers (delete key (transportServers c)) c
    else if validationErr is Some _ then
      set_transportServers (delete key (transportServers c)) c
    else set_transportServers (<[key := ts]> (transportServers c)) c in
  '(changes, problems, c) ← rebuildForTransportServers c;
  let '(changes, problems) :=
    reportValidationError validationErr
      (getResourceKeyWithKind transportServerKind (ts_ObjectMeta ts))
      (λ err, mkProblem (ObjTransportServer ts) true EventReasonRejected
                ("TransportServer " +:+ getResourceKey (ts_ObjectMeta ts)
                 +:+ " was rejected with error: " +:+ err))
      changes problems in
  Some (changes, problems, c).

Definition DeleteTransportServer (c : Configuration) (key : string)
    : option (list ResourceChange * list ConfigurationProblem * Configuration) :=
  match transportServers c !! key with
  | None => Some ([], [], c)
  | Some _ =>
      rebuildForTransportServers (set_transportServers (delete key (transportServers c)) c)
  end.

(** ** Specification predicates *)

(** The pair that [chooseObjectMetaWinner] compares. *)
Definition orderKey (meta : ObjectMeta) : Z * string :=
  (CreationTimestamp meta, UID meta).

(** Two metas agree on namespace, name and generation. *)
Definition sameIdentity (meta1 meta2 : ObjectMeta) : Prop :=
  Namespace meta1 = Namespace meta2 ∧ Name meta1 = Name meta2
  ∧ Generation meta1 = Generation meta2.

(** At most one change per resource identity. *)
Definition uniqueByIdentity (changes : list ResourceChange) : Prop :=
  NoDup (rc_key <$> changes).

(** Every delete precedes every upsert. *)
Definition deletesFirst (changes : list ResourceChange) : Prop :=
  ∀ i j ci cj,
    changes !! i = Some ci → changes !! j = Some cj →
    Op ci = Delete → Op cj = AddOrUpdate → (i < j)%nat.

(** What a consumer of a change list sees of a change: the operation and
    the identity of the resource. *)
Definition changeView (ch : ResourceChange) : Operation * string := (Op ch, rc_key ch).

(** The public mutators as one type, to speak of "every mutator". *)
Inductive Mutation :=
  | MAddOrUpdateIngress (ing : Ingress)
  | MDeleteIngress (key : string)
  | MAddOrUpdateVirtualServer (vs : VirtualServer)
  | MDeleteVirtualServer (key : string)
  | MAddOrUpdateVirtualServerRoute (vsr : VirtualServerRoute)
  | MDeleteVirtualServerRoute (key : string)
  | MAddOrUpdateTransportServer (ts : TransportServer)
  | MDeleteTransportServer (key : string)
  | MAddOrUpdateGlobalConfiguration (gc : GlobalConfiguration)
  | MDeleteGlobalConfiguration.

(** The changes, the problems and the next store of a mutator call; the
    validation error that [AddOrUpdateGlobalConfiguration] also returns is
    dropped here. *)
Definition applyMutation (c : Configuration) (m : Mutation)
    : option (list ResourceChange * list ConfigurationProblem * Configuration) :=
  match m with
  | MAddOrUpdateIngress ing => AddOrUpdateIngress c ing
  | MDeleteIngress key => DeleteIngress c key
  | MAddOrUpdateVirtualServer vs => AddOrUpdateVirtualServer c vs
  | MDeleteVirtualServer key => DeleteVirtualServer c key
  | MAddOrUpdateVirtualServerRoute vsr => AddOrUpdateVirtualServerRoute c vsr
  | MDeleteVirtualServerRoute key => DeleteVirtualServerRoute c key
  | MAddOrUpdateTransportServer ts => AddOrUpdateTransportServer c ts
  | MDeleteTransportServer key => DeleteTransportServer c key
  | MAddOrUpdateGlobalConfiguration gc =>
      '(changes, problems, _, c) ← AddOrUpdateGlobalConfiguration c gc;
      Some (changes, problems, c)
  | MDeleteGlobalConfiguration => DeleteGlobalConfiguration c
  end.

(** The mutators that run the host rebuild alone. *)
Definition hostOnly (m : Mutation) : bool :=
  match m with
  | MAddOrUpdateIngress _ | MDeleteIngress _
  | MAddOrUpdateVirtualServer _ | MDeleteVirtualServer _
  | MAddOrUpdateVirtualServerRoute _ | MDeleteVirtualServerRoute _ => true
  | _ => false
  end.

(** The problem that reports the validation error of an [AddOrUpdate]
    whose object has the right class and is invalid. *)
Definition validationProblem (c : Configuration) (m : Mutation)
    : option ConfigurationProblem :=
  match m with
  | MAddOrUpdateIngress ing =>
      if hasCorrectIngressClass c (ObjIngress ing) then
        err ← validateIngress ing (isPlus c) (appProtectEnabled c) (appProtectDosEnabled c)
                (internalRoutesEnabled c) (snippetsEnabled c);
        Some (mkProblem (ObjIngress ing) true EventReasonRejected err)
      else None
  | MAddOrUpdateVirtualServer vs =>
      if hasCorrectIngressClass c (ObjVirtualServer vs) then
        err ← ValidateVirtualServer (virtualServerValidator c) vs;
        Some (mkProblem (ObjVirtualServer vs) true EventReasonRejected
                ("VirtualServer " +:+ getResourceKey (vs_ObjectMeta vs)
                 +:+ " was rejected with error: " +:+ err))
      else None
  | MAddOrUpdateVirtualServerRoute vsr =>
      if hasCorrectIngressClass c (ObjVirtualServerRoute vsr) then
        err ← ValidateVirtualServerRoute (virtualServerValidator c) vsr;
        Some (mkProblem (ObjVirtualServerRoute vsr) true EventReasonRejected
                ("VirtualServerRoute " +:+ getResourceKey (vsr_ObjectMeta vsr)
                 +:+ " was rejected with error: " +:+ err))
      else None
  | MAddOrUpdateTransportServer ts =>
      if hasCorrectIngressClass c (ObjTransportServer ts) then
        err ← ValidateTransportServer (transportServerValidator c) ts;
        Some (mkProblem (ObjTransportServer ts) true EventReasonRejected
                ("TransportServer " +:+ getResourceKey (ts_ObjectMeta ts)
                 +:+ " was rejected with error: " +:+ err))
      else None
  | _ => None
  end.

(** ** Invariants used in the proofs *)

(** Every change filed under a key has that key. *)
Definition wellKeyed (m : gmap string (list ResourceChange)) : Prop :=
  ∀ k l c, m !! k = Some l → c ∈ l → rc_key c = k.

(** The invariant of the second loop of [squashResourceChanges]. *)
Definition squashInv
    (acc : list ResourceChange * list ResourceChange * gmap string (list ResourceChange))
    : Prop :=
  let '(deletes, updates, m) := acc in
  Forall (λ c, Op c = Delete) deletes
  ∧ Forall (λ c, Op c = AddOrUpdate) updates
  ∧ NoDup (rc_key <$> (deletes ++ updates))
  ∧ (∀ c, c ∈ deletes ++ updates → m !! rc_key c = None)
  ∧ wellKeyed m.


(** The part of a host rebuild that depends on the stored resources
    alone: the new hosts as change detection reads them, the derived
    resources and the new hosts as they are when the rebuild returns, and
    the new problems. *)
Definition hostOutcome (c : Configuration)
    : option (gmap string Resource * gmap string Resource
              * gmap string ConfigurationProblem * gmap string Resource) :=
  st ← buildHostsAndResources c;
  let newHosts := hb_newHosts st in
  let newResources := hb_newResources st in
  heap ← updateActiveHostsForIngresses newHosts newResources (hb_heap st);
  newProblems ← addProblemsForResourcesWithoutActiveHost newHosts heap newResources ∅;
  newProblems ← addProblemsForOrphanMinions c newHosts heap newProblems;
  let newProblems := addProblemsForOrphanOrIgnoredVsrs c newHosts heap newProblems in
  heap' ← addWarningsForVirtualServersWithMissConfiguredListeners c newHosts newResources heap;
  Some (deref heap newHosts, deref heap' newResources, newProblems, deref heap' newHosts).

(** The same for a listener rebuild. *)
Definition listenerOutcome (c : Configuration)
    : option (gmap listenerHostKey TransportServerConfiguration
              * gmap string TransportServerConfiguration
              * gmap string ConfigurationProblem) :=
  lb ← buildListenerHostsAndTSConfigurations c;
  let newListenerHosts := deref (lb_newTSConfigs lb) (lb_newListenerHosts lb) in
  Some (newListenerHosts, lb_newTSConfigs lb,
        addProblemsForTSConfigsWithoutActiveListener newListenerHosts (lb_newTSConfigs lb) ∅).

(** A derived resource without its warnings. *)
Definition stripWarnings (r : Resource) : Resource :=
  match r with
  | IngressRes ic =>
      IngressRes
        {| ic_Ingress := ic_Ingress ic; ic_IsMaster := ic_IsMaster ic;
           ic_Minions := ic_Minions ic; ic_ValidHosts := ic_ValidHosts ic;
           ic_Warnings := []; ic_ChildWarnings := ic_ChildWarnings ic |}
  | VirtualServerRes vsc =>
      VirtualServerRes
        {| vsc_VirtualServer := vsc_VirtualServer vsc;
           vsc_VirtualServerRoutes := vsc_VirtualServerRoutes vsc;
           vsc_Warnings := [];
           vsc_HTTPPort := vsc_HTTPPort vsc; vsc_HTTPSPort := vsc_HTTPSPort vsc;
           vsc_HTTPIPv4 := vsc_HTTPIPv4 vsc; vsc_HTTPIPv6 := vsc_HTTPIPv6 vsc;
           vsc_HTTPSIPv4 := vsc_HTTPSIPv4 vsc; vsc_HTTPSIPv6 := vsc_HTTPSIPv6 vsc |}
  | TransportServerRes tsc =>
      TransportServerRes
        {| tsc_ListenerPort := tsc_ListenerPort tsc; tsc_IPv4 := tsc_IPv4 tsc;
           tsc_IPv6 := tsc_IPv6 tsc; tsc_TransportServer := tsc_TransportServer tsc;
           tsc_Warnings := [] |}
  end.

(** The store entry that an [AddOrUpdate] of a resource writes or
    removes. *)
Definition storeEntry (c : Configuration) (m : Mutation) : option Object :=
  match m with
  | MAddOrUpdateIngress ing =>
      ObjIngress <$> ingresses c !! getResourceKey (ing_ObjectMeta ing)
  | MAddOrUpdateVirtualServer vs =>
      ObjVirtualServer <$> virtualServers c !! getResourceKey (vs_ObjectMeta vs)
  | MAddOrUpdateVirtualServerRoute vsr =>
      ObjVirtualServerRoute <$> virtualServerRoutes c !! getResourceKey (vsr_ObjectMeta vsr)
  | MAddOrUpdateTransportServer ts =>
      ObjTransportServer <$> transportServers c !! getResourceKey (ts_ObjectMeta ts)
  | _ => None
  end.

(** Every stored resource is filed under the key of its own metadata, as
    the mutators file it. *)
Definition storeKeyed (c : Configuration) : Prop :=
  (∀ k ing, ingresses c !! k = Some ing → k = getResourceKey (ing_ObjectMeta ing))
  ∧ (∀ k vs, virtualServers c !! k = Some vs → k = getResourceKey (vs_ObjectMeta vs))
  ∧ (∀ k vsr, virtualServerRoutes c !! k = Some vsr →
       k = getResourceKey (vsr_ObjectMeta vsr))
  ∧ (∀ k ts, transportServers c !! k = Some ts → k = getResourceKey (ts_ObjectMeta ts)).

(** The (listener, host) key that a TransportServer asks for. *)
Definition ts_listenerHostKey (ts : TransportServer) : listenerHostKey :=
  {| lhk_ListenerName := ts_ListenerName ts; lhk_Host := ts_Host ts |}.

(** The invariant of the loop of [buildListenerHostsAndTSConfigurations],
    after the entries [done] of the store. *)
Definition listenerBuildInv (c : Configuration) (done : list (string * TransportServer))
    (lb : listenerBuild) : Prop :=
  (∀ k tsc, lb_newTSConfigs lb !! k = Some tsc →
     (k, tsc_TransportServer tsc) ∈ done
     ∧ ts_ListenerProtocol (tsc_TransportServer tsc) ≠ TLSPassthroughListenerProtocol)
  ∧ (∀ k ts, (k, ts) ∈ done →
       ts_ListenerProtocol ts ≠ TLSPassthroughListenerProtocol →
       ∃ tsc, lb_newTSConfigs lb !! k = Some tsc ∧ tsc_TransportServer tsc = ts)
  ∧ (∀ lk a, lb_newListenerHosts lb !! lk = Some a →
       ∃ tsc gc listener,
         lb_newTSConfigs lb !! a = Some tsc
         ∧ globalConfiguration c = Some gc
         ∧ findListener (tsc_TransportServer tsc) (gc_Listeners gc) = Some listener
         ∧ lk = ts_listenerHostKey (tsc_TransportServer tsc)).

(** *** The host rebuild *)

(** The hosts that a derived resource claims. *)
Definition resourceHosts (r : Resource) : list string :=
  match r with
  | IngressRes ic => rule_Host <$> ing_Rules (ic_Ingress ic)
  | VirtualServerRes vsc => [vs_Host (vsc_VirtualServer vsc)]
  | TransportServerRes tsc => [ts_Host (tsc_TransportServer tsc)]
  end.

(** What a rebuild never changes of a derived resource once it is made:
    all but its warnings and the marks of its valid hosts. *)
Definition core (r : Resource) : Resource :=
  match r with
  | IngressRes ic =>
      IngressRes
        {| ic_Ingress := ic_Ingress ic; ic_IsMaster := ic_IsMaster ic;
           ic_Minions := ic_Minions ic; ic_ValidHosts := ∅;
           ic_Warnings := []; ic_ChildWarnings := ic_ChildWarnings ic |}
  | _ => stripWarnings r
  end.

(** [r'] is [r] later in the rebuild: warnings were added, hosts marked. *)
Definition evolves (r r' : Resource) : Prop :=
  core r = core r' ∧ ∃ ws, GetWarnings r' = GetWarnings r ++ ws.

Definition heapEvolves (h h' : gmap Addr Resource) : Prop :=
  ∀ a, option_Forall2 evolves (h !! a) (h' !! a).

(** The claims made so far, in [log]: the holder of a host has claimed
    it, and whoever claimed a host and does not hold it carries the
    warning and does not win over the holder. *)
Definition claimsInv (log : list (Addr * string)) (st : hostBuild) : Prop :=
  (∀ h x, hb_newHosts st !! h = Some x → (x, h) ∈ log)
  ∧ (∀ a h, (a, h) ∈ log →
       ∃ r x rx,
         hb_heap st !! a = Some r ∧ hb_newHosts st !! h = Some x
         ∧ hb_heap st !! x = Some rx
         ∧ (x = a ∨ (hostTakenWarning h ∈ GetWarnings r ∧ Wins r rx = false))).

(** The object at [a] claims the hosts [hs] in turn. *)
Definition claimAll (hs : list string) (a : Addr) (st : hostBuild) : option hostBuild :=
  forM (λ h, claimHost h a) hs st.

(** A derived object is made: it is registered at the fresh address [a]
    and claims its hosts. *)
Definition makeObject (a : Addr) (r : Resource) (st : hostBuild) : option hostBuild :=
  claimAll (resourceHosts r) a (register a r st).

(** Every registered key leads to an object of that identity. *)
Definition registry (st : hostBuild) : Prop :=
  ∀ K a, hb_newResources st !! K = Some a →
    ∃ r, hb_heap st !! a = Some r ∧ GetKeyWithKind r = K.

(** The log has every claim of every object. *)
Definition logComplete (log : list (Addr * string)) (st : hostBuild) : Prop :=
  ∀ a r h, hb_heap st !! a = Some r → h ∈ resourceHosts r → (a, h) ∈ log.

Definition claimsOk (st : hostBuild) : Prop :=
  ∃ log, claimsInv log st ∧ logComplete log st.

(** The route that the ingress pass sets aside for an ingress, if any. *)
Definition challengeOf (c : Configuration) (ing : Ingress) : option VirtualServerRoute :=
  if isMinion ing then None
  else if isChallengeIngress c ing then mjoin (convertIngressToVSR c ing)
  else None.

(** The ingresses for which the ingress pass makes an
    IngressConfiguration. *)
Definition makesConfiguration (c : Configuration) (ing : Ingress) : Prop :=
  isMinion ing = false ∧ challengeOf c ing = None.

(** The TransportServers that the third pass does not skip. *)
Definition passthroughCandidate (ts : TransportServer) : Prop :=
  ts_ListenerName ts = TLSPassthroughListenerName
  ∨ ts_ListenerProtocol ts = TLSPassthroughListenerProtocol.

(** Where the object at an address comes from. *)
Definition madeFrom (c : Configuration) (doneI : list (string * Ingress))
    (doneV : list (string * VirtualServer)) (doneT : list (string * TransportServer))
    (challenges : list VirtualServerRoute) (a : Addr) (r : Resource) : Prop :=
  match a.1 with
  | KIngress =>
      ∃ ing ic, (a.2, ing) ∈ doneI ∧ makesConfiguration c ing
                ∧ r = IngressRes ic ∧ ic_Ingress ic = ing
  | KVirtualServer =>
      ∃ vs vsc, (a.2, vs) ∈ doneV ∧ r = VirtualServerRes vsc
                ∧ vsc_VirtualServer vsc = vs
                ∧ vsc_VirtualServerRoutes vsc
                  = (buildVirtualServerRoutes c vs).1
                    ++ filter (λ vsr, vs_Host vs = vsr_Host vsr) challenges
  | KTransportServer =>
      ∃ ts tsc, (a.2, ts) ∈ doneT ∧ passthroughCandidate ts
                ∧ r = TransportServerRes tsc ∧ tsc_TransportServer tsc = ts
  end.

(** The invariant of the three passes of [buildHostsAndResources], after
    the entries [doneI], [doneV] and [doneT] of the three store maps. *)
Definition hostBuildInv (c : Configuration) (doneI : list (string * Ingress))
    (doneV : list (string * VirtualServer)) (doneT : list (string * TransportServer))
    (st : hostBuild) : Prop :=
  registry st
  ∧ claimsOk st
  ∧ (∀ a r, hb_heap st !! a = Some r →
       madeFrom c doneI doneV doneT (hb_challengesVSR st) a r
       ∧ is_Some (hb_newResources st !! GetKeyWithKind r))
  ∧ (∀ k ing, (k, ing) ∈ doneI → makesConfiguration c ing →
       is_Some (hb_heap st !! (KIngress, k)))
  ∧ (∀ k vs, (k, vs) ∈ doneV → is_Some (hb_heap st !! (KVirtualServer, k)))
  ∧ (∀ k ts, (k, ts) ∈ doneT → passthroughCandidate ts →
       is_Some (hb_heap st !! (KTransportServer, k)))
  ∧ (∀ vsr, vsr ∈ hb_challengesVSR st ↔
       ∃ k ing, (k, ing) ∈ doneI ∧ challengeOf c ing = Some vsr).

(** No TransportServer is stored under a key that begins with the kind,
    as no Kubernetes namespace does. The listener rebuild looks its
    changes up by identity in a map filed by store key. *)
Definition plainKeys (c : Configuration) : Prop :=
  ∀ k, is_Some (transportServers c !! k) → hasPrefix "TransportServer/" k = false.

Definition isTransportServerRes (r : Resource) : Prop :=
  match r with TransportServerRes _ => True | _ => False end.

(** Whether the call [m] on [c] runs the host rebuild after the listener
    rebuild: the TransportServer mutators do so only with TLS passthrough
    enabled. *)
Definition alsoRebuildsHosts (c : Configuration) (m : Mutation) : bool :=
  match m with
  | MAddOrUpdateTransportServer _ | MDeleteTransportServer _ => isTLSPassthroughEnabled c
  | _ => true
  end.

(** The change list of a call that ran the listener rebuild and, when
    [withHosts], the host rebuild after it, and left the store [c']: to
    its consumer it is the changes of the listener rebuild followed by
    those of the host rebuild. Each of the two parts has its deletes
    first; the host part has at most one change per identity, and so has
    the listener part when the keys are plain. *)
Definition twoSquashed (withHosts : bool) (c' : Configuration)
    (changes : list ResourceChange) : Prop :=
  ∃ cx listenerChanges listenerProblems c1 hostChanges,
    rebuildListenerHosts cx = Some (listenerChanges, listenerProblems, c1)
    ∧ (if withHosts then
         ∃ hostProblems, rebuildHosts c1 = Some (hostChanges, hostProblems, c')
       else hostChanges = [] ∧ c1 = c')
    ∧ changeView <$> changes = changeView <$> (listenerChanges ++ hostChanges)
    ∧ deletesFirst listenerChanges
    ∧ (plainKeys c' → uniqueByIdentity listenerChanges)
    ∧ uniqueByIdentity hostChanges
    ∧ deletesFirst hostChanges.

(** The kind that begins the identity of the object at an address. *)
Definition kindName (k : ResKind) : string :=
  match k with
  | KIngress => ingressKind
  | KVirtualServer => virtualServerKind
  | KTransportServer => transportServerKind
  end.

(** ** Queries *)

Record resourceFilter := {
  f_Ingresses : bool;
  f_VirtualServers : bool;
  f_TransportServers : bool;
}.

(** The entries of the listener hosts, by ascending key. *)
Definition sortedListenerItems (m : gmap listenerHostKey TransportServerConfiguration)
    : list (listenerHostKey * TransportServerConfiguration) :=
  omap (λ k, pair k <$> m !! k) (getSortedListenerHostKeys m).

(** Whether the filter lets a resource of this kind through. *)
Definition passesFilter (filter : resourceFilter) (r : Resource) : bool :=
  match r with
  | IngressRes _ => f_Ingresses filter
  | VirtualServerRes _ => f_VirtualServers filter
  | TransportServerRes _ => f_TransportServers filter
  end.

Definition GetResourcesWithFilter (c : Configuration) (filter : resourceFilter)
    : list Resource :=
  let resources : gmap string Resource :=
    foldl (λ resources kv,
             let r : Resource := kv.2 in
             if passesFilter filter r then <[GetKeyWithKind r := r]> resources
             else resources)
          ∅ (sortedItems (hosts c)) in
  let resources :=
    if f_TransportServers filter then
      foldl (λ resources kv,
               let r := TransportServerRes kv.2 in <[GetKeyWithKind r := r]> resources)
            resources (sortedListenerItems (listenerHosts c))
    else resources in
  omap (λ key, resources !! key) (getSortedResourceKeys resources).

Definition GetResources (c : Configuration) : list Resource :=
  GetResourcesWithFilter c
    {| f_Ingresses := true; f_VirtualServers := true; f_TransportServers := true |}.

(** The interface [resourceReferenceChecker]. *)
Record resourceReferenceChecker := {
  IsReferencedByIngress : string → string → Ingress → bool;
  IsReferencedByMinion : string → string → Ingress → bool;
  IsReferencedByVirtualServer : string → string → VirtualServer → bool;
  IsReferencedByVirtualServerRoute : string → string → VirtualServerRoute → bool;
  IsReferencedByTransportServer : string → string → TransportServer → bool;
}.

(** The test that the first loop of [findResourcesForResourceReference]
    makes on the holder of a host. *)
Definition referencedBy (checker : resourceReferenceChecker) (namespace name : string)
    (r : Resource) : bool :=
  match r with
  | IngressRes impl =>
      if IsReferencedByIngress checker namespace name (ic_Ingress impl) then true
      else existsb (λ fm, IsReferencedByMinion checker namespace name (mc_Ingress fm))
                   (ic_Minions impl)
  | VirtualServerRes impl =>
      if IsReferencedByVirtualServer checker namespace name (vsc_VirtualServer impl)
      then true
      else existsb (IsReferencedByVirtualServerRoute checker namespace name)
                   (vsc_VirtualServerRoutes impl)
  | TransportServerRes impl =>
      IsReferencedByTransportServer checker namespace name (tsc_TransportServer impl)
  end.

Definition findResourcesForResourceReference (c : Configuration) (namespace name : string)
    (checker : resourceReferenceChecker) : list Resource :=
  let result :=
    foldl (λ result kv,
             let r : Resource := kv.2 in
             if referencedBy checker namespace name r then result ++ [r] else result)
          [] (sortedItems (hosts c)) in
  foldl (λ result kv,
           let tsConfig : TransportServerConfiguration := kv.2 in
           if IsReferencedByTransportServer checker namespace name
                (tsc_TransportServer tsConfig)
           then result ++ [TransportServerRes tsConfig] else result)
        result (sortedListenerItems (listenerHosts c)).

Record TransportServerMetrics := {
  TotalTLSPassthrough : Z;
  TotalTCP : Z;
  TotalUDP : Z;
}.

Definition GetTransportServerMetrics (c : Configuration) : TransportServerMetrics :=
  let passthrough :=
    if isTLSPassthroughEnabled c then
      foldl (λ n kv, match kv.2 with TransportServerRes _ => n + 1 | _ => n end)
            0 (sortedItems (hosts c))
    else 0 in
  let '(tcp, udp) :=
    foldl (λ '(tcp, udp) kv,
             if bool_decide (ts_ListenerProtocol (tsc_TransportServer kv.2) = "TCP")
             then (tcp + 1, udp) else (tcp, udp + 1))
          (0, 0) (sortedListenerItems (listenerHosts c)) in
  {| TotalTLSPassthrough := passthrough; TotalTCP := tcp; TotalUDP := udp |}.

#[global] Instance isTransportServerRes_dec (r : Resource) : Decision (isTransportServerRes r).
Proof. destruct r; simpl; apply _. Defined.

(** Every holder of a host is an object that claims the host. *)
Definition holdersClaim (st : hostBuild) : Prop :=
  ∀ h x, hb_newHosts st !! h = Some x →
         ∃ r, hb_heap st !! x = Some r ∧ h ∈ resourceHosts r.

(** ** Validation errors and soft problems *)

(** The message of the validator for the argument of an [AddOrUpdate]
    that has the right class. *)
Definition validationError (c : Configuration) (m : Mutation) : option string :=
  match m with
  | MAddOrUpdateIngress ing =>
      if hasCorrectIngressClass c (ObjIngress ing) then
        validateIngress ing (isPlus c) (appProtectEnabled c) (appProtectDosEnabled c)
          (internalRoutesEnabled c) (snippetsEnabled c)
      else None
  | MAddOrUpdateVirtualServer vs =>
      if hasCorrectIngressClass c (ObjVirtualServer vs) then
        ValidateVirtualServer (virtualServerValidator c) vs
      else None
  | MAddOrUpdateVirtualServerRoute vsr =>
      if hasCorrectIngressClass c (ObjVirtualServerRoute vsr) then
        ValidateVirtualServerRoute (virtualServerValidator c) vsr
      else None
  | MAddOrUpdateTransportServer ts =>
      if hasCorrectIngressClass c (ObjTransportServer ts) then
        ValidateTransportServer (transportServerValidator c) ts
      else None
  | _ => None
  end.

(** The identity of the argument of an [AddOrUpdate]. *)
Definition identityOf (m : Mutation) : string :=
  match m with
  | MAddOrUpdateIngress ing => getResourceKeyWithKind ingressKind (ing_ObjectMeta ing)
  | MAddOrUpdateVirtualServer vs =>
      getResourceKeyWithKind virtualServerKind (vs_ObjectMeta vs)
  | MAddOrUpdateVirtualServerRoute vsr =>
      getResourceKeyWithKind virtualServerRouteKind (vsr_ObjectMeta vsr)
  | MAddOrUpdateTransportServer ts =>
      getResourceKeyWithKind transportServerKind (ts_ObjectMeta ts)
  | _ => ""
  end.

(** A problem that a rebuild files: not an error, with one of the four
    reasons. *)
Definition softProblem (p : ConfigurationProblem) : Prop :=
  p_IsError p = false
  ∧ p_Reason p ∈ [EventReasonRejected; EventReasonNoIngressMasterFound;
                  EventReasonNoVirtualServerFound; EventReasonIgnored].

(** No two stored TransportServers that ask for the same listener and
    host have the same creationTimestamp and the same UID: of any two of
    them, one wins over the other. *)
Definition twinFree (c : Configuration) : Prop :=
  ∀ k1 k2 ts1 ts2,
    transportServers c !! k1 = Some ts1 → transportServers c !! k2 = Some ts2 →
    k1 ≠ k2 → ts_listenerHostKey ts1 = ts_listenerHostKey ts2 →
    orderKey (ts_ObjectMeta ts1) ≠ orderKey (ts_ObjectMeta ts2).

(** The same as a test over the stored TransportServers. *)
Definition twinFreeb (c : Configuration) : bool :=
  let stored := map_to_list (transportServers c) in
  forallb (λ kv1 : string * TransportServer,
    forallb (λ kv2 : string * TransportServer,
      bool_decide (kv1.1 = kv2.1)
      || negb (bool_decide (ts_listenerHostKey kv1.2 = ts_listenerHostKey kv2.2))
      || negb (bool_decide (orderKey (ts_ObjectMeta kv1.2) = orderKey (ts_ObjectMeta kv2.2))))
      stored) stored.

(** [c'] is [c] but for the warnings that the holders of its hosts
    carry. *)
Definition sameButWarnings (c c' : Configuration) : Prop :=
  ∃ h, c' = set_hosts h (hostProblems c) c
       ∧ stripWarnings <$> h = stripWarnings <$> hosts c.

(** The [Delete] that takes back an [AddOrUpdate] of an Ingress, a
    VirtualServer, a VirtualServerRoute or a TransportServer. *)
Definition deleteOf (m : Mutation) : option Mutation :=
  match m with
  | MAddOrUpdateIngress ing => Some (MDeleteIngress (getResourceKey (ing_ObjectMeta ing)))
  | MAddOrUpdateVirtualServer vs =>
      Some (MDeleteVirtualServer (getResourceKey (vs_ObjectMeta vs)))
  | MAddOrUpdateVirtualServerRoute vsr =>
      Some (MDeleteVirtualServerRoute (getResourceKey (vsr_ObjectMeta vsr)))
  | MAddOrUpdateTransportServer ts =>
      Some (MDeleteTransportServer (getResourceKey (ts_ObjectMeta ts)))
  | _ => None
  end.

(** The parameters that [NewConfiguration] takes. *)
Definition sameSettings (c c' : Configuration) : Prop :=
  hasCorrectIngressClass c' = hasCorrectIngressClass c
  ∧ virtualServerValidator c' = virtualServerValidator c
  ∧ globalConfigurationValidator c' = globalConfigurationValidator c
  ∧ transportServerValidator c' = transportServerValidator c
  ∧ isPlus c' = isPlus c
  ∧ appProtectEnabled c' = appProtectEnabled c
  ∧ appProtectDosEnabled c' = appProtectDosEnabled c
  ∧ internalRoutesEnabled c' = internalRoutesEnabled c
  ∧ isTLSPassthroughEnabled c' = isTLSPassthroughEnabled c
  ∧ snippetsEnabled c' = snippetsEnabled c
  ∧ isCertManagerEnabled c' = isCertManagerEnabled c
  ∧ isIPV6Disabled c' = isIPV6Disabled c.

(** The listener side of a configuration: what only the mutators of
    TransportServers and of the GlobalConfiguration write. *)
Definition sameListenerSide (c c' : Configuration) : Prop :=
  listenerHosts c' = listenerHosts c ∧ listenerProblems c' = listenerProblems c.

Definition sameHostSide (c c' : Configuration) : Prop :=
  hosts c' = hosts c ∧ hostProblems c' = hostProblems c.

Definition sameGlobalConfiguration (c c' : Configuration) : Prop :=
  globalConfiguration c' = globalConfiguration c ∧ listenerMap c' = listenerMap c.

(** The fields that the call [m] leaves as they are. *)
Definition untouched (m : Mutation) (c c' : Configuration) : Prop :=
  match m with
  | MAddOrUpdateIngress _ | MDeleteIngress _ =>
      virtualServers c' = virtualServers c
      ∧ virtualServerRoutes c' = virtualServerRoutes c
      ∧ transportServers c' = transportServers c
      ∧ sameGlobalConfiguration c c' ∧ sameListenerSide c c'
  | MAddOrUpdateVirtualServer _ | MDeleteVirtualServer _ =>
      ingresses c' = ingresses c
      ∧ virtualServerRoutes c' = virtualServerRoutes c
      ∧ transportServers c' = transportServers c
      ∧ sameGlobalConfiguration c c' ∧ sameListenerSide c c'
  | MAddOrUpdateVirtualServerRoute _ | MDeleteVirtualServerRoute _ =>
      ingresses c' = ingresses c
      ∧ virtualServers c' = virtualServers c
      ∧ transportServers c' = transportServers c
      ∧ sameGlobalConfiguration c c' ∧ sameListenerSide c c'
  | MAddOrUpdateTransportServer _ | MDeleteTransportServer _ =>
      ingresses c' = ingresses c
      ∧ virtualServers c' = virtualServers c
      ∧ virtualServerRoutes c' = virtualServerRoutes c
      ∧ sameGlobalConfiguration c c'
      ∧ (isTLSPassthroughEnabled c = false → sameHostSide c c')
  | MAddOrUpdateGlobalConfiguration _ | MDeleteGlobalConfiguration =>
      ingresses c' = ingresses c
      ∧ virtualServers c' = virtualServers c
      ∧ virtualServerRoutes c' = virtualServerRoutes c
      ∧ transportServers c' = transportServers c
  end.

(** The store key under which [buildVirtualServerRoutes] looks up the
    route [r] of the VirtualServer [vs]. *)
Definition routeKey (vs : VirtualServer) (r : Route) : string :=
  if negb (stringsContains (route_Route r) "/")
  then Namespace (vs_ObjectMeta vs) +:+ "/" +:+ route_Route r
  else route_Route r.

(** What [buildVirtualServerRoutes] makes of one route: nothing for a
    route without a reference, and else a VirtualServerRoute or a
    warning. *)
Definition routeOutcome (c : Configuration) (vs : VirtualServer) (r : Route)
    : option (VirtualServerRoute + string) :=
  if bool_decide (route_Route r = "") then None
  else
    match virtualServerRoutes c !! routeKey vs r with
    | None =>
        Some (inr ("VirtualServerRoute " +:+ routeKey vs r +:+ " doesn't exist or invalid"))
    | Some vsr =>
        match ValidateVirtualServerRouteForVirtualServer (virtualServerValidator c)
                vsr (vs_Host vs) (route_Path r) with
        | Some err =>
            Some (inr ("VirtualServerRoute " +:+ routeKey vs r +:+ " is invalid: " +:+ err))
        | None => Some (inl vsr)
        end
    end.

(** The warning that a TransportServer carries when it has lost its
    listener and host to another one. *)
Definition listenerTakenWarning (listenerName host : string) : string :=
  "listener " +:+ listenerName +:+ " and host " +:+ host
  +:+ " are taken by another resource".

(** The listener of the GlobalConfiguration that a TransportServer names,
    if any. *)
Definition listenerOf (c : Configuration) (ts : TransportServer) : option Listener :=
  gc ← globalConfiguration c; findListener ts (gc_Listeners gc).

(** What the listener arbiter has made of the TransportServer [ts] stored
    under [k]: without a listener, a bare configuration; with one, its
    (listener, host) key has a holder, which is [ts] itself, or one over
    which [ts] does not win, and then [ts] carries the warning. *)
Definition listenerClaim (c : Configuration) (lb : listenerBuild)
    (k : string) (ts : TransportServer) : Prop :=
  match listenerOf c ts with
  | None => lb_newTSConfigs lb !! k = Some (NewTransportServerConfiguration ts)
  | Some listener =>
      let made := tsc_setListener listener (NewTransportServerConfiguration ts) in
      ∃ a holder,
        lb_newListenerHosts lb !! ts_listenerHostKey ts = Some a
        ∧ lb_newTSConfigs lb !! a = Some holder
        ∧ if decide (a = k) then holder = made
          else lb_newTSConfigs lb !! k
               = Some (tsc_AddWarning
                         (listenerTakenWarning (ts_ListenerName ts) (ts_Host ts)) made)
               ∧ tsc_Wins made holder = false
  end.

Definition listenerClaims (c : Configuration) (done : list (string * TransportServer))
    (lb : listenerBuild) : Prop :=
  ∀ k ts, (k, ts) ∈ done →
    ts_ListenerProtocol ts ≠ TLSPassthroughListenerProtocol →
    listenerClaim c lb k ts.

(** The marks of its valid hosts that a derived Ingress carries. *)
Definition validHostsOf (r : Resource) : gmap string bool :=
  match r with
  | IngressRes ic => ic_ValidHosts ic
  | _ => ∅
  end.

(** No derived resource has a host marked yet. *)
Definition unmarked (heap : gmap Addr Resource) : Prop :=
  ∀ a r, heap !! a = Some r → validHostsOf r = ∅.

(** The identity of the holder of a host. *)
Definition holderId (heap : gmap Addr Resource) (hosts : gmap string Addr) (h : string)
    : option string :=
  GetKeyWithKind <$> lookupRes heap hosts h.

(** What a host rebuild reads of the first rule of an Ingress without
    checking that it is there: the rule, its HTTP block, and the backend
    service of its first path. *)
Definition hasRule (ing : Ingress) : Prop := is_Some (head (ing_Rules ing)).

Definition hasHTTP (ing : Ingress) : Prop :=
  is_Some (rule ← head (ing_Rules ing); rule_HTTP rule).

Definition hasBackend (ing : Ingress) : Prop :=
  is_Some (rule ← head (ing_Rules ing); http ← rule_HTTP rule;
           path ← head http; hip_BackendService path).

(** An Ingress of which a host rebuild reads nothing that is missing. *)
Definition safeIngress (c : Configuration) (ing : Ingress) : Prop :=
  if isMinion ing then hasHTTP ing
  else (isChallengeIngress c ing = true → hasBackend ing)
       ∧ (isMaster ing = true → hasRule ing).

Definition safeStore (c : Configuration) : Prop :=
  ∀ key ing, ingresses c !! key = Some ing → safeIngress c ing.

(** The argument of a call is safe to store: an Ingress that has the
    right class and passes validation is safe for a rebuild. *)
Definition safeArgument (c : Configuration) (m : Mutation) : Prop :=
  match m with
  | MAddOrUpdateIngress ing =>
      hasCorrectIngressClass c (ObjIngress ing) = true →
      validateIngress ing (isPlus c) (appProtectEnabled c) (appProtectDosEnabled c)
        (internalRoutesEnabled c) (snippetsEnabled c) = None →
      safeIngress c ing
  | _ => True
  end.

(** The holders of the hosts are objects of the heap. *)
Definition hostsInHeap (st : hostBuild) : Prop :=
  ∀ h x, hb_newHosts st !! h = Some x → is_Some (hb_heap st !! x).

(** The minion configurations that the paths and the result list point
    to are objects of the heap. *)
Definition minionsInHeap (st : minionBuild) : Prop :=
  (∀ p k, mb_paths st !! p = Some k → is_Some (mb_heap st !! k))
  ∧ (∀ k, k ∈ mb_minionConfigs st → is_Some (mb_heap st !! k)).

(** Every host that an object of the heap asks for has a holder, which is
    an object of the heap. *)
Definition hostsClaimed (hosts : gmap string Addr) (heap : gmap Addr Resource) : Prop :=
  ∀ a r h, heap !! a = Some r → h ∈ resourceHosts r →
    ∃ x, hosts !! h = Some x ∧ is_Some (heap !! x).

(** Every registered resource is an object of the heap. *)
Definition registered (resources : gmap string Addr) (heap : gmap Addr Resource) : Prop :=
  ∀ K a, resources !! K = Some a → is_Some (heap !! a).

(** *** The paths of the minions of a master *)

(** The paths of the first rule of an Ingress. *)
Definition minionPaths (ing : Ingress) : list string :=
  match head (ing_Rules ing) ≫= rule_HTTP with
  | Some http => hip_Path <$> http
  | None => []
  end.

Definition pathTakenWarning (p : string) : string :=
  "path " +:+ p +:+ " is taken by another resource".

(** The minion Ingresses that [buildMinionConfigs] takes for a master
    host. *)
Definition minionOf (masterHost : string) (ing : Ingress) : bool :=
  isMinion ing && bool_decide (rule_Host <$> head (ing_Rules ing) = Some masterHost).

(** The child warnings filed for a minion. *)
Definition childWarningsOf (childWarnings : gmap string (list string)) (ing : Ingress)
    : list string :=
  default [] (childWarnings !! getResourceKey (ing_ObjectMeta ing)).

(** The claims of paths made so far, in [log]: who has a path marked
    valid holds it; the holder of a path has claimed it; and whoever has
    claimed a path has it marked valid or has the warning, and is the
    holder or does not win over the holder. *)
Definition minionClaims (log : list (string * string)) (st : minionBuild) : Prop :=
  (∀ k p, (k, p) ∈ log →
     ∃ mc k' holder,
       mb_heap st !! k = Some mc ∧ p ∈ minionPaths (mc_Ingress mc)
       ∧ (mc_ValidPaths mc !! p = Some true
          ∨ pathTakenWarning p ∈ childWarningsOf (mb_childWarnings st) (mc_Ingress mc))
       ∧ mb_paths st !! p = Some k' ∧ mb_heap st !! k' = Some holder
       ∧ (k' = k ∨ chooseObjectMetaWinner (ing_ObjectMeta (mc_Ingress mc))
                      (ing_ObjectMeta (mc_Ingress holder)) = false))
  ∧ (∀ p k, mb_paths st !! p = Some k → (k, p) ∈ log)
  ∧ (∀ k mc p, mb_heap st !! k = Some mc →
       (mc_ValidPaths mc !! p = Some true → mb_paths st !! p = Some k)
       ∧ (is_Some (mc_ValidPaths mc !! p) → (k, p) ∈ log)).

(** The invariant of the loop of [buildMinionConfigs], after the entries
    [done] of the store. *)
Definition minionBuildInv (masterHost : string) (done : list (string * Ingress))
    (st : minionBuild) : Prop :=
  mb_minionConfigs st = (filter (λ kv, minionOf masterHost kv.2 = true) done).*1
  ∧ (∀ k mc, mb_heap st !! k = Some mc →
       (k, mc_Ingress mc) ∈ done ∧ minionOf masterHost (mc_Ingress mc) = true)
  ∧ (∀ k, k ∈ mb_minionConfigs st → is_Some (mb_heap st !! k))
  ∧ ∃ log, minionClaims log st
           ∧ ∀ k mc p, mb_heap st !! k = Some mc → p ∈ minionPaths (mc_Ingress mc) →
                       (k, p) ∈ log.

End Store.

(** The functions of the store are unfolded by name in the proofs. *)
Arguments getSortedKeys : simpl never.
Arguments sortedItems : simpl never.
Arguments deref : simpl never.
Arguments detectChangesInHosts : simpl never.
Arguments detectChangesInListenerHosts : simpl never.
Arguments createResourceChangesForHosts : simpl never.
Arguments createResourceChangesForListeners : simpl never.
Arguments squashResourceChanges : simpl never.
Arguments detectChangesInProblems : simpl never.
Arguments buildListenerHostsAndTSConfigurations : simpl never.
Arguments addProblemsForTSConfigsWithoutActiveListener : simpl never.
Arguments rebuildListenerHosts : simpl never.
Arguments buildMinionConfigs : simpl never.
Arguments buildVirtualServerRoutes : simpl never.
Arguments buildListenersForVSConfiguration : simpl never.
Arguments buildHostsAndResources : simpl never.
Arguments updateActiveHostsForIngresses : simpl never.
Arguments addProblemsForResourcesWithoutActiveHost : simpl never.
Arguments addProblemsForOrphanMinions : simpl never.
Arguments addProblemsForOrphanOrIgnoredVsrs : simpl never.
Arguments addWarningsForVirtualServersWithMissConfiguredListeners : simpl never.
Arguments rebuildHosts : simpl never.
Arguments hostOutcome : simpl never.
Arguments listenerOutcome : simpl never.
Arguments rebuildListenerHostsThenHosts : simpl never.
Arguments rebuildForTransportServers : simpl never.
Arguments setGlobalConfigListenerMap : simpl never.
Arguments convertIngressToVSR : simpl never.
Arguments isChallengeIngress : simpl never.
Arguments isChallengeIngressOwnerVs : simpl never.
Arguments claimHost : simpl never.
Arguments register : simpl never.
Arguments GetKeyWithKind : simpl never.
Arguments Wins : simpl never.
Arguments IsEqual : simpl never.
Arguments AddWarning : simpl never.
Arguments hostTakenWarning : simpl never.
Arguments hasPrefix : simpl never.
Arguments routeKey : simpl never.
Arguments routeOutcome : simpl never.

(** ** Settled configurations

    Two calls need not range over their maps in the same order, so what
    relates the store to its rebuilds is stated for an order of its own. *)
Section Settled.

Context {pkg : IngressHelpers}.

(** The hosts and the host problems of [c] are those that a host rebuild
    of its stored resources gives, in some order of ranging. *)
Definition hostsSettled (c : Configuration) : Prop :=
  ∃ (order : RangeOrder) detected latest,
    hostOutcome c = Some (detected, latest, hostProblems c, hosts c).

(** The same for the listener hosts and the listener problems. *)
Definition listenersSettled (c : Configuration) : Prop :=
  ∃ (order : RangeOrder) newTSConfigs,
    listenerOutcome c = Some (listenerHosts c, newTSConfigs, listenerProblems c).

Definition settled (c : Configuration) : Prop :=
  listenersSettled c ∧ hostsSettled c.

End Settled.


(** ** Sample objects

    The objects and stores at which the properties below are evaluated. *)

Module Samples.

Definition meta (namespace name : string) (created : Z) (uid : string) : ObjectMeta :=
  {| Namespace := namespace; Name := name; CreationTimestamp := created; UID := uid;
     Generation := 1; Annotations := None; Labels := ∅ |}.

Definition mergeableType (ing : Ingress) : option string :=
  ann ← Annotations (ing_ObjectMeta ing); ann !! "nginx.org/mergeable-ingress-type".

(** The loops range over the entries of a map as the map lists them, or
    the other way round. *)
#[export] Instance asListed : RangeOrder :=
  {| rangeItems := λ K _ _ V (m : gmap K V), map_to_list m;
     rangeItems_Permutation := λ K _ _ V (m : gmap K V), reflexivity (map_to_list m) |}.

Definition backwards : RangeOrder :=
  {| rangeItems := λ K _ _ V (m : gmap K V), reverse (map_to_list m);
     rangeItems_Permutation := λ K _ _ V (m : gmap K V), reverse_Permutation (map_to_list m) |}.

#[export] Instance helpers : IngressHelpers :=
  {| isMinion ing := bool_decide (mergeableType ing = Some "minion");
     isMaster ing := bool_decide (mergeableType ing = Some "master");
     validateIngress ing _ _ _ _ _ :=
       if bool_decide (ing_Rules ing = []) then Some "spec.rules: Required value"
       else None |}.

Definition vsValidator : VirtualServerValidator :=
  {| ValidateVirtualServer vs :=
       if bool_decide (vs_Host vs = "") then Some "spec.host: Required value" else None;
     ValidateVirtualServerRoute vsr :=
       if bool_decide (vsr_Host vsr = "") then Some "spec.host: Required value" else None;
     ValidateVirtualServerRouteForVirtualServer vsr host path :=
       if bool_decide (vsr_Host vsr = host) then None
       else Some "spec.host: Invalid value" |}.

Definition gcValidator : GlobalConfigurationValidator :=
  {| ValidateGlobalConfiguration gc :=
       if bool_decide (NoDup (l_Name <$> gc_Listeners gc)) then None
       else Some "spec.listeners: Duplicate value" |}.

Definition tsValidator : TransportServerValidator :=
  {| ValidateTransportServer ts :=
       if bool_decide (ts_ListenerName ts = "") then Some "spec.listener.name: Required value"
       else None |}.

(** A fresh store; [passthrough] and [certManager] are the two flags that
    change the rebuilds. *)
Definition store (passthrough certManager : bool) : Configuration :=
  NewConfiguration (λ _, true) false false false false
    vsValidator gcValidator tsValidator passthrough false certManager false.

Definition rule (host path service : string) (port : Z) : IngressRule :=
  {| rule_Host := host;
     rule_HTTP :=
       Some [ {| hip_Path := path;
                 hip_BackendService :=
                   Some {| isb_Name := service; isb_PortNumber := port |} |} ] |}.

Definition ingressA : Ingress :=
  {| ing_ObjectMeta := meta "a" "a" 1 "uid-a";
     ing_Rules := [rule "x.io" "/" "svc-a" 80] |}.

Definition vsB : VirtualServer :=
  {| vs_ObjectMeta := meta "b" "b" 2 "uid-b"; vs_Host := "x.io";
     vs_Listener := None; vs_Routes := [] |}.

Definition tcpListener : Listener :=
  {| l_Name := "tcp-9000"; l_Port := 9000; l_Protocol := "TCP"; l_Ssl := false;
     l_IPv4 := ""; l_IPv6 := "" |}.

Definition udpListener : Listener :=
  {| l_Name := "dns"; l_Port := 53; l_Protocol := "UDP"; l_Ssl := false;
     l_IPv4 := ""; l_IPv6 := "" |}.

Definition gc1 : GlobalConfiguration :=
  {| gc_ObjectMeta := meta "nginx-ingress" "nginx-configuration" 0 "uid-gc";
     gc_Listeners := [tcpListener; udpListener] |}.

(** A GlobalConfiguration that names a listener twice. *)
Definition gcBad : GlobalConfiguration :=
  {| gc_ObjectMeta := meta "nginx-ingress" "nginx-configuration" 0 "uid-gc";
     gc_Listeners := [tcpListener; tcpListener] |}.

(** One TransportServer in two versions: first TLS passthrough, then moved
    to the TCP listener. *)
Definition tsPassthrough : TransportServer :=
  {| ts_ObjectMeta := meta "default" "ts" 3 "uid-ts";
     ts_ListenerName := "tls-passthrough"; ts_ListenerProtocol := "TLS_PASSTHROUGH";
     ts_Host := "secure.io" |}.

Definition tsTcp : TransportServer :=
  {| ts_ObjectMeta := meta "default" "ts" 3 "uid-ts";
     ts_ListenerName := "tcp-9000"; ts_ListenerProtocol := "TCP";
     ts_Host := "secure.io" |}.

(** A TransportServer that has the passthrough listener name but the TCP
    protocol. *)
Definition tsNameOnly : TransportServer :=
  {| ts_ObjectMeta := meta "default" "odd" 4 "uid-odd";
     ts_ListenerName := "tls-passthrough"; ts_ListenerProtocol := "TCP";
     ts_Host := "odd.io" |}.

(** A TransportServer that names the listener [dns] with the protocol TCP,
    where the GlobalConfiguration [gc1] has [dns] with UDP. *)
Definition tsDnsTcp : TransportServer :=
  {| ts_ObjectMeta := meta "default" "dns" 8 "uid-dns";
     ts_ListenerName := "dns"; ts_ListenerProtocol := "TCP"; ts_Host := "" |}.

(** An ACME challenge Ingress of cert-manager for the host of [vsB]. *)
Definition ingressChallenge : Ingress :=
  {| ing_ObjectMeta :=
       {| Namespace := "a"; Name := "acme"; CreationTimestamp := 9; UID := "uid-acme";
          Generation := 1; Annotations := None;
          Labels := {[ "acme.cert-manager.io/http01-solver" := "true" ]} |};
     ing_Rules :=
       [rule "x.io" "/.well-known/acme-challenge/token" "cm-acme-http-solver" 8089] |}.

(** A VirtualServer without a host, which the validator rejects. *)
Definition vsInvalid : VirtualServer :=
  {| vs_ObjectMeta := meta "b" "bad" 5 "uid-bad"; vs_Host := "";
     vs_Listener := None; vs_Routes := [] |}.

(** Two TransportServers created at the same instant, with the UID left
    empty. *)
Definition twinA : TransportServer :=
  {| ts_ObjectMeta := meta "default" "twin-a" 7 "";
     ts_ListenerName := "tcp-9000"; ts_ListenerProtocol := "TCP"; ts_Host := "" |}.

Definition twinB : TransportServer :=
  {| ts_ObjectMeta := meta "default" "twin-b" 7 "";
     ts_ListenerName := "tcp-9000"; ts_ListenerProtocol := "TCP"; ts_Host := "" |}.

(** A minion Ingress for the host [x.io], which [ingressA] claims without
    being a master. *)
Definition ingressMinion : Ingress :=
  {| ing_ObjectMeta :=
       {| Namespace := "a"; Name := "tea"; CreationTimestamp := 6; UID := "uid-tea";
          Generation := 1;
          Annotations := Some {[ "nginx.org/mergeable-ingress-type" := "minion" ]};
          Labels := ∅ |};
     ing_Rules := [rule "x.io" "/tea" "svc-tea" 80] |}.

(** A VirtualServerRoute for the host [x.io], to which [vsB] has no
    route. *)
Definition vsrC : VirtualServerRoute :=
  {| vsr_ObjectMeta := meta "b" "route" 10 "uid-route"; vsr_Host := "x.io";
     vsr_Upstreams := []; vsr_Subroutes := [] |}.

(** A later TransportServer for the listener and host of [tsTcp]. *)
Definition tsTcpLate : TransportServer :=
  {| ts_ObjectMeta := meta "default" "late" 12 "uid-late";
     ts_ListenerName := "tcp-9000"; ts_ListenerProtocol := "TCP";
     ts_Host := "secure.io" |}.

(** A VirtualServer for the host [x.io] that names a listener, created
    after [ingressA]. *)
Definition vsListeners : VirtualServer :=
  {| vs_ObjectMeta := meta "b" "web" 11 "uid-web"; vs_Host := "x.io";
     vs_Listener := Some {| vsl_HTTP := "http-8080"; vsl_HTTPS := "" |};
     vs_Routes := [] |}.

(** Another VirtualServer for the host [x.io] that names a listener. *)
Definition vsListeners2 : VirtualServer :=
  {| vs_ObjectMeta := meta "b" "web2" 14 "uid-web2"; vs_Host := "x.io";
     vs_Listener := Some {| vsl_HTTP := "http-8081"; vsl_HTTPS := "" |};
     vs_Routes := [] |}.

(** A minion Ingress without rules, and a store that holds it. *)
Definition minionNoRules : Ingress :=
  {| ing_ObjectMeta :=
       {| Namespace := "a"; Name := "empty"; CreationTimestamp := 13; UID := "uid-empty";
          Generation := 1;
          Annotations := Some {[ "nginx.org/mergeable-ingress-type" := "minion" ]};
          Labels := ∅ |};
     ing_Rules := [] |}.

Definition storeWithMinionNoRules : Configuration :=
  set_ingresses {[ "a/empty" := minionNoRules ]} (store false false).

(** An older minion Ingress with the path of [ingressMinion], and a store
    that holds the two. *)
Definition ingressMinionOld : Ingress :=
  {| ing_ObjectMeta :=
       {| Namespace := "a"; Name := "tea-old"; CreationTimestamp := 3; UID := "uid-tea-old";
          Generation := 1;
          Annotations := Some {[ "nginx.org/mergeable-ingress-type" := "minion" ]};
          Labels := ∅ |};
     ing_Rules := [rule "x.io" "/tea" "svc-tea-old" 80] |}.

Definition storeWithMinions : Configuration :=
  set_ingresses {[ "a/tea" := ingressMinion; "a/tea-old" := ingressMinionOld ]}
    (store false false).

(** A sequence of mutator calls, keeping the last store. *)
Definition afterCalls (ms : list Mutation) (c : Configuration) : option Configuration :=
  forM (λ m c, '(_, _, c') ← applyMutation c m; Some c') ms c.

(** The changes and the problems of a call made after a sequence of calls
    on a fresh store. *)
Definition outcome (passthrough certManager : bool) (before : list Mutation) (m : Mutation)
    : option (list ResourceChange * list ConfigurationProblem) :=
  c ← afterCalls before (store passthrough certManager);
  '(changes, problems, _) ← applyMutation c m;
  Some (changes, problems).

(** Two equal calls in a row after a sequence of calls, the first one
    ranging over the maps as they list their entries and the second one
    the other way round: the store that the first call leaves, and the
    changes, the problems and the store of the second call. *)
Definition secondCall (passthrough certManager : bool) (before : list Mutation) (m : Mutation)
    : option (Configuration * list ResourceChange * list ConfigurationProblem
              * Configuration) :=
  c ← afterCalls before (store passthrough certManager);
  '(_, _, c') ← applyMutation (order := asListed) c m;
  '(changes, problems, c'') ← applyMutation (order := backwards) c' m;
  Some (c', changes, problems, c'').

(** The identity of the owner of a host after a sequence of calls. *)
Definition hostOwner (passthrough certManager : bool) (calls : list Mutation) (host : string)
    : option string :=
  c ← afterCalls calls (store passthrough certManager);
  GetKeyWithKind <$> hosts c !! host.

End Samples.

(** * Properties *)

Section Properties.

Context {pkg : IngressHelpers} {order : RangeOrder}.

(** ** The conflict order *)

Lemma string_gtb_true s1 s2 : string_gtb s1 s2 = true ↔ ¬ String.le s1 s2.
Proof.
  unfold string_gtb. rewrite negb_true_iff, bool_decide_eq_false. done.
Qed.

Lemma string_gtb_false s1 s2 : string_gtb s1 s2 = false ↔ String.le s1 s2.
Proof.
  unfold string_gtb. rewrite negb_false_iff, bool_decide_eq_true. done.
Qed.

Lemma string_not_le s1 s2 : ¬ String.le s1 s2 → String.le s2 s1 ∧ s1 ≠ s2.
Proof.
  intros Hn. split.
  - destruct (total String.le s1 s2); [done | assumption].
  - intros ->. apply Hn. reflexivity.
Qed.

Lemma string_gtb_trans s1 s2 s3 :
  string_gtb s1 s2 = true → string_gtb s2 s3 = true → string_gtb s1 s3 = true.
Proof.
  rewrite !string_gtb_true. intros H12 H23 H13.
  apply string_not_le in H12 as [H21 _].
  apply H23. by etrans.
Qed.

Lemma string_gtb_asym s1 s2 : string_gtb s1 s2 = true → string_gtb s2 s1 = false.
Proof.
  rewrite string_gtb_true, string_gtb_false. intros H. by apply string_not_le in H as [? _].
Qed.

Lemma string_gtb_total s1 s2 : s1 ≠ s2 → string_gtb s1 s2 = false → string_gtb s2 s1 = true.
Proof.
  rewrite string_gtb_true, string_gtb_false. intros Hne H12 H21.
  apply Hne. by apply (anti_symm String.le).
Qed.

(** The order in closed form: older first, then the greater UID. *)
Lemma chooseObjectMetaWinner_spec meta1 meta2 :
  chooseObjectMetaWinner meta1 meta2 = true ↔
  CreationTimestamp meta1 < CreationTimestamp meta2
  ∨ (CreationTimestamp meta1 = CreationTimestamp meta2
     ∧ string_gtb (UID meta1) (UID meta2) = true).
Proof.
  unfold chooseObjectMetaWinner. case_bool_decide as Heq.
  - split; [intros ?; right; done | intros [? | [_ ?]]; [lia | done]].
  - rewrite bool_decide_eq_true. split; [by left | intros [? | [? _]]; [done | lia]].
Qed.

Lemma chooseObjectMetaWinner_irrefl meta1 meta2 :
  orderKey meta1 = orderKey meta2 → chooseObjectMetaWinner meta1 meta2 = false.
Proof.
  unfold orderKey. intros [= Ht Hu].
  apply not_true_is_false. rewrite chooseObjectMetaWinner_spec. intros [? | [_ H]]; [lia |].
  rewrite Hu in H. apply string_gtb_true in H. apply H. reflexivity.
Qed.

Lemma chooseObjectMetaWinner_asym meta1 meta2 :
  chooseObjectMetaWinner meta1 meta2 = true → chooseObjectMetaWinner meta2 meta1 = false.
Proof.
  rewrite chooseObjectMetaWinner_spec. intros H.
  apply not_true_is_false. rewrite chooseObjectMetaWinner_spec. intros H'.
  destruct H as [? | [? H]], H' as [? | [? H']]; try lia.
  apply string_gtb_asym in H. congruence.
Qed.

Lemma chooseObjectMetaWinner_trans meta1 meta2 meta3 :
  chooseObjectMetaWinner meta1 meta2 = true →
  chooseObjectMetaWinner meta2 meta3 = true →
  chooseObjectMetaWinner meta1 meta3 = true.
Proof.
  rewrite !chooseObjectMetaWinner_spec.
  intros [? | [? H12]] [? | [? H23]]; try (left; lia).
  right. split; [lia |]. by eapply string_gtb_trans.
Qed.

Lemma chooseObjectMetaWinner_total meta1 meta2 :
  orderKey meta1 ≠ orderKey meta2 →
  chooseObjectMetaWinner meta1 meta2 = false →
  chooseObjectMetaWinner meta2 meta1 = true.
Proof.
  unfold orderKey. intros Hne H.
  apply chooseObjectMetaWinner_spec.
  destruct (Z.lt_trichotomy (CreationTimestamp meta1) (CreationTimestamp meta2))
    as [Hlt | [Heq | Hgt]].
  - exfalso. apply not_true_iff_false in H. apply H.
    apply chooseObjectMetaWinner_spec. by left.
  - right. split; [done |]. apply string_gtb_total.
    + intros Hu. apply Hne. by rewrite Heq, Hu.
    + apply not_true_is_false. intros Hg. apply not_true_iff_false in H. apply H.
      apply chooseObjectMetaWinner_spec. by right.
  - left. lia.
Qed.

(** The holder of a key is replaced unless it wins, so what matters along
    a chain of claims is that "does not win" composes. *)
Lemma chooseObjectMetaWinner_neg_trans meta1 meta2 meta3 :
  chooseObjectMetaWinner meta1 meta2 = false →
  chooseObjectMetaWinner meta2 meta3 = false →
  chooseObjectMetaWinner meta1 meta3 = false.
Proof.
  intros H12 H23. apply not_true_is_false. intros H13.
  destruct (decide (orderKey meta1 = orderKey meta2)) as [E12 | N12].
  - unfold orderKey in E12. injection E12 as Et Eu.
    apply not_true_iff_false in H23. apply H23.
    apply chooseObjectMetaWinner_spec. apply chooseObjectMetaWinner_spec in H13.
    rewrite <- Et, <- Eu. done.
  - apply chooseObjectMetaWinner_total in H12; [| done].
    pose proof (chooseObjectMetaWinner_trans _ _ _ H12 H13) as H.
    congruence.
Qed.

(** C6 (amended): of two resources whose (creationTimestamp, uid) pairs
    differ, exactly one wins over the other; [Wins] is transitive, for
    all resources; it is the strict lexicographic order that puts the
    older timestamp first and, on equal timestamps, the greater UID
    first; and of two resources with the same creationTimestamp and the
    same UID neither wins over the other. *)
Theorem Wins_strict_order (a b c : Resource) :
  (orderKey (GetObjectMeta a) ≠ orderKey (GetObjectMeta b) →
   (Wins a b = true ↔ Wins b a = false))
  ∧ (Wins a b = true → Wins b c = true → Wins a c = true)
  ∧ (Wins a b = true ↔
     CreationTimestamp (GetObjectMeta a) < CreationTimestamp (GetObjectMeta b)
     ∨ (CreationTimestamp (GetObjectMeta a) = CreationTimestamp (GetObjectMeta b)
        ∧ ¬ String.le (UID (GetObjectMeta a)) (UID (GetObjectMeta b))))
  ∧ (orderKey (GetObjectMeta a) = orderKey (GetObjectMeta b) →
     Wins a b = false ∧ Wins b a = false).
Proof.
  unfold Wins. split; [| split; [| split]].
  - intros Hne. split.
    + apply chooseObjectMetaWinner_asym.
    + apply chooseObjectMetaWinner_total. congruence.
  - apply chooseObjectMetaWinner_trans.
  - rewrite chooseObjectMetaWinner_spec, string_gtb_true. done.
  - intros Heq. split; by apply chooseObjectMetaWinner_irrefl.
Qed.

(** ** Equality of derived resources *)

Lemma compareObjectMetas_spec meta1 meta2 :
  compareObjectMetas meta1 meta2 = true ↔ sameIdentity meta1 meta2.
Proof.
  unfold compareObjectMetas, sameIdentity.
  rewrite !andb_true_iff, !bool_decide_eq_true. tauto.
Qed.

Lemma allPairs_spec {A} (f : A → A → bool) (xs ys : list A) :
  length xs = length ys →
  allPairs f xs ys = true ↔
  ∀ i x y, xs !! i = Some x → ys !! i = Some y → f x y = true.
Proof.
  unfold allPairs. revert ys. induction xs as [| x xs IH]; intros [| y ys] Hlen;
    simplify_eq/=.
  - split; [intros _ i ? ? H; by destruct i | done].
  - rewrite andb_true_iff, (IH ys) by done. split.
    + intros [Hxy Hrest] [| i] x' y' ? ?; simplify_eq/=; eauto.
    + intros H. split; [apply (H 0%nat); done | intros i; apply (H (S i))].
Qed.

(** C9 (amended): two VirtualServerConfigurations are equal exactly when
    the VirtualServers agree on namespace, name and generation and the two
    route lists have the same length and agree on namespace, name and
    generation position by position; two TransportServerConfigurations
    are equal exactly when the TransportServers agree on namespace, name
    and generation and the listener ports are equal. *)
Theorem IsEqual_VirtualServer_TransportServer :
  (∀ vsc1 vsc2 : VirtualServerConfiguration,
     IsEqual (VirtualServerRes vsc1) (VirtualServerRes vsc2) = true ↔
     sameIdentity (vs_ObjectMeta (vsc_VirtualServer vsc1))
                  (vs_ObjectMeta (vsc_VirtualServer vsc2))
     ∧ length (vsc_VirtualServerRoutes vsc1) = length (vsc_VirtualServerRoutes vsc2)
     ∧ ∀ i r1 r2,
         vsc_VirtualServerRoutes vsc1 !! i = Some r1 →
         vsc_VirtualServerRoutes vsc2 !! i = Some r2 →
         sameIdentity (vsr_ObjectMeta r1) (vsr_ObjectMeta r2))
  ∧ (∀ tsc1 tsc2 : TransportServerConfiguration,
       IsEqual (TransportServerRes tsc1) (TransportServerRes tsc2) = true ↔
       sameIdentity (ts_ObjectMeta (tsc_TransportServer tsc1))
                    (ts_ObjectMeta (tsc_TransportServer tsc2))
       ∧ tsc_ListenerPort tsc1 = tsc_ListenerPort tsc2).
Proof.
  split.
  - intros vsc1 vsc2. unfold IsEqual, vsc_IsEqual.
    destruct (compareObjectMetas _ _) eqn:Hm; simpl.
    + apply compareObjectMetas_spec in Hm. case_bool_decide as Hlen; simpl.
      * rewrite allPairs_spec by done. split.
        -- intros H. split; [done | split; [done |]].
           intros i r1 r2 ? ?. apply compareObjectMetas_spec. eauto.
        -- intros (_ & _ & H) i r1 r2 ? ?. apply compareObjectMetas_spec. eauto.
      * split; [done | intros (_ & ? & _); done].
    + split; [done |]. intros [H _]. apply compareObjectMetas_spec in H. congruence.
  - intros tsc1 tsc2. unfold IsEqual, tsc_IsEqual.
    rewrite andb_true_iff, compareObjectMetas_spec, bool_decide_eq_true. done.
Qed.

(** ** Sorted keys *)

Lemma elem_of_getSortedKeys {V} (m : gmap string V) k :
  k ∈ getSortedKeys m ↔ is_Some (m !! k).
Proof.
  unfold getSortedKeys. rewrite merge_sort_Permutation, list_elem_of_fmap. split.
  - intros [[k' v] [-> Hin]]. apply elem_of_map_to_list in Hin. eauto.
  - intros [v Hv]. exists (k, v). split; [done |]. by apply elem_of_map_to_list.
Qed.

Lemma NoDup_getSortedKeys {V} (m : gmap string V) : NoDup (getSortedKeys m).
Proof.
  unfold getSortedKeys. rewrite merge_sort_Permutation. apply NoDup_fst_map_to_list.
Qed.

Lemma getSortedKeys_empty {V} (m : gmap string V) : m = ∅ → getSortedKeys m = [].
Proof. intros ->. unfold getSortedKeys. by rewrite map_to_list_empty. Qed.

Lemma elem_of_sortedItems {V} (m : gmap string V) k v :
  (k, v) ∈ sortedItems m ↔ m !! k = Some v.
Proof.
  unfold sortedItems. rewrite list_elem_of_omap. split.
  - intros (k' & _ & Hk). destruct (m !! k') eqn:E; simplify_eq/=. done.
  - intros Hk. exists k. split; [apply elem_of_getSortedKeys; eauto |]. by rewrite Hk.
Qed.

Lemma sortedItems_fst {V} (m : gmap string V) : (sortedItems m).*1 = getSortedKeys m.
Proof.
  unfold sortedItems.
  assert (Forall (λ k, is_Some (m !! k)) (getSortedKeys m)) as H.
  { apply Forall_forall. intros k. apply elem_of_getSortedKeys. }
  induction H as [| k l [v Hv] _ IH]; [done |].
  cbn. rewrite Hv. cbn. by f_equal.
Qed.

Lemma NoDup_sortedItems_fst {V} (m : gmap string V) : NoDup (sortedItems m).*1.
Proof. rewrite sortedItems_fst. apply NoDup_getSortedKeys. Qed.

(** ** The order of a range *)

Lemma elem_of_rangeItems {K} `{Countable K} {V} (m : gmap K V) k v :
  (k, v) ∈ rangeItems m ↔ m !! k = Some v.
Proof. rewrite rangeItems_Permutation. apply elem_of_map_to_list. Qed.

Lemma NoDup_rangeItems_fst {K} `{Countable K} {V} (m : gmap K V) : NoDup (rangeItems m).*1.
Proof. rewrite rangeItems_Permutation. apply NoDup_fst_map_to_list. Qed.

Lemma length_rangeItems {K} `{Countable K} {V} (m : gmap K V) :
  length (rangeItems m) = size m.
Proof. rewrite rangeItems_Permutation. apply length_map_to_list. Qed.

Lemma elem_of_getSortedListenerHostKeys
    (m : gmap listenerHostKey TransportServerConfiguration) k :
  k ∈ getSortedListenerHostKeys m ↔ is_Some (m !! k).
Proof.
  unfold getSortedListenerHostKeys. rewrite merge_sort_Permutation, list_elem_of_fmap. split.
  - intros [[k' v] [-> Hin]]. apply elem_of_rangeItems in Hin. eauto.
  - intros [v Hv]. exists (k, v). split; [done |]. by apply elem_of_rangeItems.
Qed.

Lemma NoDup_getSortedListenerHostKeys
    (m : gmap listenerHostKey TransportServerConfiguration) :
  NoDup (getSortedListenerHostKeys m).
Proof.
  unfold getSortedListenerHostKeys. rewrite merge_sort_Permutation.
  apply NoDup_rangeItems_fst.
Qed.

Lemma length_getSortedListenerHostKeys
    (m : gmap listenerHostKey TransportServerConfiguration) :
  length (getSortedListenerHostKeys m) = size m.
Proof.
  unfold getSortedListenerHostKeys.
  by rewrite merge_sort_Permutation, length_fmap, length_rangeItems.
Qed.

(** ** Change detection *)

(** C7: the removed hosts are those of the old map that the new map
    lacks, the added hosts those of the new map that the old map lacks,
    and the updated hosts those of both maps whose owners are not equal
    under [IsEqual], or are two VirtualServerConfigurations that differ
    in HTTPPort, HTTPSPort, HTTPIPv4 or HTTPIPv6. *)
Theorem detectChangesInHosts_spec (oldHosts newHosts : gmap string Resource) :
  let '(removedHosts, updatedHosts, addedHosts) :=
    detectChangesInHosts oldHosts newHosts in
  (∀ h, h ∈ removedHosts ↔ is_Some (oldHosts !! h) ∧ newHosts !! h = None)
  ∧ (∀ h, h ∈ addedHosts ↔ is_Some (newHosts !! h) ∧ oldHosts !! h = None)
  ∧ (∀ h, h ∈ updatedHosts ↔
       ∃ oldR newR,
         oldHosts !! h = Some oldR ∧ newHosts !! h = Some newR
         ∧ (IsEqual oldR newR = false
            ∨ ∃ oldVsc newVsc,
                oldR = VirtualServerRes oldVsc ∧ newR = VirtualServerRes newVsc
                ∧ (vsc_HTTPPort newVsc ≠ vsc_HTTPPort oldVsc
                   ∨ vsc_HTTPSPort newVsc ≠ vsc_HTTPSPort oldVsc
                   ∨ vsc_HTTPIPv4 newVsc ≠ vsc_HTTPIPv4 oldVsc
                   ∨ vsc_HTTPIPv6 newVsc ≠ vsc_HTTPIPv6 oldVsc))).
Proof.
  unfold detectChangesInHosts, getSortedResourceKeys. split; [| split]; intros h.
  - rewrite list_elem_of_filter, elem_of_getSortedKeys. tauto.
  - rewrite list_elem_of_filter, elem_of_getSortedKeys. tauto.
  - rewrite list_elem_of_bind. split.
    + intros (h' & Hin & Hh'). apply elem_of_getSortedKeys in Hh' as [newR HnewR].
      rewrite HnewR in Hin.
      destruct (oldHosts !! h') as [oldR |] eqn:HoldR; [| by apply elem_of_nil in Hin].
      destruct (IsEqual oldR newR) eqn:Heq; simpl in Hin.
      * destruct newR as [| newVsc |], oldR as [| oldVsc |];
          try by apply elem_of_nil in Hin.
        exists (VirtualServerRes oldVsc), (VirtualServerRes newVsc).
        rewrite !elem_of_app in Hin.
        assert (h = h') as ->.
        { destruct Hin as [Hin | [Hin | Hin]]; case_bool_decide;
            first [by apply elem_of_nil in Hin | by apply list_elem_of_singleton in Hin]. }
        split; [done | split; [done |]]. right. eexists _, _. split; [done | split; [done |]].
        destruct Hin as [Hin | [Hin | Hin]]; case_bool_decide as Hd;
          try (by apply elem_of_nil in Hin); tauto.
      * apply list_elem_of_singleton in Hin as ->. exists oldR, newR. auto.
    + intros (oldR & newR & HoldR & HnewR & Hdiff). exists h.
      split; [| apply elem_of_getSortedKeys; eauto].
      rewrite HoldR, HnewR.
      destruct (IsEqual oldR newR) eqn:Heq; simpl; [| by apply list_elem_of_singleton].
      destruct Hdiff as [? | (oldVsc & newVsc & -> & -> & Hd)]; [done |].
      rewrite !elem_of_app.
      destruct (decide (vsc_HTTPPort newVsc ≠ vsc_HTTPPort oldVsc
                        ∨ vsc_HTTPSPort newVsc ≠ vsc_HTTPSPort oldVsc)) as [Hp | Hp].
      { left. rewrite bool_decide_eq_true_2 by done. by apply list_elem_of_singleton. }
      destruct (decide (vsc_HTTPIPv4 newVsc ≠ vsc_HTTPIPv4 oldVsc)) as [H4 | H4].
      { right; left. rewrite bool_decide_eq_true_2 by done. by apply list_elem_of_singleton. }
      right; right. rewrite bool_decide_eq_true_2; [by apply list_elem_of_singleton |].
      tauto.
Qed.

(** ** Shape of a change list *)

Lemma uniqueByIdentity_views l1 l2 :
  changeView <$> l1 = changeView <$> l2 → uniqueByIdentity l1 → uniqueByIdentity l2.
Proof.
  unfold uniqueByIdentity. intros Hv.
  assert (rc_key <$> l1 = rc_key <$> l2) as ->; [| done].
  apply (f_equal (fmap snd)) in Hv. by rewrite <- !list_fmap_compose in Hv.
Qed.

Lemma deletesFirst_views l1 l2 :
  changeView <$> l1 = changeView <$> l2 → deletesFirst l1 → deletesFirst l2.
Proof.
  intros Hv H i j ci cj Hi Hj Hdi Hdj.
  assert (∀ n c, l2 !! n = Some c → ∃ c', l1 !! n = Some c' ∧ Op c' = Op c) as Hback.
  { intros n c Hn.
    assert ((changeView <$> l1) !! n = Some (changeView c)) as Hn'.
    { rewrite Hv, list_lookup_fmap, Hn. done. }
    rewrite list_lookup_fmap in Hn'.
    destruct (l1 !! n) as [c' |]; simplify_eq/=. exists c'. split; [done |].
    unfold changeView in *. congruence. }
  destruct (Hback _ _ Hi) as (ci' & Hi' & Ei), (Hback _ _ Hj) as (cj' & Hj' & Ej).
  eapply H; eauto; congruence.
Qed.

(** An upsert followed by a delete of the same identity is neither free
    of repeats nor ordered. *)
Lemma upsert_then_delete_not_squashed l k :
  changeView <$> l = [(AddOrUpdate, k); (Delete, k)] →
  changeView <$> l = [(AddOrUpdate, k); (Delete, k)]
  ∧ ¬ uniqueByIdentity l ∧ ¬ deletesFirst l.
Proof.
  intros Hv. split; [done |].
  destruct l as [| c1 [| c2 [| c3 l]]]; simplify_eq/=.
  unfold changeView in *.
  match goal with E : (_, _) = (_, _) |- _ => injection E as Ho1 Hk1 end.
  match goal with E : (_, _) = (_, _) |- _ => injection E as Ho2 Hk2 end.
  split.
  - unfold uniqueByIdentity. cbn. rewrite NoDup_cons. intros [Hn _]. apply Hn.
    rewrite Hk1, Hk2. left.
  - intros Hd. specialize (Hd 1%nat 0%nat c2 c1 eq_refl eq_refl).
    assert (1 < 0)%nat; [apply Hd; done | lia].
Qed.

(** ** Squashing *)

Lemma groupChanges_wellKeyed changes : wellKeyed (groupChanges changes).
Proof.
  unfold groupChanges.
  assert (wellKeyed ∅) as Hempty by (intros k l c Hk; by rewrite lookup_empty in Hk).
  revert Hempty. generalize (∅ : gmap string (list ResourceChange)).
  induction changes as [| c changes IH]; intros m Hm; [done |].
  simpl. apply IH. intros k l c' Hk Hc'.
  destruct (decide (rc_key c = k)) as [<- | Hne].
  - rewrite lookup_insert_eq in Hk. simplify_eq.
    apply elem_of_app in Hc' as [Hc' | Hc'].
    + destruct (m !! rc_key c) as [l0 |] eqn:E; simpl in Hc'; [by eapply Hm |].
      by apply elem_of_nil in Hc'.
    + by apply list_elem_of_singleton in Hc' as ->.
  - rewrite lookup_insert_ne in Hk by done. by eapply Hm.
Qed.

Lemma wellKeyed_delete k m : wellKeyed m → wellKeyed (delete k m).
Proof.
  intros Hm k' l c Hk'. apply lookup_delete_Some in Hk' as [_ Hk']. by eapply Hm.
Qed.

Lemma NoDup_keys_snoc (l1 l2 : list ResourceChange) (sq : ResourceChange) :
  NoDup (rc_key <$> (l1 ++ l2)) →
  (∀ c, c ∈ l1 ++ l2 → rc_key c ≠ rc_key sq) →
  NoDup (rc_key <$> ((l1 ++ [sq]) ++ l2)) ∧ NoDup (rc_key <$> (l1 ++ (l2 ++ [sq]))).
Proof.
  intros Hnd Hfresh.
  assert (rc_key sq ∉ rc_key <$> (l1 ++ l2)) as Hnotin.
  { intros (c & Hc & Hin)%list_elem_of_fmap. by eapply Hfresh. }
  assert (NoDup (rc_key <$> (sq :: l1 ++ l2))) as Hcons.
  { rewrite fmap_cons. by apply NoDup_cons. }
  split.
  - assert ((l1 ++ [sq]) ++ l2 ≡ₚ sq :: l1 ++ l2) as ->; [| done].
    rewrite <- app_assoc. simpl. by rewrite <- Permutation_middle.
  - assert (l1 ++ l2 ++ [sq] ≡ₚ sq :: l1 ++ l2) as ->; [| done].
    rewrite app_assoc. by rewrite <- Permutation_cons_append.
Qed.

Lemma squashStep_inv acc c : squashInv acc → squashInv (squashStep acc c).
Proof.
  destruct acc as [[deletes updates] m]. intros (Hd & Hu & Hnd & Hnone & Hwk).
  unfold squashStep.
  destruct (m !! rc_key c) as [resChanges |] eqn:Hm; [| done].
  assert (∀ x, x ∈ deletes ++ updates → delete (rc_key c) m !! rc_key x = None) as Hnone'.
  { intros x Hx. apply lookup_delete_None. right. by apply Hnone. }
  destruct (last resChanges) as [sq |] eqn:Hlast.
  2:{ repeat split; try done. by apply wellKeyed_delete. }
  assert (rc_key sq = rc_key c) as Hkey.
  { eapply Hwk; [done |]. apply last_Some in Hlast as [l' ->].
    apply elem_of_app. right. by apply list_elem_of_singleton. }
  assert (∀ x, x ∈ deletes ++ updates → rc_key x ≠ rc_key sq) as Hfresh.
  { intros x Hx Heq. apply Hnone in Hx. congruence. }
  destruct (NoDup_keys_snoc deletes updates sq Hnd Hfresh) as [Hnd1 Hnd2].
  case_bool_decide as Hop.
  - repeat split; try done.
    + apply Forall_app. split; [done |]. by apply Forall_singleton.
    + intros x Hx. rewrite <- app_assoc in Hx. simpl in Hx.
      apply elem_of_app in Hx as [Hx | Hx].
      * apply Hnone'. apply elem_of_app. by left.
      * apply elem_of_cons in Hx as [-> | Hx].
        -- rewrite Hkey. apply lookup_delete_eq.
        -- apply Hnone'. apply elem_of_app. by right.
    + by apply wellKeyed_delete.
  - repeat split; try done.
    + apply Forall_app. split; [done |]. apply Forall_singleton.
      by destruct (Op sq).
    + intros x Hx. rewrite app_assoc in Hx.
      apply elem_of_app in Hx as [Hx | Hx].
      * by apply Hnone'.
      * apply list_elem_of_singleton in Hx as ->. rewrite Hkey. apply lookup_delete_eq.
    + by apply wellKeyed_delete.
Qed.

Lemma squash_fold_inv l acc : squashInv acc → squashInv (foldl squashStep acc l).
Proof.
  revert acc. induction l as [| c l IH]; intros acc Hacc; [done |].
  simpl. apply IH. by apply squashStep_inv.
Qed.

Lemma deletesFirst_app deletes updates :
  Forall (λ c, Op c = Delete) deletes →
  Forall (λ c, Op c = AddOrUpdate) updates →
  deletesFirst (deletes ++ updates).
Proof.
  intros Hd Hu i j ci cj Hi Hj Hdel Hupd.
  destruct (decide (i < length deletes)%nat) as [Hlt | Hge].
  - destruct (decide (j < length deletes)%nat) as [Hjlt | Hjge]; [| lia].
    rewrite lookup_app_l in Hj by done.
    apply list_elem_of_lookup_2 in Hj.
    rewrite Forall_forall in Hd. apply Hd in Hj. congruence.
  - rewrite lookup_app_r in Hi by lia.
    apply list_elem_of_lookup_2 in Hi.
    rewrite Forall_forall in Hu. apply Hu in Hi. congruence.
Qed.

(** The squashed list names every resource once and has its deletes
    first. *)
Lemma squashResourceChanges_squashed changes :
  uniqueByIdentity (squashResourceChanges changes)
  ∧ deletesFirst (squashResourceChanges changes).
Proof.
  unfold squashResourceChanges.
  pose proof (squash_fold_inv changes ([], [], groupChanges changes)) as H.
  destruct (foldl squashStep ([], [], groupChanges changes) changes)
    as [[deletes updates] m].
  destruct H as (Hd & Hu & Hnd & _ & _).
  { repeat split; try done.
    - constructor.
    - intros c Hc. by apply elem_of_nil in Hc.
    - apply groupChanges_wellKeyed. }
  split; [done | by apply deletesFirst_app].
Qed.

(** ** Loops *)

Lemma forM_app {A S} (f : A → S → option S) l1 l2 s :
  forM f (l1 ++ l2) s = forM f l1 s ≫= forM f l2.
Proof.
  revert s. induction l1 as [| x l1 IH]; intros s; [done |].
  simpl. destruct (f x s) as [s' |]; simpl; [apply IH | done].
Qed.

(** An invariant that every step keeps holds at the end of the loop; the
    step sees the elements done before it. *)
Lemma forM_ind {A S} (f : A → S → option S) (P : list A → S → Prop) l s s' :
  P [] s →
  (∀ pre x post t t', l = pre ++ x :: post → P pre t → f x t = Some t' → P (pre ++ [x]) t') →
  forM f l s = Some s' → P l s'.
Proof.
  intros H0 Hstep.
  assert (∀ pre rest t, l = pre ++ rest → P pre t → forM f rest t = Some s' → P l s') as Hgen.
  { intros pre rest. revert pre. induction rest as [| x rest IH]; intros pre t Hl Hp Hrun.
    - simpl in Hrun. simplify_eq. by rewrite app_nil_r.
    - simpl in Hrun. destruct (f x t) as [t' |] eqn:Hf; [| done]. simpl in Hrun.
      apply (IH (pre ++ [x]) t'); [by rewrite <- app_assoc | | done].
      eapply Hstep; eauto. }
  intros Hrun. by apply (Hgen [] l s).
Qed.

Lemma bind_nil {A B} (f : A → list B) (l : list A) :
  (∀ x, x ∈ l → f x = []) → l ≫= f = [].
Proof.
  induction l as [| x l IH]; intros H; [done |].
  cbn. rewrite (H x) by left. simpl. apply IH. intros y Hy. apply H. by right.
Qed.

Lemma filter_nil {A} (P : A → Prop) `{∀ x, Decision (P x)} (l : list A) :
  (∀ x, x ∈ l → ¬ P x) → filter P l = [].
Proof.
  induction l as [| x l IH]; intros Hl; [done |].
  rewrite filter_cons_False by (apply Hl; left). apply IH. intros y Hy. apply Hl. by right.
Qed.

(** ** The two rebuilds, split in what they compute and what they compare *)

Lemma rebuildHosts_alt c :
  rebuildHosts c =
  '(detected, latest, newProblems, finalHosts) ← hostOutcome c;
  let '(removedHosts, updatedHosts, addedHosts) :=
    detectChangesInHosts (hosts c) detected in
  changes ← createResourceChangesForHosts removedHosts updatedHosts addedHosts
              (hosts c) detected;
  Some (refresh latest <$> squashResourceChanges changes,
        detectChangesInProblems newProblems (hostProblems c),
        set_hosts finalHosts newProblems c).
Proof.
  unfold rebuildHosts, hostOutcome.
  destruct (buildHostsAndResources c) as [st |]; [| done]. cbn.
  destruct (updateActiveHostsForIngresses _ _ _) as [heap |]; [| done]. cbn.
  destruct (detectChangesInHosts _ _) as [[removedHosts updatedHosts] addedHosts] eqn:Hd.
  destruct (addProblemsForResourcesWithoutActiveHost _ _ _ _) as [p1 |]; cbn.
  2:{ by destruct (createResourceChangesForHosts _ _ _ _ _). }
  destruct (addProblemsForOrphanMinions _ _ _ _) as [p2 |]; cbn.
  2:{ by destruct (createResourceChangesForHosts _ _ _ _ _). }
  destruct (addWarningsForVirtualServersWithMissConfiguredListeners _ _ _ _) as [heap' |]; cbn.
  2:{ by destruct (createResourceChangesForHosts _ _ _ _ _). }
  rewrite Hd. by destruct (createResourceChangesForHosts _ _ _ _ _).
Qed.

Lemma rebuildListenerHosts_alt c :
  rebuildListenerHosts c =
  '(newListenerHosts, newTSConfigs, newProblems) ← listenerOutcome c;
  let '(removedListenerHosts, updatedListenerHosts, addedListenerHosts) :=
    detectChangesInListenerHosts (listenerHosts c) newListenerHosts in
  changes ← createResourceChangesForListeners removedListenerHosts updatedListenerHosts
              addedListenerHosts (listenerHosts c) newListenerHosts;
  Some (refresh (TransportServerRes <$> newTSConfigs) <$> squashResourceChanges changes,
        detectChangesInProblems newProblems (listenerProblems c),
        set_listenerHosts newListenerHosts newProblems c).
Proof.
  unfold rebuildListenerHosts, listenerOutcome.
  destruct (buildListenerHostsAndTSConfigurations c) as [lb |]; [| done]. cbn.
  destruct (detectChangesInListenerHosts _ _) as [[r u] a]. done.
Qed.

(** Neither outcome reads what a rebuild writes. *)
Lemma hostOutcome_set_hosts c h p : hostOutcome (set_hosts h p c) = hostOutcome c.
Proof. reflexivity. Qed.

Lemma hostOutcome_set_listenerHosts c h p :
  hostOutcome (set_listenerHosts h p c) = hostOutcome c.
Proof. reflexivity. Qed.

Lemma listenerOutcome_set_hosts c h p : listenerOutcome (set_hosts h p c) = listenerOutcome c.
Proof. reflexivity. Qed.

Lemma listenerOutcome_set_listenerHosts c h p :
  listenerOutcome (set_listenerHosts h p c) = listenerOutcome c.
Proof. reflexivity. Qed.

(** ** A rebuild of an unchanged store *)

Lemma compareObjectMetas_refl meta : compareObjectMetas meta meta = true.
Proof. apply compareObjectMetas_spec. done. Qed.

Lemma compareObjectMetasWithAnnotations_refl meta :
  compareObjectMetasWithAnnotations meta meta = true.
Proof.
  unfold compareObjectMetasWithAnnotations.
  by rewrite compareObjectMetas_refl, bool_decide_eq_true_2.
Qed.

Lemma allPairs_refl {A} (f : A → A → bool) (xs : list A) :
  (∀ x, f x x = true) → allPairs f xs xs = true.
Proof.
  intros Hf. apply allPairs_spec; [done |].
  intros i x y Hx Hy. simplify_eq. apply Hf.
Qed.

Lemma tsc_IsEqual_refl tsc : tsc_IsEqual tsc tsc = true.
Proof.
  unfold tsc_IsEqual. by rewrite compareObjectMetas_refl, bool_decide_eq_true_2.
Qed.

Lemma IsEqual_refl r : IsEqual r r = true.
Proof.
  destruct r as [ic | vsc | tsc]; unfold IsEqual.
  - unfold ic_IsEqual.
    rewrite compareObjectMetasWithAnnotations_refl. simpl.
    rewrite !bool_decide_eq_true_2 by done. simpl.
    apply allPairs_refl. intros. apply compareObjectMetasWithAnnotations_refl.
  - unfold vsc_IsEqual. rewrite compareObjectMetas_refl. simpl.
    rewrite bool_decide_eq_true_2 by done. simpl.
    apply allPairs_refl. intros. apply compareObjectMetas_refl.
  - apply tsc_IsEqual_refl.
Qed.

Lemma IsEqual_stripWarnings r1 r2 :
  IsEqual r1 r2 = IsEqual (stripWarnings r1) (stripWarnings r2).
Proof. by destruct r1, r2. Qed.

Lemma stripWarnings_AddWarning w r : stripWarnings (AddWarning w r) = stripWarnings r.
Proof. by destruct r. Qed.

Lemma fmap_alter_absorb {K} `{Countable K} {A B} (g : A → B) (f : A → A) (a : K)
    (m : gmap K A) :
  (∀ x, g (f x) = g x) → g <$> alter f a m = g <$> m.
Proof.
  intros Hgf. apply map_eq. intros k. rewrite !lookup_fmap.
  destruct (decide (a = k)) as [-> | Hne].
  - rewrite lookup_alter_eq. destruct (m !! k); simpl; by rewrite ?Hgf.
  - by rewrite lookup_alter_ne.
Qed.

Lemma lookup_deref {K A} `{Countable K} `{Countable A} {V} (heap : gmap A V)
    (m : gmap K A) k :
  deref heap m !! k = m !! k ≫= (heap !!.).
Proof. unfold deref. by rewrite lookup_omap. Qed.

Lemma deref_fmap {K A} `{Countable K} `{Countable A} {V W} (g : V → W) (heap : gmap A V)
    (m : gmap K A) :
  g <$> deref heap m = deref (g <$> heap) m.
Proof.
  apply map_eq. intros k. rewrite lookup_fmap, !lookup_deref.
  destruct (m !! k) as [a |]; simpl; [| done]. by rewrite lookup_fmap.
Qed.

Lemma addWarnings_stripWarnings c hosts resources heap heap' :
  addWarningsForVirtualServersWithMissConfiguredListeners c hosts resources heap = Some heap' →
  stripWarnings <$> heap' = stripWarnings <$> heap.
Proof.
  unfold addWarningsForVirtualServersWithMissConfiguredListeners.
  apply (forM_ind _ (λ _ h, stripWarnings <$> h = stripWarnings <$> heap)); [done |].
  intros pre kv post t t' _ IH Hstep.
  destruct (t !! kv.2) as [r |]; simplify_eq/=.
  destruct r as [| vsc |]; simplify_eq/=; try done.
  destruct (vs_Listener (vsc_VirtualServer vsc)) as [listener |]; simplify_eq/=; [| done].
  destruct (listenerWarning c listener) as [w |]; simplify_eq/=; [| done].
  destruct (hosts !! vs_Host (vsc_VirtualServer vsc)) as [holder |]; simplify_eq/=.
  rewrite fmap_alter_absorb; [done |]. apply stripWarnings_AddWarning.
Qed.

(** The hosts a rebuild stores are the hosts it compared, warnings apart. *)
Lemma hostOutcome_final c detected latest newProblems finalHosts :
  hostOutcome c = Some (detected, latest, newProblems, finalHosts) →
  stripWarnings <$> finalHosts = stripWarnings <$> detected.
Proof.
  unfold hostOutcome. intros Hc.
  destruct (buildHostsAndResources c) as [st |]; simplify_eq/=.
  destruct (updateActiveHostsForIngresses _ _ _) as [heap |]; simplify_eq/=.
  destruct (addProblemsForResourcesWithoutActiveHost _ _ _ _) as [p1 |]; simplify_eq/=.
  destruct (addProblemsForOrphanMinions _ _ _ _) as [p2 |]; simplify_eq/=.
  destruct (addWarningsForVirtualServersWithMissConfiguredListeners _ _ _ _)
    as [heap' |] eqn:Hw; simplify_eq/=.
  rewrite !deref_fmap. f_equal. by eapply addWarnings_stripWarnings.
Qed.

Lemma detectChangesInHosts_stable (finalHosts detected : gmap string Resource) :
  stripWarnings <$> finalHosts = stripWarnings <$> detected →
  detectChangesInHosts finalHosts detected = ([], [], []).
Proof.
  intros Heq.
  assert (∀ h, stripWarnings <$> finalHosts !! h = stripWarnings <$> detected !! h) as Hl.
  { intros h. by rewrite <- !lookup_fmap, Heq. }
  unfold detectChangesInHosts, getSortedResourceKeys. f_equal; [f_equal |].
  - apply filter_nil. intros h Hh%elem_of_getSortedKeys Hnone.
    specialize (Hl h). rewrite Hnone in Hl. destruct Hh as [r Hr]. by rewrite Hr in Hl.
  - apply bind_nil. intros h _. specialize (Hl h).
    destruct (finalHosts !! h) as [oldR |], (detected !! h) as [newR |]; simplify_eq/=;
      try done.
    rewrite IsEqual_stripWarnings, Hl, IsEqual_refl. simpl.
    destruct newR as [| newVsc |], oldR as [| oldVsc |]; simplify_eq/=; try done.
    rewrite !bool_decide_eq_false_2; [done | | |]; intros ?; try tauto.
    all: match goal with Hn : _ |- _ => (destruct Hn; congruence) || congruence end.
  - apply filter_nil. intros h Hh%elem_of_getSortedKeys Hnone.
    specialize (Hl h). rewrite Hnone in Hl. destruct Hh as [r Hr]. by rewrite Hr in Hl.
Qed.

Lemma detectChangesInListenerHosts_stable
    (m : gmap listenerHostKey TransportServerConfiguration) :
  detectChangesInListenerHosts m m = ([], [], []).
Proof.
  assert (∀ k, k ∈ getSortedListenerHostKeys m → is_Some (m !! k)) as Hk.
  { intros k. apply elem_of_getSortedListenerHostKeys. }
  unfold detectChangesInListenerHosts. f_equal; [f_equal |].
  - apply filter_nil. intros k [v Hv]%Hk. congruence.
  - apply bind_nil. intros k [v Hv]%Hk. by rewrite Hv, tsc_IsEqual_refl.
  - apply filter_nil. intros k [v Hv]%Hk. congruence.
Qed.

Lemma compareConfigurationProblems_refl p : compareConfigurationProblems p p = true.
Proof. unfold compareConfigurationProblems. by rewrite !bool_decide_eq_true_2. Qed.

(** C4, the sentence of the problem tracker: the same problems again
    yield no output. *)
Lemma detectChangesInProblems_stable (problems : gmap string ConfigurationProblem) :
  detectChangesInProblems problems problems = [].
Proof.
  unfold detectChangesInProblems. apply bind_nil. intros key _.
  destruct (problems !! key) as [p |]; [| done].
  by rewrite compareConfigurationProblems_refl.
Qed.

(** ** The mutators *)

Lemma rebuildHosts_frame c changes problems c' :
  rebuildHosts c = Some (changes, problems, c') →
  ∃ h p, c' = set_hosts h p c.
Proof.
  rewrite rebuildHosts_alt. intros Hc.
  destruct (hostOutcome c) as [[[[detected latest] newProblems] finalHosts] |];
    simplify_eq/=.
  destruct (detectChangesInHosts (hosts c) detected) as [[r u] a].
  destruct (createResourceChangesForHosts _ _ _ _ _); simplify_eq/=. eauto.
Qed.

Lemma rebuildListenerHosts_frame c changes problems c' :
  rebuildListenerHosts c = Some (changes, problems, c') →
  ∃ h p, c' = set_listenerHosts h p c.
Proof.
  rewrite rebuildListenerHosts_alt. intros Hc.
  destruct (listenerOutcome c) as [[[newListenerHosts newTSConfigs] newProblems] |];
    simplify_eq/=.
  destruct (detectChangesInListenerHosts (listenerHosts c) newListenerHosts) as [[r u] a].
  destruct (createResourceChangesForListeners _ _ _ _ _); simplify_eq/=. eauto.
Qed.

Lemma rebuildListenerHosts_set_hosts c h p :
  rebuildListenerHosts (set_hosts h p c) =
  '(changes, problems, c') ← rebuildListenerHosts c;
  Some (changes, problems, set_hosts h p c').
Proof.
  rewrite !rebuildListenerHosts_alt, listenerOutcome_set_hosts.
  destruct (listenerOutcome c) as [[[newListenerHosts newTSConfigs] newProblems] |];
    [| done].
  cbn -[detectChangesInListenerHosts].
  destruct (detectChangesInListenerHosts (listenerHosts c) newListenerHosts) as [[r u] a].
  by destruct (createResourceChangesForListeners _ _ _ _ _).
Qed.

Lemma rebuildListenerHostsThenHosts_frame c changes problems c' :
  rebuildListenerHostsThenHosts c = Some (changes, problems, c') →
  ∃ h p l q, c' = set_hosts h p (set_listenerHosts l q c).
Proof.
  unfold rebuildListenerHostsThenHosts. intros Hc.
  destruct (rebuildListenerHosts c) as [[[lch lpr] c1] |] eqn:Hl; simplify_eq/=.
  destruct (rebuildHosts c1) as [[[hch hpr] c2] |] eqn:Hh; simplify_eq/=.
  destruct (rebuildHosts_frame _ _ _ _ Hh) as (h & p & ->).
  destruct (rebuildListenerHosts_frame _ _ _ _ Hl) as (l & q & ->). eauto.
Qed.

Lemma rebuildForTransportServers_frame c changes problems c' :
  rebuildForTransportServers c = Some (changes, problems, c') →
  ∃ h p l q, c' = set_hosts h p (set_listenerHosts l q c).
Proof.
  unfold rebuildForTransportServers. intros Hc.
  destruct (isTLSPassthroughEnabled c).
  - by eapply rebuildListenerHostsThenHosts_frame.
  - destruct (rebuildListenerHosts_frame _ _ _ _ Hc) as (l & q & ->).
    by exists (hosts c), (hostProblems c), l, q.
Qed.

Lemma reportValidationError_nil validationError keyWithKind p :
  reportValidationError validationError keyWithKind p [] []
  = ([], option_list (p <$> validationError)).
Proof. by destruct validationError. Qed.

(** C3 (amended): after an [AddOrUpdate] of an Ingress, VirtualServer,
    VirtualServerRoute or TransportServer that has the right class and
    fails validation, the store holds no object under its key.
    [AddOrUpdateGlobalConfiguration] stores its argument whether or not it
    is valid, and returns what the validator said. *)
Theorem invalid_resource_not_stored c m changes problems c' :
  applyMutation c m = Some (changes, problems, c') →
  (is_Some (validationProblem c m) → storeEntry c' m = None)
  ∧ (∀ gc, m = MAddOrUpdateGlobalConfiguration gc →
       globalConfiguration c' = Some gc
       ∧ ∃ changes0 problems0,
           AddOrUpdateGlobalConfiguration c gc
           = Some (changes0, problems0,
                   ValidateGlobalConfiguration (globalConfigurationValidator c) gc, c')).
Proof.
  intros Hc. split.
  - intros [p Hp].
    destruct m as [ing | key | vs | key | vsr | key | ts | key | gc |]; simplify_eq/=.
    + unfold AddOrUpdateIngress in Hc.
      destruct (rebuildHosts _) as [[[ch pr] c1] |] eqn:Hr; simplify_eq/=.
      destruct (reportValidationError _ _ _ ch pr) as [ch' pr'] eqn:Hrep. simplify_eq/=.
      destruct (rebuildHosts_frame _ _ _ _ Hr) as (h & q & ->).
      destruct (hasCorrectIngressClass c (ObjIngress ing)); simplify_eq/=.
      destruct (validateIngress ing _ _ _ _ _) as [err |]; simplify_eq/=.
      by rewrite lookup_delete_eq.
    + unfold AddOrUpdateVirtualServer in Hc.
      destruct (rebuildHosts _) as [[[ch pr] c1] |] eqn:Hr; simplify_eq/=.
      destruct (reportValidationError _ _ _ ch pr) as [ch' pr'] eqn:Hrep. simplify_eq/=.
      destruct (rebuildHosts_frame _ _ _ _ Hr) as (h & q & ->).
      destruct (hasCorrectIngressClass c (ObjVirtualServer vs)); simplify_eq/=.
      destruct (ValidateVirtualServer _ vs) as [err |]; simplify_eq/=.
      by rewrite lookup_delete_eq.
    + unfold AddOrUpdateVirtualServerRoute in Hc.
      destruct (rebuildHosts _) as [[[ch pr] c1] |] eqn:Hr; simplify_eq/=.
      destruct (rebuildHosts_frame _ _ _ _ Hr) as (h & q & ->).
      destruct (hasCorrectIngressClass c (ObjVirtualServerRoute vsr)); simplify_eq/=.
      destruct (ValidateVirtualServerRoute _ vsr) as [err |]; simplify_eq/=.
      by rewrite lookup_delete_eq.
    + unfold AddOrUpdateTransportServer in Hc.
      destruct (rebuildForTransportServers _) as [[[ch pr] c1] |] eqn:Hr; simplify_eq/=.
      destruct (reportValidationError _ _ _ ch pr) as [ch' pr'] eqn:Hrep. simplify_eq/=.
      destruct (rebuildForTransportServers_frame _ _ _ _ Hr) as (h & q & l & q' & ->).
      destruct (hasCorrectIngressClass c (ObjTransportServer ts)); simplify_eq/=.
      destruct (ValidateTransportServer _ ts) as [err |]; simplify_eq/=.
      by rewrite lookup_delete_eq.
  - intros gc ->. simpl in Hc. unfold AddOrUpdateGlobalConfiguration in *.
    destruct (rebuildListenerHostsThenHosts _) as [[[ch pr] c1] |] eqn:Hr; simplify_eq/=.
    destruct (rebuildListenerHostsThenHosts_frame _ _ _ _ Hr) as (h & p & l & q & Hc').
    split; [by subst c' | eauto].
Qed.

(** ** The listener arbiter *)

Lemma findListener_Some ts listeners listener :
  findListener ts listeners = Some listener →
  ts_ListenerName ts = l_Name listener ∧ ts_ListenerProtocol ts = l_Protocol listener.
Proof.
  unfold findListener. intros H. apply find_some in H as [_ H].
  apply andb_true_iff in H as [H1 H2].
  by apply bool_decide_eq_true in H1, H2.
Qed.

Lemma listenerStep_inv c pre k ts lb lb' :
  k ∉ pre.*1 →
  listenerBuildInv c pre lb →
  listenerStep c (k, ts) lb = Some lb' →
  listenerBuildInv c (pre ++ [(k, ts)]) lb'.
Proof.
  intros Hfresh (H1 & H2 & H3) Hstep.
  assert (lb_newTSConfigs lb !! k = None) as Hnone.
  { destruct (lb_newTSConfigs lb !! k) as [tsc |] eqn:E; [| done].
    exfalso. apply Hfresh. apply H1 in E as [E _].
    apply list_elem_of_fmap. by exists (k, tsc_TransportServer tsc). }
  unfold listenerStep in Hstep.
  case_bool_decide as Hproto.
  { simplify_eq. split; [| split].
    - intros k' tsc Hk'. destruct (H1 _ _ Hk') as [? ?].
      split; [| done]. apply elem_of_app. by left.
    - intros k' ts' [Hin | Hin%list_elem_of_singleton]%elem_of_app Hp; [by apply H2 |].
      by simplify_eq.
    - done. }
  (* what the step needs to know about a map of configurations that
     extends the old one at [k] *)
  assert (∀ cfgs hostsL (tsc0 : TransportServerConfiguration),
    tsc_TransportServer tsc0 = ts →
    cfgs !! k = Some tsc0 →
    (∀ k', k' ≠ k → ∀ tsc, cfgs !! k' = Some tsc →
       ∃ tsc', lb_newTSConfigs lb !! k' = Some tsc'
               ∧ tsc_TransportServer tsc' = tsc_TransportServer tsc) →
    (∀ k' tsc', k' ≠ k → lb_newTSConfigs lb !! k' = Some tsc' →
       ∃ tsc, cfgs !! k' = Some tsc ∧ tsc_TransportServer tsc = tsc_TransportServer tsc') →
    (∀ lk a, hostsL !! lk = Some a →
       (lb_newListenerHosts lb !! lk = Some a ∧ a ≠ k)
       ∨ (a = k ∧ ∃ gc listener, globalConfiguration c = Some gc
                  ∧ findListener ts (gc_Listeners gc) = Some listener
                  ∧ lk = ts_listenerHostKey ts)) →
    listenerBuildInv c (pre ++ [(k, ts)])
      {| lb_newListenerHosts := hostsL; lb_newTSConfigs := cfgs |}) as Hgen.
  { intros cfgs hostsL tsc0 Hts Hk Hold Hnew Hhosts. split; [| split]; simpl.
    - intros k' tsc Hk'. destruct (decide (k' = k)) as [-> | Hne].
      + simplify_eq. split; [| done]. apply elem_of_app. right. by apply list_elem_of_singleton.
      + destruct (Hold _ Hne _ Hk') as (tsc' & Htsc' & <-).
        destruct (H1 _ _ Htsc') as [? ?]. split; [| done]. apply elem_of_app. by left.
    - intros k' ts' [Hin | Hin%list_elem_of_singleton]%elem_of_app Hp.
      + destruct (H2 _ _ Hin Hp) as (tsc' & Htsc' & Hts').
        assert (k' ≠ k) as Hne by (intros ->; congruence).
        destruct (Hnew _ _ Hne Htsc') as (tsc & ? & ?). exists tsc. split; [done | congruence].
      + simplify_eq. eauto.
    - intros lk a Hlk. destruct (Hhosts _ _ Hlk) as [[Hold' Hne] | (-> & gc & listener & ? & ? & ?)].
      + destruct (H3 _ _ Hold') as (tsc' & gc & listener & Htsc' & ? & ? & ?).
        destruct (Hnew _ _ Hne Htsc') as (tsc & ? & Heq).
        exists tsc, gc, listener. rewrite Heq. done.
      + exists tsc0, gc, listener. rewrite Hts. done. }
  assert (∀ lk a, lb_newListenerHosts lb !! lk = Some a → a ≠ k) as Hholders.
  { intros lk a Hlk ->. destruct (H3 _ _ Hlk) as (tsc & _ & _ & ? & _). congruence. }
  destruct (globalConfiguration c) as [gc |] eqn:Hgc.
  2:{ simplify_eq. eapply (Hgen _ _ (NewTransportServerConfiguration ts)); try done.
      - by rewrite lookup_insert_eq.
      - intros k' Hne tsc. rewrite lookup_insert_ne by done. eauto.
      - intros k' tsc' Hne ?. rewrite lookup_insert_ne by done. eauto.
      - intros lk a Hlk. left. eauto. }
  destruct (findListener ts (gc_Listeners gc)) as [listener |] eqn:Hfind.
  2:{ simplify_eq. eapply (Hgen _ _ (NewTransportServerConfiguration ts)); try done.
      - by rewrite lookup_insert_eq.
      - intros k' Hne tsc. rewrite lookup_insert_ne by done. eauto.
      - intros k' tsc' Hne ?. rewrite lookup_insert_ne by done. eauto.
      - intros lk a Hlk. left. eauto. }
  destruct (findListener_Some _ _ _ Hfind) as [Hname _].
  assert ({| lhk_ListenerName := l_Name listener; lhk_Host := ts_Host ts |}
          = ts_listenerHostKey ts) as Hlk.
  { unfold ts_listenerHostKey. by rewrite Hname. }
  rewrite Hlk in Hstep. rewrite insert_insert_eq in Hstep.
  destruct (lb_newListenerHosts lb !! ts_listenerHostKey ts) as [holderKey |] eqn:Hholder.
  2:{ simplify_eq.
      eapply (Hgen _ _ (tsc_setListener listener (NewTransportServerConfiguration ts)));
        try done.
      - by rewrite lookup_insert_eq.
      - intros k' Hne tsc. rewrite lookup_insert_ne by done. eauto.
      - intros k' tsc' Hne ?. rewrite lookup_insert_ne by done. eauto.
      - intros lk a Ha. destruct (decide (lk = ts_listenerHostKey ts)) as [-> | Hne].
        + rewrite lookup_insert_eq in Ha. simplify_eq. right. eauto 10.
        + rewrite lookup_insert_ne in Ha by done. left. eauto. }
  assert (holderKey ≠ k) as Hhk by eauto.
  rewrite lookup_insert_ne in Hstep by done.
  destruct (lb_newTSConfigs lb !! holderKey) as [holder |] eqn:Hh; simplify_eq/=.
  destruct (negb (tsc_Wins holder _)); simplify_eq.
  - eapply (Hgen _ _ (tsc_setListener listener (NewTransportServerConfiguration ts)));
      try done.
    + rewrite lookup_alter_ne by done. by rewrite lookup_insert_eq.
    + intros k' Hne tsc. destruct (decide (k' = holderKey)) as [-> | Hne'].
      * rewrite lookup_alter_eq, lookup_insert_ne, Hh by done. intros [= <-]. eauto.
      * rewrite lookup_alter_ne, lookup_insert_ne by done. eauto.
    + intros k' tsc' Hne Hk'. destruct (decide (k' = holderKey)) as [-> | Hne'].
      * rewrite lookup_alter_eq, lookup_insert_ne, Hh by done. simplify_eq. eauto.
      * rewrite lookup_alter_ne, lookup_insert_ne by done. eauto.
    + intros lk a Ha. destruct (decide (lk = ts_listenerHostKey ts)) as [-> | Hne].
      * rewrite lookup_insert_eq in Ha. simplify_eq. right. eauto 10.
      * rewrite lookup_insert_ne in Ha by done. left. eauto.
  - eapply (Hgen _ _ (tsc_AddWarning _
               (tsc_setListener listener (NewTransportServerConfiguration ts)))); try done.
    + by rewrite lookup_alter_eq, lookup_insert_eq.
    + intros k' Hne tsc. rewrite lookup_alter_ne, lookup_insert_ne by done. eauto.
    + intros k' tsc' Hne ?. rewrite lookup_alter_ne, lookup_insert_ne by done. eauto.
    + intros lk a Ha. left. eauto.
Qed.

Lemma buildListenerHostsAndTSConfigurations_inv c lb :
  buildListenerHostsAndTSConfigurations c = Some lb →
  listenerBuildInv c (rangeItems (transportServers c)) lb.
Proof.
  unfold buildListenerHostsAndTSConfigurations.
  apply (forM_ind _ (listenerBuildInv c)).
  - split; [| split]; simpl; intros *; try by rewrite lookup_empty.
    intros Hin. by apply elem_of_nil in Hin.
  - intros pre [k ts] post t t' Hl Hinv Hstep.
    eapply listenerStep_inv; [| done | done].
    pose proof (NoDup_rangeItems_fst (transportServers c)) as Hnd.
    rewrite Hl, fmap_app, fmap_cons in Hnd.
    apply NoDup_app in Hnd as (_ & Hnd & _). intros Hin. eapply Hnd; [done |]. left.
Qed.

(** A loop over entries with distinct keys in which every entry writes
    under a key of its own: what an entry writes is still there at the
    end. *)
Lemma foldl_own_key {A V} (f : gmap string V → A → gmap string V) (keyOf : A → string)
    (l : list A) (m0 : gmap string V) (x : A) :
  NoDup (keyOf <$> l) →
  x ∈ l →
  (∀ m y k, k ≠ keyOf y → f m y !! k = m !! k) →
  ∃ m, foldl f m0 l !! keyOf x = f m x !! keyOf x.
Proof.
  intros Hnd Hx Hown. revert m0.
  induction l as [| y l IH]; intros m0; [by apply elem_of_nil in Hx |].
  rewrite fmap_cons in Hnd. apply NoDup_cons in Hnd as [Hy Hnd].
  apply elem_of_cons in Hx as [-> | Hx]; simpl.
  - exists m0.
    assert (∀ l' m, (∀ z, z ∈ l' → keyOf z ≠ keyOf y) →
                    foldl f m l' !! keyOf y = m !! keyOf y) as Hrest.
    { induction l' as [| z l' IH']; intros m Hl'; [done |]. simpl.
      rewrite IH' by (intros z' Hz'; apply Hl'; by right).
      apply Hown. intros Heq. eapply Hl'; [left | done]. }
    apply Hrest. intros z Hz Heq. apply Hy. rewrite <- Heq.
    apply list_elem_of_fmap. eauto.
  - by apply IH.
Qed.

Lemma tsc_GetKeyWithKind_keyed c k tsc :
  storeKeyed c → transportServers c !! k = Some (tsc_TransportServer tsc) →
  tsc_GetKeyWithKind tsc = transportServerKind +:+ "/" +:+ k.
Proof.
  intros (_ & _ & _ & Hts) Hk. unfold tsc_GetKeyWithKind. by rewrite <- (Hts _ _ Hk).
Qed.

Lemma app_inj_kind (kind s1 s2 : string) : kind +:+ "/" +:+ s1 = kind +:+ "/" +:+ s2 → s1 = s2.
Proof. intros H. apply (inj (String.app kind)) in H. by apply (inj (String.app "/")) in H. Qed.

Lemma rebuildListenerHosts_Some c changes problems c' :
  rebuildListenerHosts c = Some (changes, problems, c') →
  ∃ newListenerHosts newTSConfigs newProblems changes0,
    listenerOutcome c = Some (newListenerHosts, newTSConfigs, newProblems)
    ∧ changes = refresh (TransportServerRes <$> newTSConfigs) <$> squashResourceChanges changes0
    ∧ problems = detectChangesInProblems newProblems (listenerProblems c)
    ∧ c' = set_listenerHosts newListenerHosts newProblems c.
Proof.
  rewrite rebuildListenerHosts_alt. intros Hc.
  destruct (listenerOutcome c) as [[[newListenerHosts newTSConfigs] newProblems] |];
    simplify_eq/=.
  destruct (detectChangesInListenerHosts (listenerHosts c) newListenerHosts) as [[r u] a].
  destruct (createResourceChangesForListeners _ _ _ _ _) as [changes0 |]; simplify_eq/=.
  eauto 10.
Qed.

Lemma rebuildHosts_Some c changes problems c' :
  rebuildHosts c = Some (changes, problems, c') →
  ∃ detected latest newProblems finalHosts changes0,
    hostOutcome c = Some (detected, latest, newProblems, finalHosts)
    ∧ changes = refresh latest <$> squashResourceChanges changes0
    ∧ problems = detectChangesInProblems newProblems (hostProblems c)
    ∧ c' = set_hosts finalHosts newProblems c.
Proof.
  rewrite rebuildHosts_alt. intros Hc.
  destruct (hostOutcome c) as [[[[detected latest] newProblems] finalHosts] |];
    simplify_eq/=.
  destruct (detectChangesInHosts (hosts c) detected) as [[r u] a].
  destruct (createResourceChangesForHosts _ _ _ _ _) as [changes0 |]; simplify_eq/=.
  eauto 10.
Qed.

(** C10: after a listener rebuild of a store whose TransportServers are
    filed under their own keys, a stored TransportServer that is not TLS
    passthrough and whose (listener, host) key has no holder has the
    problem [Rejected], not an error, "Listener ... doesn't exist". No key
    has a holder when no GlobalConfiguration is deployed; and the holder
    of a key is never a TransportServer for which the GlobalConfiguration
    has no listener of its name and protocol, so that such a
    TransportServer has the problem as soon as no other one holds its
    key. *)
Theorem listener_does_not_exist c changes problems c' key ts :
  storeKeyed c →
  rebuildListenerHosts c = Some (changes, problems, c') →
  transportServers c !! key = Some ts →
  ts_ListenerProtocol ts ≠ TLSPassthroughListenerProtocol →
  (listenerHosts c' !! ts_listenerHostKey ts = None →
   listenerProblems c' !! getResourceKeyWithKind transportServerKind (ts_ObjectMeta ts)
   = Some (mkProblem (ObjTransportServer ts) false EventReasonRejected
             ("Listener " +:+ ts_ListenerName ts +:+ " doesn't exist")))
  ∧ (globalConfiguration c = None → listenerHosts c' = ∅)
  ∧ (∀ gc, globalConfiguration c = Some gc →
       findListener ts (gc_Listeners gc) = None →
       ∀ holder, listenerHosts c' !! ts_listenerHostKey ts = Some holder →
                 tsc_TransportServer holder ≠ ts).
Proof.
  intros Hkeyed Hc Hts Hproto.
  apply rebuildListenerHosts_Some in Hc
    as (newListenerHosts & newTSConfigs & newProblems & changes0 & Ho & _ & _ & ->).
  unfold listenerOutcome in Ho.
  destruct (buildListenerHostsAndTSConfigurations c) as [lb |] eqn:Hb; simplify_eq/=.
  apply buildListenerHostsAndTSConfigurations_inv in Hb as (H1 & H2 & H3).
  assert (∀ lk holder, deref (lb_newTSConfigs lb) (lb_newListenerHosts lb) !! lk = Some holder →
            ∃ gc listener, globalConfiguration c = Some gc
              ∧ findListener (tsc_TransportServer holder) (gc_Listeners gc) = Some listener)
    as Hholder.
  { intros lk holder Hlk. rewrite lookup_deref in Hlk.
    destruct (lb_newListenerHosts lb !! lk) as [a' |] eqn:Ha'; simplify_eq/=.
    destruct (H3 _ _ Ha') as (tsc & gc & listener & ? & ? & ? & _). simplify_eq. eauto. }
  split; [| split].
  - intros Hnone.
    destruct (H2 key ts) as (tsc & Htsc & Htscts); [by apply elem_of_rangeItems | done |].
    unfold addProblemsForTSConfigsWithoutActiveListener.
    match goal with
    | |- context [foldl ?f ∅ ?l] =>
        destruct (foldl_own_key f
          (λ kv : string * TransportServerConfiguration, tsc_GetKeyWithKind kv.2)
          l ∅ (key, tsc)) as [m Hm]
    end.
    + (* distinct entries have distinct identities *)
      assert ((λ kv : string * TransportServerConfiguration, tsc_GetKeyWithKind kv.2)
                <$> sortedItems (lb_newTSConfigs lb)
              = (λ k, transportServerKind +:+ "/" +:+ k)
                  <$> (sortedItems (lb_newTSConfigs lb)).*1) as ->.
      { rewrite <- list_fmap_compose. apply list_fmap_ext. intros i [k' tsc'] Hi. simpl.
        apply list_elem_of_lookup_2, elem_of_sortedItems in Hi.
        eapply tsc_GetKeyWithKind_keyed; [done |].
        apply H1 in Hi as [Hi _]. by apply elem_of_rangeItems in Hi. }
      apply NoDup_fmap; [| apply NoDup_sortedItems_fst].
      intros k1 k2. apply app_inj_kind.
    + by apply elem_of_sortedItems.
    + intros m [k' tsc'] k0 Hk0. simpl in *.
      repeat case_match; by rewrite ?lookup_insert_ne.
    + simpl in Hm. unfold getResourceKeyWithKind.
      unfold tsc_GetKeyWithKind, getResourceKey in Hm. rewrite Htscts in Hm.
      refine (eq_trans Hm _). unfold ts_listenerHostKey in Hnone. rewrite Hnone.
      by rewrite lookup_insert_eq.
  - intros Hgc. apply map_eq. intros lk. rewrite lookup_empty.
    destruct (deref _ _ !! lk) as [holder |] eqn:Hlk; [| done].
    destruct (Hholder _ _ Hlk) as (gc & ? & ? & _). congruence.
  - intros gc Hgc Hfind holder Hlk Heq.
    destruct (Hholder _ _ Hlk) as (gc' & listener & ? & Hf). rewrite Heq in Hf. congruence.
Qed.

(** ** The host arbiter *)

Lemma evolves_refl r : evolves r r.
Proof. split; [done |]. exists []. by rewrite app_nil_r. Qed.

Lemma evolves_trans r1 r2 r3 : evolves r1 r2 → evolves r2 r3 → evolves r1 r3.
Proof.
  intros [Hc1 [ws1 Hw1]] [Hc2 [ws2 Hw2]]. split; [congruence |].
  exists (ws1 ++ ws2). by rewrite Hw2, Hw1, app_assoc.
Qed.

Lemma evolves_AddWarning w r : evolves r (AddWarning w r).
Proof. split; [by destruct r |]. exists [w]. by destruct r. Qed.

Lemma evolves_ic_setValidHost h b r : evolves r (ic_setValidHost h b r).
Proof. split; [by destruct r |]. exists []. destruct r; simpl; by rewrite app_nil_r. Qed.

Lemma evolves_GetObjectMeta r r' : evolves r r' → GetObjectMeta r' = GetObjectMeta r.
Proof. intros [Hc _]. destruct r, r'; simplify_eq/=; congruence. Qed.

Lemma evolves_GetKeyWithKind r r' : evolves r r' → GetKeyWithKind r' = GetKeyWithKind r.
Proof.
  intros [Hc _]. unfold GetKeyWithKind, tsc_GetKeyWithKind.
  destruct r, r'; simplify_eq/=; congruence.
Qed.

Lemma evolves_resourceHosts r r' : evolves r r' → resourceHosts r' = resourceHosts r.
Proof. intros [Hc _]. destruct r, r'; simplify_eq/=; congruence. Qed.

Lemma evolves_warning w r r' : evolves r r' → w ∈ GetWarnings r → w ∈ GetWarnings r'.
Proof. intros [_ [ws ->]] Hw. apply elem_of_app. by left. Qed.

Lemma evolves_Wins r1 r1' r2 r2' :
  evolves r1 r1' → evolves r2 r2' → Wins r1' r2' = Wins r1 r2.
Proof.
  intros H1 H2. unfold Wins.
  by rewrite (evolves_GetObjectMeta _ _ H1), (evolves_GetObjectMeta _ _ H2).
Qed.

Lemma heapEvolves_refl h : heapEvolves h h.
Proof. intros a. destruct (h !! a); constructor. apply evolves_refl. Qed.

Lemma heapEvolves_trans h1 h2 h3 : heapEvolves h1 h2 → heapEvolves h2 h3 → heapEvolves h1 h3.
Proof.
  intros H12 H23 a. specialize (H12 a). specialize (H23 a).
  destruct H12 as [r1 r2 E12 |]; inversion H23; simplify_eq; constructor.
  by eapply evolves_trans.
Qed.

Lemma heapEvolves_alter f a h :
  (∀ r, evolves r (f r)) → heapEvolves h (alter f a h).
Proof.
  intros Hf a'. destruct (decide (a = a')) as [-> | Hne].
  - rewrite lookup_alter_eq. destruct (h !! a'); constructor. apply Hf.
  - rewrite lookup_alter_ne by done. destruct (h !! a'); constructor. apply evolves_refl.
Qed.

Lemma heapEvolves_Some h h' a r :
  heapEvolves h h' → h !! a = Some r → ∃ r', h' !! a = Some r' ∧ evolves r r'.
Proof. intros He Ha. specialize (He a). rewrite Ha in He. inversion He. eauto. Qed.

Lemma heapEvolves_Some_inv h h' a r' :
  heapEvolves h h' → h' !! a = Some r' → ∃ r, h !! a = Some r ∧ evolves r r'.
Proof. intros He Ha. specialize (He a). rewrite Ha in He. inversion He. eauto. Qed.

Lemma heapEvolves_None h h' a : heapEvolves h h' → h !! a = None → h' !! a = None.
Proof. intros He Ha. specialize (He a). rewrite Ha in He. by inversion He. Qed.

(** A claim leaves the registry and the challenges alone and only adds a
    warning to an object. *)
Lemma claimHost_frame host a st st' :
  claimHost host a st = Some st' →
  hb_newResources st' = hb_newResources st
  ∧ hb_challengesVSR st' = hb_challengesVSR st
  ∧ heapEvolves (hb_heap st) (hb_heap st').
Proof.
  unfold claimHost. intros H.
  destruct (hb_newHosts st !! host) as [holderAddr |]; simplify_eq/=.
  2:{ repeat split. apply heapEvolves_refl. }
  destruct (hb_heap st !! holderAddr) as [holder |]; simplify_eq/=.
  destruct (hb_heap st !! a) as [resource |]; simplify_eq/=.
  destruct (negb (Wins holder resource)); simplify_eq/=;
    (repeat split; apply heapEvolves_alter, evolves_AddWarning).
Qed.

Lemma Wins_neg_trans r1 r2 r3 :
  Wins r1 r2 = false → Wins r2 r3 = false → Wins r1 r3 = false.
Proof. apply chooseObjectMetaWinner_neg_trans. Qed.

Lemma Wins_asym r1 r2 : Wins r1 r2 = true → Wins r2 r1 = false.
Proof. apply chooseObjectMetaWinner_asym. Qed.

Lemma GetWarnings_AddWarning w r : GetWarnings (AddWarning w r) = GetWarnings r ++ [w].
Proof. by destruct r. Qed.

Lemma Wins_AddWarning_l w r1 r2 : Wins (AddWarning w r1) r2 = Wins r1 r2.
Proof. by destruct r1. Qed.

Lemma Wins_AddWarning_r w r1 r2 : Wins r1 (AddWarning w r2) = Wins r1 r2.
Proof. by destruct r2. Qed.

(** The facts of a claim survive when the objects evolve. *)
Lemma claim_fact_evolves h (r r' rx rx' : Resource) (x a : Addr) :
  evolves r r' → evolves rx rx' →
  x = a ∨ (hostTakenWarning h ∈ GetWarnings r ∧ Wins r rx = false) →
  x = a ∨ (hostTakenWarning h ∈ GetWarnings r' ∧ Wins r' rx' = false).
Proof.
  intros Hr Hrx [-> | [Hw Hwin]]; [by left | right].
  split; [by eapply evolves_warning |]. by rewrite (evolves_Wins _ _ _ _ Hr Hrx).
Qed.

Lemma claimHost_claims log host a st st' :
  claimsInv log st →
  is_Some (hb_heap st !! a) →
  claimHost host a st = Some st' →
  claimsInv (log ++ [(a, host)]) st'.
Proof.
  intros [Hholders Hlog] [resource Hres] Hclaim.
  unfold claimHost in Hclaim.
  destruct (hb_newHosts st !! host) as [holderAddr |] eqn:Hholder; simplify_eq/=.
  - (* the host has a holder *)
    destruct (hb_heap st !! holderAddr) as [holder |] eqn:Hh; simplify_eq/=.
    rewrite Hres in Hclaim. simpl in Hclaim.
    destruct (Wins holder resource) eqn:Hwins; simplify_eq/=.
    + (* the holder wins: the newcomer is warned *)
      set (heap' := alter (AddWarning (hostTakenWarning host)) a (hb_heap st)).
      assert (heapEvolves (hb_heap st) heap') as Hev
        by apply heapEvolves_alter, evolves_AddWarning.
      split; simpl.
      * intros h x Hx. apply elem_of_app. left. by apply Hholders.
      * intros a' h' [Hin | Hin%list_elem_of_singleton]%elem_of_app.
        -- destruct (Hlog _ _ Hin) as (r & x & rx & Hr & Hx & Hrx & Hfact).
           destruct (heapEvolves_Some _ _ _ _ Hev Hr) as (r' & Hr' & Er).
           destruct (heapEvolves_Some _ _ _ _ Hev Hrx) as (rx' & Hrx' & Erx).
           exists r', x, rx'. repeat split; try done. by eapply claim_fact_evolves.
        -- simplify_eq.
           destruct (heapEvolves_Some _ _ _ _ Hev Hh) as (holder' & Hh' & Eh).
           exists (AddWarning (hostTakenWarning host) resource), holderAddr, holder'.
           repeat split; try done.
           { subst heap'. by rewrite lookup_alter_eq, Hres. }
           destruct (decide (holderAddr = a)) as [-> | Hne]; [by left | right]. split.
           ++ rewrite GetWarnings_AddWarning. apply elem_of_app. right.
              by apply list_elem_of_singleton.
           ++ rewrite Wins_AddWarning_l.
              rewrite (evolves_Wins _ _ _ _ (evolves_refl resource) Eh).
              by apply Wins_asym.
    + (* the holder does not win: it is warned and replaced *)
      set (heap' := alter (AddWarning (hostTakenWarning host)) holderAddr (hb_heap st)).
      assert (heapEvolves (hb_heap st) heap') as Hev
        by apply heapEvolves_alter, evolves_AddWarning.
      destruct (heapEvolves_Some _ _ _ _ Hev Hres) as (resource' & Hres' & Eres).
      split; simpl.
      * intros h x Hx. apply elem_of_app.
        destruct (decide (h = host)) as [-> | Hne].
        -- rewrite lookup_insert_eq in Hx. simplify_eq. right. by apply list_elem_of_singleton.
        -- rewrite lookup_insert_ne in Hx by done. left. by apply Hholders.
      * intros a' h' [Hin | Hin%list_elem_of_singleton]%elem_of_app.
        -- destruct (Hlog _ _ Hin) as (r & x & rx & Hr & Hx & Hrx & Hfact).
           destruct (heapEvolves_Some _ _ _ _ Hev Hr) as (r' & Hr' & Er).
           destruct (decide (h' = host)) as [-> | Hne].
           ++ (* a claimant of the contested host *)
              rewrite Hholder in Hx. simplify_eq.
              exists r', a, resource'. rewrite lookup_insert_eq.
              repeat split; try done.
              destruct (decide (a = a')) as [-> | Hne']; [by left | right].
              destruct (decide (x = a')) as [-> | Hne''].
              ** simplify_eq. split.
                 --- subst heap'. rewrite lookup_alter_eq, Hh in Hr'. simplify_eq/=.
                     rewrite GetWarnings_AddWarning. apply elem_of_app. right.
                     by apply list_elem_of_singleton.
                 --- by rewrite (evolves_Wins _ _ _ _ Er Eres).
              ** destruct Hfact as [? | [Hw Hlose]]; [done |]. split.
                 --- by eapply evolves_warning.
                 --- rewrite (evolves_Wins _ _ _ _ Er Eres).
                     eapply Wins_neg_trans; [exact Hlose | done].
           ++ destruct (heapEvolves_Some _ _ _ _ Hev Hrx) as (rx' & Hrx' & Erx).
              exists r', x, rx'. rewrite lookup_insert_ne by done.
              repeat split; try done. by eapply claim_fact_evolves.
        -- simplify_eq. exists resource', a, resource'. rewrite lookup_insert_eq.
           repeat split; try done. by left.
  - (* the host is free *)
    split; simpl.
    + intros h x Hx. apply elem_of_app.
      destruct (decide (h = host)) as [-> | Hne].
      * rewrite lookup_insert_eq in Hx. simplify_eq. right. by apply list_elem_of_singleton.
      * rewrite lookup_insert_ne in Hx by done. left. by apply Hholders.
    + intros a' h' [Hin | Hin%list_elem_of_singleton]%elem_of_app.
      * destruct (Hlog _ _ Hin) as (r & x & rx & Hr & Hx & Hrx & Hfact).
        assert (h' ≠ host) as Hne by (intros ->; congruence).
        exists r, x, rx. by rewrite lookup_insert_ne.
      * simplify_eq. exists resource, a, resource. rewrite lookup_insert_eq.
        repeat split; try done. by left.
Qed.

Lemma claimAll_frame hs a st st' :
  claimAll hs a st = Some st' →
  hb_newResources st' = hb_newResources st
  ∧ hb_challengesVSR st' = hb_challengesVSR st
  ∧ heapEvolves (hb_heap st) (hb_heap st').
Proof.
  unfold claimAll. revert st. induction hs as [| h hs IH]; intros st Hrun; simpl in Hrun.
  - simplify_eq. repeat split. apply heapEvolves_refl.
  - destruct (claimHost h a st) as [st1 |] eqn:Hc; simplify_eq/=.
    destruct (claimHost_frame _ _ _ _ Hc) as (Hr1 & Hc1 & He1).
    destruct (IH _ Hrun) as (Hr2 & Hc2 & He2).
    repeat split; try congruence. by eapply heapEvolves_trans.
Qed.

Lemma claimAll_claims log hs a st st' :
  claimsInv log st →
  is_Some (hb_heap st !! a) →
  claimAll hs a st = Some st' →
  claimsInv (log ++ (pair a <$> hs)) st'.
Proof.
  unfold claimAll. revert log st. induction hs as [| h hs IH]; intros log st Hinv Ha Hrun;
    simpl in Hrun.
  - simplify_eq. simpl. by rewrite app_nil_r.
  - destruct (claimHost h a st) as [st1 |] eqn:Hc; simplify_eq/=.
    rewrite (cons_middle (a, h)), app_assoc. eapply IH; [| | done].
    + by eapply claimHost_claims.
    + destruct (claimHost_frame _ _ _ _ Hc) as (_ & _ & He). destruct Ha as [r Hr].
      destruct (heapEvolves_Some _ _ _ _ He Hr) as (r' & ? & _). eauto.
Qed.

Lemma register_claims log a r st :
  claimsInv log st → hb_heap st !! a = None → claimsInv log (register a r st).
Proof.
  intros [Hholders Hlog] Hfresh. split; simpl; [done |].
  intros a' h Hin. destruct (Hlog _ _ Hin) as (r0 & x & rx & Hr0 & Hx & Hrx & Hfact).
  exists r0, x, rx. rewrite !lookup_insert_ne by congruence. done.
Qed.

(** What making an object does to the state of the build. *)
Lemma makeObject_spec a r st st' :
  hb_heap st !! a = None →
  makeObject a r st = Some st' →
  hb_newResources st' = <[GetKeyWithKind r := a]> (hb_newResources st)
  ∧ hb_challengesVSR st' = hb_challengesVSR st
  ∧ (∃ r', hb_heap st' !! a = Some r' ∧ evolves r r')
  ∧ (∀ a', a' ≠ a → option_Forall2 evolves (hb_heap st !! a') (hb_heap st' !! a'))
  ∧ (registry st → registry st')
  ∧ (claimsOk st → claimsOk st').
Proof.
  intros Hfresh Hmake. unfold makeObject in Hmake.
  destruct (claimAll_frame _ _ _ _ Hmake) as (Hres & Hch & Hev). simpl in Hres, Hch, Hev.
  assert (∃ r', hb_heap st' !! a = Some r' ∧ evolves r r') as Hnew.
  { eapply heapEvolves_Some; [done |]. by rewrite lookup_insert_eq. }
  assert (∀ a', a' ≠ a → option_Forall2 evolves (hb_heap st !! a') (hb_heap st' !! a'))
    as Hold.
  { intros a' Hne. specialize (Hev a'). by rewrite lookup_insert_ne in Hev. }
  repeat split; try done.
  - (* registry *)
    intros Hreg K a' HK. rewrite Hres in HK.
    destruct (decide (GetKeyWithKind r = K)) as [<- | HneK].
    + rewrite lookup_insert_eq in HK. simplify_eq.
      destruct Hnew as (r' & Hr' & Er). exists r'. split; [done |].
      by apply evolves_GetKeyWithKind.
    + rewrite lookup_insert_ne in HK by done.
      destruct (Hreg _ _ HK) as (r0 & Hr0 & Hk0).
      assert (a' ≠ a) as Hne by (intros ->; congruence).
      specialize (Hold _ Hne). rewrite Hr0 in Hold. inversion Hold as [? r0' E |]; subst.
      exists r0'. split; [done |]. by rewrite (evolves_GetKeyWithKind _ _ E).
  - (* claims *)
    intros (log & Hinv & Hcomplete).
    exists (log ++ (pair a <$> resourceHosts r)). split.
    + eapply claimAll_claims; [| | done].
      * by apply register_claims.
      * simpl. rewrite lookup_insert_eq. eauto.
    + intros a' r' h Hr' Hh. apply elem_of_app.
      destruct (decide (a' = a)) as [-> | Hne].
      * right. destruct Hnew as (r'' & Hr'' & Er). simplify_eq.
        rewrite (evolves_resourceHosts _ _ Er) in Hh.
        apply list_elem_of_fmap. eauto.
      * left. specialize (Hold _ Hne). rewrite Hr' in Hold.
        inversion Hold as [r0 ? E |]; subst.
        eapply Hcomplete; [done |]. by rewrite <- (evolves_resourceHosts _ _ E).
Qed.

Lemma forM_fmap {A B S} (g : A → B) (f : B → S → option S) (l : list A) (s : S) :
  forM (λ x, f (g x)) l s = forM f (g <$> l) s.
Proof.
  revert s. induction l as [| x l IH]; intros s; [done |].
  simpl. destruct (f (g x) s); simpl; [apply IH | done].
Qed.

Lemma ingressStep_cases c k ing st st' :
  ingressStep c (k, ing) st = Some st' →
  (isMinion ing = true ∧ st' = st)
  ∨ (∃ vsr, challengeOf c ing = Some vsr ∧ st' = addChallenge vsr st)
  ∨ (makesConfiguration c ing
     ∧ ∃ ic, ic_Ingress ic = ing
             ∧ makeObject (KIngress, k) (IngressRes ic) st = Some st').
Proof.
  unfold ingressStep, makesConfiguration, challengeOf. intros Hstep.
  destruct (isMinion ing) eqn:Hminion; simplify_eq/=; [by left | right].
  assert (∀ ic, ic_Ingress ic = ing →
    forM (λ rule, claimHost (rule_Host rule) (KIngress, k)) (ing_Rules ing)
      (register (KIngress, k) (IngressRes ic) st) = Some st' →
    makeObject (KIngress, k) (IngressRes ic) st = Some st') as Hmake.
  { intros ic Hic Hrun. unfold makeObject, claimAll. simpl. rewrite Hic.
    by rewrite <- forM_fmap. }
  destruct (isChallengeIngress c ing).
  - destruct (convertIngressToVSR c ing) as [[vsr |] |]; simplify_eq/=.
    + left. eauto.
    + right. split; [done |].
      destruct (isMaster ing); simplify_eq/=.
      * destruct (head (ing_Rules ing)) as [rule |]; simplify_eq/=.
        destruct (buildMinionConfigs c (rule_Host rule)) as [[minions cw] |]; simplify_eq/=.
        eexists. split; [| apply Hmake; [| done]]; done.
      * eexists. split; [| apply Hmake; [| done]]; done.
  - simplify_eq/=. right. split; [done |].
    destruct (isMaster ing); simplify_eq/=.
    + destruct (head (ing_Rules ing)) as [rule |]; simplify_eq/=.
      destruct (buildMinionConfigs c (rule_Host rule)) as [[minions cw] |]; simplify_eq/=.
      eexists. split; [| apply Hmake; [| done]]; done.
    + eexists. split; [| apply Hmake; [| done]]; done.
Qed.

Lemma buildListenersForVSConfiguration_core c vsc :
  vsc_VirtualServer (buildListenersForVSConfiguration c vsc) = vsc_VirtualServer vsc
  ∧ vsc_VirtualServerRoutes (buildListenersForVSConfiguration c vsc)
    = vsc_VirtualServerRoutes vsc.
Proof.
  unfold buildListenersForVSConfiguration, assignListener.
  repeat case_match; done.
Qed.

Lemma virtualServerStep_cases c k vs st st' :
  virtualServerStep c (k, vs) st = Some st' →
  ∃ vsc,
    vsc_VirtualServer vsc = vs
    ∧ vsc_VirtualServerRoutes vsc
      = (buildVirtualServerRoutes c vs).1
        ++ filter (λ vsr, vs_Host vs = vsr_Host vsr) (hb_challengesVSR st)
    ∧ makeObject (KVirtualServer, k) (VirtualServerRes vsc) st = Some st'.
Proof.
  unfold virtualServerStep. intros Hstep.
  destruct (buildVirtualServerRoutes c vs) as [vsrs warnings]. simpl.
  match type of Hstep with
  | claimHost _ _ (register _ (VirtualServerRes ?vsc) _) = _ =>
      exists vsc; destruct (buildListenersForVSConfiguration_core c
        (NewVirtualServerConfiguration vs
           (vsrs ++ filter (λ vsr, vs_Host vs = vsr_Host vsr) (hb_challengesVSR st))
           warnings)) as [Hvs Hroutes]
  end.
  split; [done | split; [done |]].
  unfold makeObject, claimAll. simpl. rewrite Hvs. simpl.
  by destruct (claimHost _ _ _).
Qed.

Lemma transportServerStep_cases k ts st st' :
  transportServerStep (k, ts) st = Some st' →
  (¬ passthroughCandidate ts ∧ st' = st)
  ∨ (passthroughCandidate ts
     ∧ makeObject (KTransportServer, k)
         (TransportServerRes (NewTransportServerConfiguration ts)) st = Some st').
Proof.
  unfold transportServerStep, passthroughCandidate. intros Hstep.
  destruct (decide (ts_ListenerName ts = TLSPassthroughListenerName)) as [Hn | Hn];
    destruct (decide (ts_ListenerProtocol ts = TLSPassthroughListenerProtocol)) as [Hp | Hp].
  all: rewrite ?(bool_decide_eq_true_2 _ Hn), ?(bool_decide_eq_true_2 _ Hp),
         ?(bool_decide_eq_false_2 (_ ≠ _)) in Hstep by (intros ?; done).
  all: simpl in Hstep.
  4:{ left. split; [tauto | by simplify_eq]. }
  all: right; split; [tauto |]; unfold makeObject, claimAll; simpl;
       by destruct (claimHost _ _ _).
Qed.

Lemma madeFrom_mono c dI dV dT dI' dV' dT' challenges a r :
  dI ⊆ dI' → dV ⊆ dV' → dT ⊆ dT' →
  madeFrom c dI dV dT challenges a r → madeFrom c dI' dV' dT' challenges a r.
Proof.
  intros HI HV HT. unfold madeFrom. destruct a as [[] k]; simpl.
  - intros (ing & ic & ? & ?). exists ing, ic. split; [by apply HI | done].
  - intros (vs & vsc & ? & ?). exists vs, vsc. split; [by apply HV | done].
  - intros (ts & tsc & ? & ?). exists ts, tsc. split; [by apply HT | done].
Qed.

Lemma madeFrom_evolves c dI dV dT challenges a r r' :
  evolves r r' → madeFrom c dI dV dT challenges a r → madeFrom c dI dV dT challenges a r'.
Proof.
  intros [Hcore _]. unfold madeFrom. destruct a as [[] k]; simpl.
  - intros (ing & ic & ? & ? & -> & ?). destruct r' as [ic' | |]; simplify_eq/=.
    exists (ic_Ingress ic), ic'. by rewrite Hcore in *.
  - intros (vs & vsc & ? & -> & ? & Hroutes). destruct r' as [| vsc' |]; simplify_eq/=.
    exists (vsc_VirtualServer vsc), vsc'.
    repeat match goal with E : _ vsc = _ vsc' |- _ => rewrite E in * end. done.
  - intros (ts & tsc & ? & ? & -> & ?). destruct r' as [| | tsc']; simplify_eq/=.
    exists (tsc_TransportServer tsc), tsc'.
    repeat match goal with E : _ tsc = _ tsc' |- _ => rewrite E in * end. done.
Qed.

(** The invariant after an object is made at a fresh address. *)
Lemma hostBuildInv_makeObject c dI dV dT dI' dV' dT' a r st st' :
  hostBuildInv c dI dV dT st →
  hb_heap st !! a = None →
  makeObject a r st = Some st' →
  dI ⊆ dI' → dV ⊆ dV' → dT ⊆ dT' →
  madeFrom c dI' dV' dT' (hb_challengesVSR st) a r →
  (∀ k ing, (k, ing) ∈ dI' →
     (k, ing) ∈ dI ∨ ((KIngress, k) = a ∧ challengeOf c ing = None)) →
  (∀ k vs, (k, vs) ∈ dV' → (k, vs) ∈ dV ∨ (KVirtualServer, k) = a) →
  (∀ k ts, (k, ts) ∈ dT' → (k, ts) ∈ dT ∨ (KTransportServer, k) = a) →
  hostBuildInv c dI' dV' dT' st'.
Proof.
  intros (Hreg & Hclaims & Hprov & HcI & HcV & HcT & Hch) Hfresh Hmake HI HV HT Hnew
    HnI HnV HnT.
  destruct (makeObject_spec _ _ _ _ Hfresh Hmake)
    as (Hres & Hch' & (r' & Hr' & Er) & Hold & Hreg' & Hclaims').
  assert (∀ a0, is_Some (hb_heap st !! a0) ∨ a0 = a → is_Some (hb_heap st' !! a0)) as Hsome.
  { intros a0 [[r0 Hr0] | ->]; [| eauto].
    assert (a0 ≠ a) as Hne by (intros ->; congruence).
    specialize (Hold _ Hne). rewrite Hr0 in Hold. inversion Hold. eauto. }
  split; [by apply Hreg' |]. split; [by apply Hclaims' |]. rewrite Hch'.
  split; [| split; [| split; [| split]]].
  - intros a0 r0 Hr0. destruct (decide (a0 = a)) as [-> | Hne].
    + simplify_eq. split; [by eapply madeFrom_evolves |].
      rewrite Hres, (evolves_GetKeyWithKind _ _ Er), lookup_insert_eq. eauto.
    + specialize (Hold _ Hne). rewrite Hr0 in Hold. inversion Hold as [r1 ? E1 Hr1 |]; subst.
      symmetry in Hr1. destruct (Hprov _ _ Hr1) as [Hm [a1 Ha1]]. split.
      * eapply madeFrom_evolves; [done |]. by eapply madeFrom_mono.
      * rewrite Hres, (evolves_GetKeyWithKind _ _ E1).
        destruct (decide (GetKeyWithKind r = GetKeyWithKind r1)) as [-> | HneK].
        -- rewrite lookup_insert_eq. eauto.
        -- rewrite lookup_insert_ne by done. eauto.
  - intros k ing Hin Hmk. apply Hsome.
    destruct (HnI _ _ Hin) as [Hin' | [<- _]]; [left; by eapply HcI | by right].
  - intros k vs Hin. apply Hsome.
    destruct (HnV _ _ Hin) as [Hin' | <-]; [left; by eapply HcV | by right].
  - intros k ts Hin Hcand. apply Hsome.
    destruct (HnT _ _ Hin) as [Hin' | <-]; [left; by eapply HcT | by right].
  - intros vsr. rewrite Hch. split.
    + intros (k & ing & Hin & Hc). exists k, ing. split; [by apply HI | done].
    + intros (k & ing & Hin & Hc). exists k, ing. split; [| done].
      destruct (HnI _ _ Hin) as [Hin' | [_ Hnone]]; [done | congruence].
Qed.

(** The invariant after an entry that the pass skips. *)
Lemma hostBuildInv_skip c dI dV dT dI' dT' st :
  hostBuildInv c dI dV dT st →
  dI ⊆ dI' → dT ⊆ dT' →
  (∀ k ing, (k, ing) ∈ dI' → (k, ing) ∈ dI ∨ isMinion ing = true) →
  (∀ k ts, (k, ts) ∈ dT' → (k, ts) ∈ dT ∨ ¬ passthroughCandidate ts) →
  hostBuildInv c dI' dV dT' st.
Proof.
  intros (Hreg & Hclaims & Hprov & HcI & HcV & HcT & Hch) HI HT HnI HnT.
  split; [done |]. split; [done |]. split; [| split; [| split; [| split]]].
  - intros a r Hr. destruct (Hprov _ _ Hr) as [Hm ?]. split; [| done].
    by eapply madeFrom_mono.
  - intros k ing Hin [Hmin Hmk].
    destruct (HnI _ _ Hin) as [Hin' | ?]; [by eapply HcI | congruence].
  - done.
  - intros k ts Hin Hcand.
    destruct (HnT _ _ Hin) as [Hin' | ?]; [by eapply HcT | done].
  - intros vsr. rewrite Hch. split.
    + intros (k & ing & Hin & Hc). exists k, ing. split; [by apply HI | done].
    + intros (k & ing & Hin & Hc). exists k, ing. split; [| done].
      destruct (HnI _ _ Hin) as [Hin' | Hmin]; [done |].
      unfold challengeOf in Hc. by rewrite Hmin in Hc.
Qed.

(** The invariant after a challenge ingress is set aside. *)
Lemma hostBuildInv_addChallenge c dI k ing vsr st :
  hostBuildInv c dI [] [] st →
  challengeOf c ing = Some vsr →
  hostBuildInv c (dI ++ [(k, ing)]) [] [] (addChallenge vsr st).
Proof.
  intros (Hreg & Hclaims & Hprov & HcI & HcV & HcT & Hch) Hc.
  split; [done |]. split; [done |]. split; [| split; [| split; [| split]]]; simpl.
  - intros a r Hr. destruct (Hprov _ _ Hr) as [Hm ?]. split; [| done].
    unfold madeFrom in *. destruct a as [[] k0]; simpl in *.
    + destruct Hm as (ing0 & ic & ? & ?). exists ing0, ic.
      split; [apply elem_of_app; by left | done].
    + destruct Hm as (? & ? & Hin & _). by apply elem_of_nil in Hin.
    + destruct Hm as (? & ? & Hin & _). by apply elem_of_nil in Hin.
  - intros k0 ing0 [Hin | Hin%list_elem_of_singleton]%elem_of_app [Hmin Hmk].
    + by eapply HcI.
    + simplify_eq.
  - intros k0 vs Hin. by apply elem_of_nil in Hin.
  - intros k0 ts Hin. by apply elem_of_nil in Hin.
  - intros vsr0. rewrite elem_of_app, Hch, list_elem_of_singleton. split.
    + intros [(k0 & ing0 & Hin & Hc0) | ->].
      * exists k0, ing0. split; [apply elem_of_app; by left | done].
      * exists k, ing. split; [apply elem_of_app; right; by apply list_elem_of_singleton | done].
    + intros (k0 & ing0 & [Hin | Hin%list_elem_of_singleton]%elem_of_app & Hc0).
      * left. eauto.
      * right. simplify_eq. congruence.
Qed.

Lemma fresh_prefix {V} (m : gmap string V) (pre : list (string * V)) k v post :
  sortedItems m = pre ++ (k, v) :: post → k ∉ pre.*1.
Proof.
  intros Hl. pose proof (NoDup_sortedItems_fst m) as Hnd.
  rewrite Hl, fmap_app, fmap_cons in Hnd.
  apply NoDup_app in Hnd as (_ & Hnd & _). intros Hin. eapply Hnd; [done |]. left.
Qed.

Lemma incl_snoc {A} (l : list A) x : l ⊆ l ++ [x].
Proof. intros y Hy. apply elem_of_app. by left. Qed.

Lemma elem_of_snoc_inv {A} (l : list A) x y : y ∈ l ++ [x] → y ∈ l ∨ y = x.
Proof. intros [? | ?%list_elem_of_singleton]%elem_of_app; auto. Qed.

Lemma hostBuildInv_fresh c dI dV dT st :
  hostBuildInv c dI dV dT st →
  (∀ k, k ∉ dI.*1 → hb_heap st !! (KIngress, k) = None)
  ∧ (∀ k, k ∉ dV.*1 → hb_heap st !! (KVirtualServer, k) = None)
  ∧ (∀ k, k ∉ dT.*1 → hb_heap st !! (KTransportServer, k) = None).
Proof.
  intros (_ & _ & Hprov & _).
  repeat split; intros k Hk; apply eq_None_not_Some; intros [r Hr];
    destruct (Hprov _ _ Hr) as [Hm _]; unfold madeFrom in Hm; simpl in Hm;
    destruct Hm as (x & _ & Hin & _); apply Hk, list_elem_of_fmap; by exists (k, x).
Qed.

Lemma ingressStep_inv c pre k ing st st' :
  k ∉ pre.*1 →
  hostBuildInv c pre [] [] st →
  ingressStep c (k, ing) st = Some st' →
  hostBuildInv c (pre ++ [(k, ing)]) [] [] st'.
Proof.
  intros Hk Hinv Hstep.
  destruct (ingressStep_cases _ _ _ _ _ Hstep)
    as [[Hmin ->] | [(vsr & Hc & ->) | (Hmk & ic & Hic & Hmake)]].
  - eapply hostBuildInv_skip; [done | apply incl_snoc | done | | by left].
    intros k0 ing0 [? | ?]%elem_of_snoc_inv; [by left | right]. by simplify_eq.
  - by apply hostBuildInv_addChallenge.
  - destruct (hostBuildInv_fresh _ _ _ _ _ Hinv) as (Hfresh & _ & _).
    eapply hostBuildInv_makeObject;
      [done | by apply Hfresh | done | apply incl_snoc | done | done | | | |].
    + unfold madeFrom. simpl. exists ing, ic.
      split; [apply elem_of_app; right; by apply list_elem_of_singleton | done].
    + intros k0 ing0 [? | ?]%elem_of_snoc_inv; [by left | right]. simplify_eq.
      split; [done | apply Hmk].
    + by left.
    + by left.
Qed.

Lemma virtualServerStep_inv c dI pre k vs st st' :
  k ∉ pre.*1 →
  hostBuildInv c dI pre [] st →
  virtualServerStep c (k, vs) st = Some st' →
  hostBuildInv c dI (pre ++ [(k, vs)]) [] st'.
Proof.
  intros Hk Hinv Hstep.
  destruct (virtualServerStep_cases _ _ _ _ _ Hstep) as (vsc & Hvs & Hroutes & Hmake).
  destruct (hostBuildInv_fresh _ _ _ _ _ Hinv) as (_ & Hfresh & _).
  eapply hostBuildInv_makeObject;
    [done | by apply Hfresh | done | done | apply incl_snoc | done | | | |].
  - unfold madeFrom. simpl. exists vs, vsc.
    split; [apply elem_of_app; right; by apply list_elem_of_singleton | done].
  - by left.
  - intros k0 vs0 [? | ?]%elem_of_snoc_inv; [by left | right]. by simplify_eq.
  - by left.
Qed.

Lemma transportServerStep_inv c dI dV pre k ts st st' :
  k ∉ pre.*1 →
  hostBuildInv c dI dV pre st →
  transportServerStep (k, ts) st = Some st' →
  hostBuildInv c dI dV (pre ++ [(k, ts)]) st'.
Proof.
  intros Hk Hinv Hstep.
  destruct (transportServerStep_cases _ _ _ _ Hstep) as [[Hno ->] | [Hcand Hmake]].
  - eapply hostBuildInv_skip; [done | done | apply incl_snoc | by left |].
    intros k0 ts0 [? | ?]%elem_of_snoc_inv; [by left | right]. by simplify_eq.
  - destruct (hostBuildInv_fresh _ _ _ _ _ Hinv) as (_ & _ & Hfresh).
    eapply hostBuildInv_makeObject;
      [done | by apply Hfresh | done | done | done | apply incl_snoc | | | |].
    + unfold madeFrom. simpl. exists ts, (NewTransportServerConfiguration ts).
      split; [apply elem_of_app; right; by apply list_elem_of_singleton | done].
    + by left.
    + by left.
    + intros k0 ts0 [? | ?]%elem_of_snoc_inv; [by left | right]. by simplify_eq.
Qed.

Lemma hostBuildInv_empty c : hostBuildInv c [] [] [] emptyHostBuild.
Proof.
  unfold hostBuildInv, registry, claimsOk, claimsInv, logComplete, emptyHostBuild.
  split; [| split; [| split; [| split; [| split; [| split]]]]]; simpl.
  - intros K a HK. by rewrite lookup_empty in HK.
  - exists []. split; [split |]; simpl.
    + intros h x Hx. by rewrite lookup_empty in Hx.
    + intros a h Hin. by apply elem_of_nil in Hin.
    + intros a r h Hr. by rewrite lookup_empty in Hr.
  - intros a r Hr. by rewrite lookup_empty in Hr.
  - intros k ing Hin. by apply elem_of_nil in Hin.
  - intros k vs Hin. by apply elem_of_nil in Hin.
  - intros k ts Hin. by apply elem_of_nil in Hin.
  - intros vsr. split.
    + intros Hin. by apply elem_of_nil in Hin.
    + intros (k & ing & Hin & _). by apply elem_of_nil in Hin.
Qed.

(** The invariant at the end of [buildHostsAndResources]. *)
Lemma buildHostsAndResources_inv c st :
  buildHostsAndResources c = Some st →
  hostBuildInv c (sortedItems (ingresses c)) (sortedItems (virtualServers c))
    (if isTLSPassthroughEnabled c then sortedItems (transportServers c) else []) st.
Proof.
  unfold buildHostsAndResources. intros Hb.
  destruct (forM (ingressStep c) _ _) as [st1 |] eqn:H1; simplify_eq/=.
  destruct (forM (virtualServerStep c) _ _) as [st2 |] eqn:H2; simplify_eq/=.
  assert (hostBuildInv c (sortedItems (ingresses c)) [] [] st1) as Hinv1.
  { revert H1. apply (forM_ind _ (λ pre s, hostBuildInv c pre [] [] s)).
    - apply hostBuildInv_empty.
    - intros pre [k ing] post t t' Hl Hinv Hstep.
      eapply ingressStep_inv; [by eapply fresh_prefix | done | done]. }
  assert (hostBuildInv c (sortedItems (ingresses c)) (sortedItems (virtualServers c)) [] st2)
    as Hinv2.
  { revert H2.
    apply (forM_ind _ (λ pre s, hostBuildInv c (sortedItems (ingresses c)) pre [] s));
      [done |].
    intros pre [k vs] post t t' Hl Hinv Hstep.
    eapply virtualServerStep_inv; [by eapply fresh_prefix | done | done]. }
  destruct (isTLSPassthroughEnabled c); [| by simplify_eq].
  revert Hb.
  apply (forM_ind _ (λ pre s, hostBuildInv c (sortedItems (ingresses c))
                                (sortedItems (virtualServers c)) pre s)); [done |].
  intros pre [k ts] post t t' Hl Hinv Hstep.
  eapply transportServerStep_inv; [by eapply fresh_prefix | done | done].
Qed.

(** ** After the three passes *)

Lemma updateActiveHostsForIngresses_evolves hosts resources heap heap' :
  updateActiveHostsForIngresses hosts resources heap = Some heap' →
  heapEvolves heap heap'.
Proof.
  unfold updateActiveHostsForIngresses.
  apply (forM_ind _ (λ _ h, heapEvolves heap h)); [apply heapEvolves_refl |].
  intros pre kv post t t' _ IH Hstep.
  destruct (t !! kv.2) as [r |]; simplify_eq/=.
  destruct r as [ingConfig | |]; simplify_eq/=; try done.
  revert Hstep. apply (forM_ind _ (λ _ h, heapEvolves heap h)); [done |].
  intros pre' rule post' u u' _ IH' Hstep'.
  destruct (lookupRes u hosts (rule_Host rule)) as [res |]; simplify_eq/=.
  eapply heapEvolves_trans; [done |]. apply heapEvolves_alter. intros r.
  apply evolves_ic_setValidHost.
Qed.

Lemma addWarnings_evolves c hosts resources heap heap' :
  addWarningsForVirtualServersWithMissConfiguredListeners c hosts resources heap = Some heap' →
  heapEvolves heap heap'.
Proof.
  unfold addWarningsForVirtualServersWithMissConfiguredListeners.
  apply (forM_ind _ (λ _ h, heapEvolves heap h)); [apply heapEvolves_refl |].
  intros pre kv post t t' _ IH Hstep.
  destruct (t !! kv.2) as [r |]; simplify_eq/=.
  destruct r as [| vsc |]; simplify_eq/=; try done.
  destruct (vs_Listener (vsc_VirtualServer vsc)) as [listener |]; simplify_eq/=; [| done].
  destruct (listenerWarning c listener) as [w |]; simplify_eq/=; [| done].
  destruct (hosts !! vs_Host (vsc_VirtualServer vsc)) as [holder |]; simplify_eq/=.
  eapply heapEvolves_trans; [done |]. apply heapEvolves_alter. intros r.
  apply evolves_AddWarning.
Qed.

(** The stages of a host rebuild. *)
Lemma hostOutcome_Some c detected latest newProblems finalHosts :
  hostOutcome c = Some (detected, latest, newProblems, finalHosts) →
  ∃ st heap1 heap2 p1 p2,
    buildHostsAndResources c = Some st
    ∧ updateActiveHostsForIngresses (hb_newHosts st) (hb_newResources st) (hb_heap st)
      = Some heap1
    ∧ addProblemsForResourcesWithoutActiveHost (hb_newHosts st) heap1 (hb_newResources st) ∅
      = Some p1
    ∧ addProblemsForOrphanMinions c (hb_newHosts st) heap1 p1 = Some p2
    ∧ newProblems = addProblemsForOrphanOrIgnoredVsrs c (hb_newHosts st) heap1 p2
    ∧ addWarningsForVirtualServersWithMissConfiguredListeners c (hb_newHosts st)
        (hb_newResources st) heap1 = Some heap2
    ∧ detected = deref heap1 (hb_newHosts st)
    ∧ latest = deref heap2 (hb_newResources st)
    ∧ finalHosts = deref heap2 (hb_newHosts st)
    ∧ heapEvolves (hb_heap st) heap1
    ∧ heapEvolves heap1 heap2.
Proof.
  unfold hostOutcome. intros Hc.
  destruct (buildHostsAndResources c) as [st |]; simplify_eq/=.
  destruct (updateActiveHostsForIngresses _ _ _) as [heap1 |] eqn:Hu; simplify_eq/=.
  destruct (addProblemsForResourcesWithoutActiveHost _ _ _ _) as [p1 |] eqn:Hp1;
    simplify_eq/=.
  destruct (addProblemsForOrphanMinions _ _ _ _) as [p2 |] eqn:Hp2; simplify_eq/=.
  destruct (addWarningsForVirtualServersWithMissConfiguredListeners _ _ _ _)
    as [heap2 |] eqn:Hw; simplify_eq/=.
  exists st, heap1, heap2, p1, p2. repeat split; try done.
  - by eapply updateActiveHostsForIngresses_evolves.
  - by eapply addWarnings_evolves.
Qed.

(** Every derived resource of a rebuild is registered under its own
    identity. *)
Lemma hostOutcome_latest_keyed c detected latest newProblems finalHosts K r :
  hostOutcome c = Some (detected, latest, newProblems, finalHosts) →
  latest !! K = Some r → GetKeyWithKind r = K.
Proof.
  intros Ho Hr.
  apply hostOutcome_Some in Ho
    as (st & heap1 & heap2 & p1 & p2 & Hb & _ & _ & _ & _ & _ & _ & -> & _ & He1 & He2).
  apply buildHostsAndResources_inv in Hb as (Hreg & _).
  rewrite lookup_deref in Hr.
  destruct (hb_newResources st !! K) as [a |] eqn:Ha; simplify_eq/=.
  destruct (Hreg _ _ Ha) as (r0 & Hr0 & <-).
  destruct (heapEvolves_Some _ _ _ _ (heapEvolves_trans _ _ _ He1 He2) Hr0) as (r' & Hr' & E).
  simplify_eq. by apply evolves_GetKeyWithKind.
Qed.

(** ** The change list of a rebuild *)

Lemma refresh_Op latest ch : Op (refresh latest ch) = Op ch.
Proof. unfold refresh. by destruct (latest !! rc_key ch). Qed.

Lemma refresh_view latest ch :
  (∀ K r, latest !! K = Some r → GetKeyWithKind r = K) →
  changeView (refresh latest ch) = changeView ch.
Proof.
  intros Hkeyed. unfold refresh. destruct (latest !! rc_key ch) as [r |] eqn:Hr; [| done].
  unfold changeView, rc_key. simpl. by rewrite (Hkeyed _ _ Hr).
Qed.

Lemma deletesFirst_fmap (f : ResourceChange → ResourceChange) l :
  (∀ ch, Op (f ch) = Op ch) → deletesFirst l → deletesFirst (f <$> l).
Proof.
  intros Hf Hl i j ci cj Hi Hj Hdi Hdj. rewrite list_lookup_fmap in Hi, Hj.
  destruct (l !! i) as [ci0 |] eqn:Ei, (l !! j) as [cj0 |] eqn:Ej; simplify_eq/=.
  rewrite Hf in Hdi, Hdj. eauto.
Qed.

Lemma rebuildHosts_squashed c changes problems c' :
  rebuildHosts c = Some (changes, problems, c') →
  uniqueByIdentity changes ∧ deletesFirst changes.
Proof.
  intros Hc. apply rebuildHosts_Some in Hc
    as (detected & latest & newProblems & finalHosts & changes0 & Ho & -> & _ & _).
  destruct (squashResourceChanges_squashed changes0) as [Hu Hd].
  assert (changeView <$> squashResourceChanges changes0
          = changeView <$> (refresh latest <$> squashResourceChanges changes0)) as Hv.
  { rewrite <- list_fmap_compose. apply list_fmap_ext. intros i ch _. simpl.
    symmetry. apply refresh_view. intros K r. by eapply hostOutcome_latest_keyed. }
  split; [by eapply uniqueByIdentity_views | by eapply deletesFirst_views].
Qed.

Lemma groupChanges_Forall (Q : ResourceChange → Prop) changes :
  Forall Q changes → ∀ k g, groupChanges changes !! k = Some g → Forall Q g.
Proof.
  unfold groupChanges.
  assert (∀ k g, (∅ : gmap string (list ResourceChange)) !! k = Some g → Forall Q g)
    as Hempty by (intros k g Hk; by rewrite lookup_empty in Hk).
  revert Hempty. generalize (∅ : gmap string (list ResourceChange)).
  induction changes as [| c changes IH]; intros m Hm Hall; [done |].
  apply Forall_cons in Hall as [Hc Hall]. simpl. apply IH; [| done].
  intros k g Hk. destruct (decide (rc_key c = k)) as [<- | Hne].
  - rewrite lookup_insert_eq in Hk. simplify_eq. apply Forall_app. split.
    + destruct (m !! rc_key c) eqn:E; simpl; [by eapply Hm | done].
    + by apply Forall_singleton.
  - rewrite lookup_insert_ne in Hk by done. by eapply Hm.
Qed.

Lemma squashResourceChanges_Forall (Q : ResourceChange → Prop) changes :
  Forall Q changes → Forall Q (squashResourceChanges changes).
Proof.
  intros Hall. unfold squashResourceChanges.
  pose proof (groupChanges_Forall Q changes Hall) as Hg.
  assert (∀ l acc,
    (let '(d, u, m) := acc in
     Forall Q d ∧ Forall Q u ∧ ∀ k g, m !! k = Some g → Forall Q g) →
    let '(d, u, m) := foldl squashStep acc l in Forall Q (d ++ u)) as Hfold.
  { induction l as [| c l IH]; intros [[d u] m] (Hd & Hu & Hm); simpl.
    - apply Forall_app. done.
    - apply IH. unfold squashStep.
      destruct (m !! rc_key c) as [g |] eqn:Hk; [| done].
      assert (∀ k g0, delete (rc_key c) m !! k = Some g0 → Forall Q g0) as Hm'.
      { intros k g0 [_ Hk0]%lookup_delete_Some. by eapply Hm. }
      destruct (last g) as [sq |] eqn:Hlast; [| done].
      assert (Q sq) as Hsq.
      { apply last_Some in Hlast as [g' ->]. apply Hm in Hk.
        rewrite Forall_app, Forall_singleton in Hk. tauto. }
      case_bool_decide; repeat split; try done;
        apply Forall_app; split; try done; by apply Forall_singleton. }
  specialize (Hfold changes ([], [], groupChanges changes)).
  destruct (foldl squashStep _ _) as [[d u] m]. apply Hfold. repeat split; done.
Qed.

Lemma mapM_Forall_fmap {A B} (Q : B → Prop) (f : A → option B) l k :
  (∀ x y, f x = Some y → Q y) → mapM f l = Some k → Forall Q k.
Proof.
  intros Hf Hm. apply mapM_Some_1 in Hm.
  induction Hm as [| x y l k Hxy _ IH]; constructor; eauto.
Qed.

Lemma updatedChange_Forall {K} `{Countable K} (Q : Resource → Prop)
    (oldM newM : gmap K Resource) h p :
  (∀ r, oldM !! h = Some r → Q r) →
  (∀ r, newM !! h = Some r → Q r) →
  updatedChange oldM newM h = Some p →
  Forall (λ ch, Q (rc_Resource ch)) p.1 ∧ Q (rc_Resource p.2).
Proof.
  intros Hold Hnew Hp. unfold updatedChange in Hp.
  destruct (oldM !! h) as [oldR |] eqn:E1; simplify_eq/=.
  destruct (newM !! h) as [newR |] eqn:E2; simplify_eq/=.
  split; [| by apply Hnew]. case_bool_decide; [| done].
  apply Forall_singleton. by apply Hold.
Qed.

Lemma createResourceChangesForListeners_kind removed updated added oldL newL changes :
  createResourceChangesForListeners removed updated added oldL newL = Some changes →
  Forall (λ ch, isTransportServerRes (rc_Resource ch)) changes.
Proof.
  unfold createResourceChangesForListeners. intros Hc.
  destruct (mapM _ removed) as [rc |] eqn:Hr; simplify_eq/=.
  destruct (mapM _ updated) as [uc |] eqn:Hu; simplify_eq/=.
  destruct (mapM _ added) as [ac |] eqn:Ha; simplify_eq/=.
  assert (∀ (m : gmap listenerHostKey TransportServerConfiguration) l r,
            (TransportServerRes <$> m) !! l = Some r → isTransportServerRes r) as Hkind.
  { intros m l r. rewrite lookup_fmap. destruct (m !! l); intros; by simplify_eq/=. }
  assert (Forall (λ ch, isTransportServerRes (rc_Resource ch)) rc) as Hrc.
  { eapply mapM_Forall_fmap; [| exact Hr]. intros l ch Hl. simpl in Hl.
    destruct (_ !! l) as [r |] eqn:E; simplify_eq/=. by eapply Hkind. }
  assert (Forall (λ ch, isTransportServerRes (rc_Resource ch)) ac) as Hac.
  { eapply mapM_Forall_fmap; [| exact Ha]. intros l ch Hl. simpl in Hl.
    destruct (_ !! l) as [r |] eqn:E; simplify_eq/=. by eapply Hkind. }
  assert (Forall (λ p : list ResourceChange * ResourceChange,
            Forall (λ ch, isTransportServerRes (rc_Resource ch)) p.1
            ∧ isTransportServerRes (rc_Resource p.2)) uc) as Huc.
  { eapply mapM_Forall_fmap; [| exact Hu]. intros l p Hl.
    eapply (updatedChange_Forall isTransportServerRes); [| | exact Hl]; apply Hkind. }
  repeat (apply Forall_app; split); try done.
  - apply Forall_concat. apply Forall_fmap. eapply Forall_impl; [exact Huc |].
    by intros p [? _].
  - apply Forall_fmap. eapply Forall_impl; [exact Huc |]. by intros p [_ ?].
Qed.

Lemma TransportServer_key_prefix r :
  isTransportServerRes r → hasPrefix "TransportServer/" (GetKeyWithKind r) = true.
Proof. destruct r; [done | done |]. intros _. reflexivity. Qed.

Lemma rebuildListenerHosts_squashed c changes problems c' :
  rebuildListenerHosts c = Some (changes, problems, c') →
  deletesFirst changes ∧ (plainKeys c → uniqueByIdentity changes).
Proof.
  intros Hc. rewrite rebuildListenerHosts_alt in Hc.
  destruct (listenerOutcome c) as [[[newListenerHosts newTSConfigs] newProblems] |] eqn:Ho;
    simplify_eq/=.
  destruct (detectChangesInListenerHosts (listenerHosts c) newListenerHosts) as [[r u] a].
  destruct (createResourceChangesForListeners _ _ _ _ _) as [changes0 |] eqn:Hcr;
    simplify_eq/=.
  destruct (squashResourceChanges_squashed changes0) as [Hu Hd]. split.
  - apply deletesFirst_fmap; [apply refresh_Op | done].
  - intros Hplain.
    assert (refresh (TransportServerRes <$> newTSConfigs) <$> squashResourceChanges changes0
            = squashResourceChanges changes0) as ->; [| done].
    apply createResourceChangesForListeners_kind in Hcr.
    apply (squashResourceChanges_Forall _ _) in Hcr.
    rewrite <- (list_fmap_id (squashResourceChanges changes0)) at 2.
    apply list_fmap_ext. intros i ch Hi. simpl.
    apply list_elem_of_lookup_2 in Hi. rewrite Forall_forall in Hcr.
    pose proof (TransportServer_key_prefix _ (Hcr _ Hi)) as Hyes. clear Hi.
    unfold refresh. rewrite lookup_fmap.
    destruct (newTSConfigs !! rc_key ch) as [tsc |] eqn:Htsc; [| done].
    exfalso. unfold listenerOutcome in Ho.
    destruct (buildListenerHostsAndTSConfigurations c) as [lb |] eqn:Hb; simplify_eq/=.
    apply buildListenerHostsAndTSConfigurations_inv in Hb as (H1 & _).
    apply H1 in Htsc as [Hin _]. apply elem_of_rangeItems in Hin.
    assert (hasPrefix "TransportServer/" (rc_key ch) = false) as Hno
      by (apply Hplain; eauto).
    unfold rc_key in Hno. congruence.
Qed.

Lemma attachError_view k e l l' :
  attachError k e l = Some l' → changeView <$> l' = changeView <$> l.
Proof.
  revert l'. induction l as [| ch l IH]; intros l' Hl; simpl in Hl; [done |].
  case_bool_decide.
  - by simplify_eq.
  - destruct (attachError k e l) as [l0 |]; simplify_eq/=. f_equal. by apply IH.
Qed.

Lemma reportValidationError_view v k p changes problems changes' problems' :
  reportValidationError v k p changes problems = (changes', problems') →
  changeView <$> changes' = changeView <$> changes.
Proof.
  unfold reportValidationError. intros H.
  destruct v as [err |]; [| by simplify_eq].
  destruct (attachError k err changes) as [l |] eqn:Ha; simplify_eq; [| done].
  by eapply attachError_view.
Qed.

Lemma twoSquashed_views withHosts c' l l' :
  changeView <$> l' = changeView <$> l → twoSquashed withHosts c' l → twoSquashed withHosts c' l'.
Proof.
  intros Hv (cx & lch & lpr & c1 & hch & Hl & Hh & Hviews & Hshape).
  exists cx, lch, lpr, c1, hch. by rewrite Hv.
Qed.

Lemma deletesFirst_nil : deletesFirst [].
Proof. by intros i j ci cj Hi. Qed.

Lemma uniqueByIdentity_nil : uniqueByIdentity [].
Proof. apply NoDup_nil_2. Qed.

Lemma rebuildListenerHostsThenHosts_squashed c changes problems c' :
  rebuildListenerHostsThenHosts c = Some (changes, problems, c') →
  twoSquashed true c' changes.
Proof.
  unfold rebuildListenerHostsThenHosts. intros Hc.
  destruct (rebuildListenerHosts c) as [[[lch lpr] c1] |] eqn:Hl; simplify_eq/=.
  destruct (rebuildHosts c1) as [[[hch hpr] c2] |] eqn:Hh; simplify_eq/=.
  destruct (rebuildListenerHosts_squashed _ _ _ _ Hl) as [Hd Hu].
  destruct (rebuildHosts_squashed _ _ _ _ Hh) as [Hu' Hd'].
  exists c, lch, lpr, c1, hch. split; [done |]. split; [by exists hpr |].
  split; [done |]. split; [done |]. split; [| done].
  destruct (rebuildListenerHosts_frame _ _ _ _ Hl) as (l & q & ->).
  by destruct (rebuildHosts_frame _ _ _ _ Hh) as (h & p & ->).
Qed.

Lemma rebuildForTransportServers_squashed c changes problems c' :
  rebuildForTransportServers c = Some (changes, problems, c') →
  twoSquashed (isTLSPassthroughEnabled c) c' changes.
Proof.
  unfold rebuildForTransportServers. intros Hc.
  destruct (isTLSPassthroughEnabled c).
  - by eapply rebuildListenerHostsThenHosts_squashed.
  - destruct (rebuildListenerHosts_squashed _ _ _ _ Hc) as [Hd Hu].
    exists c, changes, problems, c', []. rewrite app_nil_r.
    split; [done |]. split; [done |]. split; [done |]. split; [done |].
    split; [| split; [apply uniqueByIdentity_nil | apply deletesFirst_nil]].
    by destruct (rebuildListenerHosts_frame _ _ _ _ Hc) as (l & q & ->).
Qed.

(** X24: the change list of a mutator that runs the host rebuild alone
    has one change per resource identity and every delete before every
    upsert. A mutator of TransportServers or of the GlobalConfiguration
    returns no change, or what the listener rebuild returned followed by
    what the host rebuild after it returned, with the error of a refused
    resource set on one change; the TransportServer mutators run the host
    rebuild only with TLS passthrough enabled, and their host part is
    empty without it. Each of the two parts has every delete before every
    upsert, the host part has one change per identity, and so has the
    listener part when no TransportServer is stored under a key that
    begins with its kind. *)
Theorem changes_squashed_per_rebuild c m changes problems c' :
  applyMutation c m = Some (changes, problems, c') →
  if hostOnly m then uniqueByIdentity changes ∧ deletesFirst changes
  else changes = [] ∨ twoSquashed (alsoRebuildsHosts c m) c' changes.
Proof.
  destruct m as [ing | key | vs | key | vsr | key | ts | key | gc |]; simpl.
  - unfold AddOrUpdateIngress. intros Hc.
    destruct (rebuildHosts _) as [[[ch pr] c1] |] eqn:Hr; simplify_eq/=.
    destruct (reportValidationError _ _ _ ch pr) as [ch' pr'] eqn:Hrep. simplify_eq/=.
    apply reportValidationError_view in Hrep. symmetry in Hrep.
    destruct (rebuildHosts_squashed _ _ _ _ Hr).
    eauto using uniqueByIdentity_views, deletesFirst_views.
  - unfold DeleteIngress. intros Hc.
    destruct (ingresses c !! key); simplify_eq/=;
      eauto using rebuildHosts_squashed, deletesFirst_nil, uniqueByIdentity_nil.
  - unfold AddOrUpdateVirtualServer. intros Hc.
    destruct (rebuildHosts _) as [[[ch pr] c1] |] eqn:Hr; simplify_eq/=.
    destruct (reportValidationError _ _ _ ch pr) as [ch' pr'] eqn:Hrep. simplify_eq/=.
    apply reportValidationError_view in Hrep. symmetry in Hrep.
    destruct (rebuildHosts_squashed _ _ _ _ Hr).
    eauto using uniqueByIdentity_views, deletesFirst_views.
  - unfold DeleteVirtualServer. intros Hc.
    destruct (virtualServers c !! key); simplify_eq/=;
      eauto using rebuildHosts_squashed, deletesFirst_nil, uniqueByIdentity_nil.
  - unfold AddOrUpdateVirtualServerRoute. intros Hc.
    destruct (rebuildHosts _) as [[[ch pr] c1] |] eqn:Hr; simplify_eq/=.
    eauto using rebuildHosts_squashed.
  - unfold DeleteVirtualServerRoute. intros Hc.
    destruct (virtualServerRoutes c !! key); simplify_eq/=;
      eauto using rebuildHosts_squashed, deletesFirst_nil, uniqueByIdentity_nil.
  - unfold AddOrUpdateTransportServer. intros Hc. right.
    destruct (rebuildForTransportServers _) as [[[ch pr] c1] |] eqn:Hr; simplify_eq/=.
    destruct (reportValidationError _ _ _ ch pr) as [ch' pr'] eqn:Hrep. simplify_eq/=.
    apply reportValidationError_view in Hrep.
    apply rebuildForTransportServers_squashed in Hr.
    eapply twoSquashed_views; [done |].
    by repeat case_match.
  - unfold DeleteTransportServer. intros Hc.
    destruct (transportServers c !! key); simplify_eq/=; [right | by left].
    by apply rebuildForTransportServers_squashed in Hc.
  - unfold AddOrUpdateGlobalConfiguration. intros Hc. right.
    destruct (rebuildListenerHostsThenHosts _) as [[[ch pr] c1] |] eqn:Hr; simplify_eq/=.
    by apply rebuildListenerHostsThenHosts_squashed in Hr.
  - unfold DeleteGlobalConfiguration. intros Hc. right.
    by apply rebuildListenerHostsThenHosts_squashed in Hc.
Qed.

(** ** The TLS passthrough pass *)

(** C2 (amended): with TLS passthrough enabled, the third pass makes a
    TransportServerConfiguration for a stored TransportServer exactly
    when its listener name is [tls-passthrough] or its listener protocol
    is [TLS_PASSTHROUGH]; one of the two is enough. Such a
    TransportServer claims its host: after the pass the host has a
    holder, which is this TransportServer or one over which it does not
    win, and in the latter case it carries the warning. *)
Theorem passthrough_pass_candidates c st key ts :
  isTLSPassthroughEnabled c = true →
  buildHostsAndResources c = Some st →
  transportServers c !! key = Some ts →
  (passthroughCandidate ts ↔ is_Some (hb_heap st !! (KTransportServer, key)))
  ∧ (passthroughCandidate ts →
     ∃ tsc holder rh,
       hb_heap st !! (KTransportServer, key) = Some (TransportServerRes tsc)
       ∧ tsc_TransportServer tsc = ts
       ∧ hb_newHosts st !! ts_Host ts = Some holder
       ∧ hb_heap st !! holder = Some rh
       ∧ (holder = (KTransportServer, key)
          ∨ (hostTakenWarning (ts_Host ts) ∈ tsc_Warnings tsc
             ∧ Wins (TransportServerRes tsc) rh = false))).
Proof.
  intros Hen Hb Hts. apply buildHostsAndResources_inv in Hb. rewrite Hen in Hb.
  destruct Hb as (_ & (log & [Hheld Hlog] & Hcomplete) & Hfrom & _ & _ & HT & _).
  assert (∀ r, hb_heap st !! (KTransportServer, key) = Some r →
            passthroughCandidate ts
            ∧ ∃ tsc, r = TransportServerRes tsc ∧ tsc_TransportServer tsc = ts) as Hback.
  { intros r Hr. destruct (Hfrom _ _ Hr) as [(ts' & tsc & Hin & Hcand & -> & Htsc) _].
    simpl in Hin. apply elem_of_sortedItems in Hin. simplify_eq. eauto. }
  split.
  - split.
    + intros Hcand. eapply HT; [| done]. by apply elem_of_sortedItems.
    + intros [r Hr]. by destruct (Hback _ Hr).
  - intros Hcand.
    destruct (HT key ts) as [r Hr]; [by apply elem_of_sortedItems | done |].
    destruct (Hback _ Hr) as (_ & tsc & -> & Htsc).
    destruct (Hlog (KTransportServer, key) (ts_Host ts)) as (r' & x & rx & Hr' & Hx & Hrx & Hor).
    { eapply Hcomplete; [done |]. simpl. rewrite Htsc. apply list_elem_of_singleton. done. }
    simplify_eq. exists tsc, x, rx. eauto 10.
Qed.

(** ** The stores that the mutators build *)

Lemma keyed_insert {V} (keyOf : V → string) (m : gmap string V) v :
  (∀ k x, m !! k = Some x → k = keyOf x) →
  ∀ k x, <[keyOf v := v]> m !! k = Some x → k = keyOf x.
Proof.
  intros Hm k x. rewrite lookup_insert. case_decide; [| by apply Hm].
  intros ?; by simplify_eq.
Qed.

Lemma keyed_delete {V} (keyOf : V → string) (m : gmap string V) key :
  (∀ k x, m !! k = Some x → k = keyOf x) →
  ∀ k x, delete key m !! k = Some x → k = keyOf x.
Proof.
  intros Hm k x. rewrite lookup_delete. case_decide; [done | by apply Hm].
Qed.

Lemma storeKeyed_NewConfiguration cls plus ap dos internal vsv gcv tsv pt snip cm ipv6 :
  storeKeyed (NewConfiguration cls plus ap dos internal vsv gcv tsv pt snip cm ipv6).
Proof. by repeat split; intros k x; cbn; rewrite lookup_empty. Qed.

Lemma storeKeyed_set_ingresses c m :
  storeKeyed c → (∀ k ing, m !! k = Some ing → k = getResourceKey (ing_ObjectMeta ing)) →
  storeKeyed (set_ingresses m c).
Proof. intros (HI & HV & HR & HT) Hm. by repeat split. Qed.

Lemma storeKeyed_set_virtualServers c m :
  storeKeyed c → (∀ k vs, m !! k = Some vs → k = getResourceKey (vs_ObjectMeta vs)) →
  storeKeyed (set_virtualServers m c).
Proof. intros (HI & HV & HR & HT) Hm. by repeat split. Qed.

Lemma storeKeyed_set_virtualServerRoutes c m :
  storeKeyed c → (∀ k vsr, m !! k = Some vsr → k = getResourceKey (vsr_ObjectMeta vsr)) →
  storeKeyed (set_virtualServerRoutes m c).
Proof. intros (HI & HV & HR & HT) Hm. by repeat split. Qed.

Lemma storeKeyed_set_transportServers c m :
  storeKeyed c → (∀ k ts, m !! k = Some ts → k = getResourceKey (ts_ObjectMeta ts)) →
  storeKeyed (set_transportServers m c).
Proof. intros (HI & HV & HR & HT) Hm. by repeat split. Qed.

Lemma storeKeyed_rebuildHosts c changes problems c' :
  rebuildHosts c = Some (changes, problems, c') → storeKeyed c → storeKeyed c'.
Proof. intros Hr Hc. by destruct (rebuildHosts_frame _ _ _ _ Hr) as (h & p & ->). Qed.

Lemma storeKeyed_rebuildListenerHostsThenHosts c changes problems c' :
  rebuildListenerHostsThenHosts c = Some (changes, problems, c') →
  storeKeyed c → storeKeyed c'.
Proof.
  intros Hr Hc.
  by destruct (rebuildListenerHostsThenHosts_frame _ _ _ _ Hr) as (h & p & l & q & ->).
Qed.

Lemma storeKeyed_rebuildForTransportServers c changes problems c' :
  rebuildForTransportServers c = Some (changes, problems, c') →
  storeKeyed c → storeKeyed c'.
Proof.
  intros Hr Hc.
  by destruct (rebuildForTransportServers_frame _ _ _ _ Hr) as (h & p & l & q & ->).
Qed.

(** Every mutator files a resource under the key of its metadata. *)
Lemma applyMutation_storeKeyed c m changes problems c' :
  applyMutation c m = Some (changes, problems, c') → storeKeyed c → storeKeyed c'.
Proof.
  intros Hm Hc. pose proof Hc as (HI & HV & HR & HT).
  destruct m as [ing | key | vs | key | vsr | key | ts | key | gc |]; simpl in Hm.
  - unfold AddOrUpdateIngress in Hm.
    destruct (rebuildHosts _) as [[[ch pr] c1] |] eqn:Hr; simplify_eq/=.
    destruct (reportValidationError _ _ _ ch pr) as [ch' pr']. simplify_eq/=.
    eapply storeKeyed_rebuildHosts; [done |].
    repeat case_match; (apply storeKeyed_set_ingresses; [done |]);
      first [ by apply (keyed_insert (λ x, getResourceKey (ing_ObjectMeta x)))
            | by apply (keyed_delete (λ x, getResourceKey (ing_ObjectMeta x))) ].
  - unfold DeleteIngress in Hm. destruct (ingresses c !! key); simplify_eq/=; [| done].
    eapply storeKeyed_rebuildHosts; [done |]. apply storeKeyed_set_ingresses; [done |].
    by apply (keyed_delete (λ x, getResourceKey (ing_ObjectMeta x))).
  - unfold AddOrUpdateVirtualServer in Hm.
    destruct (rebuildHosts _) as [[[ch pr] c1] |] eqn:Hr; simplify_eq/=.
    destruct (reportValidationError _ _ _ ch pr) as [ch' pr']. simplify_eq/=.
    eapply storeKeyed_rebuildHosts; [done |].
    repeat case_match; (apply storeKeyed_set_virtualServers; [done |]);
      first [ by apply (keyed_insert (λ x, getResourceKey (vs_ObjectMeta x)))
            | by apply (keyed_delete (λ x, getResourceKey (vs_ObjectMeta x))) ].
  - unfold DeleteVirtualServer in Hm.
    destruct (virtualServers c !! key); simplify_eq/=; [| done].
    eapply storeKeyed_rebuildHosts; [done |]. apply storeKeyed_set_virtualServers; [done |].
    by apply (keyed_delete (λ x, getResourceKey (vs_ObjectMeta x))).
  - unfold AddOrUpdateVirtualServerRoute in Hm.
    destruct (rebuildHosts _) as [[[ch pr] c1] |] eqn:Hr; simplify_eq/=.
    eapply storeKeyed_rebuildHosts; [done |].
    repeat case_match; (apply storeKeyed_set_virtualServerRoutes; [done |]);
      first [ by apply (keyed_insert (λ x, getResourceKey (vsr_ObjectMeta x)))
            | by apply (keyed_delete (λ x, getResourceKey (vsr_ObjectMeta x))) ].
  - unfold DeleteVirtualServerRoute in Hm.
    destruct (virtualServerRoutes c !! key); simplify_eq/=; [| done].
    eapply storeKeyed_rebuildHosts; [done |].
    apply storeKeyed_set_virtualServerRoutes; [done |].
    by apply (keyed_delete (λ x, getResourceKey (vsr_ObjectMeta x))).
  - unfold AddOrUpdateTransportServer in Hm.
    destruct (rebuildForTransportServers _) as [[[ch pr] c1] |] eqn:Hr; simplify_eq/=.
    destruct (reportValidationError _ _ _ ch pr) as [ch' pr']. simplify_eq/=.
    eapply storeKeyed_rebuildForTransportServers; [done |].
    repeat case_match; (apply storeKeyed_set_transportServers; [done |]);
      first [ by apply (keyed_insert (λ x, getResourceKey (ts_ObjectMeta x)))
            | by apply (keyed_delete (λ x, getResourceKey (ts_ObjectMeta x))) ].
  - unfold DeleteTransportServer in Hm.
    destruct (transportServers c !! key); simplify_eq/=; [| done].
    eapply storeKeyed_rebuildForTransportServers; [done |].
    apply storeKeyed_set_transportServers; [done |].
    by apply (keyed_delete (λ x, getResourceKey (ts_ObjectMeta x))).
  - unfold AddOrUpdateGlobalConfiguration in Hm.
    destruct (rebuildListenerHostsThenHosts _) as [[[ch pr] c1] |] eqn:Hr; simplify_eq/=.
    eapply storeKeyed_rebuildListenerHostsThenHosts; [done |]. done.
  - unfold DeleteGlobalConfiguration in Hm.
    eapply storeKeyed_rebuildListenerHostsThenHosts; [done |]. done.
Qed.

(** ** Host collisions *)

(** Every derived resource of a rebuild has claimed its hosts: each of them
    has a holder at the end, which is the resource itself or one over
    which the resource does not win, and in the latter case the resource
    carries the warning. *)
Lemma hostOutcome_claims c detected latest newProblems finalHosts K loser h :
  hostOutcome c = Some (detected, latest, newProblems, finalHosts) →
  latest !! K = Some loser → h ∈ resourceHosts loser →
  ∃ winner,
    finalHosts !! h = Some winner
    ∧ (winner = loser
       ∨ (hostTakenWarning h ∈ GetWarnings loser ∧ Wins loser winner = false)).
Proof.
  intros Ho Hl Hh.
  apply hostOutcome_Some in Ho
    as (st & heap1 & heap2 & p1 & p2 & Hb & _ & _ & _ & _ & _ & _ & -> & -> & He1 & He2).
  pose proof (heapEvolves_trans _ _ _ He1 He2) as He.
  apply buildHostsAndResources_inv in Hb as (_ & (log & [_ Hlog] & Hcomplete) & _).
  rewrite lookup_deref in Hl.
  destruct (hb_newResources st !! K) as [a |] eqn:Ha; simplify_eq/=.
  destruct (heapEvolves_Some_inv _ _ _ _ He Hl) as (r0 & Hr0 & Hev).
  rewrite (evolves_resourceHosts _ _ Hev) in Hh.
  destruct (Hlog a h) as (r & x & rx & Hr & Hx & Hrx & Hor); [by eapply Hcomplete |].
  simplify_eq.
  destruct (heapEvolves_Some _ _ _ _ He Hrx) as (rx' & Hrx' & Hevx).
  exists rx'. split; [by rewrite lookup_deref, Hx |].
  destruct (claim_fact_evolves h _ _ _ _ x a Hev Hevx Hor) as [-> | Hlost]; [| by right].
  left. congruence.
Qed.

Lemma kind_VirtualServer_Ingress meta1 meta2 :
  getResourceKeyWithKind virtualServerKind meta1
  ≠ getResourceKeyWithKind ingressKind meta2.
Proof. unfold getResourceKeyWithKind. cbn. discriminate. Qed.

Lemma kind_VirtualServer_VirtualServerRoute meta1 meta2 :
  getResourceKeyWithKind virtualServerKind meta1
  ≠ getResourceKeyWithKind virtualServerRouteKind meta2.
Proof. unfold getResourceKeyWithKind. cbn. discriminate. Qed.

(** The orphan passes write under keys of Ingresses and
    VirtualServerRoutes only. *)
Lemma addProblemsForOrphanMinions_other c hosts heap p p' K :
  addProblemsForOrphanMinions c hosts heap p = Some p' →
  (∀ meta, K ≠ getResourceKeyWithKind ingressKind meta) →
  p' !! K = p !! K.
Proof.
  unfold addProblemsForOrphanMinions. intros Hp HK. revert Hp.
  apply (forM_ind _ (λ _ q, q !! K = p !! K)); [done |].
  intros pre [k ing] post t t' _ IH Hstep. cbn in Hstep.
  destruct (isMinion ing); cbn in Hstep; [| by simplify_eq].
  destruct (head (ing_Rules ing)) as [rule |]; cbn in Hstep; [| done].
  case_match; simplify_eq; [| done].
  rewrite lookup_insert_ne; [done |]. intros Heq. by eapply HK.
Qed.

Lemma addProblemsForOrphanOrIgnoredVsrs_other c hosts heap p K :
  (∀ meta, K ≠ getResourceKeyWithKind virtualServerRouteKind meta) →
  addProblemsForOrphanOrIgnoredVsrs c hosts heap p !! K = p !! K.
Proof.
  unfold addProblemsForOrphanOrIgnoredVsrs. intros HK.
  generalize (sortedItems (virtualServerRoutes c)). intros l. revert p.
  induction l as [| [k vsr] l IH]; intros p; [done |]. cbn [foldl]. rewrite IH.
  cbn. repeat case_match; try done; rewrite lookup_insert_ne; try done;
    intros Heq; by eapply HK.
Qed.

(** A VirtualServer that does not hold its host gets the problem. *)
Lemma addProblemsForResourcesWithoutActiveHost_VirtualServer
    hosts heap resources p K a impl res :
  (∀ K a, resources !! K = Some a → ∃ r, heap !! a = Some r ∧ GetKeyWithKind r = K) →
  addProblemsForResourcesWithoutActiveHost hosts heap resources ∅ = Some p →
  resources !! K = Some a → heap !! a = Some (VirtualServerRes impl) →
  lookupRes heap hosts (vs_Host (vsc_VirtualServer impl)) = Some res →
  GetKeyWithKind res ≠ K →
  p !! K = Some (mkProblem (ObjVirtualServer (vsc_VirtualServer impl)) false
                   EventReasonRejected "Host is taken by another resource").
Proof.
  intros Hreg Hp HK Ha Hres Hne.
  assert (GetKeyWithKind (VirtualServerRes impl) = K) as HKey.
  { destruct (Hreg _ _ HK) as (r & Hr & <-). congruence. }
  apply elem_of_sortedItems in HK. revert Hp HK.
  unfold addProblemsForResourcesWithoutActiveHost.
  apply (forM_ind _ (λ pre q, (K, a) ∈ pre →
           q !! K = Some (mkProblem (ObjVirtualServer (vsc_VirtualServer impl)) false
                            EventReasonRejected "Host is taken by another resource"))).
  { intros Hin. by apply elem_of_nil in Hin. }
  intros pre [K' a'] post t t' Hl IH Hstep Hin. cbn [fst snd] in Hstep.
  apply elem_of_app in Hin as [Hin | Hin].
  - assert (K ≠ K') as HKK'.
    { pose proof (NoDup_sortedItems_fst resources) as Hnd. rewrite Hl in Hnd.
      rewrite fmap_app, fmap_cons in Hnd. apply NoDup_app in Hnd as (_ & Hnd & _).
      intros ->. eapply Hnd; [| left].
      apply list_elem_of_fmap. by exists (K', a). }
    assert ((K', a') ∈ sortedItems resources) as Hx.
    { rewrite Hl. apply elem_of_app. right. left. }
    apply elem_of_sortedItems in Hx. destruct (Hreg _ _ Hx) as (r' & Hr' & HK').
    rewrite Hr' in Hstep. cbn [mbind option_bind] in Hstep.
    assert (t' !! K = t !! K) as ->; [| by apply IH].
    destruct r' as [ic | vsc | tsc].
    + case_match; simplify_eq; [| done]. rewrite lookup_insert_ne; [done | congruence].
    + destruct (lookupRes heap hosts (vs_Host (vsc_VirtualServer vsc))) as [res' |];
        cbn [mbind option_bind] in Hstep; [| done].
      case_bool_decide; simplify_eq; [| done].
      rewrite lookup_insert_ne; [done | congruence].
    + destruct (lookupRes heap hosts (ts_Host (tsc_TransportServer tsc))) as [res' |];
        cbn [mbind option_bind] in Hstep; [| done].
      case_bool_decide; simplify_eq; [| done].
      rewrite lookup_insert_ne; [done | congruence].
  - apply list_elem_of_singleton in Hin. simplify_eq.
    rewrite Ha in Hstep. cbn [mbind option_bind] in Hstep.
    rewrite Hres in Hstep. cbn [mbind option_bind] in Hstep.
    rewrite bool_decide_eq_true_2 in Hstep by done. simplify_eq.
    by rewrite lookup_insert_eq.
Qed.

Lemma elem_of_detectChangesInProblems newProblems oldProblems p :
  p ∈ detectChangesInProblems newProblems oldProblems ↔
  ∃ k, newProblems !! k = Some p
       ∧ (oldProblems !! k = None
          ∨ ∃ old, oldProblems !! k = Some old
                   ∧ compareConfigurationProblems p old = false).
Proof.
  unfold detectChangesInProblems. rewrite list_elem_of_bind. split.
  - intros (k & Hp & _). exists k.
    destruct (newProblems !! k) as [newP |]; [| by apply elem_of_nil in Hp].
    destruct (oldProblems !! k) as [oldP |].
    + destruct (compareConfigurationProblems newP oldP) eqn:Hcmp; cbn in Hp;
        [by apply elem_of_nil in Hp |].
      apply list_elem_of_singleton in Hp as ->. eauto.
    + apply list_elem_of_singleton in Hp as ->. eauto.
  - intros (k & Hk & Hold). exists k. rewrite Hk. split.
    + destruct Hold as [-> | (old & -> & ->)]; cbn; apply list_elem_of_singleton; done.
    + apply elem_of_getSortedKeys. eauto.
Qed.

Lemma evolves_VirtualServerRes r vsc :
  evolves r (VirtualServerRes vsc) →
  ∃ vsc0, r = VirtualServerRes vsc0 ∧ vsc_VirtualServer vsc0 = vsc_VirtualServer vsc.
Proof. intros [Hc _]. destruct r; simplify_eq/=. eauto. Qed.

(** A derived VirtualServer that does not hold its host has the problem
    among the new problems. *)
Lemma hostOutcome_VirtualServer_problem c detected latest newProblems finalHosts K vsc winner :
  hostOutcome c = Some (detected, latest, newProblems, finalHosts) →
  latest !! K = Some (VirtualServerRes vsc) →
  finalHosts !! vs_Host (vsc_VirtualServer vsc) = Some winner →
  GetKeyWithKind winner ≠ K →
  newProblems !! K
  = Some (mkProblem (ObjVirtualServer (vsc_VirtualServer vsc)) false EventReasonRejected
            "Host is taken by another resource").
Proof.
  intros Ho Hl Hw Hne.
  pose proof (hostOutcome_latest_keyed _ _ _ _ _ _ _ Ho Hl) as HK.
  apply hostOutcome_Some in Ho
    as (st & heap1 & heap2 & p1 & p2 & Hb & _ & Hp1 & Hp2 & -> & _ & _ & -> & -> & He1 & He2).
  apply buildHostsAndResources_inv in Hb as (Hreg & _).
  rewrite lookup_deref in Hl, Hw.
  destruct (hb_newResources st !! K) as [a |] eqn:Ha; simplify_eq/=.
  destruct (hb_newHosts st !! vs_Host (vsc_VirtualServer vsc)) as [x |] eqn:Hx;
    simplify_eq/=.
  destruct (heapEvolves_Some_inv _ _ _ _ He2 Hl) as (r1 & Hr1 & Hev).
  destruct (evolves_VirtualServerRes _ _ Hev) as (vsc1 & -> & Hvs).
  destruct (heapEvolves_Some_inv _ _ _ _ He2 Hw) as (w1 & Hw1 & Hevw).
  rewrite addProblemsForOrphanOrIgnoredVsrs_other
    by (intros meta; apply kind_VirtualServer_VirtualServerRoute).
  rewrite (addProblemsForOrphanMinions_other _ _ _ _ _ _ Hp2)
    by (intros meta; apply kind_VirtualServer_Ingress).
  rewrite <- Hvs.
  eapply addProblemsForResourcesWithoutActiveHost_VirtualServer; [| done | done | done | |].
  - intros K' a' HK'. destruct (Hreg _ _ HK') as (r & Hr & <-).
    destruct (heapEvolves_Some _ _ _ _ He1 Hr) as (r' & Hr' & Hev').
    exists r'. split; [done |]. by apply evolves_GetKeyWithKind.
  - unfold lookupRes. rewrite Hvs, Hx. exact Hw1.
  - rewrite <- (evolves_GetKeyWithKind _ _ Hevw). done.
Qed.

(** C5: a derived resource of a host rebuild that claims a host and does
    not hold it at the end lost the host to its holder: it does not win
    over the holder, and the holder wins over it whenever their
    (creationTimestamp, uid) pairs differ; it carries the warning
    [host ... is taken by another resource]; and when it is a
    VirtualServer, the rebuild files the problem [Rejected], not an
    error, under its identity, and returns the problem unless the store
    held it before. Every host that a derived resource claims has a
    holder. *)
Theorem host_collision c changes problems c' detected latest newProblems finalHosts
    K loser h :
  rebuildHosts c = Some (changes, problems, c') →
  hostOutcome c = Some (detected, latest, newProblems, finalHosts) →
  latest !! K = Some loser →
  h ∈ resourceHosts loser →
  ∃ winner,
    hosts c' !! h = Some winner
    ∧ (GetKeyWithKind winner ≠ GetKeyWithKind loser →
       Wins loser winner = false
       ∧ (orderKey (GetObjectMeta loser) ≠ orderKey (GetObjectMeta winner) →
          Wins winner loser = true)
       ∧ hostTakenWarning h ∈ GetWarnings loser
       ∧ ∀ vsc, loser = VirtualServerRes vsc →
           let p := mkProblem (ObjVirtualServer (vsc_VirtualServer vsc)) false
                      EventReasonRejected "Host is taken by another resource" in
           hostProblems c' !! K = Some p
           ∧ ((∀ old, hostProblems c !! K = Some old →
                      compareConfigurationProblems p old = false) →
              p ∈ problems)).
Proof.
  intros Hr Ho Hl Hh.
  apply rebuildHosts_Some in Hr as (d0 & l0 & np0 & fh0 & ch0 & Ho' & _ & -> & ->).
  rewrite Ho in Ho'. simplify_eq. cbn [hosts hostProblems set_hosts].
  pose proof (hostOutcome_latest_keyed _ _ _ _ _ _ _ Ho Hl) as HK.
  destruct (hostOutcome_claims _ _ _ _ _ _ _ _ Ho Hl Hh) as (winner & Hw & Hor).
  exists winner. split; [done |]. intros Hne.
  destruct Hor as [-> | [Hwarn Hlost]]; [done |].
  split; [done |]. split.
  { intros Hkeys. unfold Wins in *. apply chooseObjectMetaWinner_total; [| done].
    congruence. }
  split; [done |]. intros vsc ->.
  apply list_elem_of_singleton in Hh. subst h.
  assert (fh0 !! vs_Host (vsc_VirtualServer vsc) = Some winner) as Hw' by done.
  pose proof (hostOutcome_VirtualServer_problem _ _ _ _ _ _ _ _ Ho Hl Hw') as Hp.
  rewrite HK in Hne. specialize (Hp Hne). split; [done |].
  intros Hold. apply elem_of_detectChangesInProblems. exists K. split; [done |].
  destruct (hostProblems c !! K) as [old |] eqn:E; [| by left].
  right. exists old. split; [done |]. by apply Hold.
Qed.

(** ** Identities and addresses *)

Lemma kindName_inj k1 s1 k2 s2 :
  kindName k1 +:+ "/" +:+ s1 = kindName k2 +:+ "/" +:+ s2 → k1 = k2 ∧ s1 = s2.
Proof. destruct k1, k2; cbn; intros H; by simplify_eq. Qed.

(** In a store that files every resource under its own key, the object
    at an address has the identity that the address spells. *)
Lemma built_key c st a r :
  storeKeyed c → buildHostsAndResources c = Some st →
  hb_heap st !! a = Some r → GetKeyWithKind r = kindName a.1 +:+ "/" +:+ a.2.
Proof.
  intros (HI & HV & _ & HT) Hb Hr.
  apply buildHostsAndResources_inv in Hb as (_ & _ & Hfrom & _).
  destruct (Hfrom _ _ Hr) as [Hmade _]. destruct a as [[] k]; cbn in Hmade |- *.
  - destruct Hmade as (ing & ic & Hin & _ & -> & Hic).
    apply elem_of_sortedItems in Hin. rewrite (HI _ _ Hin).
    unfold GetKeyWithKind. by rewrite Hic.
  - destruct Hmade as (vs & vsc & Hin & -> & Hvsc & _).
    apply elem_of_sortedItems in Hin. rewrite (HV _ _ Hin).
    unfold GetKeyWithKind. by rewrite Hvsc.
  - destruct Hmade as (ts & tsc & Hin & _ & -> & Htsc).
    destruct (isTLSPassthroughEnabled c); [| by apply elem_of_nil in Hin].
    apply elem_of_sortedItems in Hin. rewrite (HT _ _ Hin).
    unfold GetKeyWithKind, tsc_GetKeyWithKind. by rewrite Htsc.
Qed.

(** Such a store registers every object under its identity. *)
Lemma built_registered c st a r :
  storeKeyed c → buildHostsAndResources c = Some st →
  hb_heap st !! a = Some r → hb_newResources st !! GetKeyWithKind r = Some a.
Proof.
  intros Hc Hb Hr. pose proof (built_key _ _ _ _ Hc Hb Hr) as HK.
  pose proof Hb as Hinv. apply buildHostsAndResources_inv in Hinv as (Hreg & _ & Hfrom & _).
  destruct (Hfrom _ _ Hr) as [_ [a' Ha']].
  destruct (Hreg _ _ Ha') as (r' & Hr' & HK').
  pose proof (built_key _ _ _ _ Hc Hb Hr') as HK''.
  rewrite HK', HK in HK''. apply kindName_inj in HK'' as [H1 H2].
  rewrite Ha'. f_equal. destruct a, a'; simpl in *; congruence.
Qed.

Lemma hostOutcome_latest_built c detected latest newProblems finalHosts st a r :
  storeKeyed c →
  hostOutcome c = Some (detected, latest, newProblems, finalHosts) →
  buildHostsAndResources c = Some st →
  hb_heap st !! a = Some r →
  ∃ r', latest !! (kindName a.1 +:+ "/" +:+ a.2) = Some r' ∧ evolves r r'.
Proof.
  intros Hc Ho Hb Hr.
  apply hostOutcome_Some in Ho
    as (st' & heap1 & heap2 & p1 & p2 & Hb' & _ & _ & _ & _ & _ & _ & -> & _ & He1 & He2).
  rewrite Hb in Hb'. simplify_eq.
  destruct (heapEvolves_Some _ _ _ _ (heapEvolves_trans _ _ _ He1 He2) Hr) as (r' & Hr' & Hev).
  exists r'. split; [| done].
  rewrite <- (built_key _ _ _ _ Hc Hb Hr), lookup_deref.
  by rewrite (built_registered _ _ _ _ Hc Hb Hr).
Qed.

Lemma hostOutcome_latest_inv c detected latest newProblems finalHosts K r' :
  hostOutcome c = Some (detected, latest, newProblems, finalHosts) →
  latest !! K = Some r' →
  ∃ st a r,
    buildHostsAndResources c = Some st ∧ hb_heap st !! a = Some r ∧ evolves r r'.
Proof.
  intros Ho Hl.
  apply hostOutcome_Some in Ho
    as (st & heap1 & heap2 & p1 & p2 & Hb & _ & _ & _ & _ & _ & _ & -> & _ & He1 & He2).
  rewrite lookup_deref in Hl.
  destruct (hb_newResources st !! K) as [a |] eqn:Ha; simplify_eq/=.
  destruct (heapEvolves_Some_inv _ _ _ _ (heapEvolves_trans _ _ _ He1 He2) Hl)
    as (r & Hr & Hev).
  eauto 10.
Qed.

Lemma evolves_IngressRes_inv r ic :
  evolves r (IngressRes ic) →
  ∃ ic0, r = IngressRes ic0 ∧ ic_Ingress ic0 = ic_Ingress ic.
Proof. intros [Hc _]. destruct r; simplify_eq/=. eauto. Qed.

Lemma evolves_IngressRes ic r' :
  evolves (IngressRes ic) r' →
  ∃ ic', r' = IngressRes ic' ∧ ic_Ingress ic' = ic_Ingress ic.
Proof. intros [Hc _]. destruct r'; simplify_eq/=. eauto. Qed.

Lemma evolves_VirtualServerRes_r vsc r' :
  evolves (VirtualServerRes vsc) r' →
  ∃ vsc', r' = VirtualServerRes vsc'
          ∧ vsc_VirtualServer vsc' = vsc_VirtualServer vsc
          ∧ vsc_VirtualServerRoutes vsc' = vsc_VirtualServerRoutes vsc.
Proof. intros [Hc _]. destruct r'; simplify_eq/=. eauto. Qed.

(** ** ACME challenge ingresses *)

Lemma isChallengeIngressOwnerVs_spec c host :
  isChallengeIngressOwnerVs c host = true
  ↔ ∃ kv vs, virtualServers c !! kv = Some vs ∧ vs_Host vs = host.
Proof.
  unfold isChallengeIngressOwnerVs. rewrite existsb_exists. split.
  - intros ([kv vs] & Hin & Hhost). apply list_elem_of_In, elem_of_sortedItems in Hin.
    apply bool_decide_eq_true in Hhost. eauto.
  - intros (kv & vs & Hvs & Hhost). exists (kv, vs). split.
    + by apply list_elem_of_In, elem_of_sortedItems.
    + by apply bool_decide_eq_true.
Qed.

(** C8: with cert-manager enabled, take a stored Ingress that is not a
    minion and carries the label [acme.cert-manager.io/http01-solver] =
    [true]. If a stored VirtualServer has the host of its first rule, the
    rebuild derives no IngressConfiguration for it, and the
    VirtualServerConfiguration of every stored VirtualServer of that host
    has among its routes the VirtualServerRoute with the one upstream
    [challenge], of the service and port of the first backend, and the one
    subroute of the first path with the action pass [challenge]. If no
    stored VirtualServer has that host, the rebuild derives an
    IngressConfiguration for it, and each of its hosts has a holder. *)
Theorem challenge_ingress c detected latest newProblems finalHosts key ing rule :
  storeKeyed c →
  hostOutcome c = Some (detected, latest, newProblems, finalHosts) →
  isCertManagerEnabled c = true →
  ingresses c !! key = Some ing →
  isMinion ing = false →
  Labels (ing_ObjectMeta ing) !! "acme.cert-manager.io/http01-solver" = Some "true" →
  head (ing_Rules ing) = Some rule →
  (∀ paths path0 service,
     rule_HTTP rule = Some paths → head paths = Some path0 →
     hip_BackendService path0 = Some service →
     (∃ kv vs, virtualServers c !! kv = Some vs ∧ vs_Host vs = rule_Host rule) →
     (∀ K ic, latest !! K = Some (IngressRes ic) → ic_Ingress ic ≠ ing)
     ∧ ∃ vsr,
         vsr_Host vsr = rule_Host rule
         ∧ vsr_Upstreams vsr
           = [ {| up_Name := "challenge"; up_Service := isb_Name service;
                  up_Port := uint16 (isb_PortNumber service) |} ]
         ∧ vsr_Subroutes vsr
           = [ {| route_Path := hip_Path path0; route_Route := "";
                  route_Action := Some {| Pass := "challenge" |} |} ]
         ∧ ∀ kv vs,
             virtualServers c !! kv = Some vs → vs_Host vs = rule_Host rule →
             ∃ vsc,
               latest !! (virtualServerKind +:+ "/" +:+ kv) = Some (VirtualServerRes vsc)
               ∧ vsc_VirtualServer vsc = vs
               ∧ vsr ∈ vsc_VirtualServerRoutes vsc)
  ∧ ((∀ kv vs, virtualServers c !! kv = Some vs → vs_Host vs ≠ rule_Host rule) →
     ∃ ic,
       latest !! (ingressKind +:+ "/" +:+ key) = Some (IngressRes ic)
       ∧ ic_Ingress ic = ing
       ∧ ∀ h, h ∈ (rule_Host <$> ing_Rules ing) → is_Some (finalHosts !! h)).
Proof.
  intros Hkeyed Ho Hcm Hing Hminion Hlabel Hrule.
  pose proof Ho as Ho'.
  apply hostOutcome_Some in Ho' as (st & _ & _ & _ & _ & Hb & _).
  pose proof Hb as Hinv.
  apply buildHostsAndResources_inv in Hinv as (_ & _ & Hfrom & HI & HV & _ & Hch).
  assert (isChallengeIngress c ing = true) as Hchallenge.
  { unfold isChallengeIngress. rewrite Hcm. by apply bool_decide_eq_true. }
  split.
  - intros paths path0 service Hhttp Hpath Hservice Howner.
    apply isChallengeIngressOwnerVs_spec in Howner.
    set (vsr0 :=
      {| vsr_ObjectMeta :=
           zeroObjectMeta (Namespace (ing_ObjectMeta ing)) (Name (ing_ObjectMeta ing));
         vsr_Host := rule_Host rule;
         vsr_Upstreams :=
           [ {| up_Name := "challenge"; up_Service := isb_Name service;
                up_Port := uint16 (isb_PortNumber service) |} ];
         vsr_Subroutes :=
           [ {| route_Path := hip_Path path0; route_Route := "";
                route_Action := Some {| Pass := "challenge" |} |} ] |}).
    assert (challengeOf c ing = Some vsr0) as Hof.
    { unfold challengeOf, convertIngressToVSR.
      rewrite Hminion, Hchallenge, Hrule. cbn [mbind option_bind].
      rewrite Howner. cbn [negb]. rewrite Hhttp. cbn [mbind option_bind].
      rewrite Hpath. cbn [mbind option_bind]. rewrite Hservice. reflexivity. }
    split.
    + intros K ic Hl Hic.
      destruct (hostOutcome_latest_inv _ _ _ _ _ _ _ Ho Hl) as (st' & a & r & Hb' & Hr & Hev).
      rewrite Hb in Hb'. simplify_eq.
      apply evolves_IngressRes_inv in Hev as (ic0 & -> & Hic0).
      destruct (Hfrom _ _ Hr) as [Hmade _]. unfold madeFrom in Hmade.
      destruct a.1.
      * destruct Hmade as (ing' & ic' & _ & [_ Hnone] & Heq & Hic'). simplify_eq.
        rewrite Hic0 in Hnone. congruence.
      * by destruct Hmade as (? & ? & _ & ? & _).
      * by destruct Hmade as (? & ? & _ & _ & ? & _).
    + exists vsr0. split; [done |]. split; [done |]. split; [done |].
      intros kv vs Hvs Hhost.
      destruct (HV kv vs) as [r Hr]; [by apply elem_of_sortedItems |].
      destruct (Hfrom _ _ Hr) as [(vs' & vsc0 & Hin & -> & Hvsc0 & Hroutes) _].
      cbn [fst snd] in Hin. apply elem_of_sortedItems in Hin. simplify_eq.
      destruct (hostOutcome_latest_built _ _ _ _ _ _ _ _ Hkeyed Ho Hb Hr)
        as (r' & Hl & Hev).
      apply evolves_VirtualServerRes_r in Hev as (vsc & -> & Hvsc & Hsame).
      exists vsc. split; [done |]. split; [done |].
      rewrite Hsame, Hroutes. apply elem_of_app. right.
      apply list_elem_of_filter. split; [by rewrite Hhost |].
      apply Hch. exists key, ing. split; [by apply elem_of_sortedItems | done].
  - intros Hnone.
    assert (challengeOf c ing = None) as Hof.
    { unfold challengeOf, convertIngressToVSR.
      rewrite Hminion, Hchallenge, Hrule. cbn [mbind option_bind].
      destruct (isChallengeIngressOwnerVs c (rule_Host rule)) eqn:Howner; [| done].
      apply isChallengeIngressOwnerVs_spec in Howner as (kv & vs & Hvs & Hhost).
      by destruct (Hnone _ _ Hvs). }
    destruct (HI key ing) as [r Hr]; [by apply elem_of_sortedItems | done |].
    destruct (Hfrom _ _ Hr) as [(ing' & ic0 & Hin & _ & -> & Hic0) _].
    cbn [fst snd] in Hin. apply elem_of_sortedItems in Hin. simplify_eq.
    destruct (hostOutcome_latest_built _ _ _ _ _ _ _ _ Hkeyed Ho Hb Hr) as (r' & Hl & Hev).
    apply evolves_IngressRes in Hev as (ic & -> & Hic).
    exists ic. split; [done |]. split; [done |].
    intros h Hh.
    destruct (hostOutcome_claims _ _ _ _ _ _ _ h Ho Hl) as (winner & Hw & _); [| by eauto].
    cbn [resourceHosts]. by rewrite Hic.
Qed.

(** * Further properties of the code *)

(** ** Sorted keys *)

(** X1: the sorted keys of a map are its keys, each once, in ascending
    order of [String.le], for every map; so they depend on the key set
    alone. *)
Theorem getSortedKeys_ascending {V} (m : gmap string V) :
  StronglySorted String.le (getSortedKeys m)
  ∧ NoDup (getSortedKeys m)
  ∧ (∀ k, k ∈ getSortedKeys m ↔ is_Some (m !! k))
  ∧ (∀ {W} (m' : gmap string W), dom m' = dom m → getSortedKeys m' = getSortedKeys m).
Proof.
  assert (∀ {W} (m0 : gmap string W), StronglySorted String.le (getSortedKeys m0)) as Hs.
  { intros W m0. unfold getSortedKeys. apply StronglySorted_merge_sort; apply _. }
  split; [apply Hs |]. split; [apply NoDup_getSortedKeys |].
  split; [apply elem_of_getSortedKeys |].
  intros W m' Hdom. apply (StronglySorted_unique String.le); [apply Hs | apply Hs |].
  apply NoDup_Permutation; [apply NoDup_getSortedKeys | apply NoDup_getSortedKeys |].
  intros k. rewrite !elem_of_getSortedKeys, <- !elem_of_dom. by rewrite Hdom.
Qed.

(** ** Change detection for listeners *)

Lemma NoDup_bind_option {A} (f : A → list A) (l : list A) :
  NoDup l → (∀ x, f x = [x] ∨ f x = []) → NoDup (l ≫= f).
Proof.
  intros Hnd Hf. induction Hnd as [| x l Hx Hnd IH]; [constructor |].
  cbn. destruct (Hf x) as [-> | ->]; [| done]. cbn. constructor; [| done].
  intros (y & Hy & Hin)%list_elem_of_bind.
  destruct (Hf y) as [E | E]; rewrite E in Hy; [| by apply elem_of_nil in Hy].
  apply list_elem_of_singleton in Hy. by subst.
Qed.

(** X2: for the listener hosts, the removed keys are those of the old map
    that the new map lacks, the added keys those of the new map that the
    old map lacks, and the updated keys those of both maps whose holders
    differ in namespace, name, generation or listener port. No key is
    listed twice, and a holder that differs from the old one in its
    listener addresses alone is not listed. *)
Theorem detectChangesInListenerHosts_spec
    (oldListenerHosts newListenerHosts : gmap listenerHostKey TransportServerConfiguration) :
  let '(removedListenerHosts, updatedListenerHosts, addedListenerHosts) :=
    detectChangesInListenerHosts oldListenerHosts newListenerHosts in
  (∀ k, k ∈ removedListenerHosts ↔
        is_Some (oldListenerHosts !! k) ∧ newListenerHosts !! k = None)
  ∧ (∀ k, k ∈ addedListenerHosts ↔
          is_Some (newListenerHosts !! k) ∧ oldListenerHosts !! k = None)
  ∧ (∀ k, k ∈ updatedListenerHosts ↔
       ∃ oldConfig newConfig,
         oldListenerHosts !! k = Some oldConfig ∧ newListenerHosts !! k = Some newConfig
         ∧ ¬ (sameIdentity (ts_ObjectMeta (tsc_TransportServer oldConfig))
                           (ts_ObjectMeta (tsc_TransportServer newConfig))
              ∧ tsc_ListenerPort oldConfig = tsc_ListenerPort newConfig))
  ∧ NoDup (removedListenerHosts ++ updatedListenerHosts ++ addedListenerHosts).
Proof.
  unfold detectChangesInListenerHosts.
  assert (∀ oldConfig newConfig,
            tsc_IsEqual oldConfig newConfig = true ↔
            sameIdentity (ts_ObjectMeta (tsc_TransportServer oldConfig))
                         (ts_ObjectMeta (tsc_TransportServer newConfig))
            ∧ tsc_ListenerPort oldConfig = tsc_ListenerPort newConfig) as Heq.
  { intros o n. unfold tsc_IsEqual.
    rewrite andb_true_iff, compareObjectMetas_spec, bool_decide_eq_true. done. }
  assert (∀ k, k ∈ (getSortedListenerHostKeys newListenerHosts ≫= λ key,
             match oldListenerHosts !! key with
             | None => []
             | Some oldConfig =>
                 match newListenerHosts !! key with
                 | None => [key]
                 | Some newConfig =>
                     if negb (tsc_IsEqual oldConfig newConfig) then [key] else []
                 end
             end) ↔
       ∃ oldConfig newConfig,
         oldListenerHosts !! k = Some oldConfig ∧ newListenerHosts !! k = Some newConfig
         ∧ ¬ (sameIdentity (ts_ObjectMeta (tsc_TransportServer oldConfig))
                           (ts_ObjectMeta (tsc_TransportServer newConfig))
              ∧ tsc_ListenerPort oldConfig = tsc_ListenerPort newConfig)) as Hupd.
  { intros k. rewrite list_elem_of_bind. split.
    - intros (k' & Hin & Hk'). apply elem_of_getSortedListenerHostKeys in Hk' as [n Hn].
      rewrite Hn in Hin.
      destruct (oldListenerHosts !! k') as [o |] eqn:Ho; [| by apply elem_of_nil in Hin].
      destruct (tsc_IsEqual o n) eqn:E; cbn in Hin; [by apply elem_of_nil in Hin |].
      apply list_elem_of_singleton in Hin as ->. exists o, n.
      split; [done | split; [done |]]. rewrite <- Heq, E. discriminate.
    - intros (o & n & Ho & Hn & Hne). exists k.
      split; [| apply elem_of_getSortedListenerHostKeys; eauto].
      rewrite Ho, Hn. destruct (tsc_IsEqual o n) eqn:E; cbn.
      + by apply Heq in E.
      + by apply list_elem_of_singleton. }
  split; [| split; [| split]].
  - intros k. rewrite list_elem_of_filter, elem_of_getSortedListenerHostKeys. tauto.
  - intros k. rewrite list_elem_of_filter, elem_of_getSortedListenerHostKeys. tauto.
  - exact Hupd.
  - apply NoDup_app. split; [apply NoDup_filter, NoDup_getSortedListenerHostKeys |].
    split.
    + intros k [Hnone _]%list_elem_of_filter [Hin | Hin]%elem_of_app; cbn beta in Hnone.
      * apply Hupd in Hin as (o & n & _ & Hn & _). congruence.
      * apply list_elem_of_filter in Hin as [_ Hin].
        apply elem_of_getSortedListenerHostKeys in Hin as [n Hn]. congruence.
    + apply NoDup_app. split; [| split].
      * apply NoDup_bind_option; [apply NoDup_getSortedListenerHostKeys |].
        intros k. repeat case_match; auto.
      * intros k Hin [Hold _]%list_elem_of_filter. cbn beta in Hold.
        apply Hupd in Hin as (o & n & Ho & _). congruence.
      * apply NoDup_filter, NoDup_getSortedListenerHostKeys.
Qed.

(** ** Change detection for problems *)

(** X3: a problem is returned exactly when it is filed under a key that
    had no problem before, or had one that differs in [IsError], [Reason]
    or [Message]; the object of a problem is not compared. A map compared
    with itself returns nothing, and with the empty map all of its
    problems. *)
Theorem detectChangesInProblems_spec
    (newProblems oldProblems : gmap string ConfigurationProblem) :
  (∀ p, p ∈ detectChangesInProblems newProblems oldProblems ↔
        ∃ k, newProblems !! k = Some p
             ∧ ∀ old, oldProblems !! k = Some old →
                      ¬ (p_IsError p = p_IsError old ∧ p_Reason p = p_Reason old
                         ∧ p_Message p = p_Message old))
  ∧ detectChangesInProblems newProblems newProblems = []
  ∧ (∀ p, p ∈ detectChangesInProblems newProblems ∅ ↔ ∃ k, newProblems !! k = Some p)
  ∧ (length (detectChangesInProblems newProblems oldProblems) ≤ size newProblems)%nat.
Proof.
  assert (∀ p old, compareConfigurationProblems p old = false ↔
            ¬ (p_IsError p = p_IsError old ∧ p_Reason p = p_Reason old
               ∧ p_Message p = p_Message old)) as Hcmp.
  { intros p old. unfold compareConfigurationProblems.
    rewrite <- not_true_iff_false, !andb_true_iff, !bool_decide_eq_true. tauto. }
  assert (∀ old p, p ∈ detectChangesInProblems newProblems old ↔
        ∃ k, newProblems !! k = Some p
             ∧ ∀ o, old !! k = Some o →
                    ¬ (p_IsError p = p_IsError o ∧ p_Reason p = p_Reason o
                       ∧ p_Message p = p_Message o)) as Hspec.
  { intros old p. rewrite elem_of_detectChangesInProblems. split.
    - intros (k & Hk & [Hnone | (o & Ho & Hne)]); exists k; split; try done.
      + intros o Ho. congruence.
      + intros o' Ho'. simplify_eq. by apply Hcmp.
    - intros (k & Hk & Hne). exists k. split; [done |].
      destruct (old !! k) as [o |] eqn:Ho; [| by left].
      right. exists o. split; [done |]. apply Hcmp. by apply Hne. }
  split; [apply Hspec |]. split; [| split].
  - destruct (detectChangesInProblems newProblems newProblems) as [| p l] eqn:E; [done |].
    assert (p ∈ detectChangesInProblems newProblems newProblems) as Hin
      by (rewrite E; left).
    apply Hspec in Hin as (k & Hk & Hne). by destruct (Hne p Hk).
  - intros p. rewrite Hspec. split.
    + intros (k & Hk & _). eauto.
    + intros (k & Hk). exists k. split; [done |]. intros o Ho.
      by rewrite lookup_empty in Ho.
  - unfold detectChangesInProblems, getSortedProblemKeys.
    assert (length (getSortedKeys newProblems) = size newProblems) as <-.
    { unfold getSortedKeys. rewrite merge_sort_Permutation, length_fmap.
      apply length_map_to_list. }
    generalize (getSortedKeys newProblems). intros l.
    induction l as [| k l IH]; [done |]. cbn. rewrite length_app.
    repeat case_match; cbn; lia.
Qed.

(** ** Squashing *)

Lemma foldl_prefix_ind {A B} (f : B → A → B) (P : list A → B → Prop) l b :
  P [] b →
  (∀ pre x post a, l = pre ++ x :: post → P pre a → P (pre ++ [x]) (f a x)) →
  P l (foldl f b l).
Proof.
  intros H0 Hstep.
  assert (∀ pre rest a, l = pre ++ rest → P pre a → P l (foldl f a rest)) as Hgen.
  { intros pre rest. revert pre. induction rest as [| x rest IH]; intros pre a Hl Hp.
    - simpl. by rewrite Hl, app_nil_r.
    - simpl. apply (IH (pre ++ [x])); [by rewrite <- app_assoc |]. by eapply Hstep. }
  by apply (Hgen [] l b).
Qed.

(** The changes of one identity, in their order. *)
Lemma groupChanges_lookup changes k :
  groupChanges changes !! k
  = match filter (λ c, rc_key c = k) changes with
    | [] => None
    | g => Some g
    end.
Proof.
  unfold groupChanges.
  assert (∀ l (m : gmap string (list ResourceChange)),
            (∀ k', m !! k' ≠ Some []) →
            foldl (λ m c, <[rc_key c := default [] (m !! rc_key c) ++ [c]]> m) m l !! k
            = match default [] (m !! k) ++ filter (λ c, rc_key c = k) l with
              | [] => None
              | g => Some g
              end) as Hgen.
  { induction l as [| c l IH]; intros m Hm.
    - cbn. rewrite app_nil_r. destruct (m !! k) as [[| x g] |] eqn:E; try done.
      by destruct (Hm k).
    - cbn [foldl]. rewrite IH.
      + rewrite filter_cons. destruct (decide (rc_key c = k)) as [-> | Hne].
        * rewrite lookup_insert_eq. cbn. by rewrite <- app_assoc.
        * by rewrite lookup_insert_ne.
      + intros k'. destruct (decide (rc_key c = k')) as [<- | Hne].
        * rewrite lookup_insert_eq. intros [=E]. by apply app_nil in E as [_ ?].
        * rewrite lookup_insert_ne by done. apply Hm. }
  rewrite Hgen; [by rewrite lookup_empty |]. intros k'. by rewrite lookup_empty.
Qed.

(** X4: squashing keeps, of the changes of each resource identity, the
    last one and nothing else; the result has one change per identity
    and every delete before every upsert. *)
Theorem squashResourceChanges_last changes :
  (∀ ch, ch ∈ squashResourceChanges changes ↔
         ∃ k, last (filter (λ c, rc_key c = k) changes) = Some ch)
  ∧ uniqueByIdentity (squashResourceChanges changes)
  ∧ deletesFirst (squashResourceChanges changes).
Proof.
  split; [| apply squashResourceChanges_squashed].
  unfold squashResourceChanges.
  pose proof (foldl_prefix_ind squashStep
    (λ pre acc,
       (∀ k, acc.2 !! k
             = if decide (k ∈ rc_key <$> pre) then None else groupChanges changes !! k)
       ∧ ∀ ch, ch ∈ acc.1.1 ++ acc.1.2 ↔
               ∃ k, k ∈ rc_key <$> pre
                    ∧ last (filter (λ c, rc_key c = k) changes) = Some ch)
    changes ([], [], groupChanges changes)) as Hind.
  destruct (foldl squashStep ([], [], groupChanges changes) changes)
    as [[deletes updates] m].
  destruct Hind as [_ Hmem].
  - split; [done |]. intros ch. cbn. split; [by intros ?%elem_of_nil |].
    by intros (k & ?%elem_of_nil & _).
  - intros pre c post [[ds us] m0] Hl [Hm Hmem]. cbn [fst snd] in Hm, Hmem.
    assert (c ∈ filter (λ x, rc_key x = rc_key c) changes) as Hc.
    { apply list_elem_of_filter. split; [done |]. rewrite Hl.
      apply elem_of_app. right. left. }
    assert (∀ k, k ∈ rc_key <$> (pre ++ [c]) ↔ k ∈ rc_key <$> pre ∨ k = rc_key c) as Hkeys.
    { intros k. rewrite fmap_app, elem_of_app. cbn. by rewrite list_elem_of_singleton. }
    unfold squashStep. rewrite Hm. destruct (decide (rc_key c ∈ rc_key <$> pre)) as [Hin | Hnin].
    + cbn [fst snd]. split.
      * intros k. rewrite Hm.
        destruct (decide (k ∈ rc_key <$> pre)), (decide (k ∈ rc_key <$> (pre ++ [c])));
          try done.
        -- exfalso. rewrite Hkeys in *. tauto.
        -- rewrite Hkeys in *. destruct e as [? | ->]; tauto.
      * intros ch. rewrite Hmem. split; intros (k & Hk & Hlast); exists k; split; try done.
        -- apply Hkeys. by left.
        -- apply Hkeys in Hk as [? | ->]; done.
    + rewrite groupChanges_lookup.
      destruct (filter (λ x, rc_key x = rc_key c) changes) as [| x g] eqn:Hf;
        [by apply elem_of_nil in Hc |].
      destruct (last (x :: g)) as [sq |] eqn:Hlast;
        [| by apply last_None in Hlast].
      assert (∀ k, delete (rc_key c) m0 !! k
                   = if decide (k ∈ rc_key <$> (pre ++ [c])) then None
                     else groupChanges changes !! k) as Hm'.
      { intros k. rewrite lookup_delete. case_decide as Hk.
        - subst k. rewrite decide_True; [done |]. apply Hkeys. by right.
        - rewrite Hm. destruct (decide (k ∈ rc_key <$> pre)),
            (decide (k ∈ rc_key <$> (pre ++ [c]))); try done.
          + exfalso. rewrite Hkeys in *. tauto.
          + rewrite Hkeys in *. destruct e as [? | ->]; tauto. }
      assert (∀ ch, ch ∈ ds ++ us ∨ ch = sq ↔
                ∃ k, k ∈ rc_key <$> (pre ++ [c])
                     ∧ last (filter (λ c, rc_key c = k) changes) = Some ch) as Hmem'.
      { intros ch. rewrite Hmem. split.
        - intros [(k & Hk & Hl') | ->].
          + exists k. split; [| done]. apply Hkeys. by left.
          + exists (rc_key c). split; [apply Hkeys; by right |]. by rewrite Hf.
        - intros (k & Hk & Hl'). apply Hkeys in Hk as [Hk | ->].
          + left. eauto.
          + right. rewrite Hf in Hl'. congruence. }
      case_bool_decide; cbn [fst snd]; (split; [done |]); intros ch; rewrite <- Hmem';
        rewrite !elem_of_app, ?list_elem_of_singleton; tauto.
  - cbn [fst snd] in Hmem. intros ch. rewrite Hmem. split.
    + intros (k & _ & Hlast). eauto.
    + intros (k & Hlast). exists k. split; [| done].
      apply last_Some in Hlast as [l' Hl'].
      assert (ch ∈ filter (λ c, rc_key c = k) changes) as Hin.
      { rewrite Hl'. apply elem_of_app. right. left. }
      apply list_elem_of_filter in Hin as [<- Hin]. apply list_elem_of_fmap. eauto.
Qed.

(** ** Queries *)

Lemma getSortedKeys_ascending_aux {V} (m : gmap string V) :
  StronglySorted String.le (getSortedKeys m) ∧ NoDup (getSortedKeys m).
Proof.
  split; [| apply NoDup_getSortedKeys].
  unfold getSortedKeys. apply StronglySorted_merge_sort; apply _.
Qed.

Lemma elem_of_sortedListenerItems
    (m : gmap listenerHostKey TransportServerConfiguration) k v :
  (k, v) ∈ sortedListenerItems m ↔ m !! k = Some v.
Proof.
  unfold sortedListenerItems. rewrite list_elem_of_omap. split.
  - intros (k' & _ & Hk). destruct (m !! k') eqn:E; simplify_eq/=. done.
  - intros Hk. exists k. split; [apply elem_of_getSortedListenerHostKeys; eauto |].
    by rewrite Hk.
Qed.

(** A loop that files some of its entries in a map, each under a key of
    its own. *)
Lemma foldl_insert_by_key {A} (keyOf : A → string) (val : A → Resource) (keep : A → bool)
    (l : list A) (m0 : gmap string Resource) :
  let res := foldl (λ m x, if keep x then <[keyOf x := val x]> m else m) m0 l in
  (∀ k r, res !! k = Some r →
          m0 !! k = Some r ∨ ∃ x, x ∈ l ∧ keep x = true ∧ keyOf x = k ∧ val x = r)
  ∧ (∀ x, x ∈ l → keep x = true → is_Some (res !! keyOf x))
  ∧ (∀ k, is_Some (m0 !! k) → is_Some (res !! k)).
Proof.
  revert m0. induction l as [| x l IH]; intros m0; cbn.
  - split; [by left |]. split; [by intros x ?%elem_of_nil | done].
  - destruct (IH (if keep x then <[keyOf x := val x]> m0 else m0)) as (H1 & H2 & H3).
    split; [| split].
    + intros k r Hr. destruct (H1 _ _ Hr) as [Hm | (y & Hy & ?)].
      * destruct (keep x) eqn:Hk; [| by left].
        destruct (decide (keyOf x = k)) as [<- | Hne].
        -- rewrite lookup_insert_eq in Hm. simplify_eq. right. exists x.
           split; [left | done].
        -- rewrite lookup_insert_ne in Hm by done. by left.
      * right. exists y. split; [by right | done].
    + intros y [-> | Hy]%elem_of_cons Hk; [| by apply H2].
      apply H3. rewrite Hk. rewrite lookup_insert_eq. eauto.
    + intros k Hk. apply H3. destruct (keep x); [| done].
      destruct (decide (keyOf x = k)) as [<- | Hne].
      * rewrite lookup_insert_eq. eauto.
      * by rewrite lookup_insert_ne.
Qed.

Lemma keys_of_values (res : gmap string Resource) :
  (∀ k r, res !! k = Some r → GetKeyWithKind r = k) →
  GetKeyWithKind <$> omap (λ key, res !! key) (getSortedKeys res) = getSortedKeys res.
Proof.
  intros Hres.
  assert (Forall (λ k, is_Some (res !! k)) (getSortedKeys res)) as Hall.
  { apply Forall_forall. intros k. apply elem_of_getSortedKeys. }
  induction Hall as [| k l [r Hr] _ IH]; [done |].
  cbn. rewrite Hr. cbn. rewrite IH. f_equal. by apply Hres.
Qed.

(** What [GetResourcesWithFilter] returns. *)
Lemma GetResourcesWithFilter_facts c filter :
  let result := GetResourcesWithFilter c filter in
  StronglySorted String.le (GetKeyWithKind <$> result)
  ∧ NoDup (GetKeyWithKind <$> result)
  ∧ (∀ r, r ∈ result →
          passesFilter filter r = true
          ∧ ((∃ h, hosts c !! h = Some r)
             ∨ ∃ lk tsc, listenerHosts c !! lk = Some tsc ∧ r = TransportServerRes tsc))
  ∧ (∀ h r, hosts c !! h = Some r → passesFilter filter r = true →
            GetKeyWithKind r ∈ GetKeyWithKind <$> result)
  ∧ (∀ lk tsc, listenerHosts c !! lk = Some tsc → f_TransportServers filter = true →
               tsc_GetKeyWithKind tsc ∈ GetKeyWithKind <$> result).
Proof.
  cbv zeta. unfold GetResourcesWithFilter, getSortedResourceKeys.
  pose proof (foldl_insert_by_key (λ kv : string * Resource, GetKeyWithKind kv.2)
                (λ kv, kv.2) (λ kv, passesFilter filter kv.2)
                (sortedItems (hosts c)) ∅) as (A1 & A2 & _).
  cbv zeta in A1, A2.
  set (res1 := foldl _ ∅ (sortedItems (hosts c))) in *.
  pose proof (foldl_insert_by_key (λ kv : listenerHostKey * TransportServerConfiguration,
                                     GetKeyWithKind (TransportServerRes kv.2))
                (λ kv, TransportServerRes kv.2) (λ _, true)
                (sortedListenerItems (listenerHosts c)) res1) as (B1 & B2 & B3).
  cbv zeta in B1, B2, B3.
  set (res2 := foldl _ res1 (sortedListenerItems (listenerHosts c))) in *.
  set (res := if f_TransportServers filter then res2 else res1).
  assert (∀ k r, res !! k = Some r →
            GetKeyWithKind r = k ∧ passesFilter filter r = true
            ∧ ((∃ h, hosts c !! h = Some r)
               ∨ ∃ lk tsc, listenerHosts c !! lk = Some tsc ∧ r = TransportServerRes tsc))
    as Hres.
  { assert (∀ k r, res1 !! k = Some r →
              GetKeyWithKind r = k ∧ passesFilter filter r = true
              ∧ ∃ h, hosts c !! h = Some r) as Hres1.
    { intros k r Hr. destruct (A1 _ _ Hr) as [Hm | ([h r'] & Hin & Hk & <- & <-)].
      - by rewrite lookup_empty in Hm.
      - apply elem_of_sortedItems in Hin. eauto. }
    intros k r Hr. unfold res in Hr.
    destruct (f_TransportServers filter) eqn:Hts.
    - destruct (B1 _ _ Hr) as [Hm | ([lk tsc] & Hin & _ & <- & <-)].
      + destruct (Hres1 _ _ Hm) as (? & ? & ?). eauto.
      + apply elem_of_sortedListenerItems in Hin. split; [done |]. split; [done |].
        right. eauto.
    - destruct (Hres1 _ _ Hr) as (? & ? & ?). eauto. }
  assert (GetKeyWithKind <$> omap (λ key, res !! key) (getSortedKeys res)
          = getSortedKeys res) as Hkeys.
  { apply keys_of_values. intros k r Hr. by destruct (Hres _ _ Hr). }
  rewrite Hkeys.
  destruct (getSortedKeys_ascending_aux res) as [Hsorted Hnd].
  split; [done |]. split; [done |]. split; [| split].
  - intros r (k & _ & Hr)%list_elem_of_omap. destruct (Hres _ _ Hr) as (_ & ? & ?). done.
  - intros h r Hh Hpass. apply elem_of_getSortedKeys.
    assert (is_Some (res1 !! GetKeyWithKind r)) as H1.
    { apply (A2 (h, r)); [by apply elem_of_sortedItems | done]. }
    unfold res. destruct (f_TransportServers filter); [by apply B3 | done].
  - intros lk tsc Hl Hts. apply elem_of_getSortedKeys. unfold res. rewrite Hts.
    apply (B2 (lk, tsc)); [by apply elem_of_sortedListenerItems | done].
Qed.

(** X5: the resources that [GetResourcesWithFilter] returns are in
    ascending order of identity, one per identity; each holds a host or a
    listener host and is of a kind that the filter lets through; and
    every such holder is returned, or else a holder of the same
    identity. *)
Theorem GetResourcesWithFilter_spec c filter :
  let result := GetResourcesWithFilter c filter in
  StronglySorted String.le (GetKeyWithKind <$> result)
  ∧ NoDup (GetKeyWithKind <$> result)
  ∧ (∀ r, r ∈ result →
          passesFilter filter r = true
          ∧ ((∃ h, hosts c !! h = Some r)
             ∨ ∃ lk tsc, listenerHosts c !! lk = Some tsc ∧ r = TransportServerRes tsc))
  ∧ (∀ h r, hosts c !! h = Some r → passesFilter filter r = true →
            GetKeyWithKind r ∈ GetKeyWithKind <$> result)
  ∧ (∀ lk tsc, listenerHosts c !! lk = Some tsc → f_TransportServers filter = true →
               tsc_GetKeyWithKind tsc ∈ GetKeyWithKind <$> result).
Proof. exact (GetResourcesWithFilter_facts c filter). Qed.

Lemma foldl_append_if {A B} (p : A → bool) (g : A → B) (l : list A) (acc : list B) :
  foldl (λ acc x, if p x then acc ++ [g x] else acc) acc l
  = acc ++ (g <$> filter (λ x, p x = true) l).
Proof.
  revert acc. induction l as [| x l IH]; intros acc; [cbn; by rewrite app_nil_r |].
  rewrite filter_cons. cbn [foldl]. rewrite IH. destruct (p x) eqn:Hp.
  - rewrite decide_True by done. cbn. by rewrite <- app_assoc.
  - rewrite decide_False by done. done.
Qed.

Lemma length_sortedItems {V} (m : gmap string V) : length (sortedItems m) = size m.
Proof.
  rewrite <- (length_fmap fst), sortedItems_fst.
  unfold getSortedKeys. rewrite merge_sort_Permutation, length_fmap.
  apply length_map_to_list.
Qed.

Lemma length_sortedListenerItems (m : gmap listenerHostKey TransportServerConfiguration) :
  length (sortedListenerItems m) = size m.
Proof.
  unfold sortedListenerItems.
  assert (Forall (λ k, is_Some (m !! k)) (getSortedListenerHostKeys m)) as Hall.
  { apply Forall_forall. intros k. apply elem_of_getSortedListenerHostKeys. }
  rewrite <- length_getSortedListenerHostKeys.
  induction Hall as [| k l [v Hv] _ IH]; [done |]. cbn. rewrite Hv. cbn. by rewrite IH.
Qed.

(** X6: [findResourcesForResourceReference] returns the holders of the
    hosts, by ascending host, that the checker finds referenced, once
    for every host held, followed by the holders of the listener hosts
    whose TransportServer the checker finds referenced; so it returns
    nothing that holds no host and no listener host, and nothing that
    [GetResources] does not return by identity. *)
Theorem findResourcesForResourceReference_spec c namespace name checker :
  let result := findResourcesForResourceReference c namespace name checker in
  result
  = filter (λ r, referencedBy checker namespace name r = true) (sortedItems (hosts c)).*2
    ++ (TransportServerRes
          <$> filter (λ tsc, IsReferencedByTransportServer checker namespace name
                               (tsc_TransportServer tsc) = true)
                     (sortedListenerItems (listenerHosts c)).*2)
  ∧ (∀ r, r ∈ result →
          (∃ h, hosts c !! h = Some r)
          ∨ ∃ lk tsc, listenerHosts c !! lk = Some tsc ∧ r = TransportServerRes tsc)
  ∧ (∀ r, r ∈ result → GetKeyWithKind r ∈ GetKeyWithKind <$> GetResources c)
  ∧ (length result ≤ size (hosts c) + size (listenerHosts c))%nat.
Proof.
  cbv zeta.
  assert (findResourcesForResourceReference c namespace name checker
          = filter (λ r, referencedBy checker namespace name r = true)
              (sortedItems (hosts c)).*2
            ++ (TransportServerRes
                  <$> filter (λ tsc, IsReferencedByTransportServer checker namespace name
                                       (tsc_TransportServer tsc) = true)
                             (sortedListenerItems (listenerHosts c)).*2)) as Heq.
  { unfold findResourcesForResourceReference.
    rewrite (foldl_append_if
               (λ kv : string * Resource, referencedBy checker namespace name kv.2)
               (λ kv, kv.2)).
    rewrite (foldl_append_if
               (λ kv : listenerHostKey * TransportServerConfiguration,
                  IsReferencedByTransportServer checker namespace name
                    (tsc_TransportServer kv.2))
               (λ kv, TransportServerRes kv.2)).
    cbn [app]. f_equal.
    - generalize (sortedItems (hosts c)). intros l.
      induction l as [| [h r] l IH]; [done |]. rewrite fmap_cons, !filter_cons. cbn.
      destruct (decide _); cbn; by rewrite IH.
    - generalize (sortedListenerItems (listenerHosts c)). intros l.
      induction l as [| [lk tsc] l IH]; [done |]. rewrite fmap_cons, !filter_cons. cbn.
      destruct (decide _); cbn; by rewrite IH. }
  assert (∀ r, r ∈ findResourcesForResourceReference c namespace name checker →
            (∃ h, hosts c !! h = Some r)
            ∨ ∃ lk tsc, listenerHosts c !! lk = Some tsc ∧ r = TransportServerRes tsc)
    as Hholders.
  { intros r. rewrite Heq, elem_of_app. intros [Hr | Hr].
    - apply list_elem_of_filter in Hr as [_ Hr].
      apply list_elem_of_fmap in Hr as ([h r'] & -> & Hin).
      apply elem_of_sortedItems in Hin. eauto.
    - apply list_elem_of_fmap in Hr as (tsc & -> & Hin).
      apply list_elem_of_filter in Hin as [_ Hin].
      apply list_elem_of_fmap in Hin as ([lk tsc'] & -> & Hin).
      apply elem_of_sortedListenerItems in Hin. eauto. }
  split; [done |]. split; [done |]. split.
  - intros r Hr.
    destruct (GetResourcesWithFilter_facts c
                {| f_Ingresses := true; f_VirtualServers := true;
                   f_TransportServers := true |}) as (_ & _ & _ & Hh & Hl).
    destruct (Hholders _ Hr) as [(h & Hh') | (lk & tsc & Hl' & ->)].
    + apply (Hh h r Hh'). by destruct r.
    + by apply (Hl lk tsc Hl').
  - rewrite Heq, length_app, length_fmap.
    rewrite <- length_sortedItems, <- length_sortedListenerItems.
    rewrite <- (length_fmap snd (sortedItems (hosts c))).
    rewrite <- (length_fmap snd (sortedListenerItems (listenerHosts c))).
    pose proof (length_filter (λ r, referencedBy checker namespace name r = true)
                  (sortedItems (hosts c)).*2).
    pose proof (length_filter
                  (λ tsc, IsReferencedByTransportServer checker namespace name
                            (tsc_TransportServer tsc) = true)
                  (sortedListenerItems (listenerHosts c)).*2).
    lia.
Qed.

(** X7: the TCP and UDP totals of the metrics add up to the number of
    listener hosts, every holder whose protocol is not [TCP] being
    counted as UDP; the TLS passthrough total is the number of hosts
    that a TransportServer holds, and 0 when TLS passthrough is
    disabled. *)
Theorem GetTransportServerMetrics_totals c :
  let metrics := GetTransportServerMetrics c in
  TotalTCP metrics + TotalUDP metrics = Z.of_nat (size (listenerHosts c))
  ∧ TotalTCP metrics
    = Z.of_nat (length (filter (λ kv, ts_ListenerProtocol (tsc_TransportServer kv.2) = "TCP")
                               (sortedListenerItems (listenerHosts c))))
  ∧ TotalTLSPassthrough metrics
    = (if isTLSPassthroughEnabled c then
         Z.of_nat (length (filter (λ kv, isTransportServerRes kv.2)
                                  (sortedItems (hosts c))))
       else 0)
  ∧ 0 ≤ TotalTLSPassthrough metrics ≤ Z.of_nat (size (hosts c)).
Proof.
  cbv zeta. unfold GetTransportServerMetrics.
  assert (∀ (l : list (listenerHostKey * TransportServerConfiguration)) tcp udp,
            foldl (λ '(tcp, udp) kv,
                     if bool_decide (ts_ListenerProtocol (tsc_TransportServer kv.2) = "TCP")
                     then (tcp + 1, udp) else (tcp, udp + 1)) (tcp, udp) l
            = (tcp + Z.of_nat (length (filter
                       (λ kv, ts_ListenerProtocol (tsc_TransportServer kv.2) = "TCP") l)),
               udp + Z.of_nat (length l)
               - Z.of_nat (length (filter
                       (λ kv, ts_ListenerProtocol (tsc_TransportServer kv.2) = "TCP") l))))
    as Hl.
  { induction l as [| kv l IH]; intros tcp udp; [cbn; f_equal; lia |].
    cbn [foldl]. rewrite filter_cons. case_bool_decide as Hp.
    - rewrite IH, decide_True by done. cbn [length]. f_equal; lia.
    - rewrite IH, decide_False by done. cbn [length]. f_equal; lia. }
  rewrite Hl. cbn [TotalTCP TotalUDP TotalTLSPassthrough].
  rewrite length_sortedListenerItems.
  assert (∀ (l : list (string * Resource)) n,
            foldl (λ n kv, match kv.2 with TransportServerRes _ => n + 1 | _ => n end) n l
            = n + Z.of_nat (length (filter (λ kv, isTransportServerRes kv.2) l))) as Hh.
  { induction l as [| [h r] l IH]; intros n; [cbn; lia |].
    cbn [foldl]. rewrite filter_cons, IH.
    destruct r; cbn [snd isTransportServerRes];
      [rewrite decide_False by tauto | rewrite decide_False by tauto
       | rewrite decide_True by done]; cbn [length]; lia. }
  split; [lia |]. split; [lia |].
  pose proof (length_filter (λ kv : string * Resource, isTransportServerRes kv.2)
                (sortedItems (hosts c))) as Hle.
  rewrite length_sortedItems in Hle.
  destruct (isTLSPassthroughEnabled c); [rewrite Hh |]; split; try done; lia.
Qed.

(** ** The GlobalConfiguration *)

Lemma listenerMap_last (listeners : list Listener) (m0 : gmap string Listener) name :
  foldl (λ m listener, <[l_Name listener := listener]> m) m0 listeners !! name
  = match last (filter (λ l, l_Name l = name) listeners) with
    | Some l => Some l
    | None => m0 !! name
    end.
Proof.
  revert m0. induction listeners as [| l ls IH]; intros m0; [done |].
  cbn [foldl]. rewrite IH, filter_cons.
  destruct (decide (l_Name l = name)) as [<- | Hne].
  - destruct (filter _ ls) as [| x xs] eqn:Hf; cbn.
    + by rewrite lookup_insert_eq.
    + destruct (last (x :: xs)) eqn:E; [done | by apply last_None in E].
  - destruct (last _); [done |]. by rewrite lookup_insert_ne.
Qed.

(** X8: after [AddOrUpdateGlobalConfiguration], [GetGlobalConfiguration]
    returns the given object, valid or not; the error returned is the
    validator's; the listener map has, for every name, the last listener
    of that name in the object; and the stored Ingresses, VirtualServers,
    VirtualServerRoutes and TransportServers are as before. *)
Theorem AddOrUpdateGlobalConfiguration_stores c gc changes problems err c' :
  AddOrUpdateGlobalConfiguration c gc = Some (changes, problems, err, c') →
  GetGlobalConfiguration c' = Some gc
  ∧ err = ValidateGlobalConfiguration (globalConfigurationValidator c) gc
  ∧ (∀ name, listenerMap c' !! name
             = last (filter (λ l, l_Name l = name) (gc_Listeners gc)))
  ∧ ingresses c' = ingresses c ∧ virtualServers c' = virtualServers c
  ∧ virtualServerRoutes c' = virtualServerRoutes c
  ∧ transportServers c' = transportServers c.
Proof.
  unfold AddOrUpdateGlobalConfiguration. intros Hc.
  destruct (rebuildListenerHostsThenHosts _) as [[[ch pr] c1] |] eqn:Hr; simplify_eq/=.
  destruct (rebuildListenerHostsThenHosts_frame _ _ _ _ Hr) as (h & p & l & q & ->).
  split; [done |]. split; [done |]. split; [| done].
  intros name. unfold setGlobalConfigListenerMap. cbn.
  rewrite listenerMap_last, lookup_empty.
  by destruct (last _).
Qed.

(** X9: after [DeleteGlobalConfiguration], [GetGlobalConfiguration]
    returns nothing, the listener map is empty and no listener host has
    a holder. *)
Theorem DeleteGlobalConfiguration_clears c changes problems c' :
  DeleteGlobalConfiguration c = Some (changes, problems, c') →
  GetGlobalConfiguration c' = None
  ∧ listenerMap c' = ∅
  ∧ listenerHosts c' = ∅.
Proof.
  unfold DeleteGlobalConfiguration, rebuildListenerHostsThenHosts. intros Hc.
  destruct (rebuildListenerHosts _) as [[[lch lpr] c1] |] eqn:Hl; simplify_eq/=.
  destruct (rebuildHosts c1) as [[[hch hpr] c2] |] eqn:Hh; simplify_eq/=.
  destruct (rebuildHosts_frame _ _ _ _ Hh) as (h & p & ->).
  apply rebuildListenerHosts_Some in Hl
    as (newListenerHosts & newTSConfigs & newProblems & changes0 & Ho & _ & _ & ->).
  split; [done |]. split; [done |]. cbn.
  unfold listenerOutcome in Ho.
  destruct (buildListenerHostsAndTSConfigurations _) as [lb |] eqn:Hb; simplify_eq/=.
  apply buildListenerHostsAndTSConfigurations_inv in Hb as (_ & _ & H3).
  apply map_eq. intros lk. rewrite lookup_empty, lookup_deref.
  destruct (lb_newListenerHosts lb !! lk) as [a |] eqn:Ha; [| done].
  by destruct (H3 _ _ Ha) as (tsc & gc & listener & _ & ? & _).
Qed.

(** ** The holders of the hosts *)

Lemma holdersClaim_evolves st st' :
  hb_newHosts st' = hb_newHosts st → heapEvolves (hb_heap st) (hb_heap st') →
  holdersClaim st → holdersClaim st'.
Proof.
  intros Hh He Hinv h x Hx. rewrite Hh in Hx.
  destruct (Hinv _ _ Hx) as (r & Hr & Hin).
  destruct (heapEvolves_Some _ _ _ _ He Hr) as (r' & Hr' & Hev).
  exists r'. split; [done |]. by rewrite (evolves_resourceHosts _ _ Hev).
Qed.

Lemma claimHost_holdersClaim host a r st st' :
  holdersClaim st → hb_heap st !! a = Some r → host ∈ resourceHosts r →
  claimHost host a st = Some st' → holdersClaim st'.
Proof.
  intros Hinv Ha Hhost Hclaim.
  pose proof (claimHost_frame _ _ _ _ Hclaim) as (_ & _ & He).
  assert (hb_newHosts st' = hb_newHosts st ∨ hb_newHosts st' = <[host := a]> (hb_newHosts st))
    as [Hsame | Hnew].
  { unfold claimHost in Hclaim.
    destruct (hb_newHosts st !! host) as [holderAddr |]; simplify_eq/=; [| by right].
    destruct (hb_heap st !! holderAddr) as [holder |]; simplify_eq/=.
    rewrite Ha in Hclaim. cbn in Hclaim.
    destruct (negb (Wins holder r)); simplify_eq/=; auto. }
  - by eapply holdersClaim_evolves.
  - intros h x Hx. rewrite Hnew in Hx.
    destruct (decide (host = h)) as [<- | Hne].
    + rewrite lookup_insert_eq in Hx. simplify_eq.
      destruct (heapEvolves_Some _ _ _ _ He Ha) as (r' & Hr' & Hev).
      exists r'. split; [done |]. by rewrite (evolves_resourceHosts _ _ Hev).
    + rewrite lookup_insert_ne in Hx by done.
      destruct (Hinv _ _ Hx) as (r0 & Hr0 & Hin).
      destruct (heapEvolves_Some _ _ _ _ He Hr0) as (r' & Hr' & Hev).
      exists r'. split; [done |]. by rewrite (evolves_resourceHosts _ _ Hev).
Qed.

Lemma claimAll_holdersClaim hs a r st st' :
  holdersClaim st → hb_heap st !! a = Some r → hs ⊆ resourceHosts r →
  claimAll hs a st = Some st' → holdersClaim st'.
Proof.
  unfold claimAll. revert r st. induction hs as [| h hs IH]; intros r st Hinv Ha Hsub Hrun;
    simpl in Hrun; [by simplify_eq |].
  destruct (claimHost h a st) as [st1 |] eqn:Hc; simplify_eq/=.
  destruct (claimHost_frame _ _ _ _ Hc) as (_ & _ & He).
  destruct (heapEvolves_Some _ _ _ _ He Ha) as (r' & Hr' & Hev).
  apply (IH r' st1); [| done | | done].
  - eapply claimHost_holdersClaim; [done | done | | done]. apply Hsub. left.
  - rewrite (evolves_resourceHosts _ _ Hev). intros x Hx. apply Hsub. by right.
Qed.

Lemma makeObject_holdersClaim a r st st' :
  holdersClaim st → hb_heap st !! a = None →
  makeObject a r st = Some st' → holdersClaim st'.
Proof.
  intros Hinv Hfresh Hmake. unfold makeObject in Hmake.
  eapply (claimAll_holdersClaim _ a r); [| | done | done].
  - intros h x Hx. unfold register in *. cbn in Hx.
    destruct (Hinv _ _ Hx) as (r0 & Hr0 & Hin).
    exists r0. split; [| done]. cbn. rewrite lookup_insert_ne; [done |]. congruence.
  - unfold register. cbn. by rewrite lookup_insert_eq.
Qed.

Lemma buildHostsAndResources_holdersClaim c st :
  buildHostsAndResources c = Some st → holdersClaim st.
Proof.
  unfold buildHostsAndResources. intros Hb.
  destruct (forM (ingressStep c) _ _) as [st1 |] eqn:H1; simplify_eq/=.
  destruct (forM (virtualServerStep c) _ _) as [st2 |] eqn:H2; simplify_eq/=.
  assert (hostBuildInv c (sortedItems (ingresses c)) [] [] st1 ∧ holdersClaim st1)
    as [Hinv1 Hc1].
  { revert H1. apply (forM_ind _ (λ pre s, hostBuildInv c pre [] [] s ∧ holdersClaim s)).
    - split; [apply hostBuildInv_empty |]. intros h x Hx.
      unfold emptyHostBuild in Hx. cbn in Hx. by rewrite lookup_empty in Hx.
    - intros pre [k ing] post t t' Hl [Hinv Hc] Hstep.
      split; [eapply ingressStep_inv; [by eapply fresh_prefix | done | done] |].
      destruct (ingressStep_cases _ _ _ _ _ Hstep)
        as [[_ ->] | [(vsr & _ & ->) | (_ & ic & _ & Hmake)]]; [done | done |].
      destruct (hostBuildInv_fresh _ _ _ _ _ Hinv) as (Hfresh & _ & _).
      eapply makeObject_holdersClaim; [done | | done].
      apply Hfresh. by eapply fresh_prefix. }
  assert (hostBuildInv c (sortedItems (ingresses c)) (sortedItems (virtualServers c)) [] st2
          ∧ holdersClaim st2) as [Hinv2 Hc2].
  { revert H2.
    apply (forM_ind _ (λ pre s, hostBuildInv c (sortedItems (ingresses c)) pre [] s
                                ∧ holdersClaim s)); [done |].
    intros pre [k vs] post t t' Hl [Hinv Hc] Hstep.
    split; [eapply virtualServerStep_inv; [by eapply fresh_prefix | done | done] |].
    destruct (virtualServerStep_cases _ _ _ _ _ Hstep) as (vsc & _ & _ & Hmake).
    destruct (hostBuildInv_fresh _ _ _ _ _ Hinv) as (_ & Hfresh & _).
    eapply makeObject_holdersClaim; [done | | done].
    apply Hfresh. by eapply fresh_prefix. }
  destruct (isTLSPassthroughEnabled c); [| by simplify_eq].
  assert (hostBuildInv c (sortedItems (ingresses c)) (sortedItems (virtualServers c))
            (sortedItems (transportServers c)) st ∧ holdersClaim st) as [_ Hc]; [| done].
  revert Hb.
  apply (forM_ind _ (λ pre s, hostBuildInv c (sortedItems (ingresses c))
                                (sortedItems (virtualServers c)) pre s
                              ∧ holdersClaim s)); [done |].
  intros pre [k ts] post t t' Hl [Hinv Hc] Hstep.
  split; [eapply transportServerStep_inv; [by eapply fresh_prefix | done | done] |].
  destruct (transportServerStep_cases _ _ _ _ Hstep) as [[_ ->] | [_ Hmake]]; [done |].
  destruct (hostBuildInv_fresh _ _ _ _ _ Hinv) as (_ & _ & Hfresh).
  eapply makeObject_holdersClaim; [done | | done].
  apply Hfresh. by eapply fresh_prefix.
Qed.

Lemma evolves_TransportServerRes_inv r tsc :
  evolves r (TransportServerRes tsc) →
  ∃ tsc0, r = TransportServerRes tsc0 ∧ tsc_TransportServer tsc0 = tsc_TransportServer tsc.
Proof. intros [Hc _]. destruct r; simplify_eq/=. eauto. Qed.

(** X10: after a host rebuild, the holder of a host claims that host and
    is derived from a resource of the store: an Ingress that is stored
    and is not a minion, a VirtualServer that is stored, or, with TLS
    passthrough enabled only, a TransportServer that is stored and has
    the passthrough listener name or protocol. *)
Theorem hosts_held_by_stored c changes problems c' h r :
  rebuildHosts c = Some (changes, problems, c') →
  hosts c' !! h = Some r →
  h ∈ resourceHosts r
  ∧ match r with
    | IngressRes ic =>
        isMinion (ic_Ingress ic) = false
        ∧ ∃ key, ingresses c !! key = Some (ic_Ingress ic)
    | VirtualServerRes vsc =>
        ∃ key, virtualServers c !! key = Some (vsc_VirtualServer vsc)
    | TransportServerRes tsc =>
        isTLSPassthroughEnabled c = true
        ∧ passthroughCandidate (tsc_TransportServer tsc)
        ∧ ∃ key, transportServers c !! key = Some (tsc_TransportServer tsc)
    end.
Proof.
  intros Hr Hh.
  apply rebuildHosts_Some in Hr as (d0 & l0 & np0 & fh0 & ch0 & Ho & _ & _ & ->).
  cbn [hosts set_hosts] in Hh.
  apply hostOutcome_Some in Ho
    as (st & heap1 & heap2 & p1 & p2 & Hb & _ & _ & _ & _ & _ & _ & _ & -> & He1 & He2).
  pose proof (heapEvolves_trans _ _ _ He1 He2) as He.
  pose proof (buildHostsAndResources_holdersClaim _ _ Hb) as Hclaim.
  apply buildHostsAndResources_inv in Hb as (_ & _ & Hfrom & _).
  rewrite lookup_deref in Hh.
  destruct (hb_newHosts st !! h) as [x |] eqn:Hx; simplify_eq/=.
  destruct (heapEvolves_Some_inv _ _ _ _ He Hh) as (r0 & Hr0 & Hev).
  destruct (Hclaim _ _ Hx) as (r0' & Hr0' & Hin). simplify_eq.
  split; [by rewrite (evolves_resourceHosts _ _ Hev) |].
  destruct (Hfrom _ _ Hr0) as [Hmade _]. unfold madeFrom in Hmade.
  destruct r as [ic | vsc | tsc].
  - apply evolves_IngressRes_inv in Hev as (ic0 & -> & <-).
    destruct x.1.
    + destruct Hmade as (ing & ic' & Hin' & [Hmin _] & Heq & Hic). simplify_eq.
      apply elem_of_sortedItems in Hin'. eauto.
    + by destruct Hmade as (? & ? & _ & ? & _).
    + by destruct Hmade as (? & ? & _ & _ & ? & _).
  - apply evolves_VirtualServerRes in Hev as (vsc0 & -> & <-).
    destruct x.1.
    + by destruct Hmade as (? & ? & _ & _ & ? & _).
    + destruct Hmade as (vs & vsc' & Hin' & Heq & Hvs & _). simplify_eq.
      apply elem_of_sortedItems in Hin'. eauto.
    + by destruct Hmade as (? & ? & _ & _ & ? & _).
  - apply evolves_TransportServerRes_inv in Hev as (tsc0 & -> & <-).
    destruct x.1.
    + by destruct Hmade as (? & ? & _ & _ & ? & _).
    + by destruct Hmade as (? & ? & _ & ? & _).
    + destruct Hmade as (ts & tsc' & Hin' & Hcand & Heq & Hts). simplify_eq.
      destruct (isTLSPassthroughEnabled c); [| by apply elem_of_nil in Hin'].
      apply elem_of_sortedItems in Hin'. eauto.
Qed.

(** ** The problems of a host rebuild *)

(** A loop over entries with distinct keys in which every entry writes
    under a key of its own: an entry finds under its key what was there
    at the start, and what it leaves there is there at the end. *)
Lemma forM_own_key {A V} (f : A → gmap string V → option (gmap string V))
    (keyOf : A → string) (l : list A) (m0 mf : gmap string V) (x : A) :
  NoDup (keyOf <$> l) →
  x ∈ l →
  (∀ y m m' k, y ∈ l → f y m = Some m' → k ≠ keyOf y → m' !! k = m !! k) →
  forM f l m0 = Some mf →
  ∃ m m', f x m = Some m'
          ∧ m !! keyOf x = m0 !! keyOf x
          ∧ mf !! keyOf x = m' !! keyOf x.
Proof.
  intros Hnd Hx Hown. revert m0.
  induction l as [| y l IH]; intros m0 Hrun; [by apply elem_of_nil in Hx |].
  rewrite fmap_cons in Hnd. apply NoDup_cons in Hnd as [Hy Hnd].
  cbn in Hrun. destruct (f y m0) as [m1 |] eqn:Hf; [| done]. cbn in Hrun.
  assert (∀ l' m mf', (∀ z, z ∈ l' → z ∈ y :: l) → (∀ z, z ∈ l' → keyOf z ≠ keyOf y) →
                      forM f l' m = Some mf' → mf' !! keyOf y = m !! keyOf y) as Hrest.
  { induction l' as [| z l' IH']; intros m mf' Hsub Hl' Hr; cbn in Hr; [by simplify_eq |].
    destruct (f z m) as [m2 |] eqn:Hz; [| done]. cbn in Hr.
    rewrite (IH' m2 mf'); [| intros; apply Hsub; by right | intros; apply Hl'; by right
                           | done].
    eapply Hown; [apply Hsub; left | done |]. intros Heq. eapply Hl'; [left | done]. }
  apply elem_of_cons in Hx as [-> | Hx].
  - exists m0, m1. split; [done |]. split; [done |].
    apply (Hrest l m1 mf); [intros; by right | | done].
    intros z Hz Heq. apply Hy. rewrite <- Heq. apply list_elem_of_fmap. eauto.
  - destruct (IH Hnd Hx) with (m0 := m1) as (m & m' & Hfx & Hm & Hmf); [| done |].
    { intros z m m' k Hz. apply Hown. by right. }
    exists m, m'. split; [done |]. split; [| done]. rewrite Hm.
    eapply Hown; [left | done |]. intros Heq. apply Hy. rewrite <- Heq.
    apply list_elem_of_fmap. eauto.
Qed.

(** The first pass of the problems writes under the identities of the
    derived resources only. *)
Lemma addProblemsForResourcesWithoutActiveHost_other hosts heap resources p0 p K :
  (∀ K a, resources !! K = Some a → ∃ r, heap !! a = Some r ∧ GetKeyWithKind r = K) →
  addProblemsForResourcesWithoutActiveHost hosts heap resources p0 = Some p →
  resources !! K = None →
  p !! K = p0 !! K.
Proof.
  intros Hreg Hp HK. revert Hp. unfold addProblemsForResourcesWithoutActiveHost.
  apply (forM_ind _ (λ _ q, q !! K = p0 !! K)); [done |].
  intros pre [K' a'] post t t' Hl IH Hstep. cbn [fst snd] in Hstep.
  assert (resources !! K' = Some a') as Hx.
  { apply elem_of_sortedItems. rewrite Hl. apply elem_of_app. right. left. }
  destruct (Hreg _ _ Hx) as (r' & Hr' & HK').
  assert (GetKeyWithKind r' ≠ K) as Hne by congruence.
  rewrite Hr' in Hstep. cbn [mbind option_bind] in Hstep. rewrite <- IH.
  destruct r' as [ic | vsc | tsc].
  - case_match; simplify_eq; [| done]. by rewrite lookup_insert_ne.
  - destruct (lookupRes heap hosts (vs_Host (vsc_VirtualServer vsc))) as [res' |];
      cbn [mbind option_bind] in Hstep; [| done].
    case_bool_decide; simplify_eq; [| done]. by rewrite lookup_insert_ne.
  - destruct (lookupRes heap hosts (ts_Host (tsc_TransportServer tsc))) as [res' |];
      cbn [mbind option_bind] in Hstep; [| done].
    case_bool_decide; simplify_eq; [| done]. by rewrite lookup_insert_ne.
Qed.

Lemma kind_VirtualServerRoute_not_Resource meta r :
  getResourceKeyWithKind virtualServerRouteKind meta ≠ GetKeyWithKind r.
Proof.
  unfold getResourceKeyWithKind, GetKeyWithKind, tsc_GetKeyWithKind.
  destruct r; cbn; discriminate.
Qed.

Lemma kind_VirtualServerRoute_Ingress meta1 meta2 :
  getResourceKeyWithKind virtualServerRouteKind meta1
  ≠ getResourceKeyWithKind ingressKind meta2.
Proof. unfold getResourceKeyWithKind. cbn. discriminate. Qed.

Lemma getResourceKeyWithKind_key kind meta :
  getResourceKeyWithKind kind meta = kind +:+ "/" +:+ getResourceKey meta.
Proof. reflexivity. Qed.

Lemma evolves_kind_VirtualServer r r' :
  evolves r r' →
  match r, r' with
  | VirtualServerRes vsc, VirtualServerRes vsc' =>
      vsc_VirtualServer vsc' = vsc_VirtualServer vsc
      ∧ vsc_VirtualServerRoutes vsc' = vsc_VirtualServerRoutes vsc
  | IngressRes ic, IngressRes ic' =>
      ic_Ingress ic' = ic_Ingress ic ∧ ic_IsMaster ic' = ic_IsMaster ic
  | TransportServerRes _, TransportServerRes _ => True
  | _, _ => False
  end.
Proof. intros [Hc _]. destruct r, r'; simplify_eq/=; done. Qed.

Lemma forM_foldl {A S} (f : S → A → S) (l : list A) (s : S) :
  forM (λ x s, Some (f s x)) l s = Some (foldl f s l).
Proof. revert s. induction l as [| x l IH]; intros s; [done |]. cbn. apply IH. Qed.

(** X11: after a host rebuild of a store that files every resource under
    its own key, a stored VirtualServerRoute has the problem
    [NoVirtualServerFound] when no VirtualServer holds its host, the
    problem [Ignored] when the VirtualServer that holds its host has no
    route of its namespace and name, and no problem otherwise. *)
Theorem VirtualServerRoute_problem c changes problems c' key vsr :
  storeKeyed c →
  rebuildHosts c = Some (changes, problems, c') →
  virtualServerRoutes c !! key = Some vsr →
  hostProblems c' !! (virtualServerRouteKind +:+ "/" +:+ key)
  = match hosts c' !! vsr_Host vsr with
    | Some (VirtualServerRes vsConfig) =>
        if existsb (λ v, bool_decide (Namespace (vsr_ObjectMeta vsr)
                                      = Namespace (vsr_ObjectMeta v))
                         && bool_decide (Name (vsr_ObjectMeta vsr) = Name (vsr_ObjectMeta v)))
                   (vsc_VirtualServerRoutes vsConfig)
        then None
        else Some (mkProblem (ObjVirtualServerRoute vsr) false EventReasonIgnored
                     ("VirtualServer "
                      +:+ getResourceKey (vs_ObjectMeta (vsc_VirtualServer vsConfig))
                      +:+ " ignores VirtualServerRoute"))
    | _ => Some (mkProblem (ObjVirtualServerRoute vsr) false EventReasonNoVirtualServerFound
                   "VirtualServer is invalid or doesn't exist")
    end.
Proof.
  intros Hkeyed Hr Hvsr. pose proof Hkeyed as (_ & _ & HR & _).
  apply rebuildHosts_Some in Hr as (d0 & l0 & np0 & fh0 & ch0 & Ho & _ & _ & ->).
  cbn [hosts hostProblems set_hosts].
  apply hostOutcome_Some in Ho
    as (st & heap1 & heap2 & p1 & p2 & Hb & _ & Hp1 & Hp2 & -> & _ & _ & _ & -> & He1 & He2).
  apply buildHostsAndResources_inv in Hb as (Hreg & _).
  set (K := virtualServerRouteKind +:+ "/" +:+ key).
  assert (getResourceKeyWithKind virtualServerRouteKind (vsr_ObjectMeta vsr) = K) as HK.
  { rewrite getResourceKeyWithKind_key. unfold K. by rewrite <- (HR _ _ Hvsr). }
  assert (∀ K a, hb_newResources st !! K = Some a →
                 ∃ r, heap1 !! a = Some r ∧ GetKeyWithKind r = K) as Hreg1.
  { intros K' a' HK'. destruct (Hreg _ _ HK') as (r & Hr & <-).
    destruct (heapEvolves_Some _ _ _ _ He1 Hr) as (r' & Hr' & Hev').
    exists r'. split; [done |]. by apply evolves_GetKeyWithKind. }
  assert (p2 !! K = None) as Hnone.
  { rewrite (addProblemsForOrphanMinions_other _ _ _ _ _ _ Hp2)
      by (intros meta; rewrite <- HK; apply kind_VirtualServerRoute_Ingress).
    rewrite (addProblemsForResourcesWithoutActiveHost_other _ _ _ _ _ K Hreg1 Hp1);
      [apply lookup_empty |].
    destruct (hb_newResources st !! K) as [a |] eqn:Ha; [| done].
    destruct (Hreg _ _ Ha) as (r & _ & Hkey). rewrite <- HK in Hkey.
    by destruct (kind_VirtualServerRoute_not_Resource (vsr_ObjectMeta vsr) r). }
  unfold addProblemsForOrphanOrIgnoredVsrs.
  match goal with
  | |- foldl ?f p2 ?l !! K = _ =>
      pose proof (forM_foldl f l p2) as Hfold;
      destruct (forM_own_key (λ x m, Some (f m x))
                  (λ kv, getResourceKeyWithKind virtualServerRouteKind (vsr_ObjectMeta kv.2))
                  l p2 (foldl f p2 l) (key, vsr)) as (m & m' & Hstep & Hm & Hmf)
  end.
  - assert ((λ kv : string * VirtualServerRoute,
               getResourceKeyWithKind virtualServerRouteKind (vsr_ObjectMeta kv.2))
              <$> sortedItems (virtualServerRoutes c)
            = (λ k, virtualServerRouteKind +:+ "/" +:+ k)
                <$> (sortedItems (virtualServerRoutes c)).*1) as ->.
    { rewrite <- list_fmap_compose. apply list_fmap_ext.
      intros i [k v] Hi. cbn. rewrite getResourceKeyWithKind_key. f_equal. f_equal.
      symmetry. apply HR. apply elem_of_sortedItems. by eapply list_elem_of_lookup_2. }
    apply NoDup_fmap; [| apply NoDup_sortedItems_fst].
    intros k1 k2 Heq. by apply app_inj_kind in Heq.
  - by apply elem_of_sortedItems.
  - intros [k v] m m' k' _ Hf Hne. cbn [fst snd] in Hf, Hne. simplify_eq.
    repeat case_match; try done; by rewrite lookup_insert_ne.
  - done.
  - cbn [fst snd] in Hstep, Hm, Hmf. rewrite HK in Hm, Hmf. rewrite Hmf.
    rewrite Hnone in Hm. simplify_eq. rewrite HK.
    rewrite lookup_deref. unfold lookupRes.
    destruct (hb_newHosts st !! vsr_Host vsr) as [x |] eqn:Hx; cbn [mbind option_bind];
      [| by rewrite lookup_insert_eq].
    pose proof (He2 x) as Hevx.
    destruct (heap1 !! x) as [r1 |] eqn:Hr1; inversion Hevx as [? r2 Hev |]; simplify_eq;
      [| by rewrite lookup_insert_eq].
    pose proof (evolves_kind_VirtualServer _ _ Hev) as Hkind.
    destruct r1 as [| vsc1 |], r2 as [| vsc2 |]; try done;
      try by rewrite lookup_insert_eq.
    destruct Hkind as [-> ->].
    destruct (existsb _ _); cbn [negb]; [done | by rewrite lookup_insert_eq].
Qed.

(** X12: after a host rebuild of a store that files every resource under
    its own key, a stored minion Ingress has a first rule, and it has the
    problem [NoIngressMasterFound] exactly when the holder of the host
    of that rule is not a master Ingress; otherwise it has no problem. *)
Theorem minion_problem c changes problems c' key ing :
  storeKeyed c →
  rebuildHosts c = Some (changes, problems, c') →
  ingresses c !! key = Some ing →
  isMinion ing = true →
  ∃ rule,
    head (ing_Rules ing) = Some rule
    ∧ hostProblems c' !! (ingressKind +:+ "/" +:+ key)
      = match hosts c' !! rule_Host rule with
        | Some (IngressRes ingressConf) =>
            if ic_IsMaster ingressConf then None
            else Some (mkProblem (ObjIngress ing) false EventReasonNoIngressMasterFound
                         "Ingress master is invalid or doesn't exist")
        | _ => Some (mkProblem (ObjIngress ing) false EventReasonNoIngressMasterFound
                       "Ingress master is invalid or doesn't exist")
        end.
Proof.
  intros Hkeyed Hr Hing Hminion. pose proof Hkeyed as (HI & _).
  apply rebuildHosts_Some in Hr as (d0 & l0 & np0 & fh0 & ch0 & Ho & _ & _ & ->).
  cbn [hosts hostProblems set_hosts].
  apply hostOutcome_Some in Ho
    as (st & heap1 & heap2 & p1 & p2 & Hb & _ & Hp1 & Hp2 & -> & _ & _ & _ & -> & He1 & He2).
  pose proof Hb as Hinv. apply buildHostsAndResources_inv in Hinv as (Hreg & _ & Hfrom & _).
  set (K := ingressKind +:+ "/" +:+ key).
  assert (getResourceKeyWithKind ingressKind (ing_ObjectMeta ing) = K) as HK.
  { rewrite getResourceKeyWithKind_key. unfold K. by rewrite <- (HI _ _ Hing). }
  assert (∀ K a, hb_newResources st !! K = Some a →
                 ∃ r, heap1 !! a = Some r ∧ GetKeyWithKind r = K) as Hreg1.
  { intros K' a' HK'. destruct (Hreg _ _ HK') as (r & Hr & <-).
    destruct (heapEvolves_Some _ _ _ _ He1 Hr) as (r' & Hr' & Hev').
    exists r'. split; [done |]. by apply evolves_GetKeyWithKind. }
  assert (p1 !! K = None) as Hnone.
  { rewrite (addProblemsForResourcesWithoutActiveHost_other _ _ _ _ _ K Hreg1 Hp1);
      [apply lookup_empty |].
    destruct (hb_newResources st !! K) as [a |] eqn:Ha; [| done]. exfalso.
    destruct (Hreg _ _ Ha) as (r & Hr & Hkey).
    rewrite (built_key _ _ _ _ Hkeyed Hb Hr) in Hkey.
    apply (kindName_inj _ _ KIngress) in Hkey as [Hkind Hkey].
    destruct (Hfrom _ _ Hr) as [Hmade _]. unfold madeFrom in Hmade. rewrite Hkind in Hmade.
    destruct Hmade as (ing' & ic & Hin & [Hmin _] & _). rewrite Hkey in Hin.
    apply elem_of_sortedItems in Hin. simplify_eq. congruence. }
  rewrite addProblemsForOrphanOrIgnoredVsrs_other
    by (intros meta Heq; rewrite <- HK in Heq; symmetry in Heq;
        by apply kind_VirtualServerRoute_Ingress in Heq).
  unfold addProblemsForOrphanMinions in Hp2.
  match type of Hp2 with
  | forM ?f ?l p1 = Some p2 =>
      destruct (forM_own_key f
                  (λ kv, getResourceKeyWithKind ingressKind (ing_ObjectMeta kv.2))
                  l p1 p2 (key, ing)) as (m & m' & Hstep & Hm & Hmf)
  end.
  - assert ((λ kv : string * Ingress,
               getResourceKeyWithKind ingressKind (ing_ObjectMeta kv.2))
              <$> sortedItems (ingresses c)
            = (λ k, ingressKind +:+ "/" +:+ k) <$> (sortedItems (ingresses c)).*1) as ->.
    { rewrite <- list_fmap_compose. apply list_fmap_ext.
      intros i [k v] Hi. cbn. rewrite getResourceKeyWithKind_key. f_equal. f_equal.
      symmetry. apply HI. apply elem_of_sortedItems. by eapply list_elem_of_lookup_2. }
    apply NoDup_fmap; [| apply NoDup_sortedItems_fst].
    intros k1 k2 Heq. by apply app_inj_kind in Heq.
  - by apply elem_of_sortedItems.
  - intros [k v] m m' k' _ Hf Hne. cbn [fst snd] in Hf, Hne.
    destruct (isMinion v); cbn [negb] in Hf; [| by simplify_eq].
    destruct (head (ing_Rules v)) as [rule' |]; cbn [mbind option_bind] in Hf; [| done].
    case_match; simplify_eq; [| done]. by rewrite lookup_insert_ne.
  - done.
  - cbn [fst snd] in Hstep, Hm, Hmf. rewrite HK in Hm, Hmf. rewrite Hmf.
    rewrite Hnone in Hm. rewrite Hminion in Hstep. cbn [negb] in Hstep.
    destruct (head (ing_Rules ing)) as [rule |]; cbn [mbind option_bind] in Hstep;
      [| done].
    exists rule. split; [done |]. rewrite HK in Hstep.
    rewrite lookup_deref. unfold lookupRes in Hstep.
    destruct (hb_newHosts st !! rule_Host rule) as [x |] eqn:Hx;
      cbn [mbind option_bind] in Hstep |- *;
      [| simplify_eq; by rewrite lookup_insert_eq].
    pose proof (He2 x) as Hevx.
    destruct (heap1 !! x) as [r1 |] eqn:Hr1; inversion Hevx as [? r2 Hev |]; simplify_eq;
      [| by rewrite lookup_insert_eq].
    pose proof (evolves_kind_VirtualServer _ _ Hev) as Hkind.
    destruct r1 as [ic1 | |], r2 as [ic2 | |]; try done; simplify_eq;
      try by rewrite lookup_insert_eq.
    destruct Hkind as [_ ->].
    destruct (ic_IsMaster ic1); cbn [negb] in Hstep; simplify_eq;
      [done | by rewrite lookup_insert_eq].
Qed.

(** ** Errors and soft problems *)

Lemma softProblem_mkProblem o reason message :
  reason ∈ [EventReasonRejected; EventReasonNoIngressMasterFound;
            EventReasonNoVirtualServerFound; EventReasonIgnored] →
  softProblem (mkProblem o false reason message).
Proof. by split. Qed.

Lemma soft_insert (m : gmap string ConfigurationProblem) k p :
  map_Forall (λ _, softProblem) m → softProblem p → map_Forall (λ _, softProblem) (<[k := p]> m).
Proof. intros Hm Hp. by apply map_Forall_insert_2. Qed.

Ltac soft_reason :=
  apply softProblem_mkProblem; repeat first [by left | right].

Lemma hostOutcome_soft c detected latest newProblems finalHosts :
  hostOutcome c = Some (detected, latest, newProblems, finalHosts) →
  map_Forall (λ _, softProblem) newProblems.
Proof.
  intros Ho.
  apply hostOutcome_Some in Ho
    as (st & heap1 & heap2 & p1 & p2 & _ & _ & Hp1 & Hp2 & -> & _).
  assert (map_Forall (λ _, softProblem) p1) as H1.
  { revert Hp1. unfold addProblemsForResourcesWithoutActiveHost.
    apply (forM_ind _ (λ _ q, map_Forall (λ _, softProblem) q)); [apply map_Forall_empty |].
    intros pre [K a] post t t' _ IH Hstep. cbn [fst snd] in Hstep.
    destruct (heap1 !! a) as [r |]; cbn [mbind option_bind] in Hstep; [| done].
    destruct r as [ic | vsc | tsc].
    - case_match; simplify_eq; [| done]. apply soft_insert; [done | soft_reason].
    - destruct (lookupRes _ _ _); cbn [mbind option_bind] in Hstep; [| done].
      case_bool_decide; simplify_eq; [| done]. apply soft_insert; [done | soft_reason].
    - destruct (lookupRes _ _ _); cbn [mbind option_bind] in Hstep; [| done].
      case_bool_decide; simplify_eq; [| done]. apply soft_insert; [done | soft_reason]. }
  assert (map_Forall (λ _, softProblem) p2) as H2.
  { revert Hp2. unfold addProblemsForOrphanMinions.
    apply (forM_ind _ (λ _ q, map_Forall (λ _, softProblem) q)); [done |].
    intros pre [k ing] post t t' _ IH Hstep. cbn [fst snd] in Hstep.
    destruct (isMinion ing); cbn [negb] in Hstep; [| by simplify_eq].
    destruct (head (ing_Rules ing)); cbn [mbind option_bind] in Hstep; [| done].
    case_match; simplify_eq; [| done]. apply soft_insert; [done | soft_reason]. }
  unfold addProblemsForOrphanOrIgnoredVsrs.
  generalize (sortedItems (virtualServerRoutes c)). intros l. clear Hp2. revert p2 H2.
  induction l as [| [k vsr] l IH]; intros p2 H2; [done |]. cbn [foldl].
  apply IH. cbn [fst snd].
  repeat case_match; try done; (apply soft_insert; [done | soft_reason]).
Qed.

Lemma listenerOutcome_soft c newListenerHosts newTSConfigs newProblems :
  listenerOutcome c = Some (newListenerHosts, newTSConfigs, newProblems) →
  map_Forall (λ _, softProblem) newProblems.
Proof.
  unfold listenerOutcome. intros Ho.
  destruct (buildListenerHostsAndTSConfigurations c) as [lb |]; simplify_eq/=.
  unfold addProblemsForTSConfigsWithoutActiveListener.
  generalize (sortedItems (lb_newTSConfigs lb)). intros l.
  assert (map_Forall (λ _, softProblem) (∅ : gmap string ConfigurationProblem)) as H0
    by apply map_Forall_empty.
  revert H0. generalize (∅ : gmap string ConfigurationProblem).
  induction l as [| [k tsc] l IH]; intros p0 H0; [done |]. cbn [foldl].
  apply IH. cbn [fst snd].
  repeat case_match; try done; (apply soft_insert; [done | soft_reason]).
Qed.

Lemma detectChangesInProblems_Forall (Q : ConfigurationProblem → Prop) newProblems old :
  map_Forall (λ _, Q) newProblems → Forall Q (detectChangesInProblems newProblems old).
Proof.
  intros Hall. apply Forall_forall. intros p Hp.
  apply elem_of_detectChangesInProblems in Hp as (k & Hk & _). by eapply Hall.
Qed.

Lemma rebuildHosts_soft c changes problems c' :
  rebuildHosts c = Some (changes, problems, c') →
  Forall softProblem problems ∧ map_Forall (λ _, softProblem) (hostProblems c').
Proof.
  intros Hr.
  apply rebuildHosts_Some in Hr as (d0 & l0 & np0 & fh0 & ch0 & Ho & _ & -> & ->).
  apply hostOutcome_soft in Ho. split; [by apply detectChangesInProblems_Forall | done].
Qed.

Lemma rebuildListenerHosts_soft c changes problems c' :
  rebuildListenerHosts c = Some (changes, problems, c') →
  Forall softProblem problems ∧ map_Forall (λ _, softProblem) (listenerProblems c').
Proof.
  intros Hr.
  apply rebuildListenerHosts_Some in Hr as (nl & nt & np & ch0 & Ho & _ & -> & ->).
  apply listenerOutcome_soft in Ho. split; [by apply detectChangesInProblems_Forall | done].
Qed.

Lemma rebuildListenerHostsThenHosts_soft c changes problems c' :
  rebuildListenerHostsThenHosts c = Some (changes, problems, c') →
  Forall softProblem problems
  ∧ map_Forall (λ _, softProblem) (hostProblems c')
  ∧ map_Forall (λ _, softProblem) (listenerProblems c').
Proof.
  unfold rebuildListenerHostsThenHosts. intros Hc.
  destruct (rebuildListenerHosts c) as [[[lch lpr] c1] |] eqn:Hl; simplify_eq/=.
  destruct (rebuildHosts c1) as [[[hch hpr] c2] |] eqn:Hh; simplify_eq/=.
  destruct (rebuildListenerHosts_soft _ _ _ _ Hl) as [H1 H2].
  destruct (rebuildHosts_soft _ _ _ _ Hh) as [H3 H4].
  destruct (rebuildHosts_frame _ _ _ _ Hh) as (h & p & ->).
  split; [by apply Forall_app |]. split; [done |]. exact H2.
Qed.

Lemma rebuildForTransportServers_soft c changes problems c' :
  rebuildForTransportServers c = Some (changes, problems, c') →
  Forall softProblem problems ∧ map_Forall (λ _, softProblem) (listenerProblems c').
Proof.
  unfold rebuildForTransportServers. intros Hc. destruct (isTLSPassthroughEnabled c).
  - apply rebuildListenerHostsThenHosts_soft in Hc. tauto.
  - by apply rebuildListenerHosts_soft in Hc.
Qed.

Lemma createResourceChanges_noError {K} `{Countable K} (oldM newM : gmap K Resource)
    (removed updated added : list K) rc uc ac :
  mapM (λ h, mkChange Delete <$> oldM !! h) removed = Some rc →
  mapM (updatedChange oldM newM) updated = Some uc →
  mapM (λ h, mkChange AddOrUpdate <$> newM !! h) added = Some ac →
  Forall (λ ch, rc_Error ch = "") ((rc ++ concat uc.*1) ++ uc.*2 ++ ac).
Proof.
  intros Hr Hu Ha.
  assert (Forall (λ ch, rc_Error ch = "") rc) as Hrc.
  { eapply mapM_Forall_fmap; [| exact Hr]. intros h ch Hh. cbn in Hh.
    destruct (oldM !! h); by simplify_eq/=. }
  assert (Forall (λ ch, rc_Error ch = "") ac) as Hac.
  { eapply mapM_Forall_fmap; [| exact Ha]. intros h ch Hh. cbn in Hh.
    destruct (newM !! h); by simplify_eq/=. }
  assert (Forall (λ p : list ResourceChange * ResourceChange,
                    Forall (λ ch, rc_Error ch = "") p.1 ∧ rc_Error p.2 = "") uc) as Huc.
  { eapply mapM_Forall_fmap; [| exact Hu]. intros h p Hp. unfold updatedChange in Hp.
    destruct (oldM !! h); simplify_eq/=. destruct (newM !! h); simplify_eq/=.
    split; [| done]. case_bool_decide; [| done]. by apply Forall_singleton. }
  rewrite !Forall_app. repeat split; try done.
  - apply Forall_concat. apply Forall_fmap. eapply Forall_impl; [exact Huc |].
    by intros p [? ?].
  - apply Forall_fmap. eapply Forall_impl; [exact Huc |]. by intros p [? ?].
Qed.

Lemma refresh_Error latest ch : rc_Error (refresh latest ch) = rc_Error ch.
Proof. unfold refresh. by destruct (latest !! rc_key ch). Qed.

Lemma createResourceChangesForHosts_noError removed updated added oldHosts newHosts changes :
  createResourceChangesForHosts removed updated added oldHosts newHosts = Some changes →
  Forall (λ ch, rc_Error ch = "") changes.
Proof.
  unfold createResourceChangesForHosts. intros Hcr.
  destruct (mapM _ removed) as [rc |] eqn:Hr; simplify_eq/=.
  destruct (mapM _ updated) as [uc |] eqn:Hu; simplify_eq/=.
  destruct (mapM _ added) as [ac |] eqn:Ha; simplify_eq/=.
  by eapply createResourceChanges_noError.
Qed.

Lemma createResourceChangesForListeners_noError removed updated added oldL newL changes :
  createResourceChangesForListeners removed updated added oldL newL = Some changes →
  Forall (λ ch, rc_Error ch = "") changes.
Proof.
  unfold createResourceChangesForListeners. intros Hcr.
  destruct (mapM _ removed) as [rc |] eqn:Hr; simplify_eq/=.
  destruct (mapM _ updated) as [uc |] eqn:Hu; simplify_eq/=.
  destruct (mapM _ added) as [ac |] eqn:Ha; simplify_eq/=.
  by eapply createResourceChanges_noError.
Qed.

Lemma rebuildHosts_noError c changes problems c' :
  rebuildHosts c = Some (changes, problems, c') →
  Forall (λ ch, rc_Error ch = "") changes.
Proof.
  rewrite rebuildHosts_alt. intros Hc.
  destruct (hostOutcome c) as [[[[detected latest] newProblems] finalHosts] |];
    [| done]. cbn [mbind option_bind] in Hc.
  destruct (detectChangesInHosts (hosts c) detected) as [[r u] a].
  destruct (createResourceChangesForHosts _ _ _ _ _) as [changes0 |] eqn:Hcr; [| done].
  apply createResourceChangesForHosts_noError in Hcr.
  cbn [mbind option_bind] in Hc. injection Hc as <- _ _.
  apply Forall_fmap. eapply Forall_impl; [by apply squashResourceChanges_Forall |].
  intros ch Hch. cbn. by rewrite refresh_Error.
Qed.

Lemma rebuildListenerHosts_noError c changes problems c' :
  rebuildListenerHosts c = Some (changes, problems, c') →
  Forall (λ ch, rc_Error ch = "") changes.
Proof.
  rewrite rebuildListenerHosts_alt. intros Hc.
  destruct (listenerOutcome c) as [[[newListenerHosts newTSConfigs] newProblems] |];
    [| done]. cbn [mbind option_bind] in Hc.
  destruct (detectChangesInListenerHosts (listenerHosts c) newListenerHosts) as [[r u] a].
  destruct (createResourceChangesForListeners _ _ _ _ _) as [changes0 |] eqn:Hcr; [| done].
  apply createResourceChangesForListeners_noError in Hcr.
  cbn [mbind option_bind] in Hc. injection Hc as <- _ _.
  apply Forall_fmap. eapply Forall_impl; [by apply squashResourceChanges_Forall |].
  intros ch Hch. cbn. by rewrite refresh_Error.
Qed.

Lemma rebuildForTransportServers_noError c changes problems c' :
  rebuildForTransportServers c = Some (changes, problems, c') →
  Forall (λ ch, rc_Error ch = "") changes.
Proof.
  unfold rebuildForTransportServers, rebuildListenerHostsThenHosts. intros Hc.
  destruct (isTLSPassthroughEnabled c); [| by eapply rebuildListenerHosts_noError].
  destruct (rebuildListenerHosts c) as [[[lch lpr] c1] |] eqn:Hl; simplify_eq/=.
  destruct (rebuildHosts c1) as [[[hch hpr] c2] |] eqn:Hh; simplify_eq/=.
  apply Forall_app. split;
    [by eapply rebuildListenerHosts_noError | by eapply rebuildHosts_noError].
Qed.

Lemma rebuildListenerHostsThenHosts_noError c changes problems c' :
  rebuildListenerHostsThenHosts c = Some (changes, problems, c') →
  Forall (λ ch, rc_Error ch = "") changes.
Proof.
  unfold rebuildListenerHostsThenHosts. intros Hc.
  destruct (rebuildListenerHosts c) as [[[lch lpr] c1] |] eqn:Hl; simplify_eq/=.
  destruct (rebuildHosts c1) as [[[hch hpr] c2] |] eqn:Hh; simplify_eq/=.
  apply Forall_app. split;
    [by eapply rebuildListenerHosts_noError | by eapply rebuildHosts_noError].
Qed.

(** What [reportValidationError] does with the error, given changes that
    carry none. *)
Lemma reportValidationError_spec validationError K p changes problems changes' problems' :
  Forall (λ ch, rc_Error ch = "") changes →
  reportValidationError validationError K p changes problems = (changes', problems') →
  match validationError with
  | None => changes' = changes ∧ problems' = problems
  | Some err =>
      (∃ pre ch post,
         changes = pre ++ ch :: post
         ∧ changes' = pre ++ set_rc_Error err ch :: post
         ∧ rc_key ch = K
         ∧ Forall (λ x, rc_key x ≠ K) pre
         ∧ problems' = problems)
      ∨ (Forall (λ x, rc_key x ≠ K) changes
         ∧ changes' = changes ∧ problems' = problems ++ [p err])
  end.
Proof.
  intros _. unfold reportValidationError. destruct validationError as [err |];
    [| intros; by simplify_eq].
  assert (∀ l, match attachError K err l with
               | Some l' =>
                   ∃ pre ch post, l = pre ++ ch :: post
                                  ∧ l' = pre ++ set_rc_Error err ch :: post
                                  ∧ rc_key ch = K ∧ Forall (λ x, rc_key x ≠ K) pre
               | None => Forall (λ x, rc_key x ≠ K) l
               end) as Hattach.
  { induction l as [| ch l IH]; cbn; [done |]. case_bool_decide as Hk.
    - exists [], ch, l. by repeat split.
    - destruct (attachError K err l) as [l' |]; cbn.
      + destruct IH as (pre & ch' & post & -> & -> & ? & ?).
        exists (ch :: pre), ch', post. repeat split; try done. by constructor.
      + by constructor. }
  specialize (Hattach changes).
  destruct (attachError K err changes) as [l' |]; intros; simplify_eq.
  - left. destruct Hattach as (pre & ch & post & ? & ? & ? & ?). eauto 10.
  - right. done.
Qed.

Lemma Forall_noError_keys K (l : list ResourceChange) :
  Forall (λ x, rc_key x ≠ K) l → Forall (λ ch, rc_Error ch = "") l →
  Forall (λ x, rc_key x ≠ K ∧ rc_Error x = "") l.
Proof. intros H1 H2. apply Forall_and. done. Qed.

(** The three [AddOrUpdate] mutators that end in [reportValidationError]. *)
Lemma reported_cases validationErr K mk changes0 problems0 changes problems :
  Forall (λ ch, rc_Error ch = "") changes0 →
  Forall softProblem problems0 →
  reportValidationError validationErr K mk changes0 problems0 = (changes, problems) →
  match validationErr with
  | None => Forall (λ ch, rc_Error ch = "") changes ∧ Forall softProblem problems
  | Some err =>
      (∃ pre ch post,
         changes = pre ++ ch :: post ∧ rc_key ch = K ∧ rc_Error ch = err
         ∧ Forall (λ x, rc_key x ≠ K ∧ rc_Error x = "") pre
         ∧ Forall (λ x, rc_Error x = "") post
         ∧ Forall softProblem problems)
      ∨ (Forall (λ x, rc_key x ≠ K ∧ rc_Error x = "") changes
         ∧ ∃ soft, Forall softProblem soft ∧ problems = soft ++ [mk err])
  end.
Proof.
  intros Hch Hpr Hrep.
  pose proof (reportValidationError_spec _ _ _ _ _ _ _ Hch Hrep) as Hspec.
  destruct validationErr as [err |].
  - destruct Hspec as [(pre & ch & post & -> & -> & HK & Hpre & ->) | (Hall & -> & ->)].
    + left. apply Forall_app in Hch as [Hpre' Hpost]. apply Forall_cons in Hpost as [_ Hpost].
      exists pre, (set_rc_Error err ch), post.
      repeat split; try done. by apply Forall_noError_keys.
    + right. split; [by apply Forall_noError_keys | eauto].
  - by destruct Hspec as [-> ->].
Qed.

(** X13: no change that a mutator returns carries an error, and every
    problem it returns is a soft problem (not an error, with the reason
    Rejected, NoIngressMasterFound, NoVirtualServerFound or Ignored),
    unless its argument has the right class and fails validation. Then
    the validator's message is on the first change for the identity of
    the argument and on no other change; or, when no change is for that
    identity, as is always so for a VirtualServerRoute, the validation
    problem is the last problem returned and the only one that is an
    error. The validation error of a GlobalConfiguration is not reported
    this way: it is returned apart, and the changes and problems of that
    call are as for a valid argument. *)
Theorem validation_error_reported c m changes problems c' :
  applyMutation c m = Some (changes, problems, c') →
  match validationError c m with
  | None => Forall (λ ch, rc_Error ch = "") changes ∧ Forall softProblem problems
  | Some err =>
      (∃ pre ch post,
         changes = pre ++ ch :: post ∧ rc_key ch = identityOf m ∧ rc_Error ch = err
         ∧ Forall (λ x, rc_key x ≠ identityOf m ∧ rc_Error x = "") pre
         ∧ Forall (λ x, rc_Error x = "") post
         ∧ Forall softProblem problems)
      ∨ (Forall (λ x, rc_key x ≠ identityOf m ∧ rc_Error x = "") changes
         ∧ ∃ soft p, validationProblem c m = Some p ∧ p_IsError p = true
                     ∧ Forall softProblem soft ∧ problems = soft ++ [p])
  end.
Proof.
  destruct m as [ing | key | vs | key | vsr | key | ts | key | gc |];
    cbn [applyMutation validationError identityOf validationProblem].
  - unfold AddOrUpdateIngress. intros Hc.
    destruct (rebuildHosts _) as [[[ch pr] c1] |] eqn:Hr; [| done].
    cbn [mbind option_bind] in Hc.
    destruct (reportValidationError _ _ _ ch pr) as [ch' pr'] eqn:Hrep.
    injection Hc as <- <- _.
    apply reported_cases in Hrep;
      [| by eapply rebuildHosts_noError | by eapply rebuildHosts_soft].
    destruct (hasCorrectIngressClass c (ObjIngress ing)); cbn [negb] in Hrep; [| done].
    destruct (validateIngress _ _ _ _ _ _) as [err |]; [| done].
    destruct Hrep as [? | [? (soft & ? & ?)]]; [by left | right].
    split; [done |]. cbn. eauto 10.
  - unfold DeleteIngress. intros Hc. destruct (ingresses c !! key); simplify_eq;
      [| by split].
    split; [by eapply rebuildHosts_noError | by eapply rebuildHosts_soft].
  - unfold AddOrUpdateVirtualServer. intros Hc.
    destruct (rebuildHosts _) as [[[ch pr] c1] |] eqn:Hr; [| done].
    cbn [mbind option_bind] in Hc.
    destruct (reportValidationError _ _ _ ch pr) as [ch' pr'] eqn:Hrep.
    injection Hc as <- <- _.
    apply reported_cases in Hrep;
      [| by eapply rebuildHosts_noError | by eapply rebuildHosts_soft].
    destruct (hasCorrectIngressClass c (ObjVirtualServer vs)); cbn [negb] in Hrep; [| done].
    destruct (ValidateVirtualServer _ _) as [err |]; [| done].
    destruct Hrep as [? | [? (soft & ? & ?)]]; [by left | right].
    split; [done |]. cbn. eauto 10.
  - unfold DeleteVirtualServer. intros Hc. destruct (virtualServers c !! key); simplify_eq;
      [| by split].
    split; [by eapply rebuildHosts_noError | by eapply rebuildHosts_soft].
  - unfold AddOrUpdateVirtualServerRoute. intros Hc.
    destruct (rebuildHosts _) as [[[ch pr] c1] |] eqn:Hr; [| done].
    cbn [mbind option_bind] in Hc. injection Hc as <- <- _.
    pose proof (rebuildHosts_noError _ _ _ _ Hr) as Hne.
    destruct (rebuildHosts_soft _ _ _ _ Hr) as [Hsoft _].
    destruct (hasCorrectIngressClass c (ObjVirtualServerRoute vsr)); cbn [negb];
      [| done].
    destruct (ValidateVirtualServerRoute _ _) as [err |]; [| done].
    right. split.
    + apply Forall_noError_keys; [| done]. apply Forall_forall. intros x _ Heq.
      symmetry in Heq. by apply kind_VirtualServerRoute_not_Resource in Heq.
    + cbn. eauto 10.
  - unfold DeleteVirtualServerRoute. intros Hc.
    destruct (virtualServerRoutes c !! key); simplify_eq; [| by split].
    split; [by eapply rebuildHosts_noError | by eapply rebuildHosts_soft].
  - unfold AddOrUpdateTransportServer. intros Hc.
    destruct (rebuildForTransportServers _) as [[[ch pr] c1] |] eqn:Hr; [| done].
    cbn [mbind option_bind] in Hc.
    destruct (reportValidationError _ _ _ ch pr) as [ch' pr'] eqn:Hrep.
    injection Hc as <- <- _.
    apply reported_cases in Hrep;
      [| by eapply rebuildForTransportServers_noError
       | by eapply rebuildForTransportServers_soft].
    destruct (hasCorrectIngressClass c (ObjTransportServer ts)); cbn [negb] in Hrep;
      [| done].
    destruct (ValidateTransportServer _ _) as [err |]; [| done].
    destruct Hrep as [? | [? (soft & ? & ?)]]; [by left | right].
    split; [done |]. cbn. eauto 10.
  - unfold DeleteTransportServer. intros Hc.
    destruct (transportServers c !! key); simplify_eq; [| by split].
    split; [by eapply rebuildForTransportServers_noError
           | by eapply rebuildForTransportServers_soft].
  - unfold AddOrUpdateGlobalConfiguration. intros Hc.
    destruct (rebuildListenerHostsThenHosts _) as [[[ch pr] c1] |] eqn:Hr; [| done].
    cbn [mbind option_bind] in Hc. injection Hc as <- <- _.
    split; [by eapply rebuildListenerHostsThenHosts_noError |].
    by destruct (rebuildListenerHostsThenHosts_soft _ _ _ _ Hr).
  - unfold DeleteGlobalConfiguration. intros Hc.
    split; [by eapply rebuildListenerHostsThenHosts_noError |].
    by destruct (rebuildListenerHostsThenHosts_soft _ _ _ _ Hc).
Qed.

(** ** What a rebuild does not read *)

Lemma rebuildListenerHosts_set_ingresses c m :
  rebuildListenerHosts (set_ingresses m c) =
  '(changes, problems, c') ← rebuildListenerHosts c;
  Some (changes, problems, set_ingresses m c').
Proof.
  rewrite !rebuildListenerHosts_alt.
  change (listenerOutcome (set_ingresses m c)) with (listenerOutcome c).
  destruct (listenerOutcome c) as [[[nl nt] np] |]; [| done]. cbn [mbind option_bind].
  change (listenerHosts (set_ingresses m c)) with (listenerHosts c).
  destruct (detectChangesInListenerHosts _ _) as [[r u] a].
  by destruct (createResourceChangesForListeners _ _ _ _ _).
Qed.

Lemma rebuildListenerHosts_set_virtualServers c m :
  rebuildListenerHosts (set_virtualServers m c) =
  '(changes, problems, c') ← rebuildListenerHosts c;
  Some (changes, problems, set_virtualServers m c').
Proof.
  rewrite !rebuildListenerHosts_alt.
  change (listenerOutcome (set_virtualServers m c)) with (listenerOutcome c).
  destruct (listenerOutcome c) as [[[nl nt] np] |]; [| done]. cbn [mbind option_bind].
  change (listenerHosts (set_virtualServers m c)) with (listenerHosts c).
  destruct (detectChangesInListenerHosts _ _) as [[r u] a].
  by destruct (createResourceChangesForListeners _ _ _ _ _).
Qed.

Lemma rebuildListenerHosts_set_virtualServerRoutes c m :
  rebuildListenerHosts (set_virtualServerRoutes m c) =
  '(changes, problems, c') ← rebuildListenerHosts c;
  Some (changes, problems, set_virtualServerRoutes m c').
Proof.
  rewrite !rebuildListenerHosts_alt.
  change (listenerOutcome (set_virtualServerRoutes m c)) with (listenerOutcome c).
  destruct (listenerOutcome c) as [[[nl nt] np] |]; [| done]. cbn [mbind option_bind].
  change (listenerHosts (set_virtualServerRoutes m c)) with (listenerHosts c).
  destruct (detectChangesInListenerHosts _ _) as [[r u] a].
  by destruct (createResourceChangesForListeners _ _ _ _ _).
Qed.

(** With TLS passthrough disabled the host rebuild does not read the
    TransportServers. *)
Lemma rebuildHosts_without_passthrough c m l q :
  isTLSPassthroughEnabled c = false →
  rebuildHosts (set_listenerHosts l q (set_transportServers m c)) =
  '(changes, problems, c') ← rebuildHosts c;
  Some (changes, problems, set_listenerHosts l q (set_transportServers m c')).
Proof.
  intros Hflag. rewrite !rebuildHosts_alt.
  assert (hostOutcome (set_listenerHosts l q (set_transportServers m c)) = hostOutcome c)
    as ->.
  { unfold hostOutcome, buildHostsAndResources.
    change (isTLSPassthroughEnabled (set_listenerHosts l q (set_transportServers m c)))
      with (isTLSPassthroughEnabled c).
    rewrite Hflag. reflexivity. }
  destruct (hostOutcome c) as [[[[d la] np] fh] |]; [| done]. cbn [mbind option_bind].
  change (hosts (set_listenerHosts l q (set_transportServers m c))) with (hosts c).
  destruct (detectChangesInHosts _ _) as [[r u] a].
  by destruct (createResourceChangesForHosts _ _ _ _ _).
Qed.

Lemma set_ingresses_id c : set_ingresses (ingresses c) c = c.
Proof. by destruct c. Qed.

Lemma set_virtualServers_id c : set_virtualServers (virtualServers c) c = c.
Proof. by destruct c. Qed.

Lemma set_virtualServerRoutes_id c : set_virtualServerRoutes (virtualServerRoutes c) c = c.
Proof. by destruct c. Qed.

Lemma set_transportServers_id c : set_transportServers (transportServers c) c = c.
Proof. by destruct c. Qed.

(** ** What a mutator leaves alone *)

(** X16: no mutator changes a setting of the configuration, and each one
    writes only its own part of it. A call for an Ingress, a
    VirtualServer or a VirtualServerRoute leaves the other three store maps,
    the GlobalConfiguration with its listener map, and the listener hosts
    and listener problems as they are; a call for a TransportServer leaves
    the other three store maps and the GlobalConfiguration, and with TLS
    passthrough disabled also the hosts and the host problems; a call for
    the GlobalConfiguration leaves the four store maps. *)
Theorem mutators_write_their_own_part c m changes problems c' :
  applyMutation c m = Some (changes, problems, c') →
  sameSettings c c' ∧ untouched m c c'.
Proof.
  intros Hm.
  destruct m as [ing | key | vs | key | vsr | key | ts | key | gc |]; cbn in Hm.
  - unfold AddOrUpdateIngress in Hm.
    destruct (rebuildHosts _) as [[[ch pr] c1] |] eqn:Hr; [| done].
    cbn [mbind option_bind] in Hm.
    destruct (reportValidationError _ _ _ ch pr) as [ch' pr']. injection Hm as _ _ <-.
    destruct (rebuildHosts_frame _ _ _ _ Hr) as (h & p & ->).
    by repeat case_match.
  - unfold DeleteIngress in Hm. destruct (ingresses c !! key); [| by simplify_eq].
    by destruct (rebuildHosts_frame _ _ _ _ Hm) as (h & p & ->).
  - unfold AddOrUpdateVirtualServer in Hm.
    destruct (rebuildHosts _) as [[[ch pr] c1] |] eqn:Hr; [| done].
    cbn [mbind option_bind] in Hm.
    destruct (reportValidationError _ _ _ ch pr) as [ch' pr']. injection Hm as _ _ <-.
    destruct (rebuildHosts_frame _ _ _ _ Hr) as (h & p & ->).
    by repeat case_match.
  - unfold DeleteVirtualServer in Hm. destruct (virtualServers c !! key); [| by simplify_eq].
    by destruct (rebuildHosts_frame _ _ _ _ Hm) as (h & p & ->).
  - unfold AddOrUpdateVirtualServerRoute in Hm.
    destruct (rebuildHosts _) as [[[ch pr] c1] |] eqn:Hr; [| done].
    cbn [mbind option_bind] in Hm. injection Hm as _ _ <-.
    destruct (rebuildHosts_frame _ _ _ _ Hr) as (h & p & ->).
    by repeat case_match.
  - unfold DeleteVirtualServerRoute in Hm.
    destruct (virtualServerRoutes c !! key); [| by simplify_eq].
    by destruct (rebuildHosts_frame _ _ _ _ Hm) as (h & p & ->).
  - unfold AddOrUpdateTransportServer in Hm.
    destruct (rebuildForTransportServers _) as [[[ch pr] c1] |] eqn:Hr; [| done].
    cbn [mbind option_bind] in Hm.
    destruct (reportValidationError _ _ _ ch pr) as [ch' pr']. injection Hm as _ _ <-.
    unfold rebuildForTransportServers in Hr.
    repeat case_match;
      first [ destruct (rebuildListenerHostsThenHosts_frame _ _ _ _ Hr) as (h & p & l & q & ->)
            | destruct (rebuildListenerHosts_frame _ _ _ _ Hr) as (l & q & ->) ];
      cbn in *; by repeat split; try congruence.
  - unfold DeleteTransportServer in Hm.
    destruct (transportServers c !! key); [| by simplify_eq].
    unfold rebuildForTransportServers in Hm.
    repeat case_match;
      first [ destruct (rebuildListenerHostsThenHosts_frame _ _ _ _ Hm) as (h & p & l & q & ->)
            | destruct (rebuildListenerHosts_frame _ _ _ _ Hm) as (l & q & ->) ];
      cbn in *; by repeat split; try congruence.
  - unfold AddOrUpdateGlobalConfiguration in Hm.
    destruct (rebuildListenerHostsThenHosts _) as [[[ch pr] c1] |] eqn:Hr; [| done].
    cbn [mbind option_bind] in Hm. injection Hm as _ _ <-.
    by destruct (rebuildListenerHostsThenHosts_frame _ _ _ _ Hr) as (h & p & l & q & ->).
  - unfold DeleteGlobalConfiguration in Hm.
    by destruct (rebuildListenerHostsThenHosts_frame _ _ _ _ Hm) as (h & p & l & q & ->).
Qed.

(** ** The routes of a VirtualServer *)

Lemma buildVirtualServerRoutes_outcomes c vs :
  buildVirtualServerRoutes c vs
  = (omap (λ r, o ← routeOutcome c vs r; match o with inl vsr => Some vsr | _ => None end)
          (vs_Routes vs),
     omap (λ r, o ← routeOutcome c vs r; match o with inr w => Some w | _ => None end)
          (vs_Routes vs)).
Proof.
  unfold buildVirtualServerRoutes.
  set (step := λ '(vsrs, warnings) r, _).
  enough (∀ l vsrs ws,
            foldl step (vsrs, ws) l
            = (vsrs ++ omap (λ r, o ← routeOutcome c vs r;
                                  match o with inl vsr => Some vsr | _ => None end) l,
               ws ++ omap (λ r, o ← routeOutcome c vs r;
                                match o with inr w => Some w | _ => None end) l)) as H
    by apply (H _ [] []).
  assert (∀ vsrs ws r,
            step (vsrs, ws) r
            = (vsrs ++ option_list (routeOutcome c vs r ≫= λ o,
                                    match o with inl vsr => Some vsr | _ => None end),
               ws ++ option_list (routeOutcome c vs r ≫= λ o,
                                  match o with inr w => Some w | _ => None end))) as Hstep.
  { intros vsrs ws r. unfold step, routeOutcome, routeKey.
    case_bool_decide; cbn; [by rewrite !app_nil_r |].
    destruct (virtualServerRoutes c !! _) as [vsr |]; cbn;
      [destruct (ValidateVirtualServerRouteForVirtualServer _ _ _ _); cbn |];
      by rewrite ?app_nil_r. }
  induction l as [| r l IH]; intros vsrs ws; cbn [foldl].
  { by rewrite !app_nil_r. }
  rewrite Hstep, IH, <- !(assoc_L (++)). cbn.
  by destruct (routeOutcome c vs r) as [[] |].
Qed.

Lemma routeOutcome_None c vs r : routeOutcome c vs r = None ↔ route_Route r = "".
Proof.
  unfold routeOutcome. case_bool_decide; [done |].
  destruct (virtualServerRoutes c !! _); [| done].
  by destruct (ValidateVirtualServerRouteForVirtualServer _ _ _ _).
Qed.

(** X17: every route of a VirtualServer that names a VirtualServerRoute
    gives one VirtualServerRoute or one warning, in the order of the
    routes, and a route that names none gives neither. The
    VirtualServerRoute is the one stored under the name, taken in the
    namespace of the VirtualServer when the name has no slash, and it is
    taken when the validator accepts it for the host of the VirtualServer
    and the path of the route; the warning says that it does not exist, or
    why it is invalid. *)
Theorem buildVirtualServerRoutes_accounts c vs :
  let '(vsrs, warnings) := buildVirtualServerRoutes c vs in
  (length vsrs + length warnings
   = length (filter (λ r, route_Route r ≠ "") (vs_Routes vs)))%nat
  ∧ (∀ vsr, vsr ∈ vsrs ↔
       ∃ r, r ∈ vs_Routes vs ∧ route_Route r ≠ ""
            ∧ virtualServerRoutes c !! routeKey vs r = Some vsr
            ∧ ValidateVirtualServerRouteForVirtualServer (virtualServerValidator c)
                vsr (vs_Host vs) (route_Path r) = None)
  ∧ (∀ w, w ∈ warnings ↔
       ∃ r, r ∈ vs_Routes vs ∧ route_Route r ≠ ""
            ∧ ((virtualServerRoutes c !! routeKey vs r = None
                ∧ w = "VirtualServerRoute " +:+ routeKey vs r +:+ " doesn't exist or invalid")
               ∨ ∃ vsr err,
                   virtualServerRoutes c !! routeKey vs r = Some vsr
                   ∧ ValidateVirtualServerRouteForVirtualServer (virtualServerValidator c)
                       vsr (vs_Host vs) (route_Path r) = Some err
                   ∧ w = "VirtualServerRoute " +:+ routeKey vs r +:+ " is invalid: " +:+ err))
  ∧ vsrs = omap (λ r, o ← routeOutcome c vs r;
                      match o with inl vsr => Some vsr | _ => None end)
                (vs_Routes vs).
Proof.
  rewrite buildVirtualServerRoutes_outcomes.
  split; [| split; [| split; [| done]]].
  - induction (vs_Routes vs) as [| r l IH]; [done |].
    rewrite filter_cons. cbn.
    destruct (routeOutcome c vs r) as [o |] eqn:Ho; cbn.
    + rewrite decide_True by (intros Hr; by rewrite (proj2 (routeOutcome_None c vs r) Hr) in Ho).
      destruct o; cbn in *; lia.
    + rewrite decide_False by (intros Hr; apply Hr; by eapply routeOutcome_None).
      exact IH.
  - intros vsr. rewrite list_elem_of_omap. split.
    + intros (r & Hin & Ho). exists r. split; [done |].
      unfold routeOutcome in Ho. case_bool_decide; [done |].
      destruct (virtualServerRoutes c !! _) as [vsr' |]; [| done].
      destruct (ValidateVirtualServerRouteForVirtualServer _ _ _ _) eqn:Hv; simplify_eq/=.
      done.
    + intros (r & Hin & Hne & Hl & Hv). exists r. split; [done |].
      unfold routeOutcome. rewrite bool_decide_false by done. by rewrite Hl, Hv.
  - intros w. rewrite list_elem_of_omap. split.
    + intros (r & Hin & Ho). exists r. split; [done |].
      unfold routeOutcome in Ho. case_bool_decide; [done |]. split; [done |].
      destruct (virtualServerRoutes c !! _) as [vsr' |]; [| simplify_eq/=; by left].
      destruct (ValidateVirtualServerRouteForVirtualServer _ _ _ _) eqn:Hv; simplify_eq/=.
      right. eauto.
    + intros (r & Hin & Hne & [[Hl ->] | (vsr & err & Hl & Hv & ->)]); exists r;
        (split; [done |]); unfold routeOutcome; rewrite bool_decide_false by done.
      * by rewrite Hl.
      * by rewrite Hl, Hv.
Qed.

(** ** Two TransportServers on one listener *)

Lemma listenerClaim_frame c lb lb' k ts :
  lb_newListenerHosts lb' !! ts_listenerHostKey ts
    = lb_newListenerHosts lb !! ts_listenerHostKey ts →
  (∀ a, lb_newListenerHosts lb !! ts_listenerHostKey ts = Some a →
        lb_newTSConfigs lb' !! a = lb_newTSConfigs lb !! a) →
  lb_newTSConfigs lb' !! k = lb_newTSConfigs lb !! k →
  listenerClaim c lb k ts → listenerClaim c lb' k ts.
Proof.
  unfold listenerClaim. intros Hh Ha Hk.
  destruct (listenerOf c ts) as [listener |]; [| by rewrite Hk].
  intros (a & holder & Hlk & Hholder & Hcase).
  exists a, holder. rewrite Hh, (Ha _ Hlk), Hk. done.
Qed.

Lemma listenerStep_claims c pre k ts lb lb' :
  k ∉ pre.*1 →
  listenerBuildInv c pre lb →
  listenerClaims c pre lb →
  listenerStep c (k, ts) lb = Some lb' →
  listenerClaims c (pre ++ [(k, ts)]) lb'.
Proof.
  intros Hfresh (H1 & H2 & H3) Hclaims Hstep.
  assert (lb_newTSConfigs lb !! k = None) as Hnone.
  { destruct (lb_newTSConfigs lb !! k) as [tsc |] eqn:E; [| done].
    exfalso. apply Hfresh. apply H1 in E as [E _].
    apply list_elem_of_fmap. by exists (k, tsc_TransportServer tsc). }
  assert (∀ lk a, lb_newListenerHosts lb !! lk = Some a → a ≠ k) as Hholders.
  { intros lk a Hlk ->. destruct (H3 _ _ Hlk) as (tsc & _ & _ & ? & _). congruence. }
  assert (∀ k0 ts0, (k0, ts0) ∈ pre → k0 ≠ k) as Hpre.
  { intros k0 ts0 Hin ->. apply Hfresh. apply list_elem_of_fmap. by exists (k, ts0). }
  (* an older entry whose holder and configuration the step leaves alone *)
  assert (∀ hostsL cfgs,
            (∀ lk, lk ≠ ts_listenerHostKey ts →
                   hostsL !! lk = lb_newListenerHosts lb !! lk) →
            (∀ x, x ≠ k → cfgs !! x = lb_newTSConfigs lb !! x) →
            ∀ k0 ts0, (k0, ts0) ∈ pre →
              ts_listenerHostKey ts0 ≠ ts_listenerHostKey ts ∨ listenerOf c ts0 = None →
              listenerClaim c lb k0 ts0 →
              listenerClaim c {| lb_newListenerHosts := hostsL; lb_newTSConfigs := cfgs |}
                k0 ts0) as Hother.
  { intros hostsL cfgs Hh Hc k0 ts0 Hin Hor. unfold listenerClaim.
    destruct (listenerOf c ts0) as [l0 |] eqn:Hl0; cbn.
    - destruct Hor as [Hne | ?]; [| done].
      intros (a & holder & Hlk & Hholder & Hcase). exists a, holder.
      rewrite Hh by done. rewrite (Hc a) by eauto. rewrite (Hc k0) by eauto. done.
    - intros ?. rewrite Hc by eauto. done. }
  unfold listenerStep in Hstep.
  case_bool_decide as Hproto.
  { simplify_eq. intros k0 ts0 [Hin | Hin%list_elem_of_singleton]%elem_of_app Hp.
    - by apply Hclaims.
    - by simplify_eq. }
  destruct (listenerOf c ts) as [listener |] eqn:Hlistener.
  2:{ (* the new TransportServer names no listener *)
      assert (lb' = {| lb_newListenerHosts := lb_newListenerHosts lb;
                       lb_newTSConfigs :=
                         <[k := NewTransportServerConfiguration ts]> (lb_newTSConfigs lb) |})
        as ->.
      { unfold listenerOf in Hlistener.
        destruct (globalConfiguration c) as [gc |]; cbn in Hlistener; [| by simplify_eq].
        rewrite Hlistener in Hstep. by simplify_eq. }
      intros k0 ts0 [Hin | Hin%list_elem_of_singleton]%elem_of_app Hp.
      - apply (listenerClaim_frame c lb); cbn; [done | | | by apply Hclaims].
        + intros a Ha. rewrite lookup_insert_ne; [done |]. intros <-. by eapply Hholders.
        + rewrite lookup_insert_ne; [done |]. intros <-. by eapply Hpre.
      - simplify_eq. unfold listenerClaim. rewrite Hlistener. cbn.
        by rewrite lookup_insert_eq. }
  unfold listenerOf in Hlistener.
  destruct (globalConfiguration c) as [gc |] eqn:Hgc; cbn in Hlistener; [| done].
  rewrite Hlistener in Hstep.
  destruct (findListener_Some _ _ _ Hlistener) as [Hname _].
  assert ({| lhk_ListenerName := l_Name listener; lhk_Host := ts_Host ts |}
          = ts_listenerHostKey ts) as Hlk.
  { unfold ts_listenerHostKey. by rewrite Hname. }
  rewrite Hlk, insert_insert_eq in Hstep. rewrite <- Hname in Hstep.
  fold (listenerTakenWarning (ts_ListenerName ts) (ts_Host ts)) in Hstep.
  set (made := tsc_setListener listener (NewTransportServerConfiguration ts)) in *.
  destruct (lb_newListenerHosts lb !! ts_listenerHostKey ts) as [holderKey |] eqn:Hholder.
  2:{ (* no holder yet *)
      simplify_eq.
      intros k0 ts0 [Hin | Hin%list_elem_of_singleton]%elem_of_app Hp.
      - apply Hother; [| | done | | by apply Hclaims].
        + intros lk Hne. by rewrite lookup_insert_ne.
        + intros x Hne. by rewrite lookup_insert_ne.
        + destruct (listenerOf c ts0) as [l0 |] eqn:Hl0; [left | by right].
          intros Heq. specialize (Hclaims _ _ Hin Hp). unfold listenerClaim in Hclaims.
          rewrite Hl0 in Hclaims. destruct Hclaims as (a & ? & Ha & _). congruence.
      - simplify_eq. unfold listenerClaim, listenerOf. rewrite Hgc. cbn. rewrite Hlistener.
        exists k, made. cbn. rewrite !lookup_insert_eq. by rewrite decide_True. }
  assert (holderKey ≠ k) as Hhk by eauto.
  rewrite lookup_insert_ne in Hstep by done.
  destruct (lb_newTSConfigs lb !! holderKey) as [holder |] eqn:Hh; simplify_eq/=.
  destruct (H3 _ _ Hholder) as (holder' & gc' & lh & Hholder' & Hgc' & Hlh & Hlkh).
  simplify_eq.
  destruct (tsc_Wins holder made) eqn:Hwins; simplify_eq/=.
  - (* the holder keeps the listener, the new one is warned *)
    intros k0 ts0 [Hin | Hin%list_elem_of_singleton]%elem_of_app Hp.
    + apply (listenerClaim_frame c lb); cbn; [done | | | by apply Hclaims].
      * intros a Ha. rewrite lookup_alter_ne, lookup_insert_ne; [done | |];
          intros <-; by eapply Hholders.
      * rewrite lookup_alter_ne, lookup_insert_ne; [done | |]; intros <-; by eapply Hpre.
    + simplify_eq. unfold listenerClaim, listenerOf. rewrite Hgc. cbn. rewrite Hlistener.
      exists holderKey, holder. cbn.
      rewrite Hholder, lookup_alter_ne, lookup_insert_ne, Hh by done.
      rewrite decide_False by done. rewrite lookup_alter_eq, lookup_insert_eq. cbn.
      repeat split. unfold tsc_Wins in *. by apply chooseObjectMetaWinner_asym.
  - (* the new one takes the listener, the holder is warned *)
    intros k0 ts0 [Hin | Hin%list_elem_of_singleton]%elem_of_app Hp.
    2:{ simplify_eq. unfold listenerClaim, listenerOf. rewrite Hgc. cbn. rewrite Hlistener.
        exists k, made. cbn.
        rewrite lookup_insert_eq, lookup_alter_ne, lookup_insert_eq by done.
        by rewrite decide_True. }
    assert (k0 ≠ k) as Hk0 by eauto.
    specialize (Hclaims _ _ Hin Hp). unfold listenerClaim in *. cbn.
    destruct (listenerOf c ts0) as [l0 |] eqn:Hl0.
    2:{ (* the older one names no listener: it is not the holder *)
        rewrite lookup_alter_ne, lookup_insert_ne; [done | done |].
        intros ->. rewrite Hclaims in Hh. simplify_eq/=.
        unfold listenerOf in Hl0. rewrite Hgc in Hl0. cbn in Hl0. congruence. }
    destruct Hclaims as (a & holder0 & Ha & Hholder0 & Hcase).
    destruct (decide (ts_listenerHostKey ts0 = ts_listenerHostKey ts)) as [Hsame | Hdiff].
    + (* the older one asked for the same listener and host *)
      rewrite Hsame, Hholder in Ha. injection Ha as <-.
      rewrite Hh in Hholder0. injection Hholder0 as <-.
      exists k, made. rewrite Hsame, lookup_insert_eq.
      rewrite lookup_alter_ne, lookup_insert_eq by done.
      split; [done |]. split; [done |]. rewrite decide_False by done.
      assert (listenerTakenWarning (ts_ListenerName ts) (ts_Host ts)
              = listenerTakenWarning (ts_ListenerName ts0) (ts_Host ts0)) as Hw.
      { unfold ts_listenerHostKey in Hsame. by injection Hsame as -> ->. }
      destruct (decide (holderKey = k0)) as [-> | Hne].
      * subst holder. rewrite lookup_alter_eq, lookup_insert_ne, Hh by done. cbn.
        by rewrite Hw.
      * destruct Hcase as [Hk0' Hlost].
        rewrite lookup_alter_ne, lookup_insert_ne by done. split; [done |].
        unfold tsc_Wins in *. by eapply chooseObjectMetaWinner_neg_trans.
    + (* the older one asked for another listener or host *)
      assert (a ≠ holderKey) as Hah.
      { intros ->. destruct (H3 _ _ Ha) as (tsc & _ & _ & Htsc & _ & _ & Heq).
        assert (tsc = holder) as -> by congruence.
        apply Hdiff. rewrite Heq. unfold ts_listenerHostKey. congruence. }
      assert (a ≠ k) as Hak by eauto.
      exists a, holder0. rewrite lookup_insert_ne by done.
      rewrite lookup_alter_ne, lookup_insert_ne by done.
      split; [done |]. split; [done |].
      destruct (decide (a = k0)) as [-> | Hne]; [done |].
      destruct Hcase as [Hk0' Hlost]. split; [| done].
      assert (holderKey ≠ k0) as Hhk0.
      { intros <-. rewrite Hk0' in Hh. injection Hh as <-. cbn in H, Hlkh.
        apply Hdiff. unfold ts_listenerHostKey. congruence. }
      by rewrite lookup_alter_ne, lookup_insert_ne by done.
Qed.

Lemma buildListenerHostsAndTSConfigurations_claims c lb :
  buildListenerHostsAndTSConfigurations c = Some lb →
  listenerClaims c (rangeItems (transportServers c)) lb.
Proof.
  unfold buildListenerHostsAndTSConfigurations. intros Hb.
  refine (proj2 (forM_ind _ (λ done lb, listenerBuildInv c done lb ∧ listenerClaims c done lb)
                   _ _ _ _ _ Hb)).
  - split.
    + split; [| split]; simpl; intros *; try by rewrite lookup_empty.
      intros Hin. by apply elem_of_nil in Hin.
    + intros k ts Hin. by apply elem_of_nil in Hin.
  - intros pre [k ts] post t t' Hl [Hinv Hcl] Hstep.
    assert (k ∉ pre.*1) as Hfresh.
    { pose proof (NoDup_rangeItems_fst (transportServers c)) as Hnd.
      rewrite Hl, fmap_app, fmap_cons in Hnd.
      apply NoDup_app in Hnd as (_ & Hnd & _). intros Hin. eapply Hnd; [done |]. left. }
    split; [by eapply listenerStep_inv | by eapply listenerStep_claims].
Qed.

(** The problem that [addProblemsForTSConfigsWithoutActiveListener] files
    for one configuration, when the configurations have the identities of
    their store keys. *)
Lemma listener_problem_filed c
    (listenerHosts : gmap listenerHostKey TransportServerConfiguration)
    (tsConfigs : gmap string TransportServerConfiguration) key tsc :
  storeKeyed c →
  (∀ k t, tsConfigs !! k = Some t → transportServers c !! k = Some (tsc_TransportServer t)) →
  tsConfigs !! key = Some tsc →
  let ts := tsc_TransportServer tsc in
  addProblemsForTSConfigsWithoutActiveListener listenerHosts tsConfigs ∅
    !! tsc_GetKeyWithKind tsc
  = match listenerHosts !! ts_listenerHostKey ts with
    | None =>
        Some (mkProblem (ObjTransportServer ts) false EventReasonRejected
                ("Listener " +:+ ts_ListenerName ts +:+ " doesn't exist"))
    | Some holder =>
        if tsc_IsEqual tsc holder then None
        else Some (mkProblem (ObjTransportServer ts) false EventReasonRejected
                     ("Listener " +:+ ts_ListenerName ts +:+ " with host "
                      +:+ (if bool_decide (ts_Host ts ≠ "") then ts_Host ts
                           else "empty host")
                      +:+ " is taken by another resource"))
    end.
Proof.
  intros Hkeyed Hstored Hkey ts. unfold addProblemsForTSConfigsWithoutActiveListener.
  match goal with
  | |- context [foldl ?f ∅ ?l] =>
      destruct (forM_own_key (λ x s, Some (f s x))
        (λ kv : string * TransportServerConfiguration, tsc_GetKeyWithKind kv.2)
        l ∅ (foldl f ∅ l) (key, tsc)) as (m & m' & Hf & Hm & Hm')
  end.
  - assert ((λ kv : string * TransportServerConfiguration, tsc_GetKeyWithKind kv.2)
              <$> sortedItems tsConfigs
            = (λ k, transportServerKind +:+ "/" +:+ k) <$> (sortedItems tsConfigs).*1) as ->.
    { rewrite <- list_fmap_compose. apply list_fmap_ext. intros i [k' tsc'] Hi. simpl.
      apply list_elem_of_lookup_2, elem_of_sortedItems in Hi.
      eapply tsc_GetKeyWithKind_keyed; [done |]. by apply Hstored. }
    apply NoDup_fmap; [| apply NoDup_sortedItems_fst].
    intros k1 k2. apply app_inj_kind.
  - by apply elem_of_sortedItems.
  - intros [k' tsc'] m m' k0 _ Hf Hk0. simpl in *. simplify_eq.
    repeat case_match; by rewrite ?lookup_insert_ne.
  - apply forM_foldl.
  - cbn [snd] in Hm, Hm'. rewrite Hm'. cbn in Hf. injection Hf as <-. fold ts.
    unfold ts_listenerHostKey.
    destruct (listenerHosts !! _) as [holder |]; [| by rewrite lookup_insert_eq].
    destruct (tsc_IsEqual tsc holder); cbn [negb]; [by rewrite Hm |].
    by rewrite lookup_insert_eq.
Qed.

(** X18: after a listener rebuild of a store that files every resource
    under its own key, a stored TransportServer that is not TLS
    passthrough and names a listener of the GlobalConfiguration finds its
    (listener, host) key held. When it holds the key itself, it has the
    port and addresses of the listener, no warning and no problem. When
    another TransportServer holds the key, it does not win over the
    holder, the holder wins over it whenever their (creationTimestamp,
    uid) pairs differ, it carries the warning [listener ... and host ...
    are taken by another resource] as its only warning, and the rebuild
    files the problem [Rejected], not an error, [Listener ... with host
    ... is taken by another resource] under its identity, and returns it
    unless the store held it before. *)
Theorem listener_collision c changes problems c' newListenerHosts newTSConfigs newProblems
    key ts listener :
  storeKeyed c →
  rebuildListenerHosts c = Some (changes, problems, c') →
  listenerOutcome c = Some (newListenerHosts, newTSConfigs, newProblems) →
  transportServers c !! key = Some ts →
  ts_ListenerProtocol ts ≠ TLSPassthroughListenerProtocol →
  listenerOf c ts = Some listener →
  ∃ holder,
    listenerHosts c' !! ts_listenerHostKey ts = Some holder
    ∧ if decide (tsc_TransportServer holder = ts) then
        holder = tsc_setListener listener (NewTransportServerConfiguration ts)
        ∧ newTSConfigs !! key = Some holder
        ∧ listenerProblems c'
            !! getResourceKeyWithKind transportServerKind (ts_ObjectMeta ts) = None
      else
        tsc_Wins (NewTransportServerConfiguration ts) holder = false
        ∧ (orderKey (ts_ObjectMeta ts) ≠ orderKey (ts_ObjectMeta (tsc_TransportServer holder)) →
           tsc_Wins holder (NewTransportServerConfiguration ts) = true)
        ∧ newTSConfigs !! key
          = Some (tsc_AddWarning (listenerTakenWarning (ts_ListenerName ts) (ts_Host ts))
                    (tsc_setListener listener (NewTransportServerConfiguration ts)))
        ∧ ∃ p,
            p = mkProblem (ObjTransportServer ts) false EventReasonRejected
                  ("Listener " +:+ ts_ListenerName ts +:+ " with host "
                   +:+ (if bool_decide (ts_Host ts ≠ "") then ts_Host ts else "empty host")
                   +:+ " is taken by another resource")
            ∧ listenerProblems c'
                !! getResourceKeyWithKind transportServerKind (ts_ObjectMeta ts) = Some p
            ∧ ((∀ old, listenerProblems c
                         !! getResourceKeyWithKind transportServerKind (ts_ObjectMeta ts)
                       = Some old →
                       compareConfigurationProblems p old = false) →
               p ∈ problems).
Proof.
  intros Hkeyed Hc Ho Hts Hproto Hlistener.
  apply rebuildListenerHosts_Some in Hc as (nl & nt & np & ch0 & Ho' & _ & -> & ->).
  rewrite Ho in Ho'. simplify_eq. cbn [listenerHosts listenerProblems set_listenerHosts].
  unfold listenerOutcome in Ho.
  destruct (buildListenerHostsAndTSConfigurations c) as [lb |] eqn:Hb; simplify_eq/=.
  pose proof (buildListenerHostsAndTSConfigurations_claims _ _ Hb) as Hclaims.
  apply buildListenerHostsAndTSConfigurations_inv in Hb as (H1 & H2 & H3).
  assert (∀ k t, lb_newTSConfigs lb !! k = Some t →
                 transportServers c !! k = Some (tsc_TransportServer t)) as Hstored.
  { intros k t Hk. apply H1 in Hk as [Hk _]. by apply elem_of_rangeItems in Hk. }
  specialize (Hclaims key ts). unfold listenerClaim in Hclaims. rewrite Hlistener in Hclaims.
  destruct Hclaims as (a & holder & Ha & Hholder & Hcase);
    [by apply elem_of_rangeItems | done |].
  exists holder. split; [by rewrite lookup_deref, Ha |].
  assert (getResourceKeyWithKind transportServerKind (ts_ObjectMeta ts)
          = transportServerKind +:+ "/" +:+ getResourceKey (ts_ObjectMeta ts)) as HK by done.
  destruct (decide (a = key)) as [-> | Hne].
  - subst holder. cbn. rewrite decide_True by done.
    split; [done |]. split; [done |].
    pose proof (listener_problem_filed c
                  (deref (lb_newTSConfigs lb) (lb_newListenerHosts lb))
                  (lb_newTSConfigs lb) key _ Hkeyed Hstored Hholder) as Hp.
    cbn in Hp. unfold tsc_GetKeyWithKind in Hp. cbn in Hp. rewrite HK, Hp.
    rewrite lookup_deref, Ha. cbn. rewrite Hholder. by rewrite tsc_IsEqual_refl.
  - destruct Hcase as [Hkey Hlost].
    pose proof (Hstored _ _ Hholder) as Hstored_holder.
    assert (getResourceKey (ts_ObjectMeta (tsc_TransportServer holder))
            ≠ getResourceKey (ts_ObjectMeta ts)) as Hkeys.
    { destruct Hkeyed as (_ & _ & _ & HT).
      rewrite <- (HT _ _ Hstored_holder), <- (HT _ _ Hts). done. }
    rewrite decide_False by (intros Heq; apply Hkeys; by rewrite Heq).
    split; [done |]. split.
    { intros Horder. unfold tsc_Wins in *. by apply chooseObjectMetaWinner_total. }
    split; [done |]. eexists. split; [reflexivity |].
    pose proof (listener_problem_filed c
                  (deref (lb_newTSConfigs lb) (lb_newListenerHosts lb))
                  (lb_newTSConfigs lb) key _ Hkeyed Hstored Hkey) as Hp.
    cbn in Hp. unfold tsc_GetKeyWithKind in Hp. cbn in Hp.
    rewrite lookup_deref, Ha in Hp. cbn in Hp. rewrite Hholder in Hp.
    assert (tsc_IsEqual
              (tsc_AddWarning (listenerTakenWarning (ts_ListenerName ts) (ts_Host ts))
                 (tsc_setListener listener (NewTransportServerConfiguration ts))) holder
            = false) as Hneq.
    { unfold tsc_IsEqual. cbn. apply andb_false_iff. left.
      apply not_true_is_false. intros [Hns [Hn _]]%compareObjectMetas_spec.
      apply Hkeys. unfold getResourceKey. by rewrite Hns, Hn. }
    rewrite Hneq in Hp. rewrite HK. split; [exact Hp |].
    intros Hold. apply elem_of_detectChangesInProblems.
    exists (transportServerKind +:+ "/" +:+ getResourceKey (ts_ObjectMeta ts)).
    split; [exact Hp |].
    destruct (listenerProblems c !! _) as [old |] eqn:E; [| by left].
    right. exists old. split; [done |]. by apply Hold.
Qed.

(** ** The valid hosts of an Ingress *)

Lemma validHostsOf_AddWarning w r : validHostsOf (AddWarning w r) = validHostsOf r.
Proof. by destruct r. Qed.

Lemma unmarked_alter w a heap : unmarked heap → unmarked (alter (AddWarning w) a heap).
Proof.
  intros Hu b r Hb. destruct (decide (a = b)) as [-> | Hne].
  - rewrite lookup_alter_eq in Hb. destruct (heap !! b) as [r0 |] eqn:E; simplify_eq/=.
    rewrite validHostsOf_AddWarning. by eapply Hu.
  - rewrite lookup_alter_ne in Hb by done. by eapply Hu.
Qed.

Lemma claimHost_unmarked host a st st' :
  claimHost host a st = Some st' → unmarked (hb_heap st) → unmarked (hb_heap st').
Proof.
  unfold claimHost. intros H Hu.
  destruct (hb_newHosts st !! host) as [holderAddr |]; simplify_eq/=; [| done].
  destruct (hb_heap st !! holderAddr) as [holder |]; simplify_eq/=.
  destruct (hb_heap st !! a) as [resource |]; simplify_eq/=.
  destruct (negb (Wins holder resource)); simplify_eq/=; by apply unmarked_alter.
Qed.

Lemma claimHosts_unmarked {A} (hostOf : A → string) (l : list A) a st st' :
  forM (λ x, claimHost (hostOf x) a) l st = Some st' →
  unmarked (hb_heap st) → unmarked (hb_heap st').
Proof.
  revert st. induction l as [| x l IH]; intros st Hrun Hu; simpl in Hrun; [by simplify_eq |].
  destruct (claimHost (hostOf x) a st) as [st1 |] eqn:Hc; simplify_eq/=.
  eapply IH; [done |]. by eapply claimHost_unmarked.
Qed.

Lemma register_unmarked a r st :
  validHostsOf r = ∅ → unmarked (hb_heap st) → unmarked (hb_heap (register a r st)).
Proof.
  intros Hr Hu b r' Hb. unfold register in Hb. cbn in Hb.
  destruct (decide (a = b)) as [-> | Hne].
  - rewrite lookup_insert_eq in Hb. by simplify_eq.
  - rewrite lookup_insert_ne in Hb by done. by eapply Hu.
Qed.

Lemma ingressStep_unmarked c kv st st' :
  ingressStep c kv st = Some st' → unmarked (hb_heap st) → unmarked (hb_heap st').
Proof.
  destruct kv as [k ing]. unfold ingressStep. intros Hstep Hu.
  destruct (isMinion ing); [by simplify_eq |].
  destruct (if isChallengeIngress c ing then _ else _) as [[vsr |] |];
    cbn [mbind option_bind] in Hstep; [by simplify_eq | | done].
  destruct (isMaster ing).
  - destruct (head (ing_Rules ing)) as [rule |]; cbn [mbind option_bind] in Hstep; [| done].
    destruct (buildMinionConfigs c (rule_Host rule)) as [[minions cw] |];
      cbn [mbind option_bind] in Hstep; [| done].
    eapply claimHosts_unmarked; [done |]. by apply register_unmarked.
  - cbn [mbind option_bind] in Hstep.
    eapply claimHosts_unmarked; [done |]. by apply register_unmarked.
Qed.

Lemma virtualServerStep_unmarked c kv st st' :
  virtualServerStep c kv st = Some st' → unmarked (hb_heap st) → unmarked (hb_heap st').
Proof.
  destruct kv as [k vs]. unfold virtualServerStep. intros Hstep Hu.
  destruct (buildVirtualServerRoutes c vs) as [vsrs warnings].
  eapply claimHost_unmarked; [done |]. by apply register_unmarked.
Qed.

Lemma transportServerStep_unmarked kv st st' :
  transportServerStep kv st = Some st' → unmarked (hb_heap st) → unmarked (hb_heap st').
Proof.
  destruct kv as [k ts]. unfold transportServerStep. intros Hstep Hu.
  destruct (_ && _); [by simplify_eq |].
  eapply claimHost_unmarked; [done |]. by apply register_unmarked.
Qed.

Lemma forM_preserves {A S} (f : A → S → option S) (P : S → Prop) l s s' :
  (∀ x t t', f x t = Some t' → P t → P t') →
  forM f l s = Some s' → P s → P s'.
Proof.
  intros Hf. revert s. induction l as [| x l IH]; intros s Hrun Hs; simpl in Hrun.
  - by simplify_eq.
  - destruct (f x s) as [t |] eqn:Hx; simplify_eq/=. eapply IH; [done |]. by eapply Hf.
Qed.

Lemma buildHostsAndResources_unmarked c st :
  buildHostsAndResources c = Some st → unmarked (hb_heap st).
Proof.
  unfold buildHostsAndResources. intros Hb.
  destruct (forM (ingressStep c) _ _) as [st1 |] eqn:H1; simplify_eq/=.
  destruct (forM (virtualServerStep c) _ _) as [st2 |] eqn:H2; simplify_eq/=.
  assert (unmarked (hb_heap st1)) as Hu1.
  { eapply (forM_preserves _ (λ s, unmarked (hb_heap s))); [| exact H1 |].
    - intros x t t'. apply ingressStep_unmarked.
    - intros a r Ha. unfold emptyHostBuild in Ha. cbn in Ha. by rewrite lookup_empty in Ha. }
  assert (unmarked (hb_heap st2)) as Hu2.
  { eapply (forM_preserves _ (λ s, unmarked (hb_heap s))); [| exact H2 | done].
    intros x t t'. apply virtualServerStep_unmarked. }
  destruct (isTLSPassthroughEnabled c); [| by simplify_eq].
  eapply (forM_preserves _ (λ s, unmarked (hb_heap s))); [| exact Hb | done].
  intros x t t'. apply transportServerStep_unmarked.
Qed.

Lemma holderId_evolves heap heap' hosts h :
  heapEvolves heap heap' → holderId heap' hosts h = holderId heap hosts h.
Proof.
  intros He. unfold holderId, lookupRes.
  destruct (hosts !! h) as [x |]; cbn; [| done].
  specialize (He x). inversion He as [r r' Hev |]; cbn; [| done].
  f_equal. by apply evolves_GetKeyWithKind.
Qed.

(** The inner loop of [updateActiveHostsForIngresses]: the marks that the
    Ingress at [a] gets for its rules. *)
Lemma markHosts_spec hosts a K rules heap0 heap1 heap2 ic1 :
  heapEvolves heap0 heap1 →
  heap1 !! a = Some (IngressRes ic1) →
  forM (λ rule heap,
          res ← lookupRes heap hosts (rule_Host rule);
          Some (alter (ic_setValidHost (rule_Host rule)
                         (bool_decide (GetKeyWithKind res = K))) a heap))
       rules heap1 = Some heap2 →
  heapEvolves heap1 heap2
  ∧ (∀ b, b ≠ a → heap2 !! b = heap1 !! b)
  ∧ ∃ ic2, heap2 !! a = Some (IngressRes ic2)
      ∧ ic_Ingress ic2 = ic_Ingress ic1
      ∧ ∀ h, ic_ValidHosts ic2 !! h
             = if decide (h ∈ rule_Host <$> rules)
               then (λ Kh, bool_decide (Kh = K)) <$> holderId heap0 hosts h
               else ic_ValidHosts ic1 !! h.
Proof.
  revert heap1 ic1. induction rules as [| rule rules IH]; intros heap1 ic1 He Ha Hrun;
    simpl in Hrun.
  { simplify_eq. split; [apply heapEvolves_refl |]. split; [done |].
    exists ic1. split; [done |]. split; [done |]. intros h.
    rewrite decide_False; [done |]. by intros ?%elem_of_nil. }
  destruct (lookupRes heap1 hosts (rule_Host rule)) as [res |] eqn:Hres;
    cbn [mbind option_bind] in Hrun; [| done].
  set (b := bool_decide (GetKeyWithKind res = K)) in *.
  set (heap1' := alter (ic_setValidHost (rule_Host rule) b) a heap1) in *.
  assert (heapEvolves heap1 heap1') as He1.
  { apply heapEvolves_alter. intros r. apply evolves_ic_setValidHost. }
  destruct (IH heap1'
              {| ic_Ingress := ic_Ingress ic1; ic_IsMaster := ic_IsMaster ic1;
                 ic_Minions := ic_Minions ic1;
                 ic_ValidHosts := <[rule_Host rule := b]> (ic_ValidHosts ic1);
                 ic_Warnings := ic_Warnings ic1;
                 ic_ChildWarnings := ic_ChildWarnings ic1 |})
    as (He2 & Hother & ic2 & Hic2 & Hing & Hmarks).
  - by eapply heapEvolves_trans.
  - unfold heap1'. by rewrite lookup_alter_eq, Ha.
  - exact Hrun.
  - split; [by eapply heapEvolves_trans |]. split.
    { intros b' Hne. rewrite Hother by done. unfold heap1'. by rewrite lookup_alter_ne. }
    exists ic2. split; [done |]. split; [done |]. intros h. rewrite Hmarks. cbn [ic_ValidHosts].
    rewrite fmap_cons.
    destruct (decide (h ∈ rule_Host <$> rules)) as [Hin | Hnin].
    + rewrite decide_True; [done |]. by right.
    + destruct (decide (h = rule_Host rule)) as [-> | Hne].
      * rewrite decide_True by left. rewrite lookup_insert_eq.
        rewrite <- (holderId_evolves _ _ hosts _ He). unfold holderId. by rewrite Hres.
      * rewrite lookup_insert_ne by done.
        rewrite decide_False; [done |]. by intros [? | ?]%elem_of_cons.
Qed.

Lemma updateActiveHostsForIngresses_marks hosts resources heap heap' K a ic :
  (∀ K a, resources !! K = Some a → ∃ r, heap !! a = Some r ∧ GetKeyWithKind r = K) →
  unmarked heap →
  updateActiveHostsForIngresses hosts resources heap = Some heap' →
  resources !! K = Some a → heap' !! a = Some (IngressRes ic) →
  ∀ h, ic_ValidHosts ic !! h
       = if decide (h ∈ rule_Host <$> ing_Rules (ic_Ingress ic))
         then (λ Kh, bool_decide (Kh = K)) <$> holderId heap hosts h
         else None.
Proof.
  intros Hreg Hu Hrun HK Ha.
  assert (∀ K1 K2 a', resources !! K1 = Some a' → resources !! K2 = Some a' → K1 = K2)
    as Hinj.
  { intros K1 K2 a' H1 H2. destruct (Hreg _ _ H1) as (r1 & Hr1 & <-).
    destruct (Hreg _ _ H2) as (r2 & Hr2 & <-). congruence. }
  revert Hrun ic Ha. unfold updateActiveHostsForIngresses.
  intros Hrun.
  enough (heapEvolves heap heap'
          ∧ ((K, a) ∈ sortedItems resources →
             ∀ ic, heap' !! a = Some (IngressRes ic) →
               ∀ h, ic_ValidHosts ic !! h
                    = if decide (h ∈ rule_Host <$> ing_Rules (ic_Ingress ic))
                      then (λ Kh, bool_decide (Kh = K)) <$> holderId heap hosts h
                      else None)
          ∧ ((K, a) ∉ sortedItems resources →
             ∀ r, heap' !! a = Some r → validHostsOf r = ∅)) as (_ & H & _).
  { apply H. by apply elem_of_sortedItems. }
  revert Hrun.
  apply (forM_ind _ (λ pre cur,
    heapEvolves heap cur
    ∧ ((K, a) ∈ pre →
       ∀ ic, cur !! a = Some (IngressRes ic) →
         ∀ h, ic_ValidHosts ic !! h
              = if decide (h ∈ rule_Host <$> ing_Rules (ic_Ingress ic))
                then (λ Kh, bool_decide (Kh = K)) <$> holderId heap hosts h
                else None)
    ∧ ((K, a) ∉ pre → ∀ r, cur !! a = Some r → validHostsOf r = ∅))).
  { split; [apply heapEvolves_refl |]. split; [by intros ?%elem_of_nil |].
    intros _ r Hr. by eapply Hu. }
  intros pre [K' a'] post cur cur' Hl (He & Hdone & Htodo) Hstep. cbn [fst snd] in Hstep.
  assert (resources !! K' = Some a') as HK'.
  { apply elem_of_sortedItems. rewrite Hl. apply elem_of_app. right. left. }
  assert ((K, a) ∈ pre → K ≠ K') as Hfresh.
  { intros Hin ->. pose proof (NoDup_sortedItems_fst resources) as Hnd. rewrite Hl in Hnd.
    rewrite fmap_app, fmap_cons in Hnd. apply NoDup_app in Hnd as (_ & Hnd & _).
    eapply Hnd; [| left]. apply list_elem_of_fmap. by exists (K', a). }
  destruct (cur !! a') as [r' |] eqn:Hr'; cbn [mbind option_bind] in Hstep; [| done].
  assert (GetKeyWithKind r' = K') as Hid.
  { destruct (Hreg _ _ HK') as (r0 & Hr0 & <-).
    destruct (heapEvolves_Some _ _ _ _ He Hr0) as (r1 & Hr1 & Hev).
    rewrite Hr' in Hr1. injection Hr1 as <-. by apply evolves_GetKeyWithKind. }
  destruct r' as [ingConfig | vsc | tsc].
  2,3: simplify_eq; split; [done |]; split;
       [ intros [Hin | Hin%list_elem_of_singleton]%elem_of_app;
           [by apply Hdone | simplify_eq; intros ic; congruence]
       | intros Hnin; apply Htodo; intros ?; apply Hnin, elem_of_app; by left ].
  destruct (markHosts_spec _ _ _ _ heap _ _ _ He Hr' Hstep)
    as (He' & Hother & ic2 & Hic2 & Hing & Hmarks).
  split; [by eapply heapEvolves_trans |]. split.
  - intros [Hin | Hin%list_elem_of_singleton]%elem_of_app.
    + assert (a ≠ a') as Hne.
      { intros ->. apply (Hfresh Hin). by eapply Hinj. }
      rewrite Hother by done. by apply Hdone.
    + injection Hin as -> ->. intros ic Hic. rewrite Hic2 in Hic. injection Hic as <-.
      intros h. rewrite Hmarks, Hing, Hid.
      destruct (decide _); [done |].
      assert ((K', a') ∉ pre) as Hnin.
      { intros Hin. by apply (Hfresh Hin). }
      rewrite (Htodo Hnin _ Hr' : ic_ValidHosts ingConfig = ∅). by rewrite lookup_empty.
  - intros Hnin. assert (a ≠ a') as Hne.
    { intros ->. apply Hnin. apply elem_of_app. right. apply list_elem_of_singleton.
      f_equal. by eapply Hinj. }
    rewrite Hother by done. apply Htodo. intros ?. apply Hnin, elem_of_app. by left.
Qed.

Lemma addProblemsForResourcesWithoutActiveHost_Ingress hosts heap resources p K a impl :
  (∀ K a, resources !! K = Some a → ∃ r, heap !! a = Some r ∧ GetKeyWithKind r = K) →
  addProblemsForResourcesWithoutActiveHost hosts heap resources ∅ = Some p →
  resources !! K = Some a → heap !! a = Some (IngressRes impl) →
  p !! K = if existsb (λ hv : string * bool, hv.2) (map_to_list (ic_ValidHosts impl))
           then None
           else Some (mkProblem (ObjIngress (ic_Ingress impl)) false EventReasonRejected
                        "All hosts are taken by other resources").
Proof.
  intros Hreg Hp HK Ha.
  assert (GetKeyWithKind (IngressRes impl) = K) as HKey.
  { destruct (Hreg _ _ HK) as (r & Hr & <-). congruence. }
  unfold addProblemsForResourcesWithoutActiveHost in Hp.
  match type of Hp with
  | forM ?f ?l ∅ = _ =>
      destruct (forM_own_key f fst l ∅ p (K, a)) as (m & m' & Hf & Hm & Hm')
  end.
  - apply NoDup_sortedItems_fst.
  - by apply elem_of_sortedItems.
  - intros [K' a'] m m' k Hin Hf Hk. cbn [fst snd] in *.
    apply elem_of_sortedItems in Hin. destruct (Hreg _ _ Hin) as (r' & Hr' & HK').
    rewrite Hr' in Hf. cbn [mbind option_bind] in Hf.
    destruct r' as [ic | vsc | tsc].
    + case_match; simplify_eq; [| done]. by rewrite lookup_insert_ne.
    + destruct (lookupRes heap hosts (vs_Host (vsc_VirtualServer vsc))) as [res' |];
        cbn [mbind option_bind] in Hf; [| done].
      case_bool_decide; simplify_eq; [| done]. by rewrite lookup_insert_ne.
    + destruct (lookupRes heap hosts (ts_Host (tsc_TransportServer tsc))) as [res' |];
        cbn [mbind option_bind] in Hf; [| done].
      case_bool_decide; simplify_eq; [| done]. by rewrite lookup_insert_ne.
  - exact Hp.
  - cbn [fst snd] in *. rewrite Hm'. rewrite Ha in Hf. cbn [mbind option_bind] in Hf.
    destruct (existsb _ _); cbn [negb] in Hf; simplify_eq.
    + by rewrite Hm.
    + by rewrite lookup_insert_eq.
Qed.

Lemma addProblemsForOrphanMinions_nonminion c hosts heap p p' K :
  addProblemsForOrphanMinions c hosts heap p = Some p' →
  (∀ key ing, ingresses c !! key = Some ing → isMinion ing = true →
              K ≠ getResourceKeyWithKind ingressKind (ing_ObjectMeta ing)) →
  p' !! K = p !! K.
Proof.
  intros Hp HK. revert Hp. unfold addProblemsForOrphanMinions.
  apply (forM_ind _ (λ _ q, q !! K = p !! K)); [done |].
  intros pre [k ing] post t t' Hl IH Hstep. cbn [fst snd] in Hstep.
  assert (ingresses c !! k = Some ing) as Hin.
  { apply elem_of_sortedItems. rewrite Hl. apply elem_of_app. right. left. }
  destruct (isMinion ing) eqn:Hminion; cbn [negb] in Hstep; [| by simplify_eq].
  destruct (head (ing_Rules ing)) as [rule |]; cbn [mbind option_bind] in Hstep; [| done].
  rewrite <- IH.
  case_match; simplify_eq; [| done].
  rewrite lookup_insert_ne; [done |]. apply not_eq_sym. by eapply HK.
Qed.

Lemma stripWarnings_IngressRes r ic :
  stripWarnings r = stripWarnings (IngressRes ic) →
  ∃ ic1, r = IngressRes ic1 ∧ ic_Ingress ic1 = ic_Ingress ic
         ∧ ic_ValidHosts ic1 = ic_ValidHosts ic.
Proof. destruct r as [ic1 | |]; intros H; simplify_eq/=. eauto. Qed.

(** X19: after a host rebuild of a store that files every resource under
    its own key, the valid hosts of a derived Ingress are marked for the
    hosts of its rules and for nothing else, and a host is marked true
    exactly when the Ingress holds it; the Ingress then is the holder. The
    problem [Rejected], not an error, [All hosts are taken by other
    resources] is filed under its identity exactly when it holds none of
    the hosts of its rules, as is the case when it has no rule. *)
Theorem ingress_valid_hosts c changes problems c' detected latest newProblems finalHosts
    K ic :
  storeKeyed c →
  rebuildHosts c = Some (changes, problems, c') →
  hostOutcome c = Some (detected, latest, newProblems, finalHosts) →
  latest !! K = Some (IngressRes ic) →
  (∀ h, ic_ValidHosts ic !! h
        = if decide (h ∈ rule_Host <$> ing_Rules (ic_Ingress ic))
          then Some (bool_decide (GetKeyWithKind <$> hosts c' !! h = Some K))
          else None)
  ∧ (∀ h, ic_ValidHosts ic !! h = Some true → hosts c' !! h = Some (IngressRes ic))
  ∧ hostProblems c' !! K
    = if existsb (λ h, bool_decide (GetKeyWithKind <$> hosts c' !! h = Some K))
                 (rule_Host <$> ing_Rules (ic_Ingress ic))
      then None
      else Some (mkProblem (ObjIngress (ic_Ingress ic)) false EventReasonRejected
                   "All hosts are taken by other resources").
Proof.
  intros Hkeyed Hr Ho Hl.
  apply rebuildHosts_Some in Hr as (d0 & l0 & np0 & fh0 & ch0 & Ho' & _ & _ & ->).
  rewrite Ho in Ho'. simplify_eq. cbn [hosts hostProblems set_hosts].
  pose proof (hostOutcome_latest_keyed _ _ _ _ _ _ _ Ho Hl) as HK.
  assert (∀ h, h ∈ rule_Host <$> ing_Rules (ic_Ingress ic) →
               ∃ winner, fh0 !! h = Some winner) as Hheld.
  { intros h Hh. destruct (hostOutcome_claims _ _ _ _ _ _ _ h Ho Hl Hh) as (w & Hw & _).
    eauto. }
  apply hostOutcome_Some in Ho
    as (st & heap1 & heap2 & p1 & p2 & Hb & Hupd & Hp1 & Hp2 & -> & Hwarn & -> & -> & ->
        & He1 & He2).
  pose proof (buildHostsAndResources_unmarked _ _ Hb) as Hu.
  pose proof (heapEvolves_trans _ _ _ He1 He2) as He.
  pose proof (λ a r, built_key c st a r Hkeyed Hb) as Hbuilt.
  apply buildHostsAndResources_inv in Hb as (Hreg & _ & Hfrom & _).
  rewrite lookup_deref in Hl.
  destruct (hb_newResources st !! K) as [a |] eqn:Ha; simplify_eq/=.
  pose proof (addWarnings_stripWarnings _ _ _ _ _ Hwarn) as Hstrip.
  apply (f_equal (λ m, m !! a)) in Hstrip. rewrite !lookup_fmap, Hl in Hstrip.
  destruct (heap1 !! a) as [r1 |] eqn:Hr1; simplify_eq/=.
  symmetry in Hstrip.
  apply (stripWarnings_IngressRes r1 ic) in Hstrip as (ic1 & -> & Hing & Hvalid).
  pose proof (updateActiveHostsForIngresses_marks _ _ _ _ _ _ _ Hreg Hu Hupd Ha Hr1)
    as Hmarks.
  rewrite Hing, Hvalid in Hmarks.
  assert (∀ h, GetKeyWithKind <$> deref heap2 (hb_newHosts st) !! h
               = holderId (hb_heap st) (hb_newHosts st) h) as Hid.
  { intros h. rewrite <- (holderId_evolves _ _ _ _ He). unfold holderId, lookupRes.
    by rewrite lookup_deref. }
  assert (∀ h, ic_ValidHosts ic !! h
               = if decide (h ∈ rule_Host <$> ing_Rules (ic_Ingress ic))
                 then Some (bool_decide
                              (GetKeyWithKind <$> deref heap2 (hb_newHosts st) !! h
                               = Some (GetKeyWithKind (IngressRes ic))))
                 else None) as Hspec.
  { intros h. rewrite Hmarks. destruct (decide _) as [Hin | Hnin]; [| done].
    rewrite Hid. destruct (Hheld _ Hin) as (w & Hw).
    specialize (Hid h). rewrite Hw in Hid. cbn in Hid. rewrite <- Hid. cbn.
    f_equal. apply bool_decide_ext. split; congruence. }
  split; [exact Hspec |]. split.
  - (* a host marked true is held by the Ingress itself *)
    intros h Hh. rewrite Hspec in Hh. destruct (decide _); [| done].
    injection Hh as Hh. apply bool_decide_eq_true in Hh.
    rewrite lookup_deref in Hh |- *.
    destruct (hb_newHosts st !! h) as [x |] eqn:Hx; simplify_eq/=.
    destruct (heap2 !! x) as [w |] eqn:Hw; simplify_eq/=.
    destruct (heapEvolves_Some_inv _ _ _ _ He Hw) as (w0 & Hw0 & Hevw).
    destruct (heapEvolves_Some_inv _ _ _ _ He Hl) as (r0 & Hr0 & Hevr).
    pose proof (Hbuilt _ _ Hw0) as Hkw. pose proof (Hbuilt _ _ Hr0) as Hkr.
    rewrite <- (evolves_GetKeyWithKind _ _ Hevw) in Hkw.
    rewrite <- (evolves_GetKeyWithKind _ _ Hevr) in Hkr.
    rewrite Hh, Hkr in Hkw. apply kindName_inj in Hkw as [Hk1 Hk2].
    assert (x = a) as -> by (destruct x, a; cbn in *; congruence).
    rewrite Hw in Hl. by rewrite Hl.
  - (* the problem *)
    rewrite addProblemsForOrphanOrIgnoredVsrs_other
      by (intros meta; apply not_eq_sym, kind_VirtualServerRoute_not_Resource).
    rewrite (addProblemsForOrphanMinions_nonminion _ _ _ _ _ _ Hp2).
    2:{ intros key ing Hstored Hminion Heq.
        destruct (heapEvolves_Some_inv _ _ _ _ He Hl) as (r0 & Hr0 & Hevr).
        apply evolves_IngressRes_inv in Hevr as (ic0 & -> & Hing0).
        destruct (Hfrom _ _ Hr0) as [Hmade _]. unfold madeFrom in Hmade.
        pose proof (Hbuilt _ _ Hr0) as Hkr.
        destruct a as [[] k]; cbn in Hmade, Hkr;
          [| destruct Hmade as (? & ? & _ & ? & _); done
           | destruct Hmade as (? & ? & _ & _ & ? & _); done].
        destruct Hmade as (ing0 & ic0' & Hin0 & [Hnotminion _] & Heq0 & Hic0).
        injection Heq0 as <-. apply elem_of_sortedItems in Hin0.
        destruct Hkeyed as (HI & _).
        unfold GetKeyWithKind in Heq. rewrite <- Hing0, Hic0 in Heq.
        rewrite getResourceKeyWithKind_key in Heq. apply app_inj_kind in Heq.
        rewrite <- (HI _ _ Hin0), <- (HI _ _ Hstored) in Heq. subst key. congruence. }
    assert (∀ K' a', hb_newResources st !! K' = Some a' →
                     ∃ r, heap1 !! a' = Some r ∧ GetKeyWithKind r = K') as Hreg1.
    { intros K' a' HK'. destruct (Hreg _ _ HK') as (r & Hr & <-).
      destruct (heapEvolves_Some _ _ _ _ He1 Hr) as (r' & Hr' & Hev').
      exists r'. split; [done |]. by apply evolves_GetKeyWithKind. }
    rewrite (addProblemsForResourcesWithoutActiveHost_Ingress _ _ _ _ _ _ _
               Hreg1 Hp1 Ha Hr1).
    rewrite Hing, Hvalid.
    match goal with
    | |- (if ?b1 then _ else _) = (if ?b2 then _ else _) =>
        assert (b1 = b2) as ->; [| done]
    end.
    apply eq_true_iff_eq. rewrite !existsb_exists. split.
    + intros ([h b] & Hin & Hb). cbn in Hb. subst b.
      apply list_elem_of_In, elem_of_map_to_list in Hin.
      rewrite Hspec in Hin. destruct (decide _) as [Hrule |]; [| done].
      exists h. split; [by apply list_elem_of_In |]. by injection Hin.
    + intros (h & Hin & Hh). apply list_elem_of_In in Hin.
      exists (h, true). split; [| done].
      apply list_elem_of_In, elem_of_map_to_list. rewrite Hspec.
      rewrite decide_True by done. by rewrite Hh.
Qed.

(** ** The listener warnings of a VirtualServer *)

Lemma addWarnings_holder c hosts resources heap heap' K a vsc listener w :
  addWarningsForVirtualServersWithMissConfiguredListeners c hosts resources heap = Some heap' →
  resources !! K = Some a → heap !! a = Some (VirtualServerRes vsc) →
  vs_Listener (vsc_VirtualServer vsc) = Some listener →
  listenerWarning c listener = Some w →
  ∃ x, hosts !! vs_Host (vsc_VirtualServer vsc) = Some x
       ∧ ∀ r, heap' !! x = Some r → w ∈ GetWarnings r.
Proof.
  intros Hrun HK Ha Hlistener Hw.
  enough (heapEvolves heap heap'
          ∧ ((K, a) ∈ rangeItems resources →
             ∃ x, hosts !! vs_Host (vsc_VirtualServer vsc) = Some x
                  ∧ ∀ r, heap' !! x = Some r → w ∈ GetWarnings r)) as [_ H].
  { apply H. by apply elem_of_rangeItems. }
  revert Hrun. unfold addWarningsForVirtualServersWithMissConfiguredListeners.
  apply (forM_ind _ (λ pre cur,
    heapEvolves heap cur
    ∧ ((K, a) ∈ pre →
       ∃ x, hosts !! vs_Host (vsc_VirtualServer vsc) = Some x
            ∧ ∀ r, cur !! x = Some r → w ∈ GetWarnings r))).
  { split; [apply heapEvolves_refl | by intros ?%elem_of_nil]. }
  intros pre [K' a'] post cur cur' Hl [He Hdone] Hstep. cbn [fst snd] in Hstep.
  assert (heapEvolves cur cur'
          ∧ ((K', a') = (K, a) →
             ∃ x, hosts !! vs_Host (vsc_VirtualServer vsc) = Some x
                  ∧ ∀ r, cur' !! x = Some r → w ∈ GetWarnings r)) as [He' Hnew].
  { destruct (cur !! a') as [r' |] eqn:Hr'; cbn [mbind option_bind] in Hstep; [| done].
    destruct r' as [ic | vsc' | tsc].
    1,3: simplify_eq; split; [apply heapEvolves_refl |]; intros [= -> ->];
         destruct (heapEvolves_Some _ _ _ _ He Ha) as (r1 & Hr1 & Hev);
         rewrite Hr' in Hr1; injection Hr1 as <-; by destruct Hev as [? _].
    destruct (vs_Listener (vsc_VirtualServer vsc')) as [listener' |] eqn:Hl'.
    2:{ simplify_eq. split; [apply heapEvolves_refl |]. intros [= -> ->].
        destruct (heapEvolves_Some _ _ _ _ He Ha) as (r1 & Hr1 & Hev).
        rewrite Hr' in Hr1. injection Hr1 as <-.
        apply evolves_VirtualServerRes in Hev as (vsc0 & [= <-] & Hvs). congruence. }
    destruct (listenerWarning c listener') as [w' |] eqn:Hw'.
    2:{ simplify_eq. split; [apply heapEvolves_refl |]. intros [= -> ->].
        destruct (heapEvolves_Some _ _ _ _ He Ha) as (r1 & Hr1 & Hev).
        rewrite Hr' in Hr1. injection Hr1 as <-.
        apply evolves_VirtualServerRes in Hev as (vsc0 & [= <-] & Hvs). congruence. }
    destruct (hosts !! vs_Host (vsc_VirtualServer vsc')) as [holder |] eqn:Hholder;
      cbn [mbind option_bind] in Hstep; [| done].
    injection Hstep as <-. split.
    { apply heapEvolves_alter. intros r. apply evolves_AddWarning. }
    intros [= -> ->].
    destruct (heapEvolves_Some _ _ _ _ He Ha) as (r1 & Hr1 & Hev).
    rewrite Hr' in Hr1. injection Hr1 as <-.
    apply evolves_VirtualServerRes in Hev as (vsc0 & [= <-] & Hvs).
    rewrite <- Hvs in Hl', Hholder. rewrite Hlistener in Hl'. injection Hl' as <-.
    rewrite Hw in Hw'. injection Hw' as <-.
    exists holder. split; [done |]. intros r. rewrite lookup_alter_eq.
    destruct (cur !! holder) as [r0 |]; intros [= <-].
    rewrite GetWarnings_AddWarning. apply elem_of_app. right. left. }
  split; [by eapply heapEvolves_trans |].
  intros [Hin | Hin%list_elem_of_singleton]%elem_of_app; [| by apply Hnew].
  destruct (Hdone Hin) as (x & Hx & Hwarned). exists x. split; [done |].
  intros r' Hr'. destruct (heapEvolves_Some_inv _ _ _ _ He' Hr') as (r & Hr & Hev).
  eapply evolves_warning; [done |]. by apply Hwarned.
Qed.

(** X20: the warning that the listener block of a VirtualServer earns
    ([Listeners defined, but no GlobalConfiguration is deployed], a
    listener used in the wrong block, a listener that is not defined) is
    carried, after a host rebuild, by the holder of the host of the
    VirtualServer, whether or not the VirtualServer is that holder. *)
Theorem listener_warning_on_holder c changes problems c' detected latest newProblems
    finalHosts K vsc listener w :
  rebuildHosts c = Some (changes, problems, c') →
  hostOutcome c = Some (detected, latest, newProblems, finalHosts) →
  latest !! K = Some (VirtualServerRes vsc) →
  vs_Listener (vsc_VirtualServer vsc) = Some listener →
  listenerWarning c listener = Some w →
  ∃ holder,
    hosts c' !! vs_Host (vsc_VirtualServer vsc) = Some holder
    ∧ w ∈ GetWarnings holder.
Proof.
  intros Hr Ho Hl Hlistener Hw.
  apply rebuildHosts_Some in Hr as (d0 & l0 & np0 & fh0 & ch0 & Ho' & _ & _ & ->).
  rewrite Ho in Ho'. simplify_eq. cbn [hosts set_hosts].
  destruct (hostOutcome_claims _ _ _ _ _ _ _ (vs_Host (vsc_VirtualServer vsc)) Ho Hl)
    as (holder & Hholder & _); [by left |].
  exists holder. split; [done |].
  apply hostOutcome_Some in Ho
    as (st & heap1 & heap2 & p1 & p2 & Hb & _ & _ & _ & _ & Hwarn & _ & -> & -> & He1 & He2).
  rewrite lookup_deref in Hl, Hholder.
  destruct (hb_newResources st !! K) as [a |] eqn:Ha; simplify_eq/=.
  destruct (heapEvolves_Some_inv _ _ _ _ He2 Hl) as (r1 & Hr1 & Hev).
  apply evolves_VirtualServerRes in Hev as (vsc1 & -> & Hvs).
  rewrite <- Hvs in Hlistener, Hholder.
  destruct (addWarnings_holder _ _ _ _ _ _ _ _ _ _ Hwarn Ha Hr1 Hlistener Hw)
    as (x & Hx & Hwarned).
  rewrite Hx in Hholder. cbn in Hholder. by apply Hwarned.
Qed.

(** ** The rebuilds return *)

Lemma forM_total {A S} (f : A → S → option S) (P : list A → S → Prop) l s :
  P [] s →
  (∀ pre x post t, l = pre ++ x :: post → P pre t →
                   ∃ t', f x t = Some t' ∧ P (pre ++ [x]) t') →
  ∃ s', forM f l s = Some s' ∧ P l s'.
Proof.
  intros H0 Hstep.
  assert (∀ pre rest t, l = pre ++ rest → P pre t →
                        ∃ s', forM f rest t = Some s' ∧ P l s') as Hgen.
  { intros pre rest. revert pre. induction rest as [| x rest IH]; intros pre t Hl Hp.
    - exists t. split; [done |]. by rewrite Hl, app_nil_r.
    - destruct (Hstep pre x rest t Hl Hp) as (t' & Hf & Hp'). cbn. rewrite Hf. cbn.
      apply (IH (pre ++ [x])); [by rewrite <- app_assoc | done]. }
  by apply (Hgen [] l s).
Qed.

Lemma listenerStep_returns c pre k ts lb :
  k ∉ pre.*1 → listenerBuildInv c pre lb → is_Some (listenerStep c (k, ts) lb).
Proof.
  intros Hfresh (H1 & H2 & H3). unfold listenerStep.
  case_bool_decide; [done |].
  destruct (globalConfiguration c) as [gc |]; [| done].
  destruct (findListener ts (gc_Listeners gc)) as [listener |]; [| done].
  destruct (lb_newListenerHosts lb !! _) as [holderKey |] eqn:Hholder; [| done].
  destruct (H3 _ _ Hholder) as (tsc & _ & _ & Htsc & _).
  assert (holderKey ≠ k) as Hne.
  { intros ->. apply Hfresh. apply H1 in Htsc as [Hin _].
    apply list_elem_of_fmap. by exists (k, tsc_TransportServer tsc). }
  rewrite insert_insert_eq, lookup_insert_ne, Htsc by done. cbn.
  by destruct (negb _).
Qed.

Lemma buildListenerHostsAndTSConfigurations_returns c :
  is_Some (buildListenerHostsAndTSConfigurations c).
Proof.
  unfold buildListenerHostsAndTSConfigurations.
  destruct (forM_total (listenerStep c) (listenerBuildInv c)
              (rangeItems (transportServers c))
              {| lb_newListenerHosts := ∅; lb_newTSConfigs := ∅ |}) as (lb & -> & _);
    [| | done].
  - split; [| split]; simpl; intros *; try by rewrite lookup_empty.
    intros Hin. by apply elem_of_nil in Hin.
  - intros pre [k ts] post t Hl Hinv.
    assert (k ∉ pre.*1) as Hfresh.
    { pose proof (NoDup_rangeItems_fst (transportServers c)) as Hnd.
      rewrite Hl, fmap_app, fmap_cons in Hnd.
      apply NoDup_app in Hnd as (_ & Hnd & _). intros Hin. eapply Hnd; [done |]. left. }
    destruct (listenerStep_returns c pre k ts t Hfresh Hinv) as [t' Ht'].
    exists t'. split; [done |]. by eapply listenerStep_inv.
Qed.

Lemma updatedChange_returns {K} `{Countable K} (oldM newM : gmap K Resource) h :
  is_Some (oldM !! h) → is_Some (newM !! h) → is_Some (updatedChange oldM newM h).
Proof. intros [o Ho] [n Hn]. unfold updatedChange. by rewrite Ho, Hn. Qed.

Lemma createResourceChangesForListeners_returns oldListeners newListeners :
  let '(removed, updated, added) := detectChangesInListenerHosts oldListeners newListeners in
  is_Some (createResourceChangesForListeners removed updated added oldListeners newListeners).
Proof.
  unfold detectChangesInListenerHosts, createResourceChangesForListeners.
  match goal with
  | |- is_Some (?a ≫= _) => assert (is_Some a) as [removedChanges ->]
  end.
  { apply mapM_is_Some, Forall_forall. intros l [Hnone Hold%elem_of_getSortedListenerHostKeys]%list_elem_of_filter.
    cbn. rewrite lookup_fmap. destruct Hold as [o ->]. done. }
  cbn [mbind option_bind].
  match goal with
  | |- is_Some (?a ≫= _) => assert (is_Some a) as [updated ->]
  end.
  { apply mapM_is_Some, Forall_forall. intros l (l' & Hin & Hnew)%list_elem_of_bind.
    apply elem_of_getSortedListenerHostKeys in Hnew as [n Hn]. rewrite Hn in Hin.
    destruct (oldListeners !! l') as [o |] eqn:Ho; [| by apply elem_of_nil in Hin].
    assert (l = l') as ->.
    { destruct (negb _); [by apply list_elem_of_singleton in Hin | by apply elem_of_nil in Hin]. }
    cbn. apply updatedChange_returns; rewrite lookup_fmap; [by rewrite Ho | by rewrite Hn]. }
  cbn [mbind option_bind].
  match goal with
  | |- is_Some (?a ≫= _) => assert (is_Some a) as [addedChanges ->]
  end.
  { apply mapM_is_Some, Forall_forall. intros l [Hnone Hnew%elem_of_getSortedListenerHostKeys]%list_elem_of_filter.
    cbn. rewrite lookup_fmap. destruct Hnew as [n ->]. done. }
  done.
Qed.

Lemma rebuildListenerHosts_returns c : is_Some (rebuildListenerHosts c).
Proof.
  rewrite rebuildListenerHosts_alt. unfold listenerOutcome.
  destruct (buildListenerHostsAndTSConfigurations_returns c) as [lb ->].
  cbn [mbind option_bind].
  pose proof (createResourceChangesForListeners_returns (listenerHosts c)
                (deref (lb_newTSConfigs lb) (lb_newListenerHosts lb))) as Hcr.
  destruct (detectChangesInListenerHosts _ _) as [[removed updated] added].
  destruct Hcr as [changes ->]. done.
Qed.

Lemma is_Some_alter {K} `{Countable K} {V} (f : V → V) (m : gmap K V) a b :
  is_Some (alter f a m !! b) ↔ is_Some (m !! b).
Proof.
  destruct (decide (a = b)) as [-> | Hne].
  - rewrite lookup_alter_eq. by rewrite fmap_is_Some.
  - by rewrite lookup_alter_ne.
Qed.

Lemma minionPathStep_returns minionKey ingress p st :
  minionsInHeap st → is_Some (mb_heap st !! minionKey) →
  ∃ st', minionPathStep minionKey ingress p st = Some st'
         ∧ minionsInHeap st' ∧ is_Some (mb_heap st' !! minionKey)
         ∧ mb_minionConfigs st' = mb_minionConfigs st.
Proof.
  intros [Hpaths Hlist] Hkey. unfold minionPathStep.
  destruct (mb_paths st !! hip_Path p) as [holderKey |] eqn:Hholder.
  - destruct (Hpaths _ _ Hholder) as [holder Hh]. rewrite Hh. cbn.
    destruct (negb _); eexists; (split; [done |]); cbn.
    + split; [split |]; cbn.
      * intros p' k. rewrite !is_Some_alter. intros Hp'.
        destruct (decide (hip_Path p = p')) as [<- | Hne].
        -- rewrite lookup_insert_eq in Hp'. by simplify_eq.
        -- rewrite lookup_insert_ne in Hp' by done. by eapply Hpaths.
      * intros k Hk. rewrite !is_Some_alter. by apply Hlist.
      * by rewrite !is_Some_alter.
    + done.
  - eexists. split; [done |]. cbn. split; [split |]; cbn.
    + intros p' k. rewrite is_Some_alter. intros Hp'.
      destruct (decide (hip_Path p = p')) as [<- | Hne].
      * rewrite lookup_insert_eq in Hp'. by simplify_eq.
      * rewrite lookup_insert_ne in Hp' by done. by eapply Hpaths.
    + intros k Hk. rewrite is_Some_alter. by apply Hlist.
    + by rewrite is_Some_alter.
Qed.

Lemma minionPaths_return minionKey ingress http st :
  minionsInHeap st → is_Some (mb_heap st !! minionKey) →
  ∃ st', forM (minionPathStep minionKey ingress) http st = Some st'
         ∧ minionsInHeap st' ∧ is_Some (mb_heap st' !! minionKey)
         ∧ mb_minionConfigs st' = mb_minionConfigs st.
Proof.
  revert st. induction http as [| p http IH]; intros st Hinv Hkey; cbn.
  { by exists st. }
  destruct (minionPathStep_returns minionKey ingress p st Hinv Hkey)
    as (st1 & -> & Hinv1 & Hkey1 & Hlist1). cbn.
  destruct (IH st1 Hinv1 Hkey1) as (st' & -> & ? & ? & Hlist'). exists st'.
  split; [done |]. split; [done |]. split; [done |]. by rewrite Hlist', Hlist1.
Qed.

Lemma minionStep_returns masterHost k ing st :
  (isMinion ing = true → hasHTTP ing) → minionsInHeap st →
  ∃ st', minionStep masterHost (k, ing) st = Some st' ∧ minionsInHeap st'.
Proof.
  intros Hsafe Hinv. unfold minionStep.
  destruct (isMinion ing); cbn [negb]; [| by exists st].
  destruct (Hsafe eq_refl) as [http Hhttp]. unfold hasHTTP in *.
  destruct (head (ing_Rules ing)) as [rule |]; cbn [mbind option_bind] in *; [| done].
  case_bool_decide; [by exists st |]. rewrite Hhttp. cbn [mbind option_bind].
  match goal with
  | |- context [forM _ http ?st0] =>
      destruct (minionPaths_return k ing http st0) as (st1 & -> & [Hp1 Hl1] & Hk1 & Hlist1)
  end.
  - destruct Hinv as [Hpaths Hlist]. split; cbn.
    + intros p k' Hp. destruct (decide (k = k')) as [-> | Hne].
      * by rewrite lookup_insert_eq.
      * rewrite lookup_insert_ne by done. by eapply Hpaths.
    + intros k' Hk'. destruct (decide (k = k')) as [-> | Hne].
      * by rewrite lookup_insert_eq.
      * rewrite lookup_insert_ne by done. by eapply Hlist.
  - cbn. by rewrite lookup_insert_eq.
  - cbn [mbind option_bind]. eexists. split; [done |]. split; cbn; [done |].
    intros k' [Hk' | ->%list_elem_of_singleton]%elem_of_app; [by apply Hl1 | done].
Qed.

Lemma buildMinionConfigs_returns c masterHost :
  safeStore c → is_Some (buildMinionConfigs c masterHost).
Proof.
  intros Hsafe. unfold buildMinionConfigs.
  match goal with
  | |- context [forM ?f ?l ?s0] =>
      destruct (forM_total f (λ _ st, minionsInHeap st) l s0) as (st & -> & Hp & Hl)
  end.
  - split; cbn; [intros p k; by rewrite lookup_empty | by intros k ?%elem_of_nil].
  - intros pre [k ing] post t Hl Hinv.
    apply minionStep_returns; [| done]. intros Hminion.
    assert (ingresses c !! k = Some ing) as Hin.
    { apply elem_of_sortedItems. rewrite Hl. apply elem_of_app. right. left. }
    specialize (Hsafe _ _ Hin). unfold safeIngress in Hsafe. by rewrite Hminion in Hsafe.
  - cbn [mbind option_bind].
    assert (is_Some (mapM (λ k, mb_heap st !! k) (mb_minionConfigs st))) as [ms ->]; [| done].
    apply mapM_is_Some, Forall_forall. intros k Hk. cbn. by apply Hl.
Qed.

Lemma claimHost_returns host a st :
  hostsInHeap st → is_Some (hb_heap st !! a) →
  ∃ st', claimHost host a st = Some st' ∧ hostsInHeap st' ∧ is_Some (hb_heap st' !! a).
Proof.
  intros Hinv Ha. unfold claimHost.
  destruct (hb_newHosts st !! host) as [holderAddr |] eqn:Hholder.
  - destruct (Hinv _ _ Hholder) as [holder ->]. destruct Ha as [resource Ha].
    rewrite Ha. cbn.
    destruct (negb _); eexists; (split; [done |]); cbn; (split; [| by rewrite is_Some_alter]).
    + intros h x Hx. cbn in *. rewrite is_Some_alter.
      destruct (decide (host = h)) as [<- | Hne].
      * rewrite lookup_insert_eq in Hx. by simplify_eq.
      * rewrite lookup_insert_ne in Hx by done. by eapply Hinv.
    + intros h x Hx. cbn in *. rewrite is_Some_alter. by eapply Hinv.
  - eexists. split; [done |]. split; [| done].
    intros h x Hx. cbn in *.
    destruct (decide (host = h)) as [<- | Hne].
    + rewrite lookup_insert_eq in Hx. by simplify_eq.
    + rewrite lookup_insert_ne in Hx by done. by eapply Hinv.
Qed.

Lemma claimHosts_return {A} (hostOf : A → string) (l : list A) a st :
  hostsInHeap st → is_Some (hb_heap st !! a) →
  is_Some (forM (λ x, claimHost (hostOf x) a) l st).
Proof.
  revert st. induction l as [| x l IH]; intros st Hinv Ha; cbn; [done |].
  destruct (claimHost_returns (hostOf x) a st Hinv Ha) as (st1 & -> & Hinv1 & Ha1). cbn.
  by apply IH.
Qed.

Lemma register_hostsInHeap a r st :
  hostsInHeap st →
  hostsInHeap (register a r st) ∧ is_Some (hb_heap (register a r st) !! a).
Proof.
  intros Hinv. unfold register. cbn. split; [| by rewrite lookup_insert_eq].
  intros h x Hx. cbn in *. destruct (decide (a = x)) as [-> | Hne].
  - by rewrite lookup_insert_eq.
  - rewrite lookup_insert_ne by done. by eapply Hinv.
Qed.

Lemma hostBuildInv_hostsInHeap c dI dV dT st : hostBuildInv c dI dV dT st → hostsInHeap st.
Proof.
  intros (_ & (log & [Hheld Hlog] & _) & _) h x Hx.
  destruct (Hlog _ _ (Hheld _ _ Hx)) as (r & _ & _ & Hr & _). eauto.
Qed.

Lemma convertIngressToVSR_returns c ing :
  hasBackend ing → is_Some (convertIngressToVSR c ing).
Proof.
  unfold hasBackend, convertIngressToVSR. intros [svc H].
  destruct (head (ing_Rules ing)) as [rule |]; cbn [mbind option_bind] in *; [| done].
  destruct (negb _); [done |].
  destruct (rule_HTTP rule) as [http |]; cbn [mbind option_bind] in *; [| done].
  destruct (head http) as [path |]; cbn [mbind option_bind] in *; [| done].
  rewrite H. done.
Qed.

Lemma ingressStep_returns c k ing st :
  safeStore c → safeIngress c ing → hostsInHeap st → is_Some (ingressStep c (k, ing) st).
Proof.
  intros Hstore Hsafe Hinv. unfold ingressStep, safeIngress in *.
  destruct (isMinion ing); [done |]. destruct Hsafe as [Hchallenge Hmaster].
  assert (∀ resource,
            is_Some (forM (λ rule, claimHost (rule_Host rule) (KIngress, k)) (ing_Rules ing)
                       (register (KIngress, k) (IngressRes resource) st))) as Hclaims.
  { intros resource.
    destruct (register_hostsInHeap (KIngress, k) (IngressRes resource) st Hinv).
    by apply claimHosts_return. }
  assert (is_Some (if isChallengeIngress c ing then convertIngressToVSR c ing
                   else Some None)) as [vsr ->].
  { destruct (isChallengeIngress c ing); [| done].
    by apply convertIngressToVSR_returns, Hchallenge. }
  cbn [mbind option_bind]. destruct vsr as [vsr |]; [done |].
  destruct (isMaster ing).
  - destruct (Hmaster eq_refl) as [rule ->]. cbn [mbind option_bind].
    destruct (buildMinionConfigs_returns c (rule_Host rule) Hstore) as [[minions cw] ->].
    cbn [mbind option_bind]. apply Hclaims.
  - cbn [mbind option_bind]. apply Hclaims.
Qed.

Lemma virtualServerStep_returns c k vs st :
  hostsInHeap st → is_Some (virtualServerStep c (k, vs) st).
Proof.
  intros Hinv. unfold virtualServerStep.
  destruct (buildVirtualServerRoutes c vs) as [vsrs warnings].
  match goal with
  | |- is_Some (claimHost ?h ?a (register ?a ?r ?st)) =>
      destruct (register_hostsInHeap a r st Hinv) as [H1 H2];
      destruct (claimHost_returns h a _ H1 H2) as (st' & -> & _)
  end.
  done.
Qed.

Lemma transportServerStep_returns k ts st :
  hostsInHeap st → is_Some (transportServerStep (k, ts) st).
Proof.
  intros Hinv. unfold transportServerStep. destruct (_ && _); [done |].
  match goal with
  | |- is_Some (claimHost ?h ?a (register ?a ?r ?st)) =>
      destruct (register_hostsInHeap a r st Hinv) as [H1 H2];
      destruct (claimHost_returns h a _ H1 H2) as (st' & -> & _)
  end.
  done.
Qed.

Lemma buildHostsAndResources_returns c :
  safeStore c → is_Some (buildHostsAndResources c).
Proof.
  intros Hsafe. unfold buildHostsAndResources.
  destruct (forM_total (ingressStep c) (λ pre st, hostBuildInv c pre [] [] st)
              (sortedItems (ingresses c)) emptyHostBuild) as (st1 & -> & Hinv1).
  { apply hostBuildInv_empty. }
  { intros pre [k ing] post t Hl Hinv.
    assert (ingresses c !! k = Some ing) as Hin.
    { apply elem_of_sortedItems. rewrite Hl. apply elem_of_app. right. left. }
    destruct (ingressStep_returns c k ing t Hsafe (Hsafe _ _ Hin)
                (hostBuildInv_hostsInHeap _ _ _ _ _ Hinv)) as [t' Ht'].
    exists t'. split; [done |].
    eapply ingressStep_inv; [by eapply fresh_prefix | done | done]. }
  cbn [mbind option_bind].
  destruct (forM_total (virtualServerStep c)
              (λ pre st, hostBuildInv c (sortedItems (ingresses c)) pre [] st)
              (sortedItems (virtualServers c)) st1) as (st2 & -> & Hinv2); [done | |].
  { intros pre [k vs] post t Hl Hinv.
    destruct (virtualServerStep_returns c k vs t
                (hostBuildInv_hostsInHeap _ _ _ _ _ Hinv)) as [t' Ht'].
    exists t'. split; [done |].
    eapply virtualServerStep_inv; [by eapply fresh_prefix | done | done]. }
  cbn [mbind option_bind]. destruct (isTLSPassthroughEnabled c); [| done].
  destruct (forM_total transportServerStep
              (λ pre st, hostBuildInv c (sortedItems (ingresses c))
                           (sortedItems (virtualServers c)) pre st)
              (sortedItems (transportServers c)) st2) as (st3 & -> & _); [done | | done].
  intros pre [k ts] post t Hl Hinv.
  destruct (transportServerStep_returns k ts t
              (hostBuildInv_hostsInHeap _ _ _ _ _ Hinv)) as [t' Ht'].
  exists t'. split; [done |].
  eapply transportServerStep_inv; [by eapply fresh_prefix | done | done].
Qed.

Lemma hostsClaimed_evolves hosts heap heap' :
  heapEvolves heap heap' → hostsClaimed hosts heap → hostsClaimed hosts heap'.
Proof.
  intros He Hc a r' h Ha Hh.
  destruct (heapEvolves_Some_inv _ _ _ _ He Ha) as (r & Hr & Hev).
  rewrite (evolves_resourceHosts _ _ Hev) in Hh.
  destruct (Hc _ _ _ Hr Hh) as (x & Hx & [rx Hrx]). exists x. split; [done |].
  destruct (heapEvolves_Some _ _ _ _ He Hrx) as (rx' & -> & _). done.
Qed.

Lemma registered_evolves resources heap heap' :
  heapEvolves heap heap' → registered resources heap → registered resources heap'.
Proof.
  intros He Hr K a HK. destruct (Hr _ _ HK) as [r Ha].
  destruct (heapEvolves_Some _ _ _ _ He Ha) as (r' & -> & _). done.
Qed.

Lemma markHosts_return hosts a K rules heap :
  (∀ rule, rule ∈ rules → ∃ x, hosts !! rule_Host rule = Some x ∧ is_Some (heap !! x)) →
  ∃ heap',
    forM (λ rule heap,
            res ← lookupRes heap hosts (rule_Host rule);
            Some (alter (ic_setValidHost (rule_Host rule)
                           (bool_decide (GetKeyWithKind res = K))) a heap))
         rules heap = Some heap'
    ∧ heapEvolves heap heap'.
Proof.
  revert heap. induction rules as [| rule rules IH]; intros heap Hheld; cbn.
  { exists heap. split; [done | apply heapEvolves_refl]. }
  destruct (Hheld rule) as (x & Hx & [res Hres]); [left |].
  assert (lookupRes heap hosts (rule_Host rule) = Some res) as Hlook
    by (unfold lookupRes; rewrite Hx; exact Hres).
  rewrite Hlook. cbn [mbind option_bind].
  match goal with
  | |- context [forM _ rules ?h1] => destruct (IH h1) as (heap' & -> & He)
  end.
  - intros rule' Hin. destruct (Hheld rule') as (x' & Hx' & Hsome); [by right |].
    exists x'. split; [done |]. by rewrite is_Some_alter.
  - exists heap'. split; [done |]. eapply heapEvolves_trans; [| done].
    apply heapEvolves_alter. intros r. apply evolves_ic_setValidHost.
Qed.

Lemma updateActiveHostsForIngresses_returns hosts resources heap :
  registered resources heap → hostsClaimed hosts heap →
  is_Some (updateActiveHostsForIngresses hosts resources heap).
Proof.
  intros Hreg Hclaimed. unfold updateActiveHostsForIngresses.
  match goal with
  | |- is_Some (forM ?f ?l ?s) =>
      destruct (forM_total f (λ _ cur, heapEvolves heap cur) l s) as (heap' & -> & _)
  end; [apply heapEvolves_refl | | done].
  intros pre [K a] post cur Hl He. cbn [fst snd].
  assert (resources !! K = Some a) as HK.
  { apply elem_of_sortedItems. rewrite Hl. apply elem_of_app. right. left. }
  destruct (registered_evolves _ _ _ He Hreg _ _ HK) as [r Hr]. rewrite Hr.
  cbn [mbind option_bind].
  destruct r as [ingConfig | |]; [| by exists cur | by exists cur].
  destruct (markHosts_return hosts a (GetKeyWithKind (IngressRes ingConfig))
              (ing_Rules (ic_Ingress ingConfig)) cur) as (cur' & Hrun & He').
  - intros rule Hin.
    apply (hostsClaimed_evolves _ _ _ He Hclaimed a (IngressRes ingConfig)); [done |].
    cbn. apply list_elem_of_fmap. eauto.
  - exists cur'. split; [exact Hrun |]. by eapply heapEvolves_trans.
Qed.

Lemma addProblemsForResourcesWithoutActiveHost_returns hosts heap resources p :
  registered resources heap → hostsClaimed hosts heap →
  is_Some (addProblemsForResourcesWithoutActiveHost hosts heap resources p).
Proof.
  intros Hreg Hclaimed. unfold addProblemsForResourcesWithoutActiveHost.
  match goal with
  | |- is_Some (forM ?f ?l ?s) =>
      destruct (forM_total f (λ _ _, True) l s) as (p' & -> & _)
  end; [done | | done].
  intros pre [K a] post q Hl _. cbn [fst snd].
  assert (resources !! K = Some a) as HK.
  { apply elem_of_sortedItems. rewrite Hl. apply elem_of_app. right. left. }
  destruct (Hreg _ _ HK) as [r Hr]. rewrite Hr. cbn [mbind option_bind].
  destruct r as [impl | impl | impl].
  - destruct (negb _); eauto.
  - destruct (Hclaimed _ _ (vs_Host (vsc_VirtualServer impl)) Hr) as (x & Hx & [res Hres]);
      [by left |].
    assert (lookupRes heap hosts (vs_Host (vsc_VirtualServer impl)) = Some res) as ->
      by (unfold lookupRes; rewrite Hx; exact Hres).
    cbn [mbind option_bind]. case_bool_decide; eauto.
  - destruct (Hclaimed _ _ (ts_Host (tsc_TransportServer impl)) Hr) as (x & Hx & [res Hres]);
      [by left |].
    assert (lookupRes heap hosts (ts_Host (tsc_TransportServer impl)) = Some res) as ->
      by (unfold lookupRes; rewrite Hx; exact Hres).
    cbn [mbind option_bind]. case_bool_decide; eauto.
Qed.

Lemma addProblemsForOrphanMinions_returns c hosts heap p :
  safeStore c → is_Some (addProblemsForOrphanMinions c hosts heap p).
Proof.
  intros Hsafe. unfold addProblemsForOrphanMinions.
  match goal with
  | |- is_Some (forM ?f ?l ?s) =>
      destruct (forM_total f (λ _ _, True) l s) as (p' & -> & _)
  end; [done | | done].
  intros pre [k ing] post q Hl _. cbn [fst snd].
  assert (ingresses c !! k = Some ing) as Hin.
  { apply elem_of_sortedItems. rewrite Hl. apply elem_of_app. right. left. }
  specialize (Hsafe _ _ Hin). unfold safeIngress, hasHTTP in Hsafe.
  destruct (isMinion ing); cbn [negb]; [| eauto].
  destruct (head (ing_Rules ing)) as [rule |]; [| by destruct Hsafe].
  cbn [mbind option_bind].
  match goal with
  | |- ∃ t', (if ?b then _ else _) = _ ∧ _ => destruct b; eauto
  end.
Qed.

Lemma addWarnings_returns c hosts resources heap :
  registered resources heap → hostsClaimed hosts heap →
  is_Some (addWarningsForVirtualServersWithMissConfiguredListeners c hosts resources heap).
Proof.
  intros Hreg Hclaimed. unfold addWarningsForVirtualServersWithMissConfiguredListeners.
  match goal with
  | |- is_Some (forM ?f ?l ?s) =>
      destruct (forM_total f (λ _ cur, heapEvolves heap cur) l s) as (heap' & -> & _)
  end; [apply heapEvolves_refl | | done].
  intros pre [K a] post cur Hl He. cbn [fst snd].
  assert (resources !! K = Some a) as HK.
  { apply elem_of_rangeItems. rewrite Hl. apply elem_of_app. right. left. }
  destruct (registered_evolves _ _ _ He Hreg _ _ HK) as [r Hr]. rewrite Hr.
  cbn [mbind option_bind].
  destruct r as [| vsc |]; [by exists cur | | by exists cur].
  destruct (vs_Listener (vsc_VirtualServer vsc)) as [listener |]; [| by exists cur].
  destruct (listenerWarning c listener) as [w |]; [| by exists cur].
  destruct (hostsClaimed_evolves _ _ _ He Hclaimed a (VirtualServerRes vsc)
              (vs_Host (vsc_VirtualServer vsc)) Hr) as (x & -> & _); [by left |].
  cbn [mbind option_bind]. eexists. split; [done |].
  eapply heapEvolves_trans; [done |]. apply heapEvolves_alter. intros r.
  apply evolves_AddWarning.
Qed.

Lemma createResourceChangesForHosts_returns oldHosts newHosts :
  let '(removed, updated, added) := detectChangesInHosts oldHosts newHosts in
  is_Some (createResourceChangesForHosts removed updated added oldHosts newHosts).
Proof.
  unfold detectChangesInHosts, createResourceChangesForHosts, getSortedResourceKeys.
  match goal with
  | |- is_Some (?a ≫= _) => assert (is_Some a) as [removedChanges ->]
  end.
  { apply mapM_is_Some, Forall_forall.
    intros h [Hnone Hold%elem_of_getSortedKeys]%list_elem_of_filter.
    cbn. destruct Hold as [o ->]. done. }
  cbn [mbind option_bind].
  match goal with
  | |- is_Some (?a ≫= _) => assert (is_Some a) as [updated ->]
  end.
  { apply mapM_is_Some, Forall_forall. intros h (h' & Hin & Hnew)%list_elem_of_bind.
    apply elem_of_getSortedKeys in Hnew as [n Hn]. rewrite Hn in Hin.
    destruct (oldHosts !! h') as [o |] eqn:Ho; [| by apply elem_of_nil in Hin].
    assert (h = h') as ->.
    { destruct (negb _); [by apply list_elem_of_singleton in Hin |].
      destruct n as [| newVsc |], o as [| oldVsc |]; try by apply elem_of_nil in Hin.
      rewrite !elem_of_app in Hin.
      destruct Hin as [Hin | [Hin | Hin]]; case_bool_decide;
        first [by apply elem_of_nil in Hin | by apply list_elem_of_singleton in Hin]. }
    cbn. apply updatedChange_returns; eauto. }
  cbn [mbind option_bind].
  match goal with
  | |- is_Some (?a ≫= _) => assert (is_Some a) as [addedChanges ->]
  end.
  { apply mapM_is_Some, Forall_forall.
    intros h [Hnone Hnew%elem_of_getSortedKeys]%list_elem_of_filter.
    cbn. destruct Hnew as [n ->]. done. }
  done.
Qed.

Lemma rebuildHosts_returns c : safeStore c → is_Some (rebuildHosts c).
Proof.
  intros Hsafe. rewrite rebuildHosts_alt. unfold hostOutcome.
  destruct (buildHostsAndResources_returns c Hsafe) as [st Hb]. rewrite Hb.
  cbn [mbind option_bind].
  apply buildHostsAndResources_inv in Hb as (Hreg & (log & [Hheld Hlog] & Hcomplete) & _).
  assert (registered (hb_newResources st) (hb_heap st)) as Hregistered.
  { intros K a HK. destruct (Hreg _ _ HK) as (r & -> & _). done. }
  assert (hostsClaimed (hb_newHosts st) (hb_heap st)) as Hclaimed.
  { intros a r h Ha Hh.
    destruct (Hlog _ _ (Hcomplete _ _ _ Ha Hh)) as (_ & x & rx & _ & Hx & Hrx & _). eauto. }
  destruct (updateActiveHostsForIngresses_returns _ _ _ Hregistered Hclaimed) as [heap1 H1].
  rewrite H1. cbn [mbind option_bind].
  pose proof (updateActiveHostsForIngresses_evolves _ _ _ _ H1) as He1.
  pose proof (registered_evolves _ _ _ He1 Hregistered) as Hregistered1.
  pose proof (hostsClaimed_evolves _ _ _ He1 Hclaimed) as Hclaimed1.
  destruct (addProblemsForResourcesWithoutActiveHost_returns (hb_newHosts st) heap1
              (hb_newResources st) ∅ Hregistered1 Hclaimed1) as [p1 ->].
  cbn [mbind option_bind].
  destruct (addProblemsForOrphanMinions_returns c (hb_newHosts st) heap1 p1 Hsafe) as [p2 ->].
  cbn [mbind option_bind].
  destruct (addWarnings_returns c (hb_newHosts st) (hb_newResources st) heap1
              Hregistered1 Hclaimed1) as [heap2 ->].
  cbn [mbind option_bind].
  pose proof (createResourceChangesForHosts_returns (hosts c)
                (deref heap1 (hb_newHosts st))) as Hcr.
  destruct (detectChangesInHosts _ _) as [[removed updated] added].
  destruct Hcr as [changes ->]. done.
Qed.

Lemma rebuildListenerHostsThenHosts_returns c :
  safeStore c → is_Some (rebuildListenerHostsThenHosts c).
Proof.
  intros Hsafe. unfold rebuildListenerHostsThenHosts.
  destruct (rebuildListenerHosts_returns c) as [[[lch lpr] c1] Hl]. rewrite Hl.
  cbn [mbind option_bind].
  destruct (rebuildListenerHosts_frame _ _ _ _ Hl) as (l & q & ->).
  destruct (rebuildHosts_returns (set_listenerHosts l q c) Hsafe) as [[[hch hpr] c2] ->].
  done.
Qed.

Lemma rebuildForTransportServers_returns c :
  safeStore c → is_Some (rebuildForTransportServers c).
Proof.
  intros Hsafe. unfold rebuildForTransportServers.
  destruct (isTLSPassthroughEnabled c);
    [by apply rebuildListenerHostsThenHosts_returns | apply rebuildListenerHosts_returns].
Qed.

Lemma safeStore_delete c key : safeStore c → safeStore (set_ingresses (delete key (ingresses c)) c).
Proof.
  intros Hsafe k ing Hk. cbn in Hk. apply lookup_delete_Some in Hk as [_ Hk].
  by apply (Hsafe k).
Qed.

Lemma safeStore_insert c key ing :
  safeStore c → safeIngress c ing → safeStore (set_ingresses (<[key := ing]> (ingresses c)) c).
Proof.
  intros Hsafe Hing k ing' Hk. cbn in Hk.
  destruct (decide (key = k)) as [-> | Hne].
  - rewrite lookup_insert_eq in Hk. by simplify_eq.
  - rewrite lookup_insert_ne in Hk by done. by apply (Hsafe k).
Qed.

Lemma safeStore_after_hosts c changes problems c' :
  rebuildHosts c = Some (changes, problems, c') → safeStore c → safeStore c'.
Proof. intros Hr Hsafe. by destruct (rebuildHosts_frame _ _ _ _ Hr) as (h & p & ->). Qed.

Lemma safeStore_after_both c changes problems c' :
  rebuildListenerHostsThenHosts c = Some (changes, problems, c') → safeStore c → safeStore c'.
Proof.
  intros Hr Hsafe.
  by destruct (rebuildListenerHostsThenHosts_frame _ _ _ _ Hr) as (h & p & l & q & ->).
Qed.

Lemma safeStore_after_transportServers c changes problems c' :
  rebuildForTransportServers c = Some (changes, problems, c') → safeStore c → safeStore c'.
Proof.
  unfold rebuildForTransportServers. intros Hr Hsafe.
  destruct (isTLSPassthroughEnabled c); [by eapply safeStore_after_both |].
  by destruct (rebuildListenerHosts_frame _ _ _ _ Hr) as (l & q & ->).
Qed.

Ltac returns_with Hret Hafter :=
  match goal with
  | |- ∃ changes problems c', ?f ?c0 ≫= _ = _ ∧ _ =>
      let Hr := fresh "Hr" in
      destruct (Hret c0) as [[[? ?] ?] Hr];
      [| rewrite Hr; cbn [mbind option_bind];
         try (destruct (reportValidationError _ _ _ _ _));
         do 3 eexists; split; [reflexivity | eapply Hafter; [exact Hr |]]]
  | |- ∃ changes problems c', ?f ?c0 = _ ∧ _ =>
      let Hr := fresh "Hr" in
      destruct (Hret c0) as [[[? ?] ?] Hr];
      [| do 3 eexists; split; [exact Hr | eapply Hafter; [exact Hr |]]]
  end.

(** X21: a mutator call returns, and leaves a store that is safe for a
    rebuild, when the store is safe for a rebuild and the argument is
    safe to store. A store is safe when every minion Ingress has a first
    rule with an HTTP block, every master Ingress has a first rule, and
    every ACME challenge Ingress has a first rule whose first path has a
    backend service: then no rebuild indexes an empty list or follows a
    nil pointer, and every holder and map entry that a rebuild looks up
    is there. *)
Theorem mutators_return c m :
  safeStore c → safeArgument c m →
  ∃ changes problems c', applyMutation c m = Some (changes, problems, c') ∧ safeStore c'.
Proof.
  intros Hsafe Harg.
  destruct m as [ing | key | vs | key | vsr | key | ts | key | gc |]; cbn.
  - unfold AddOrUpdateIngress. cbn in Harg.
    destruct (hasCorrectIngressClass c (ObjIngress ing)); cbn [negb].
    + destruct (validateIngress ing _ _ _ _ _) eqn:Hvalid.
      * returns_with rebuildHosts_returns safeStore_after_hosts;
          by apply safeStore_delete.
      * returns_with rebuildHosts_returns safeStore_after_hosts;
          apply safeStore_insert; auto.
    + returns_with rebuildHosts_returns safeStore_after_hosts; by apply safeStore_delete.
  - unfold DeleteIngress. destruct (ingresses c !! key); [| by eauto 10].
    returns_with rebuildHosts_returns safeStore_after_hosts; by apply safeStore_delete.
  - unfold AddOrUpdateVirtualServer.
    repeat case_match; returns_with rebuildHosts_returns safeStore_after_hosts; done.
  - unfold DeleteVirtualServer. destruct (virtualServers c !! key); [| by eauto 10].
    returns_with rebuildHosts_returns safeStore_after_hosts; done.
  - unfold AddOrUpdateVirtualServerRoute.
    repeat case_match; returns_with rebuildHosts_returns safeStore_after_hosts; done.
  - unfold DeleteVirtualServerRoute. destruct (virtualServerRoutes c !! key); [| by eauto 10].
    returns_with rebuildHosts_returns safeStore_after_hosts; done.
  - unfold AddOrUpdateTransportServer.
    repeat case_match;
      returns_with rebuildForTransportServers_returns safeStore_after_transportServers; done.
  - unfold DeleteTransportServer. destruct (transportServers c !! key); [| by eauto 10].
    returns_with rebuildForTransportServers_returns safeStore_after_transportServers; done.
  - unfold AddOrUpdateGlobalConfiguration.
    destruct (rebuildListenerHostsThenHosts_returns
                (setGlobalConfigListenerMap (set_globalConfiguration (Some gc) c)))
      as [[[ch pr] c1] Hr]; [exact Hsafe |].
    rewrite Hr. cbn [mbind option_bind]. do 3 eexists. split; [reflexivity |].
    eapply safeStore_after_both; [exact Hr | exact Hsafe].
  - unfold DeleteGlobalConfiguration.
    returns_with rebuildListenerHostsThenHosts_returns safeStore_after_both; done.
Qed.

(** ** An Ingress without rules *)

Lemma forM_None {A S} (f : A → S → option S) l x s :
  x ∈ l → (∀ t, f x t = None) → forM f l s = None.
Proof.
  intros Hx Hf. revert s. induction l as [| y l IH]; intros s; [by apply elem_of_nil in Hx |].
  cbn. apply elem_of_cons in Hx as [<- | Hx]; [by rewrite Hf |].
  destruct (f y s); cbn; [by apply IH | done].
Qed.

Lemma rebuildHosts_without_rules c key ing :
  ingresses c !! key = Some ing →
  ing_Rules ing = [] →
  isMinion ing || isMaster ing || isChallengeIngress c ing = true →
  rebuildHosts c = None.
Proof.
  intros Hin Hrules Hkind. apply elem_of_sortedItems in Hin.
  rewrite rebuildHosts_alt. unfold hostOutcome.
  destruct (isMinion ing) eqn:Hminion.
  - (* a minion: the pass for orphan minions reads its first rule *)
    destruct (buildHostsAndResources c) as [st |]; [| done]. cbn [mbind option_bind].
    destruct (updateActiveHostsForIngresses _ _ _) as [heap1 |]; [| done].
    cbn [mbind option_bind].
    destruct (addProblemsForResourcesWithoutActiveHost _ _ _ _) as [p1 |]; [| done].
    cbn [mbind option_bind].
    assert (addProblemsForOrphanMinions c (hb_newHosts st) heap1 p1 = None) as ->; [| done].
    unfold addProblemsForOrphanMinions. eapply forM_None; [exact Hin |].
    intros t. cbn. by rewrite Hminion, Hrules.
  - (* a master or a challenge: the pass over the Ingresses reads it *)
    assert (buildHostsAndResources c = None) as ->; [| done].
    unfold buildHostsAndResources.
    assert (forM (ingressStep c) (sortedItems (ingresses c)) emptyHostBuild = None) as ->;
      [| done].
    eapply forM_None; [exact Hin |]. intros t. unfold ingressStep. rewrite Hminion.
    cbn in Hkind. destruct (isChallengeIngress c ing).
    + unfold convertIngressToVSR. by rewrite Hrules.
    + cbn [mbind option_bind]. rewrite orb_false_r in Hkind. by rewrite Hkind, Hrules.
Qed.

(** X22: an Ingress without rules that is a minion, a master or an ACME
    challenge makes the host rebuild panic, which reads the first rule of
    such an Ingress without looking whether it is there. So every rebuild
    of a store that holds it panics, and so does [AddOrUpdateIngress] when
    the Ingress has the right class and the validator lets it through. *)
Theorem ingress_without_rules_panics c ing :
  ing_Rules ing = [] →
  isMinion ing || isMaster ing || isChallengeIngress c ing = true →
  (∀ key, ingresses c !! key = Some ing → rebuildHosts c = None)
  ∧ (hasCorrectIngressClass c (ObjIngress ing) = true →
     validateIngress ing (isPlus c) (appProtectEnabled c) (appProtectDosEnabled c)
       (internalRoutesEnabled c) (snippetsEnabled c) = None →
     AddOrUpdateIngress c ing = None).
Proof.
  intros Hrules Hkind. split.
  - intros key Hin. by eapply rebuildHosts_without_rules.
  - intros Hclass Hvalid. unfold AddOrUpdateIngress. rewrite Hclass, Hvalid. cbn [negb].
    rewrite (rebuildHosts_without_rules _ (getResourceKey (ing_ObjectMeta ing)) ing);
      [done | | done | done].
    cbn. by rewrite lookup_insert_eq.
Qed.

(** ** The paths of the minions of a master *)

Lemma lookup_mc_setValidPath p b mc p' :
  mc_ValidPaths (mc_setValidPath p b mc) !! p'
  = if decide (p = p') then Some b else mc_ValidPaths mc !! p'.
Proof.
  unfold mc_setValidPath. cbn. destruct (decide (p = p')) as [-> | Hne].
  - by rewrite lookup_insert_eq.
  - by rewrite lookup_insert_ne.
Qed.

Lemma childWarningsOf_append key w cw ing w' :
  w' ∈ childWarningsOf cw ing → w' ∈ childWarningsOf (appendWarning key w cw) ing.
Proof.
  unfold childWarningsOf, appendWarning. intros Hw.
  destruct (decide (key = getResourceKey (ing_ObjectMeta ing))) as [-> | Hne].
  - rewrite lookup_insert_eq. cbn. apply elem_of_app. by left.
  - by rewrite lookup_insert_ne.
Qed.

Lemma childWarningsOf_appended w cw ing :
  w ∈ childWarningsOf (appendWarning (getResourceKey (ing_ObjectMeta ing)) w cw) ing.
Proof.
  unfold childWarningsOf, appendWarning. rewrite lookup_insert_eq. cbn.
  apply elem_of_app. right. left.
Qed.

Lemma minionPathStep_claims minionKey ingress hp log st st' mc0 :
  minionClaims log st →
  mb_heap st !! minionKey = Some mc0 → mc_Ingress mc0 = ingress →
  hip_Path hp ∈ minionPaths ingress →
  minionPathStep minionKey ingress hp st = Some st' →
  minionClaims (log ++ [(minionKey, hip_Path hp)]) st'
  ∧ (∀ k, mc_Ingress <$> mb_heap st' !! k = mc_Ingress <$> mb_heap st !! k)
  ∧ mb_minionConfigs st' = mb_minionConfigs st.
Proof.
  intros (C1 & C2 & C3) Hself Hing Hp Hstep. unfold minionPathStep in Hstep.
  set (p := hip_Path hp) in *. clearbody p.
  destruct (mb_paths st !! p) as [holderKey |] eqn:Hholder.
  2:{ (* the path is free *)
      injection Hstep as <-. cbn. split; [| split; [| done]].
      2:{ intros k. destruct (decide (minionKey = k)) as [<- | Hne].
          - by rewrite lookup_alter_eq, Hself.
          - by rewrite lookup_alter_ne. }
      split; [| split]; cbn.
      - intros k p0 [Hin | [= -> ->]%list_elem_of_singleton]%elem_of_app.
        + destruct (C1 _ _ Hin) as (mc & k' & holder & Hk & Hp0 & Hvalid & Hk' & Hh & Hwin).
          assert (p0 ≠ p) as Hne by congruence.
          assert (∀ x mcx, mb_heap st !! x = Some mcx →
                    ∃ mcx', alter (mc_setValidPath p true) minionKey (mb_heap st) !! x
                            = Some mcx'
                            ∧ mc_Ingress mcx' = mc_Ingress mcx
                            ∧ mc_ValidPaths mcx' !! p0 = mc_ValidPaths mcx !! p0) as Hsame.
          { intros x mcx Hx. destruct (decide (minionKey = x)) as [<- | Hnx].
            - rewrite lookup_alter_eq, Hx. cbn. eexists. split; [done |]. split; [done |].
              rewrite lookup_mc_setValidPath. by rewrite decide_False.
            - rewrite lookup_alter_ne by done. eauto. }
          destruct (Hsame _ _ Hk) as (mc' & Hk1 & Hi1 & Hv1).
          destruct (Hsame _ _ Hh) as (holder' & Hh1 & Hi2 & _).
          exists mc', k', holder'. rewrite Hi1, Hi2, Hv1, lookup_insert_ne by done. done.
        + exists (mc_setValidPath p true mc0), minionKey, (mc_setValidPath p true mc0).
          rewrite lookup_alter_eq, Hself, lookup_insert_eq. cbn.
          repeat split; try done; [by rewrite Hing | left; by rewrite lookup_insert_eq | by left].
      - intros p0 k Hp0. apply elem_of_app. destruct (decide (p = p0)) as [<- | Hne].
        + rewrite lookup_insert_eq in Hp0. injection Hp0 as <-. right. left.
        + rewrite lookup_insert_ne in Hp0 by done. left. by apply C2.
      - intros k mc p0 Hk. destruct (decide (minionKey = k)) as [<- | Hnk].
        + rewrite lookup_alter_eq, Hself in Hk. injection Hk as <-.
          rewrite lookup_mc_setValidPath. destruct (decide (p = p0)) as [<- | Hne].
          * rewrite lookup_insert_eq. split; [done |]. intros _. apply elem_of_app.
            right. left.
          * rewrite lookup_insert_ne by done. destruct (C3 _ _ p0 Hself) as [H1 H2].
            split; [done |]. intros H. apply elem_of_app. left. by apply H2.
        + rewrite lookup_alter_ne in Hk by done. destruct (C3 _ _ p0 Hk) as [H1 H2].
          split.
          * intros Hv. specialize (H1 Hv). rewrite lookup_insert_ne; [done |]. congruence.
          * intros H. apply elem_of_app. left. by apply H2. }
  destruct (mb_heap st !! holderKey) as [holder |] eqn:Hh; cbn [mbind option_bind] in Hstep;
    [| done].
  fold (pathTakenWarning p) in Hstep.
  destruct (chooseObjectMetaWinner (ing_ObjectMeta (mc_Ingress holder))
              (ing_ObjectMeta ingress)) eqn:Hwin; cbn [negb] in Hstep;
    injection Hstep as <-; cbn.
  - (* the holder keeps the path, the new minion is warned *)
    split; [| done]. split; [| split]; cbn.
    + intros k p0 [Hin | [= -> ->]%list_elem_of_singleton]%elem_of_app.
      * destruct (C1 _ _ Hin) as (mc & k' & holder0 & Hk & Hp0 & Hvalid & Hk' & Hh0 & Hw).
        exists mc, k', holder0. repeat split; try done.
        destruct Hvalid as [? | ?]; [by left | right]. by apply childWarningsOf_append.
      * exists mc0, holderKey, holder. rewrite Hing. repeat split; try done.
        -- right. apply childWarningsOf_appended.
        -- right. by apply chooseObjectMetaWinner_asym.
    + intros p0 k Hp0. apply elem_of_app. left. by apply C2.
    + intros k mc p0 Hk. destruct (C3 _ _ p0 Hk) as [H1 H2]. split; [done |].
      intros H. apply elem_of_app. left. by apply H2.
  - (* the new minion takes the path, the holder is warned *)
    set (heap' := alter (mc_setValidPath p false) holderKey
                    (alter (mc_setValidPath p true) minionKey (mb_heap st))).
    assert (∀ x, heap' !! x
                 = (λ mcx, (if decide (x = holderKey) then mc_setValidPath p false else id)
                             ((if decide (x = minionKey) then mc_setValidPath p true else id)
                                mcx)) <$> mb_heap st !! x) as Hlk.
    { intros x. unfold heap'.
      destruct (decide (x = holderKey)) as [-> | N1].
      - rewrite lookup_alter_eq. destruct (decide (holderKey = minionKey)) as [E | N2].
        + rewrite <- E, lookup_alter_eq. by destruct (mb_heap st !! holderKey).
        + rewrite lookup_alter_ne by done. by destruct (mb_heap st !! holderKey).
      - rewrite lookup_alter_ne by done. destruct (decide (x = minionKey)) as [-> | N2].
        + rewrite lookup_alter_eq. by destruct (mb_heap st !! minionKey).
        + rewrite lookup_alter_ne by done. by destruct (mb_heap st !! x). }
    assert (∀ x mcx, mb_heap st !! x = Some mcx →
              ∃ mcx', heap' !! x = Some mcx'
                      ∧ mc_Ingress mcx' = mc_Ingress mcx
                      ∧ (∀ p0, p0 ≠ p → mc_ValidPaths mcx' !! p0 = mc_ValidPaths mcx !! p0)
                      ∧ mc_ValidPaths mcx' !! p
                        = if decide (x = holderKey) then Some false
                          else if decide (x = minionKey) then Some true
                          else mc_ValidPaths mcx !! p) as Hnew.
    { intros x mcx Hx. rewrite Hlk, Hx. cbn. eexists. split; [done |].
      destruct (decide (x = holderKey)), (decide (x = minionKey)); cbn;
        (split; [done |]); (split; [intros p0 Hne |]);
        rewrite ?lookup_insert_eq, ?lookup_insert_ne by done; done. }
    assert (∀ x mcx', heap' !! x = Some mcx' →
              ∃ mcx, mb_heap st !! x = Some mcx) as Hold.
    { intros x mcx' Hx. rewrite Hlk in Hx. destruct (mb_heap st !! x); [eauto | done]. }
    split.
    2:{ split; [| done]. intros k. rewrite Hlk. destruct (mb_heap st !! k); [| done]. cbn.
        by destruct (decide (k = holderKey)), (decide (k = minionKey)). }
    destruct (Hnew _ _ Hself) as (mc0' & Hself' & Hing0 & Hother0 & Hat0).
    split; [| split]; cbn.
    + intros k p0 [Hin | [= -> ->]%list_elem_of_singleton]%elem_of_app.
      * destruct (C1 _ _ Hin) as (mc & k' & holder0 & Hk & Hp0 & Hvalid & Hk' & Hh0 & Hw).
        destruct (Hnew _ _ Hk) as (mc' & Hk1 & Hi1 & Ho1 & Ha1).
        destruct (decide (p0 = p)) as [-> | Hne].
        -- rewrite Hholder in Hk'. injection Hk' as <-. rewrite Hh in Hh0.
           injection Hh0 as <-.
           exists mc', minionKey, mc0'. rewrite Hi1, Hing0, Hing, lookup_insert_eq.
           repeat split; try done.
           ++ right. destruct (decide (k = holderKey)) as [-> | Hnk].
              ** rewrite Hh in Hk. injection Hk as <-. apply childWarningsOf_appended.
              ** apply childWarningsOf_append. destruct Hvalid as [Hv | ?]; [| done].
                 destruct (C3 _ _ p Hk) as [H1 _]. specialize (H1 Hv). congruence.
           ++ destruct Hw as [<- | Hw].
              ** rewrite Hh in Hk. injection Hk as <-. by right.
              ** right. by eapply chooseObjectMetaWinner_neg_trans.
        -- destruct (Hnew _ _ Hh0) as (holder0' & Hh1 & Hi2 & _).
           exists mc', k', holder0'. rewrite Hi1, Hi2, (Ho1 _ Hne), lookup_insert_ne by done.
           repeat split; try done.
           destruct Hvalid as [? | ?]; [by left | right]. by apply childWarningsOf_append.
      * exists mc0', minionKey, mc0'. rewrite Hing0, Hing, lookup_insert_eq, Hat0.
        repeat split; try done; [| by left].
        destruct (decide (minionKey = holderKey)) as [-> | Hnk].
        -- right. rewrite Hh in Hself. injection Hself as <-. rewrite <- Hing.
           apply childWarningsOf_appended.
        -- left. by rewrite decide_True.
    + intros p0 k Hp0. apply elem_of_app. destruct (decide (p = p0)) as [<- | Hne].
      * rewrite lookup_insert_eq in Hp0. injection Hp0 as <-. right. left.
      * rewrite lookup_insert_ne in Hp0 by done. left. by apply C2.
    + intros k mc' p0 Hk. destruct (Hold _ _ Hk) as (mc & Hk0).
      destruct (Hnew _ _ Hk0) as (mc'' & Hk1 & _ & Ho1 & Ha1).
      rewrite Hk in Hk1. injection Hk1 as <-.
      destruct (C3 _ _ p0 Hk0) as [H1 H2].
      destruct (decide (p0 = p)) as [-> | Hne].
      * rewrite Ha1, lookup_insert_eq.
        destruct (decide (k = holderKey)) as [-> | Hn1].
        { split; [done |]. intros _. apply elem_of_app. left. by apply C2. }
        destruct (decide (k = minionKey)) as [-> | Hn2].
        { split; [done |]. intros _. apply elem_of_app. right. left. }
        split.
        -- intros Hv. specialize (H1 Hv). congruence.
        -- intros H. apply elem_of_app. left. by apply H2.
      * rewrite (Ho1 _ Hne), lookup_insert_ne by done. split; [done |].
        intros H. apply elem_of_app. left. by apply H2.
Qed.

Lemma minionPaths_claims minionKey ingress http log st st' :
  minionClaims log st →
  mc_Ingress <$> mb_heap st !! minionKey = Some ingress →
  (∀ hp, hp ∈ http → hip_Path hp ∈ minionPaths ingress) →
  forM (minionPathStep minionKey ingress) http st = Some st' →
  minionClaims (log ++ ((λ hp, (minionKey, hip_Path hp)) <$> http)) st'
  ∧ (∀ k, mc_Ingress <$> mb_heap st' !! k = mc_Ingress <$> mb_heap st !! k)
  ∧ mb_minionConfigs st' = mb_minionConfigs st.
Proof.
  revert log st. induction http as [| hp http IH]; intros log st Hc Hself Hin Hrun;
    simpl in Hrun.
  { injection Hrun as <-. by rewrite app_nil_r. }
  destruct (minionPathStep minionKey ingress hp st) as [st1 |] eqn:Hstep; [| done].
  simpl in Hrun.
  destruct (mb_heap st !! minionKey) as [mc0 |] eqn:Hmc0; [| done].
  injection Hself as Hing.
  destruct (minionPathStep_claims _ _ _ _ _ _ _ Hc Hmc0 Hing (Hin hp ltac:(left)) Hstep)
    as (Hc1 & Hi1 & Hl1).
  destruct (IH _ _ Hc1) as (Hc' & Hi' & Hl'); [| | done |].
  - rewrite Hi1, Hmc0. cbn. by rewrite Hing.
  - intros hp' Hhp'. apply Hin. by right.
  - rewrite fmap_cons, cons_middle, app_assoc. split; [done |]. split.
    + intros k. by rewrite Hi', Hi1.
    + by rewrite Hl', Hl1.
Qed.

Lemma minionStep_inv masterHost pre k ing st st' :
  k ∉ pre.*1 →
  minionBuildInv masterHost pre st →
  minionStep masterHost (k, ing) st = Some st' →
  minionBuildInv masterHost (pre ++ [(k, ing)]) st'.
Proof.
  intros Hfresh (I1 & I2 & I3 & log & Hc & Hcov) Hstep. unfold minionStep in Hstep.
  assert (minionOf masterHost ing = false →
          minionBuildInv masterHost (pre ++ [(k, ing)]) st) as Hskip.
  { intros Hno. split; [| split; [| split]].
    - rewrite filter_app.
      replace (filter _ [(k, ing)]) with (@nil (string * Ingress)); [by rewrite app_nil_r |].
      symmetry. rewrite filter_cons_False; [done | cbn [snd]; by rewrite Hno].
    - intros k0 mc Hk0. destruct (I2 _ _ Hk0). split; [| done]. apply elem_of_app. by left.
    - done.
    - by exists log. }
  destruct (isMinion ing) eqn:Hmin; cbn [negb] in Hstep.
  2:{ injection Hstep as <-. apply Hskip. unfold minionOf. by rewrite Hmin. }
  destruct (head (ing_Rules ing)) as [rule |] eqn:Hrule; cbn [mbind option_bind] in Hstep;
    [| done].
  case_bool_decide as Hhost.
  { injection Hstep as <-. apply Hskip. unfold minionOf. rewrite Hmin, Hrule. cbn.
    apply bool_decide_eq_false. congruence. }
  assert (minionOf masterHost ing = true) as Hof.
  { unfold minionOf. rewrite Hmin, Hrule. cbn. apply bool_decide_eq_true. by rewrite Hhost. }
  destruct (rule_HTTP rule) as [http |] eqn:Hhttp; cbn [mbind option_bind] in Hstep; [| done].
  match type of Hstep with
  | context [forM _ http ?s] =>
      set (st0 := s) in *; destruct (forM _ http st0) as [st1 |] eqn:Hrun
  end; [| done].
  cbn [mbind option_bind] in Hstep. injection Hstep as <-.
  assert (mb_heap st !! k = None) as Hnone.
  { destruct (mb_heap st !! k) as [mc |] eqn:E; [| done]. destruct (I2 _ _ E) as [Hin _].
    destruct Hfresh. apply list_elem_of_fmap. by exists (k, mc_Ingress mc). }
  assert (minionClaims log st0) as Hc0.
  { destruct Hc as (C1 & C2 & C3). split; [| split]; cbn.
    - intros k0 p Hin.
      destruct (C1 _ _ Hin) as (mc & k' & holder & Hk & Hp & Hv & Hk' & Hh & Hw).
      exists mc, k', holder. rewrite !lookup_insert_ne by congruence. done.
    - done.
    - intros k0 mc p. destruct (decide (k = k0)) as [<- | Hne].
      + rewrite lookup_insert_eq. intros [= <-]. cbn. rewrite lookup_empty.
        split; [done | by intros []].
      + rewrite lookup_insert_ne by done. apply C3. }
  assert (minionPaths ing = hip_Path <$> http) as Hpaths.
  { unfold minionPaths. rewrite Hrule. cbn. by rewrite Hhttp. }
  destruct (minionPaths_claims k ing http log st0 st1 Hc0) as (Hc1 & Hi1 & Hl1); [| | done |].
  { cbn. by rewrite lookup_insert_eq. }
  { intros hp Hhp. rewrite Hpaths. apply list_elem_of_fmap. by exists hp. }
  assert (∀ k0 mc, mb_heap st1 !! k0 = Some mc →
            (k0 = k ∧ mc_Ingress mc = ing)
            ∨ (k0 ≠ k ∧ ∃ mc', mb_heap st !! k0 = Some mc' ∧ mc_Ingress mc' = mc_Ingress mc))
    as Hfrom.
  { intros k0 mc Hk0. pose proof (Hi1 k0) as Hi. rewrite Hk0 in Hi. cbn in Hi.
    destruct (decide (k = k0)) as [<- | Hne].
    - rewrite lookup_insert_eq in Hi. left. split; [done |]. by injection Hi.
    - rewrite lookup_insert_ne in Hi by done. right. split; [done |].
      destruct (mb_heap st !! k0) as [mc' |]; [| done]. exists mc'. split; [done |].
      by injection Hi. }
  assert (∀ k0, is_Some (<[k := NewMinionConfiguration ing]> (mb_heap st) !! k0) →
                is_Some (mb_heap st1 !! k0)) as Hto.
  { intros k0 Hk0. apply (fmap_is_Some mc_Ingress). rewrite Hi1. cbn.
    by apply fmap_is_Some. }
  split; [| split; [| split]]; cbn.
  - rewrite Hl1. cbn. rewrite filter_app, filter_cons_True by done.
    by rewrite fmap_app, I1.
  - intros k0 mc Hk0. destruct (Hfrom _ _ Hk0) as [[-> ->] | (Hne & mc' & E & <-)].
    + split; [| done]. apply elem_of_app. right. left.
    + destruct (I2 _ _ E) as [? ?]. split; [apply elem_of_app; by left | done].
  - rewrite Hl1. cbn. intros k0 [Hk0 | ->%list_elem_of_singleton]%elem_of_app; apply Hto.
    + destruct (decide (k = k0)) as [<- | Hne]; [by rewrite lookup_insert_eq |].
      rewrite lookup_insert_ne by done. by apply I3.
    + by rewrite lookup_insert_eq.
  - eexists. split; [exact Hc1 |]. intros k0 mc p Hk0 Hp. apply elem_of_app.
    destruct (Hfrom _ _ Hk0) as [[-> Hing] | (Hne & mc' & E & Hing)].
    + right. rewrite Hing, Hpaths in Hp. apply list_elem_of_fmap in Hp as (hp & -> & Hhp).
      apply list_elem_of_fmap. by exists hp.
    + left. rewrite <- Hing in Hp. by eapply Hcov.
Qed.

(** X23: when [buildMinionConfigs] returns for a master host, the minions it
    returns are the stored ingresses that are minions and whose first rule
    has that host, in the order of their keys; a minion has a mark in
    [ValidPaths] only for paths of its first rule; every such path is either
    marked valid or reported on the minion with the child warning that the
    path is taken by another resource; a path is marked valid on at most one
    of the minions, and no other minion that lists the path wins over that
    minion. *)
Theorem buildMinionConfigs_paths c masterHost minions childWarnings :
  buildMinionConfigs c masterHost = Some (minions, childWarnings) →
  mc_Ingress <$> minions
  = (filter (λ kv, minionOf masterHost kv.2 = true) (sortedItems (ingresses c))).*2
  ∧ (∀ m p, m ∈ minions → is_Some (mc_ValidPaths m !! p) → p ∈ minionPaths (mc_Ingress m))
  ∧ (∀ m p, m ∈ minions → p ∈ minionPaths (mc_Ingress m) →
       mc_ValidPaths m !! p = Some true
       ∨ pathTakenWarning p ∈ childWarningsOf childWarnings (mc_Ingress m))
  ∧ (∀ i j m1 m2 p,
       minions !! i = Some m1 → minions !! j = Some m2 →
       mc_ValidPaths m1 !! p = Some true →
       (mc_ValidPaths m2 !! p = Some true → i = j)
       ∧ (p ∈ minionPaths (mc_Ingress m2) →
          i = j ∨ chooseObjectMetaWinner (ing_ObjectMeta (mc_Ingress m2))
                    (ing_ObjectMeta (mc_Ingress m1)) = false)).
Proof.
  unfold buildMinionConfigs. intros Hb.
  destruct (forM _ _ _) as [st |] eqn:Hrun; [| done]. cbn [mbind option_bind] in Hb.
  destruct (mapM _ _) as [ms |] eqn:Hms; [| done]. cbn in Hb. injection Hb as -> <-.
  apply mapM_Some, Forall2_same_length_lookup in Hms as [Hlen Hlk].
  pose proof (NoDup_sortedItems_fst (ingresses c)) as Hnd.
  assert (minionBuildInv masterHost (sortedItems (ingresses c)) st)
    as (I1 & I2 & I3 & log & (C1 & C2 & C3) & Hcov).
  { revert Hrun. apply forM_ind.
    - split; [done |]. split; [by intros k mc; cbn; rewrite lookup_empty |].
      split; [by intros k ?%elem_of_nil |]. exists []. split.
      + split; [by intros k p ?%elem_of_nil |].
        split; cbn; [by intros p k; rewrite lookup_empty |].
        by intros k mc p; rewrite lookup_empty.
      + by intros k mc p; cbn; rewrite lookup_empty.
    - intros pre [k ing] post t t' Hl Hinv Hstep. eapply minionStep_inv; [| done | done].
      rewrite Hl, fmap_app, fmap_cons in Hnd. apply NoDup_app in Hnd as (_ & Hnd & _).
      intros Hin. apply (Hnd _ Hin). left. }
  set (F := filter (λ kv : string * Ingress, minionOf masterHost kv.2 = true)
              (sortedItems (ingresses c))) in *.
  assert (NoDup (mb_minionConfigs st)) as Hkeys.
  { rewrite I1. eapply sublist_NoDup; [exact Hnd |]. apply fmap_sublist, sublist_filter. }
  assert (∀ i m, minions !! i = Some m →
            ∃ k, mb_minionConfigs st !! i = Some k ∧ mb_heap st !! k = Some m) as Hat.
  { intros i m Hi. destruct (mb_minionConfigs st !! i) as [k |] eqn:E.
    - exists k. split; [done |]. by eapply Hlk.
    - apply lookup_ge_None in E. apply lookup_lt_Some in Hi. lia. }
  assert (∀ m, m ∈ minions → ∃ k, mb_heap st !! k = Some m) as Hm.
  { intros m [i Hi]%list_elem_of_lookup. destruct (Hat _ _ Hi) as (k & _ & Hk). eauto. }
  split; [| split; [| split]].
  - apply (list_eq_same_length _ _ (length minions)).
    + by rewrite length_fmap, <- Hlen, I1, length_fmap.
    + by rewrite length_fmap.
    + intros i x y _ Hx Hy. rewrite list_lookup_fmap in Hx. rewrite list_lookup_fmap in Hy.
      destruct (minions !! i) as [m |] eqn:Hi; [| done]. injection Hx as <-.
      destruct (F !! i) as [[k ing] |] eqn:HF; [| done]. injection Hy as <-.
      destruct (Hat _ _ Hi) as (k' & Hk' & Hheap).
      rewrite I1, list_lookup_fmap, HF in Hk'. injection Hk' as <-.
      destruct (I2 _ _ Hheap) as [Hin _]. apply elem_of_sortedItems in Hin.
      assert ((k, ing) ∈ F) as HinF by (apply list_elem_of_lookup; eauto).
      apply list_elem_of_filter in HinF as [_ HinF]. apply elem_of_sortedItems in HinF.
      cbn. congruence.
  - intros m p Hin Hv. destruct (Hm _ Hin) as (k & Hk).
    destruct (C3 _ _ p Hk) as [_ Hl]. specialize (Hl Hv).
    destruct (C1 _ _ Hl) as (mc & _ & _ & Hk1 & Hp & _). congruence.
  - intros m p Hin Hp. destruct (Hm _ Hin) as (k & Hk).
    destruct (C1 _ _ (Hcov _ _ _ Hk Hp)) as (mc & _ & _ & Hk1 & _ & Hv & _).
    rewrite Hk in Hk1. by injection Hk1 as <-.
  - intros i j m1 m2 p Hi Hj Hv1.
    destruct (Hat _ _ Hi) as (k1 & Hl1 & Hk1). destruct (Hat _ _ Hj) as (k2 & Hl2 & Hk2).
    destruct (C3 _ _ p Hk1) as [Hholds _]. specialize (Hholds Hv1). split.
    + intros Hv2. destruct (C3 _ _ p Hk2) as [Hholds2 _]. specialize (Hholds2 Hv2).
      assert (k1 = k2) as <- by congruence. by eapply NoDup_lookup.
    + intros Hp.
      destruct (C1 _ _ (Hcov _ _ _ Hk2 Hp)) as (mc & k' & holder & Hmc & _ & _ & Hk' & Hh & Hw).
      assert (k' = k1) as -> by congruence.
      assert (mc = m2) as -> by congruence. assert (holder = m1) as -> by congruence.
      destruct Hw as [<- | Hw]; [left; by eapply NoDup_lookup | by right].
Qed.

End Properties.

(** * Two calls, each ranging in an order of its own *)

Section Reruns.

Context {pkg : IngressHelpers}.

(** ** The listener arbiter in two orders *)

(** Whatever the order, a listing of a map has the entries of the map. *)
Lemma rangeItems_same (first second : RangeOrder) {V} (m : gmap string V) kv :
  kv ∈ rangeItems (RangeOrder := first) m → kv ∈ rangeItems (RangeOrder := second) m.
Proof. destruct kv as [k v]. by rewrite !elem_of_rangeItems. Qed.

(** Without twins the holder of a (listener, host) key is the one
    TransportServer that wins over all others that ask for the key. *)
Lemma listenerHolder_unique (first second : RangeOrder) c lb1 lb2 lk a1 a2 :
  twinFree c →
  buildListenerHostsAndTSConfigurations (order := first) c = Some lb1 →
  buildListenerHostsAndTSConfigurations (order := second) c = Some lb2 →
  lb_newListenerHosts lb1 !! lk = Some a1 →
  lb_newListenerHosts lb2 !! lk = Some a2 →
  a1 = a2.
Proof.
  intros Htwins Hb1 Hb2 Ha1 Ha2.
  pose proof (buildListenerHostsAndTSConfigurations_claims _ _ Hb1) as Hc1.
  pose proof (buildListenerHostsAndTSConfigurations_claims _ _ Hb2) as Hc2.
  apply buildListenerHostsAndTSConfigurations_inv in Hb1 as (I1 & _ & J1).
  apply buildListenerHostsAndTSConfigurations_inv in Hb2 as (I2 & _ & J2).
  destruct (J1 _ _ Ha1) as (tsc1 & gc1 & l1 & Hk1 & Hgc1 & Hl1 & ->).
  destruct (J2 _ _ Ha2) as (tsc2 & gc2 & l2 & Hk2 & Hgc2 & Hl2 & Hkey).
  destruct (I1 _ _ Hk1) as [Hin1 Hp1]. destruct (I2 _ _ Hk2) as [Hin2 Hp2].
  destruct (decide (a1 = a2)) as [| Hne]; [done | exfalso].
  set (ts1 := tsc_TransportServer tsc1) in *. set (ts2 := tsc_TransportServer tsc2) in *.
  pose proof (Hc2 a1 ts1 (rangeItems_same _ _ _ _ Hin1) Hp1) as Hclaim1.
  pose proof (Hc1 a2 ts2 (rangeItems_same _ _ _ _ Hin2) Hp2) as Hclaim2.
  unfold listenerClaim, listenerOf in Hclaim1, Hclaim2.
  rewrite Hgc1 in Hclaim1, Hclaim2. cbn [mbind option_bind] in Hclaim1, Hclaim2.
  rewrite Hl1 in Hclaim1. rewrite Hgc1 in Hgc2. injection Hgc2 as <-.
  rewrite Hl2 in Hclaim2.
  destruct Hclaim1 as (a & holder & Ha & Hholder & Hcase).
  rewrite Ha2 in Ha. injection Ha as <-. rewrite decide_False in Hcase by done.
  destruct Hcase as [_ Hlost1]. rewrite Hk2 in Hholder. injection Hholder as <-.
  destruct Hclaim2 as (a & holder & Ha & Hholder & Hcase).
  rewrite <- Hkey, Ha1 in Ha. injection Ha as <-. rewrite decide_False in Hcase by done.
  destruct Hcase as [_ Hlost2]. rewrite Hk1 in Hholder. injection Hholder as <-.
  unfold tsc_Wins in Hlost1, Hlost2. cbn in Hlost1, Hlost2. fold ts1 ts2 in Hlost1, Hlost2.
  apply elem_of_rangeItems in Hin1, Hin2.
  pose proof (Htwins _ _ _ _ Hin1 Hin2 Hne Hkey) as Hdiff.
  pose proof (chooseObjectMetaWinner_total _ _ Hdiff Hlost1). congruence.
Qed.

(** So without twins the listener arbiter gives the same maps in every
    order. *)
Lemma buildListenerHostsAndTSConfigurations_reorder (first second : RangeOrder) c lb1 lb2 :
  twinFree c →
  buildListenerHostsAndTSConfigurations (order := first) c = Some lb1 →
  buildListenerHostsAndTSConfigurations (order := second) c = Some lb2 →
  lb1 = lb2.
Proof.
  intros Htwins Hb1 Hb2.
  assert (∀ (o1 o2 : RangeOrder) l1 l2,
            buildListenerHostsAndTSConfigurations (order := o1) c = Some l1 →
            buildListenerHostsAndTSConfigurations (order := o2) c = Some l2 →
            ∀ lk a, lb_newListenerHosts l1 !! lk = Some a →
                    lb_newListenerHosts l2 !! lk = Some a) as Hhosts.
  { intros o1 o2 l1 l2 H1 H2 lk a Ha.
    destruct (lb_newListenerHosts l2 !! lk) as [a' |] eqn:Ha'.
    { f_equal. symmetry. by eapply (listenerHolder_unique o1 o2). }
    exfalso.
    pose proof (buildListenerHostsAndTSConfigurations_claims _ _ H2) as Hc2.
    apply buildListenerHostsAndTSConfigurations_inv in H1 as (I1 & _ & J1).
    destruct (J1 _ _ Ha) as (tsc & gc & l & Hk & Hgc & Hl & ->).
    destruct (I1 _ _ Hk) as [Hin Hp].
    pose proof (Hc2 _ _ (rangeItems_same _ _ _ _ Hin) Hp) as Hclaim.
    unfold listenerClaim, listenerOf in Hclaim. rewrite Hgc in Hclaim.
    cbn [mbind option_bind] in Hclaim. rewrite Hl in Hclaim.
    destruct Hclaim as (a0 & holder & Ha0 & _). congruence. }
  assert (lb_newListenerHosts lb1 = lb_newListenerHosts lb2) as Heq.
  { apply map_eq. intros lk.
    destruct (lb_newListenerHosts lb1 !! lk) as [a |] eqn:E1.
    - symmetry. by eapply (Hhosts first second).
    - destruct (lb_newListenerHosts lb2 !! lk) as [a |] eqn:E2; [| done].
      pose proof (Hhosts second first _ _ Hb2 Hb1 _ _ E2). congruence. }
  assert (lb_newTSConfigs lb1 = lb_newTSConfigs lb2) as Heq'.
  { pose proof (buildListenerHostsAndTSConfigurations_claims _ _ Hb1) as Hc1.
    pose proof (buildListenerHostsAndTSConfigurations_claims _ _ Hb2) as Hc2.
    apply buildListenerHostsAndTSConfigurations_inv in Hb1 as (I1 & _ & _).
    apply buildListenerHostsAndTSConfigurations_inv in Hb2 as (I2 & _ & _).
    assert (∀ (o : RangeOrder) lb k tsc,
              listenerClaims c (rangeItems (RangeOrder := o) (transportServers c)) lb →
              (k, tsc_TransportServer tsc) ∈ rangeItems (RangeOrder := o) (transportServers c) →
              ts_ListenerProtocol (tsc_TransportServer tsc) ≠ TLSPassthroughListenerProtocol →
              lb_newTSConfigs lb !! k
              = match listenerOf c (tsc_TransportServer tsc) with
                | None => Some (NewTransportServerConfiguration (tsc_TransportServer tsc))
                | Some listener =>
                    let made := tsc_setListener listener
                                  (NewTransportServerConfiguration (tsc_TransportServer tsc)) in
                    if decide (lb_newListenerHosts lb
                                 !! ts_listenerHostKey (tsc_TransportServer tsc) = Some k)
                    then Some made
                    else Some (tsc_AddWarning
                                 (listenerTakenWarning
                                    (ts_ListenerName (tsc_TransportServer tsc))
                                    (ts_Host (tsc_TransportServer tsc))) made)
                end) as Hvalue.
    { intros o lb k tsc Hc Hin Hp. specialize (Hc _ _ Hin Hp). unfold listenerClaim in Hc.
      destruct (listenerOf c (tsc_TransportServer tsc)) as [listener |]; [| done].
      destruct Hc as (a & holder & Ha & Hholder & Hcase). cbn zeta.
      destruct (decide (a = k)) as [-> | Hne].
      - rewrite decide_True by done. by rewrite Hholder, Hcase.
      - rewrite decide_False by congruence. by destruct Hcase. }
    apply map_eq. intros k.
    destruct (lb_newTSConfigs lb1 !! k) as [tsc |] eqn:E1.
    - destruct (I1 _ _ E1) as [Hin Hp].
      rewrite (Hvalue first lb1 k tsc Hc1 Hin Hp) in E1.
      rewrite (Hvalue second lb2 k tsc Hc2 (rangeItems_same _ _ _ _ Hin) Hp).
      by rewrite <- Heq, E1.
    - destruct (lb_newTSConfigs lb2 !! k) as [tsc |] eqn:E2; [| done].
      destruct (I2 _ _ E2) as [Hin Hp].
      rewrite (Hvalue first lb1 k tsc Hc1 (rangeItems_same _ _ _ _ Hin) Hp) in E1.
      by repeat case_match. }
  destruct lb1, lb2. cbn in *. by subst.
Qed.

Lemma listenerOutcome_reorder (first second : RangeOrder) c :
  twinFree c →
  listenerOutcome (order := first) c = listenerOutcome (order := second) c.
Proof.
  intros Htwins. unfold listenerOutcome.
  destruct (buildListenerHostsAndTSConfigurations_returns (order := first) c) as [lb1 H1].
  destruct (buildListenerHostsAndTSConfigurations_returns (order := second) c) as [lb2 H2].
  rewrite H1, H2.
  by rewrite (buildListenerHostsAndTSConfigurations_reorder first second c lb1 lb2).
Qed.

Lemma set_listenerHosts_id c : set_listenerHosts (listenerHosts c) (listenerProblems c) c = c.
Proof. by destruct c. Qed.

Lemma set_hosts_id c : set_hosts (hosts c) (hostProblems c) c = c.
Proof. by destruct c. Qed.

Lemma sameButWarnings_refl c : sameButWarnings c c.
Proof. exists (hosts c). by rewrite set_hosts_id. Qed.

(** A listener rebuild leaves the listener side settled, and a settled
    listener side without twins is what every further listener rebuild
    finds again. *)
Lemma rebuildListenerHosts_settles (o : RangeOrder) c changes problems c' :
  rebuildListenerHosts (order := o) c = Some (changes, problems, c') →
  listenersSettled c'.
Proof.
  intros (nl & nt & np & ch0 & Ho & _ & _ & ->)%rebuildListenerHosts_Some.
  exists o, nt. by rewrite listenerOutcome_set_listenerHosts.
Qed.

Lemma rebuildListenerHosts_again (o : RangeOrder) c :
  listenersSettled c → twinFree c →
  rebuildListenerHosts (order := o) c = Some ([], [], c).
Proof.
  intros (o0 & nt & Ho) Htwins.
  rewrite rebuildListenerHosts_alt, (listenerOutcome_reorder o o0 c Htwins), Ho.
  cbn -[detectChangesInListenerHosts].
  rewrite detectChangesInListenerHosts_stable. cbn.
  by rewrite detectChangesInProblems_stable, set_listenerHosts_id.
Qed.

(** ** The host rebuild in two orders *)

(** The listener warnings of the VirtualServers can be given in every
    order when they can be given in one. *)
Lemma addWarnings_reorder (first second : RangeOrder) c hosts resources heap heap1 :
  addWarningsForVirtualServersWithMissConfiguredListeners (order := first)
    c hosts resources heap = Some heap1 →
  is_Some (addWarningsForVirtualServersWithMissConfiguredListeners (order := second)
             c hosts resources heap).
Proof.
  unfold addWarningsForVirtualServersWithMissConfiguredListeners.
  match goal with |- forM ?f _ _ = _ → _ => set (step := f) end.
  assert (∀ kv h h', step kv h = Some h' → stripWarnings <$> h' = stripWarnings <$> h)
    as Hkeeps.
  { intros kv h h' Hstep. unfold step in Hstep.
    destruct (h !! kv.2) as [r |]; simplify_eq/=.
    destruct r as [| vsc |]; simplify_eq/=; try done.
    destruct (vs_Listener (vsc_VirtualServer vsc)) as [listener |]; simplify_eq/=; [| done].
    destruct (listenerWarning c listener) as [w |]; simplify_eq/=; [| done].
    destruct (hosts !! vs_Host (vsc_VirtualServer vsc)) as [holder |]; simplify_eq/=.
    rewrite fmap_alter_absorb; [done |]. apply stripWarnings_AddWarning. }
  assert (∀ kv hA hB hA', stripWarnings <$> hA = stripWarnings <$> hB →
            step kv hA = Some hA' → is_Some (step kv hB)) as Hsame.
  { intros kv hA hB hA' Heq Hstep. unfold step in *.
    assert (stripWarnings <$> hA !! kv.2 = stripWarnings <$> hB !! kv.2) as Hl
      by (by rewrite <- !lookup_fmap, Heq).
    destruct (hA !! kv.2) as [rA |]; [| done].
    destruct (hB !! kv.2) as [rB |]; [| done]. cbn in Hl, Hstep |- *.
    destruct rA as [icA | vscA | tscA], rB as [icB | vscB | tscB]; try done.
    assert (vsc_VirtualServer vscA = vsc_VirtualServer vscB) as <- by (by injection Hl).
    destruct (vs_Listener (vsc_VirtualServer vscA)) as [listener |]; [| done].
    destruct (listenerWarning c listener) as [w |]; [| done].
    by destruct (hosts !! vs_Host (vsc_VirtualServer vscA)) as [holder |]. }
  intros Hrun.
  assert (stripWarnings <$> heap1 = stripWarnings <$> heap
          ∧ ∀ kv, kv ∈ rangeItems (RangeOrder := first) resources →
                  ∃ hA hA', stripWarnings <$> hA = stripWarnings <$> heap
                            ∧ step kv hA = Some hA') as [_ Hran].
  { revert Hrun.
    apply (forM_ind step (λ pre h,
             stripWarnings <$> h = stripWarnings <$> heap
             ∧ ∀ kv, kv ∈ pre → ∃ hA hA', stripWarnings <$> hA = stripWarnings <$> heap
                                          ∧ step kv hA = Some hA')).
    - split; [done |]. by intros kv ?%elem_of_nil.
    - intros pre kv post t t' _ [Ht Hpre] Hstep. split.
      + by rewrite (Hkeeps _ _ _ Hstep).
      + intros kv' [Hin | ->%list_elem_of_singleton]%elem_of_app; [by apply Hpre | eauto]. }
  destruct (forM_total step (λ _ h, stripWarnings <$> h = stripWarnings <$> heap)
              (rangeItems (RangeOrder := second) resources) heap) as (heap2 & -> & _);
    [done | | done].
  intros pre kv post t Hl Ht.
  destruct (Hran kv) as (hA & hA' & HA & Hstep).
  { apply (rangeItems_same second first). rewrite Hl. apply elem_of_app. right. left. }
  destruct (Hsame kv hA t hA') as [t' Ht']; [by rewrite HA, Ht | done |].
  exists t'. split; [done |]. by rewrite (Hkeeps _ _ _ Ht').
Qed.

(** What a host rebuild compares and what it reports do not depend on the
    order; the warnings of what it stores can. *)
Lemma hostOutcome_reorder (first second : RangeOrder) c detected latest newProblems finalHosts :
  hostOutcome (order := first) c = Some (detected, latest, newProblems, finalHosts) →
  ∃ latest' finalHosts',
    hostOutcome (order := second) c = Some (detected, latest', newProblems, finalHosts').
Proof.
  unfold hostOutcome. intros Hc.
  destruct (buildHostsAndResources c) as [st |]; simplify_eq/=.
  destruct (updateActiveHostsForIngresses _ _ _) as [heap |]; simplify_eq/=.
  destruct (addProblemsForResourcesWithoutActiveHost _ _ _ _) as [p1 |]; simplify_eq/=.
  destruct (addProblemsForOrphanMinions _ _ _ _) as [p2 |]; simplify_eq/=.
  destruct (addWarningsForVirtualServersWithMissConfiguredListeners _ _ _ _)
    as [heap' |] eqn:Hw; simplify_eq/=.
  destruct (addWarnings_reorder first second _ _ _ _ _ Hw) as [heap2 ->]. cbn. eauto.
Qed.

Lemma rebuildHosts_settles (o : RangeOrder) c changes problems c' :
  rebuildHosts (order := o) c = Some (changes, problems, c') → hostsSettled c'.
Proof.
  intros (d & la & np & fh & ch0 & Ho & _ & _ & ->)%rebuildHosts_Some.
  exists o, d, la. by rewrite hostOutcome_set_hosts.
Qed.

Lemma rebuildHosts_again (o : RangeOrder) c :
  hostsSettled c →
  ∃ c', rebuildHosts (order := o) c = Some ([], [], c') ∧ sameButWarnings c c'.
Proof.
  intros (o0 & d & la & Ho).
  destruct (hostOutcome_reorder o0 o _ _ _ _ _ Ho) as (la' & fh' & Ho').
  pose proof (hostOutcome_final _ _ _ _ _ Ho) as Hfinal.
  pose proof (hostOutcome_final _ _ _ _ _ Ho') as Hfinal'.
  exists (set_hosts fh' (hostProblems c) c). split; [| exists fh'; split; congruence].
  rewrite rebuildHosts_alt, Ho'. cbn -[detectChangesInHosts].
  rewrite detectChangesInHosts_stable by done. cbn.
  by rewrite detectChangesInProblems_stable.
Qed.

(** ** What stays settled *)

Lemma listenersSettled_set_hosts c h p :
  listenersSettled c → listenersSettled (set_hosts h p c).
Proof. intros (o & nt & Ho). exists o, nt. exact Ho. Qed.

Lemma listenersSettled_set_ingresses c m :
  listenersSettled c → listenersSettled (set_ingresses m c).
Proof. intros (o & nt & Ho). exists o, nt. exact Ho. Qed.

Lemma listenersSettled_set_virtualServers c m :
  listenersSettled c → listenersSettled (set_virtualServers m c).
Proof. intros (o & nt & Ho). exists o, nt. exact Ho. Qed.

Lemma listenersSettled_set_virtualServerRoutes c m :
  listenersSettled c → listenersSettled (set_virtualServerRoutes m c).
Proof. intros (o & nt & Ho). exists o, nt. exact Ho. Qed.

Lemma hostsSettled_set_listenerHosts c l q :
  hostsSettled c → hostsSettled (set_listenerHosts l q c).
Proof. intros (o & d & la & Ho). exists o, d, la. exact Ho. Qed.

(** With TLS passthrough disabled the host rebuild does not read the
    TransportServers. *)
Lemma hostsSettled_set_transportServers c m :
  isTLSPassthroughEnabled c = false →
  hostsSettled c → hostsSettled (set_transportServers m c).
Proof.
  intros Hflag (o & d & la & Ho). exists o, d, la.
  cbn [hosts hostProblems set_transportServers]. rewrite <- Ho.
  unfold hostOutcome, buildHostsAndResources.
  change (isTLSPassthroughEnabled (set_transportServers m c))
    with (isTLSPassthroughEnabled c).
  rewrite Hflag. reflexivity.
Qed.

(** ** Two rebuilds in a row *)

Lemma rebuildListenerHostsThenHosts_settles (o : RangeOrder) c changes problems c' :
  rebuildListenerHostsThenHosts (order := o) c = Some (changes, problems, c') → settled c'.
Proof.
  unfold rebuildListenerHostsThenHosts. intros Hc.
  destruct (rebuildListenerHosts c) as [[[lch lpr] c1] |] eqn:Hl; simplify_eq/=.
  destruct (rebuildHosts c1) as [[[hch hpr] c2] |] eqn:Hh; simplify_eq/=.
  split; [| exact (rebuildHosts_settles o _ _ _ _ Hh)].
  destruct (rebuildHosts_frame _ _ _ _ Hh) as (h & p & ->).
  apply listenersSettled_set_hosts. exact (rebuildListenerHosts_settles o _ _ _ _ Hl).
Qed.

Lemma rebuildListenerHostsThenHosts_again (o : RangeOrder) c :
  settled c → twinFree c →
  ∃ c', rebuildListenerHostsThenHosts (order := o) c = Some ([], [], c')
        ∧ sameButWarnings c c'.
Proof.
  intros [Hl Hh] Htwins. unfold rebuildListenerHostsThenHosts.
  rewrite (rebuildListenerHosts_again o c Hl Htwins). cbn [mbind option_bind].
  destruct (rebuildHosts_again o c Hh) as (c' & -> & Hsame). cbn. eauto.
Qed.

Lemma rebuildForTransportServers_again (first second : RangeOrder) c changes problems c' :
  rebuildForTransportServers (order := first) c = Some (changes, problems, c') →
  twinFree c' →
  ∃ c'', rebuildForTransportServers (order := second) c' = Some ([], [], c'')
         ∧ sameButWarnings c' c''.
Proof.
  unfold rebuildForTransportServers. intros Hc Htwins.
  destruct (isTLSPassthroughEnabled c) eqn:Hflag.
  - assert (isTLSPassthroughEnabled c' = true) as ->.
    { destruct (rebuildListenerHostsThenHosts_frame _ _ _ _ Hc) as (h & p & l & q & ->).
      done. }
    apply rebuildListenerHostsThenHosts_again; [| done].
    exact (rebuildListenerHostsThenHosts_settles first _ _ _ _ Hc).
  - pose proof (rebuildListenerHosts_settles _ _ _ _ _ Hc) as Hl.
    destruct (rebuildListenerHosts_frame _ _ _ _ Hc) as (l & q & ->).
    cbn [isTLSPassthroughEnabled set_listenerHosts]. rewrite Hflag.
    rewrite (rebuildListenerHosts_again second _ Hl Htwins).
    eexists. split; [done |]. apply sameButWarnings_refl.
Qed.

(** The second call finds the store as the first call left it, so its
    rebuild is the rebuild of a settled store. *)
Ltac rebuild_again second Hset :=
  rewrite ?insert_insert_eq, ?delete_delete_eq;
  match goal with
  | |- ∃ c'', ?f ?cx ≫= _ = _ ∧ sameButWarnings ?c2 c'' =>
      replace cx with c2 by reflexivity;
      let c3 := fresh "c3" in
      let Hsame := fresh "Hsame" in
      destruct (rebuildHosts_again second c2 Hset) as (c3 & -> & Hsame);
      exists c3; split; [reflexivity | exact Hsame]
  | |- ∃ c'', ?f ?cx = _ ∧ sameButWarnings ?c2 c'' =>
      replace cx with c2 by reflexivity;
      let c3 := fresh "c3" in
      let Hsame := fresh "Hsame" in
      destruct (rebuildHosts_again second c2 Hset) as (c3 & -> & Hsame);
      exists c3; split; [reflexivity | exact Hsame]
  end.

Ltac rebuild_ts_again first second Hr Htw :=
  rewrite ?insert_insert_eq, ?delete_delete_eq;
  match goal with
  | |- ∃ c'', ?f ?cx ≫= _ = _ ∧ sameButWarnings ?c2 c'' =>
      replace cx with c2 by reflexivity;
      let c3 := fresh "c3" in
      let Hsame := fresh "Hsame" in
      destruct (rebuildForTransportServers_again first second _ _ _ _ Hr Htw)
        as (c3 & -> & Hsame);
      exists c3; split; [reflexivity | exact Hsame]
  end.

(** C4 (amended): the second of two equal calls in a row returns no
    change, whatever the orders in which the two calls range over the
    maps, when no two TransportServers stored after the first call ask for
    the same listener and host with the same (creationTimestamp, uid). It
    leaves the store as it is but for the warnings that the holders of
    the hosts carry, and it returns no problem, unless the argument has
    the right class and fails validation: then it returns the validation
    error of the argument as its one problem. *)
Theorem applyMutation_twice (first second : RangeOrder) c m changes problems c' :
  applyMutation (order := first) c m = Some (changes, problems, c') →
  twinFree c' →
  ∃ c'', applyMutation (order := second) c' m
         = Some ([], option_list (validationProblem c m), c'')
         ∧ sameButWarnings c' c''.
Proof.
  destruct m as [ing | key | vs | key | vsr | key | ts | key | gc |]; simpl.
  - unfold AddOrUpdateIngress. intros Hc _.
    destruct (rebuildHosts _) as [[[ch pr] c1] |] eqn:Hr; simplify_eq/=.
    destruct (reportValidationError _ _ _ ch pr) as [ch' pr'] eqn:Hrep. simplify_eq/=.
    pose proof (rebuildHosts_settles _ _ _ _ _ Hr) as Hset.
    destruct (rebuildHosts_frame _ _ _ _ Hr) as (h & p & Hc').
    destruct (hasCorrectIngressClass c (ObjIngress ing)) eqn:Hcls; simpl in *.
    + destruct (validateIngress ing _ _ _ _ _) as [err |] eqn:Hval; subst c'; cbn;
        rewrite Hcls; cbn; rewrite Hval; cbn; rebuild_again second Hset.
    + subst c'; cbn; rewrite Hcls; cbn; rebuild_again second Hset.
  - unfold DeleteIngress. intros Hc _.
    destruct (ingresses c !! key) eqn:Hk; simplify_eq/=.
    + destruct (rebuildHosts_frame _ _ _ _ Hc) as (h & p & Hc'). subst c'. cbn.
      rewrite lookup_delete_eq. eexists. split; [done |]. apply sameButWarnings_refl.
    + rewrite Hk. eexists. split; [done |]. apply sameButWarnings_refl.
  - unfold AddOrUpdateVirtualServer. intros Hc _.
    destruct (rebuildHosts _) as [[[ch pr] c1] |] eqn:Hr; simplify_eq/=.
    destruct (reportValidationError _ _ _ ch pr) as [ch' pr'] eqn:Hrep. simplify_eq/=.
    pose proof (rebuildHosts_settles _ _ _ _ _ Hr) as Hset.
    destruct (rebuildHosts_frame _ _ _ _ Hr) as (h & p & Hc').
    destruct (hasCorrectIngressClass c (ObjVirtualServer vs)) eqn:Hcls; simpl in *.
    + destruct (ValidateVirtualServer _ vs) as [err |] eqn:Hval; subst c'; cbn;
        rewrite Hcls; cbn; rewrite Hval; cbn; rebuild_again second Hset.
    + subst c'; cbn; rewrite Hcls; cbn; rebuild_again second Hset.
  - unfold DeleteVirtualServer. intros Hc _.
    destruct (virtualServers c !! key) eqn:Hk; simplify_eq/=.
    + destruct (rebuildHosts_frame _ _ _ _ Hc) as (h & p & Hc'). subst c'. cbn.
      rewrite lookup_delete_eq. eexists. split; [done |]. apply sameButWarnings_refl.
    + rewrite Hk. eexists. split; [done |]. apply sameButWarnings_refl.
  - unfold AddOrUpdateVirtualServerRoute. intros Hc _.
    destruct (rebuildHosts _) as [[[ch pr] c1] |] eqn:Hr; simplify_eq/=.
    pose proof (rebuildHosts_settles _ _ _ _ _ Hr) as Hset.
    destruct (rebuildHosts_frame _ _ _ _ Hr) as (h & p & Hc').
    destruct (hasCorrectIngressClass c (ObjVirtualServerRoute vsr)) eqn:Hcls; simpl in *.
    + destruct (ValidateVirtualServerRoute _ vsr) as [err |] eqn:Hval; subst c'; cbn;
        rewrite Hcls; cbn; rewrite Hval; cbn; rebuild_again second Hset.
    + subst c'; cbn; rewrite Hcls; cbn; rebuild_again second Hset.
  - unfold DeleteVirtualServerRoute. intros Hc _.
    destruct (virtualServerRoutes c !! key) eqn:Hk; simplify_eq/=.
    + destruct (rebuildHosts_frame _ _ _ _ Hc) as (h & p & Hc'). subst c'. cbn.
      rewrite lookup_delete_eq. eexists. split; [done |]. apply sameButWarnings_refl.
    + rewrite Hk. eexists. split; [done |]. apply sameButWarnings_refl.
  - unfold AddOrUpdateTransportServer. intros Hc Htw.
    destruct (rebuildForTransportServers _) as [[[ch pr] c1] |] eqn:Hr; simplify_eq/=.
    destruct (reportValidationError _ _ _ ch pr) as [ch' pr'] eqn:Hrep. simplify_eq/=.
    destruct (rebuildForTransportServers_frame _ _ _ _ Hr) as (h & p & l & q & Hc').
    destruct (hasCorrectIngressClass c (ObjTransportServer ts)) eqn:Hcls; simpl in *.
    + destruct (ValidateTransportServer _ ts) as [err |] eqn:Hval; subst c'; cbn;
        rewrite Hcls; cbn; rewrite Hval; cbn; rebuild_ts_again first second Hr Htw.
    + subst c'; cbn; rewrite Hcls; cbn; rebuild_ts_again first second Hr Htw.
  - unfold DeleteTransportServer. intros Hc _.
    destruct (transportServers c !! key) eqn:Hk; simplify_eq/=.
    + destruct (rebuildForTransportServers_frame _ _ _ _ Hc) as (h & p & l & q & Hc').
      subst c'. cbn. rewrite lookup_delete_eq. eexists. split; [done |].
      apply sameButWarnings_refl.
    + rewrite Hk. eexists. split; [done |]. apply sameButWarnings_refl.
  - unfold AddOrUpdateGlobalConfiguration. intros Hc Htw.
    destruct (rebuildListenerHostsThenHosts _) as [[[ch pr] c1] |] eqn:Hr; simplify_eq/=.
    pose proof (rebuildListenerHostsThenHosts_settles _ _ _ _ _ Hr) as Hset.
    destruct (rebuildListenerHostsThenHosts_frame _ _ _ _ Hr) as (h & p & l & q & Hc').
    subst c'.
    match goal with
    | |- ∃ c'', _ ∧ sameButWarnings ?c2 c'' =>
        match goal with
        | |- context [rebuildListenerHostsThenHosts ?cx] =>
            replace cx with c2 by reflexivity
        end
    end.
    destruct (rebuildListenerHostsThenHosts_again second _ Hset Htw) as (c3 & -> & Hsame).
    exists c3. split; [reflexivity | exact Hsame].
  - unfold DeleteGlobalConfiguration. intros Hr Htw.
    pose proof (rebuildListenerHostsThenHosts_settles _ _ _ _ _ Hr) as Hset.
    destruct (rebuildListenerHostsThenHosts_frame _ _ _ _ Hr) as (h & p & l & q & Hc').
    subst c'.
    match goal with
    | |- ∃ c'', ?f ?cx = _ ∧ sameButWarnings ?c2 c'' =>
        replace cx with c2 by reflexivity
    end.
    destruct (rebuildListenerHostsThenHosts_again second _ Hset Htw) as (c3 & -> & Hsame).
    exists c3. split; [reflexivity | exact Hsame].
Qed.

(** ** The mutators keep the store settled *)

Lemma rebuildForTransportServers_settles (o : RangeOrder) c m changes problems c' :
  settled c →
  rebuildForTransportServers (order := o) (set_transportServers m c)
    = Some (changes, problems, c') →
  settled c'.
Proof.
  unfold rebuildForTransportServers. intros [_ Hh] Hr.
  change (isTLSPassthroughEnabled (set_transportServers m c))
    with (isTLSPassthroughEnabled c) in Hr.
  destruct (isTLSPassthroughEnabled c) eqn:Hflag.
  { exact (rebuildListenerHostsThenHosts_settles o _ _ _ _ Hr). }
  split; [exact (rebuildListenerHosts_settles o _ _ _ _ Hr) |].
  destruct (rebuildListenerHosts_frame _ _ _ _ Hr) as (l & q & ->).
  by apply hostsSettled_set_listenerHosts, hostsSettled_set_transportServers.
Qed.

Lemma settled_after_hosts (o : RangeOrder) cx changes problems c' :
  listenersSettled cx → rebuildHosts (order := o) cx = Some (changes, problems, c') →
  settled c'.
Proof.
  intros Hl Hr. split; [| exact (rebuildHosts_settles o _ _ _ _ Hr)].
  destruct (rebuildHosts_frame _ _ _ _ Hr) as (h & p & ->).
  by apply listenersSettled_set_hosts.
Qed.

Lemma applyMutation_keeps_settled (o : RangeOrder) c m changes problems c' :
  settled c → applyMutation (order := o) c m = Some (changes, problems, c') → settled c'.
Proof.
  intros Hc Hm. pose proof (proj1 Hc) as Hl.
  destruct m as [ing | key | vs | key | vsr | key | ts | key | gc |]; cbn in Hm.
  - unfold AddOrUpdateIngress in Hm.
    destruct (rebuildHosts _) as [[[ch pr] c1] |] eqn:Hr; [| done].
    cbn [mbind option_bind] in Hm.
    destruct (reportValidationError _ _ _ ch pr) as [ch' pr']. injection Hm as _ _ <-.
    repeat case_match;
      (eapply (settled_after_hosts o); [| exact Hr]);
      by apply listenersSettled_set_ingresses.
  - unfold DeleteIngress in Hm. destruct (ingresses c !! key); [| by simplify_eq].
    eapply (settled_after_hosts o); [| exact Hm]. by apply listenersSettled_set_ingresses.
  - unfold AddOrUpdateVirtualServer in Hm.
    destruct (rebuildHosts _) as [[[ch pr] c1] |] eqn:Hr; [| done].
    cbn [mbind option_bind] in Hm.
    destruct (reportValidationError _ _ _ ch pr) as [ch' pr']. injection Hm as _ _ <-.
    repeat case_match;
      (eapply (settled_after_hosts o); [| exact Hr]);
      by apply listenersSettled_set_virtualServers.
  - unfold DeleteVirtualServer in Hm. destruct (virtualServers c !! key); [| by simplify_eq].
    eapply (settled_after_hosts o); [| exact Hm].
    by apply listenersSettled_set_virtualServers.
  - unfold AddOrUpdateVirtualServerRoute in Hm.
    destruct (rebuildHosts _) as [[[ch pr] c1] |] eqn:Hr; [| done].
    cbn [mbind option_bind] in Hm. injection Hm as _ _ <-.
    repeat case_match;
      (eapply (settled_after_hosts o); [| exact Hr]);
      by apply listenersSettled_set_virtualServerRoutes.
  - unfold DeleteVirtualServerRoute in Hm.
    destruct (virtualServerRoutes c !! key); [| by simplify_eq].
    eapply (settled_after_hosts o); [| exact Hm].
    by apply listenersSettled_set_virtualServerRoutes.
  - unfold AddOrUpdateTransportServer in Hm.
    destruct (rebuildForTransportServers _) as [[[ch pr] c1] |] eqn:Hr; [| done].
    cbn [mbind option_bind] in Hm.
    destruct (reportValidationError _ _ _ ch pr) as [ch' pr']. injection Hm as _ _ <-.
    repeat case_match; exact (rebuildForTransportServers_settles o _ _ _ _ _ Hc Hr).
  - unfold DeleteTransportServer in Hm.
    destruct (transportServers c !! key); [| by simplify_eq].
    exact (rebuildForTransportServers_settles o _ _ _ _ _ Hc Hm).
  - unfold AddOrUpdateGlobalConfiguration in Hm.
    destruct (rebuildListenerHostsThenHosts _) as [[[ch pr] c1] |] eqn:Hr; [| done].
    cbn [mbind option_bind] in Hm. injection Hm as _ _ <-.
    exact (rebuildListenerHostsThenHosts_settles o _ _ _ _ Hr).
  - unfold DeleteGlobalConfiguration in Hm.
    exact (rebuildListenerHostsThenHosts_settles o _ _ _ _ Hm).
Qed.

(** X14: the mutators keep a configuration settled, whatever the order in
    which they range over the maps. A configuration is settled when its
    hosts and host problems are those that a host rebuild of its stored
    resources gives in some order, and its listener hosts and listener
    problems those that a listener rebuild gives in some order. A call on
    a settled configuration leaves a settled one, whatever the call and
    whether or not its argument is valid; and when no two TransportServers
    stored then are twins, a listener rebuild followed by a host rebuild,
    in any order, returns no change and no problem and leaves the
    configuration as it is but for the warnings of the holders. *)
Theorem mutators_keep_settled (o : RangeOrder) c m changes problems c' :
  settled c → applyMutation (order := o) c m = Some (changes, problems, c') →
  settled c'
  ∧ (twinFree c' →
     ∀ o' : RangeOrder,
       ∃ c'', rebuildListenerHostsThenHosts (order := o') c' = Some ([], [], c'')
              ∧ sameButWarnings c' c'').
Proof.
  intros Hc Hm. pose proof (applyMutation_keeps_settled o _ _ _ _ _ Hc Hm) as Hc'.
  split; [done |]. intros Htwins o'. by apply rebuildListenerHostsThenHosts_again.
Qed.

(** ** Adding and deleting again *)

Lemma rebuildHosts_back (o : RangeOrder) c h p changes problems c' :
  hostsSettled c →
  rebuildHosts (order := o) (set_hosts h p c) = Some (changes, problems, c') →
  sameButWarnings c c'.
Proof.
  intros (o0 & d & la & Ho) Hr.
  apply rebuildHosts_Some in Hr as (d' & la' & np' & fh' & ch0' & Ho' & _ & _ & ->).
  rewrite hostOutcome_set_hosts in Ho'.
  destruct (hostOutcome_reorder o0 o _ _ _ _ _ Ho) as (la2 & fh2 & Ho2).
  rewrite Ho2 in Ho'. injection Ho' as <- <- <- <-.
  pose proof (hostOutcome_final _ _ _ _ _ Ho) as Hfinal.
  pose proof (hostOutcome_final _ _ _ _ _ Ho2) as Hfinal2.
  exists fh2. split; [by destruct c | congruence].
Qed.

Lemma rebuildListenerHosts_back (o : RangeOrder) c l q changes problems c' :
  listenersSettled c → twinFree c →
  rebuildListenerHosts (order := o) (set_listenerHosts l q c) = Some (changes, problems, c') →
  c' = c.
Proof.
  intros (o0 & nt & Ho) Htwins Hr.
  apply rebuildListenerHosts_Some in Hr as (nl' & nt' & np' & ch0' & Ho' & _ & _ & ->).
  rewrite listenerOutcome_set_listenerHosts, (listenerOutcome_reorder o o0 c Htwins), Ho in Ho'.
  injection Ho' as <- <- <-. by destruct c.
Qed.

Lemma rebuildForTransportServers_transportServers (o : RangeOrder) c changes problems c' :
  rebuildForTransportServers (order := o) c = Some (changes, problems, c') →
  transportServers c' = transportServers c.
Proof.
  intros Hr. by destruct (rebuildForTransportServers_frame _ _ _ _ Hr) as (h & p & l & q & ->).
Qed.

Lemma rebuildForTransportServers_back (first second : RangeOrder) c m
    changes1 problems1 c1 changes2 problems2 c2 :
  settled c → twinFree c →
  rebuildForTransportServers (order := first) (set_transportServers m c)
    = Some (changes1, problems1, c1) →
  rebuildForTransportServers (order := second) (set_transportServers (transportServers c) c1)
    = Some (changes2, problems2, c2) →
  sameButWarnings c c2.
Proof.
  unfold rebuildForTransportServers. intros [Hls Hhs] Htwins H1 H2.
  change (isTLSPassthroughEnabled (set_transportServers m c))
    with (isTLSPassthroughEnabled c) in H1.
  destruct (isTLSPassthroughEnabled c) eqn:Hflag.
  - unfold rebuildListenerHostsThenHosts in H1.
    destruct (rebuildListenerHosts _) as [[[lch lpr] cl] |] eqn:Hl; [| done].
    cbn [mbind option_bind] in H1.
    destruct (rebuildHosts cl) as [[[hch hpr] ch] |] eqn:Hh; [| done].
    cbn [mbind option_bind] in H1. injection H1 as _ _ <-.
    destruct (rebuildListenerHosts_frame _ _ _ _ Hl) as (l & q & ->).
    destruct (rebuildHosts_frame _ _ _ _ Hh) as (h & p & ->).
    replace (set_transportServers _ _) with (set_hosts h p (set_listenerHosts l q c)) in H2
      by (by destruct c).
    change (isTLSPassthroughEnabled _) with (isTLSPassthroughEnabled c) in H2.
    rewrite Hflag in H2. unfold rebuildListenerHostsThenHosts in H2.
    rewrite rebuildListenerHosts_set_hosts in H2.
    destruct (rebuildListenerHosts (set_listenerHosts l q c)) as [[[lch2 lpr2] cl2] |] eqn:Hl2;
      [| done].
    apply rebuildListenerHosts_back in Hl2 as ->; [| done | done].
    cbn [mbind option_bind] in H2.
    destruct (rebuildHosts (set_hosts h p c)) as [[[hch2 hpr2] ch2] |] eqn:Hh2; [| done].
    cbn [mbind option_bind] in H2. injection H2 as _ _ <-.
    exact (rebuildHosts_back second _ _ _ _ _ _ Hhs Hh2).
  - destruct (rebuildListenerHosts_frame _ _ _ _ H1) as (l & q & ->).
    replace (set_transportServers _ _) with (set_listenerHosts l q c) in H2
      by (by destruct c).
    change (isTLSPassthroughEnabled _) with (isTLSPassthroughEnabled c) in H2.
    rewrite Hflag in H2.
    rewrite (rebuildListenerHosts_back second _ _ _ _ _ _ Hls Htwins H2).
    apply sameButWarnings_refl.
Qed.

Lemma rebuildForTransportServers_settled (o : RangeOrder) c changes problems c' :
  settled c → twinFree c →
  rebuildForTransportServers (order := o) c = Some (changes, problems, c') →
  sameButWarnings c c'.
Proof.
  intros Hs Htwins Hr. unfold rebuildForTransportServers in Hr.
  destruct (isTLSPassthroughEnabled c).
  - destruct (rebuildListenerHostsThenHosts_again o c Hs Htwins) as (c2 & Hc2 & Hsame).
    rewrite Hc2 in Hr. by injection Hr as _ _ <-.
  - rewrite (rebuildListenerHosts_again o c (proj1 Hs) Htwins) in Hr.
    injection Hr as _ _ <-. apply sameButWarnings_refl.
Qed.

Lemma rebuildHosts_settled (o : RangeOrder) c changes problems c' :
  hostsSettled c → rebuildHosts (order := o) c = Some (changes, problems, c') →
  sameButWarnings c c'.
Proof.
  intros Hs Hr. destruct (rebuildHosts_again o c Hs) as (c2 & Hc2 & Hsame).
  rewrite Hc2 in Hr. by injection Hr as _ _ <-.
Qed.

Lemma sameButWarnings_ingresses c c' : sameButWarnings c c' → ingresses c' = ingresses c.
Proof. by intros (h & -> & _). Qed.

Lemma sameButWarnings_virtualServers c c' :
  sameButWarnings c c' → virtualServers c' = virtualServers c.
Proof. by intros (h & -> & _). Qed.

Lemma sameButWarnings_virtualServerRoutes c c' :
  sameButWarnings c c' → virtualServerRoutes c' = virtualServerRoutes c.
Proof. by intros (h & -> & _). Qed.

Lemma sameButWarnings_transportServers c c' :
  sameButWarnings c c' → transportServers c' = transportServers c.
Proof. by intros (h & -> & _). Qed.

(** X15: adding an Ingress, a VirtualServer, a VirtualServerRoute or a
    TransportServer under a key that is free in a settled configuration
    without twins, and deleting that key again, gives back the
    configuration as it was, but for the warnings that the holders of the
    hosts carry: stored resources, listener hosts and problems are as
    before, and the hosts have their holders of before. This holds
    whatever the orders in which the two calls range over the maps, and
    whether the resource was stored or was refused for its class or by its
    validator. *)
Theorem add_then_delete (first second : RangeOrder) c m d
    changes1 problems1 c1 changes2 problems2 c2 :
  settled c → twinFree c → storeEntry c m = None → deleteOf m = Some d →
  applyMutation (order := first) c m = Some (changes1, problems1, c1) →
  applyMutation (order := second) c1 d = Some (changes2, problems2, c2) →
  sameButWarnings c c2.
Proof.
  intros Hs Htwins Hfree Hd Hm1 Hm2. pose proof (proj2 Hs) as Hhs.
  destruct m as [ing | key | vs | key | vsr | key | ts | key | gc |]; simplify_eq/=.
  - apply fmap_None in Hfree.
    unfold AddOrUpdateIngress in Hm1.
    destruct (rebuildHosts _) as [[[ch pr] c0] |] eqn:Hr; [| done].
    cbn [mbind option_bind] in Hm1.
    destruct (reportValidationError _ _ _ ch pr) as [ch' pr']. injection Hm1 as _ _ <-.
    assert (sameButWarnings c c0
            ∨ ∃ h p, c0 = set_hosts h p (set_ingresses
                            (<[getResourceKey (ing_ObjectMeta ing) := ing]> (ingresses c)) c))
      as [Hsame | (h & p & ->)].
    { repeat case_match;
        try (rewrite delete_id, set_ingresses_id in Hr by done; left;
             exact (rebuildHosts_settled first _ _ _ _ Hhs Hr)).
      all: right; exact (rebuildHosts_frame _ _ _ _ Hr). }
    + unfold DeleteIngress in Hm2.
      rewrite (sameButWarnings_ingresses _ _ Hsame), Hfree in Hm2. by injection Hm2 as _ _ <-.
    + unfold DeleteIngress in Hm2. cbn in Hm2. rewrite lookup_insert_eq, delete_insert_id in Hm2 by done.
      eapply (rebuildHosts_back second c h p); [done |]. rewrite <- Hm2. f_equal; by destruct c.
  - apply fmap_None in Hfree.
    unfold AddOrUpdateVirtualServer in Hm1.
    destruct (rebuildHosts _) as [[[ch pr] c0] |] eqn:Hr; [| done].
    cbn [mbind option_bind] in Hm1.
    destruct (reportValidationError _ _ _ ch pr) as [ch' pr']. injection Hm1 as _ _ <-.
    assert (sameButWarnings c c0
            ∨ ∃ h p, c0 = set_hosts h p (set_virtualServers
                            (<[getResourceKey (vs_ObjectMeta vs) := vs]> (virtualServers c)) c))
      as [Hsame | (h & p & ->)].
    { repeat case_match;
        try (rewrite delete_id, set_virtualServers_id in Hr by done; left;
             exact (rebuildHosts_settled first _ _ _ _ Hhs Hr)).
      all: right; exact (rebuildHosts_frame _ _ _ _ Hr). }
    + unfold DeleteVirtualServer in Hm2.
      rewrite (sameButWarnings_virtualServers _ _ Hsame), Hfree in Hm2.
      by injection Hm2 as _ _ <-.
    + unfold DeleteVirtualServer in Hm2. cbn in Hm2. rewrite lookup_insert_eq, delete_insert_id in Hm2 by done.
      eapply (rebuildHosts_back second c h p); [done |]. rewrite <- Hm2. f_equal; by destruct c.
  - apply fmap_None in Hfree.
    unfold AddOrUpdateVirtualServerRoute in Hm1.
    destruct (rebuildHosts _) as [[[ch pr] c0] |] eqn:Hr; [| done].
    cbn [mbind option_bind] in Hm1. injection Hm1 as _ _ <-.
    assert (sameButWarnings c c0
            ∨ ∃ h p, c0 = set_hosts h p (set_virtualServerRoutes
                            (<[getResourceKey (vsr_ObjectMeta vsr) := vsr]>
                               (virtualServerRoutes c)) c))
      as [Hsame | (h & p & ->)].
    { repeat case_match;
        try (rewrite delete_id, set_virtualServerRoutes_id in Hr by done; left;
             exact (rebuildHosts_settled first _ _ _ _ Hhs Hr)).
      all: right; exact (rebuildHosts_frame _ _ _ _ Hr). }
    + unfold DeleteVirtualServerRoute in Hm2.
      rewrite (sameButWarnings_virtualServerRoutes _ _ Hsame), Hfree in Hm2.
      by injection Hm2 as _ _ <-.
    + unfold DeleteVirtualServerRoute in Hm2. cbn in Hm2. rewrite lookup_insert_eq, delete_insert_id in Hm2 by done.
      eapply (rebuildHosts_back second c h p); [done |]. rewrite <- Hm2. f_equal; by destruct c.
  - apply fmap_None in Hfree.
    unfold AddOrUpdateTransportServer in Hm1.
    destruct (rebuildForTransportServers _) as [[[ch pr] c0] |] eqn:Hr; [| done].
    cbn [mbind option_bind] in Hm1.
    destruct (reportValidationError _ _ _ ch pr) as [ch' pr']. injection Hm1 as _ _ <-.
    pose proof (rebuildForTransportServers_transportServers first _ _ _ _ Hr) as Hts.
    assert (sameButWarnings c c0
            ∨ rebuildForTransportServers (order := first)
                (set_transportServers
                   (<[getResourceKey (ts_ObjectMeta ts) := ts]> (transportServers c)) c)
              = Some (ch, pr, c0)) as [Hsame | Hr'].
    { repeat case_match;
        try (rewrite delete_id, set_transportServers_id in Hr by done; left;
             exact (rebuildForTransportServers_settled first _ _ _ _ Hs Htwins Hr)).
      all: by right. }
    + unfold DeleteTransportServer in Hm2.
      rewrite (sameButWarnings_transportServers _ _ Hsame), Hfree in Hm2.
      by injection Hm2 as _ _ <-.
    + unfold DeleteTransportServer in Hm2.
      pose proof (rebuildForTransportServers_transportServers first _ _ _ _ Hr') as Hts'.
      cbn in Hts'. rewrite Hts', lookup_insert_eq, delete_insert_id in Hm2 by done.
      exact (rebuildForTransportServers_back first second _ _ _ _ _ _ _ _ Hs Htwins Hr' Hm2).
Qed.

Lemma twinFreeb_sound c : twinFreeb c = true → twinFree c.
Proof.
  unfold twinFreeb. intros Hall k1 k2 ts1 ts2 H1 H2 Hne Hkey Horder.
  apply elem_of_map_to_list, list_elem_of_In in H1, H2.
  rewrite forallb_forall in Hall. specialize (Hall _ H1).
  rewrite forallb_forall in Hall. specialize (Hall _ H2). cbn in Hall.
  rewrite (bool_decide_eq_false_2 (k1 = k2)) in Hall by done.
  by rewrite !bool_decide_eq_true_2 in Hall by done.
Qed.

End Reruns.

(** * The properties at the sample objects *)

Section AtSamples.

Import Samples.

(** C1: the change list of [AddOrUpdateTransportServer] is not squashed.
    With TLS passthrough enabled, a TransportServer that holds a host is
    moved to a TCP listener. The listener rebuild upserts it, the host
    rebuild deletes it, and the mutator returns the upsert before the
    delete, both for the same identity: the list has two changes of one
    identity and an upsert before a delete, against the comments of
    [squashResourceChanges]. *)
Lemma concatenated_changes_not_squashed :
  ∃ changes problems,
    outcome true false
      [MAddOrUpdateGlobalConfiguration gc1; MAddOrUpdateTransportServer tsPassthrough]
      (MAddOrUpdateTransportServer tsTcp) = Some (changes, problems)
    ∧ changeView <$> changes
      = [(AddOrUpdate, "TransportServer/default/ts");
         (Delete, "TransportServer/default/ts")]
    ∧ ¬ uniqueByIdentity changes
    ∧ ¬ deletesFirst changes.
Proof.
  do 2 eexists.
  split; [vm_compute; reflexivity |].
  apply upsert_then_delete_not_squashed. vm_compute. reflexivity.
Qed.

(** C2 as stated fails: a TransportServer with the listener name
    [tls-passthrough] and the protocol TCP meets one of the two conditions
    only, and owns its host after the rebuild. *)
Lemma name_alone_claims_host :
  ts_ListenerName tsNameOnly = TLSPassthroughListenerName
  ∧ ts_ListenerProtocol tsNameOnly ≠ TLSPassthroughListenerProtocol
  ∧ hostOwner true false [MAddOrUpdateTransportServer tsNameOnly] (ts_Host tsNameOnly)
    = Some "TransportServer/default/odd".
Proof. split; [done | split; [done |]]. vm_compute. reflexivity. Qed.

(** C3 as stated fails: a GlobalConfiguration that fails validation is
    stored all the same, and the error is returned beside it. *)
Lemma invalid_GlobalConfiguration_is_stored :
  ∃ changes problems c,
    AddOrUpdateGlobalConfiguration (store false false) gcBad
    = Some (changes, problems, Some "spec.listeners: Duplicate value", c)
    ∧ globalConfiguration c = Some gcBad.
Proof. do 3 eexists. split; vm_compute; reflexivity. Qed.

(** C4 as stated fails: the second of two equal calls with an invalid
    VirtualServer returns the validation error as a problem again. *)
Lemma invalid_twice_reports_twice :
  ∃ p,
    outcome false false [MAddOrUpdateVirtualServer vsInvalid]
      (MAddOrUpdateVirtualServer vsInvalid) = Some ([], [p])
    ∧ p_IsError p = true
    ∧ p_Reason p = EventReasonRejected
    ∧ p_Message p = "VirtualServer b/bad was rejected with error: spec.host: Required value".
Proof. eexists. split; [vm_compute; reflexivity |]. done. Qed.

(** C6 as stated fails: two distinct resources with the same creation
    timestamp and the same UID; neither wins over the other. *)
Lemma twins_do_not_win :
  let a := TransportServerRes (NewTransportServerConfiguration twinA) in
  let b := TransportServerRes (NewTransportServerConfiguration twinB) in
  a ≠ b
  ∧ GetKeyWithKind a ≠ GetKeyWithKind b
  ∧ Wins a b = false ∧ Wins b a = false
  ∧ ¬ (Wins a b = true ↔ ¬ Wins b a = true).
Proof.
  cbv zeta. split; [done | split; [done |]].
  assert (Wins (TransportServerRes (NewTransportServerConfiguration twinA))
               (TransportServerRes (NewTransportServerConfiguration twinB)) = false) as Hab
    by (vm_compute; reflexivity).
  assert (Wins (TransportServerRes (NewTransportServerConfiguration twinB))
               (TransportServerRes (NewTransportServerConfiguration twinA)) = false) as Hba
    by (vm_compute; reflexivity).
  split; [done | split; [done |]].
  rewrite Hab, Hba. intros [_ H2]. by discriminate H2.
Qed.

(** C9 as stated fails: two TransportServerConfigurations of one
    TransportServer that differ in the listener port are not equal, and
    two VirtualServerConfigurations of one VirtualServer that differ in
    their routes are not equal. *)
Lemma equal_identity_not_IsEqual :
  let tsc1 := NewTransportServerConfiguration tsTcp in
  let tsc2 := tsc_setListener tcpListener tsc1 in
  let vsc1 := NewVirtualServerConfiguration vsB [] [] in
  let vsc2 :=
    NewVirtualServerConfiguration vsB
      [ {| vsr_ObjectMeta := meta "b" "route" 6 "uid-r"; vsr_Host := "x.io";
           vsr_Upstreams := []; vsr_Subroutes := [] |} ] [] in
  sameIdentity (ts_ObjectMeta (tsc_TransportServer tsc1))
               (ts_ObjectMeta (tsc_TransportServer tsc2))
  ∧ IsEqual (TransportServerRes tsc1) (TransportServerRes tsc2) = false
  ∧ sameIdentity (vs_ObjectMeta (vsc_VirtualServer vsc1))
                 (vs_ObjectMeta (vsc_VirtualServer vsc2))
  ∧ IsEqual (VirtualServerRes vsc1) (VirtualServerRes vsc2) = false.
Proof. cbv zeta. repeat split; vm_compute; reflexivity. Qed.

(** C6 (amended) at an Ingress created at instant 1, a VirtualServer
    created at instant 2 and a TransportServer created at instant 3, and
    at the two TransportServers that were created at the same instant
    with the same UID. *)
Lemma Wins_strict_order_at_samples :
  let a := IngressRes (NewRegularIngressConfiguration ingressA) in
  let b := VirtualServerRes (NewVirtualServerConfiguration vsB [] []) in
  let c := TransportServerRes (NewTransportServerConfiguration tsTcp) in
  let t1 := TransportServerRes (NewTransportServerConfiguration twinA) in
  let t2 := TransportServerRes (NewTransportServerConfiguration twinB) in
  (Wins a b = true ↔ Wins b a = false)
  ∧ (Wins a b = true → Wins b c = true → Wins a c = true)
  ∧ (Wins a b = true ↔
     CreationTimestamp (GetObjectMeta a) < CreationTimestamp (GetObjectMeta b)
     ∨ (CreationTimestamp (GetObjectMeta a) = CreationTimestamp (GetObjectMeta b)
        ∧ ¬ String.le (UID (GetObjectMeta a)) (UID (GetObjectMeta b))))
  ∧ Wins t1 t2 = false ∧ Wins t2 t1 = false.
Proof.
  cbv zeta.
  destruct (Wins_strict_order (IngressRes (NewRegularIngressConfiguration ingressA))
              (VirtualServerRes (NewVirtualServerConfiguration vsB [] []))
              (TransportServerRes (NewTransportServerConfiguration tsTcp)))
    as (Hdiffer & Htrans & Hclosed & _).
  split; [apply Hdiffer; vm_compute; discriminate |].
  split; [exact Htrans |]. split; [exact Hclosed |].
  apply (Wins_strict_order (TransportServerRes (NewTransportServerConfiguration twinA))
           (TransportServerRes (NewTransportServerConfiguration twinB))
           (TransportServerRes (NewTransportServerConfiguration twinA))).
  vm_compute. reflexivity.
Defined.

(** C4 (amended) at a TransportServer added twice to a store where an
    older TransportServer holds its listener and host: the first call
    ranges over the maps as they list their entries, the second one the
    other way round. *)
Lemma applyMutation_twice_at_tsTcpLate :
  ∃ c changes problems c' c'',
    afterCalls [MAddOrUpdateGlobalConfiguration gc1; MAddOrUpdateTransportServer tsTcp]
      (store false false) = Some c
    ∧ applyMutation (order := asListed) c (MAddOrUpdateTransportServer tsTcpLate)
      = Some (changes, problems, c')
    ∧ twinFree c'
    ∧ applyMutation (order := backwards) c' (MAddOrUpdateTransportServer tsTcpLate)
      = Some ([], option_list (validationProblem c (MAddOrUpdateTransportServer tsTcpLate)),
              c'')
    ∧ sameButWarnings c' c''.
Proof.
  assert (is_Some
            (c ← afterCalls [MAddOrUpdateGlobalConfiguration gc1;
                             MAddOrUpdateTransportServer tsTcp] (store false false);
             r ← applyMutation c (MAddOrUpdateTransportServer tsTcpLate);
             if twinFreeb r.2 then Some r else None)) as Hrun
    by (apply (bool_decide_unpack _); vm_compute; exact I).
  revert Hrun. destruct (afterCalls _ _) as [c |] eqn:Hcalls; [| by intros []].
  clear Hcalls. intros [[[changes problems] c'] Hrun].
  cbn [mbind option_bind] in Hrun.
  destruct (applyMutation c _) as [r |] eqn:H1; [| done]. cbn [mbind option_bind] in Hrun.
  destruct (twinFreeb r.2) eqn:Htwins; [| done]. injection Hrun as ->. cbn [snd] in Htwins.
  destruct (applyMutation_twice asListed backwards c (MAddOrUpdateTransportServer tsTcpLate)
              changes problems c' H1 (twinFreeb_sound c' Htwins)) as (c'' & H2 & Hsame).
  exists c, changes, problems, c', c''.
  split; [reflexivity |]. split; [exact H1 |]. split; [exact (twinFreeb_sound c' Htwins) |].
  split; [exact H2 | exact Hsame].
Defined.

(** Why C4 is stated without twins: two TransportServers created at the
    same instant with the same UID ask for one listener and host. Neither
    wins over the other, so the one that the range reaches last holds the
    key, and a second call that ranges the other way round moves the key
    and reports it. *)
Lemma twins_take_turns :
  ∃ c' changes problems c'',
    secondCall false false
      [MAddOrUpdateGlobalConfiguration gc1; MAddOrUpdateTransportServer twinA]
      (MAddOrUpdateTransportServer twinB) = Some (c', changes, problems, c'')
    ∧ changeView <$> changes
      = [(Delete, "TransportServer/default/twin-b");
         (AddOrUpdate, "TransportServer/default/twin-a")]
    ∧ p_Message <$> problems
      = ["Listener tcp-9000 with host empty host is taken by another resource"].
Proof. do 4 eexists. split; [vm_compute; reflexivity |]. split; reflexivity. Qed.

(** Why C4 leaves the warnings apart: two VirtualServers that name
    listeners which the GlobalConfiguration does not define have lost
    their host to an Ingress, which carries their two warnings in the
    order of the range. A second call that ranges the other way round
    returns no change and no problem, and stores the warnings in the
    other order. *)
Lemma warnings_in_the_order_of_the_range :
  ∃ c' c'',
    secondCall false false
      [MAddOrUpdateGlobalConfiguration gc1; MAddOrUpdateIngress ingressA;
       MAddOrUpdateVirtualServer vsListeners]
      (MAddOrUpdateVirtualServer vsListeners2) = Some (c', [], [], c'')
    ∧ GetWarnings <$> hosts c' !! "x.io"
      = Some ["Listener http-8081 is not defined in GlobalConfiguration";
              "Listener http-8080 is not defined in GlobalConfiguration"]
    ∧ GetWarnings <$> hosts c'' !! "x.io"
      = Some ["Listener http-8080 is not defined in GlobalConfiguration";
              "Listener http-8081 is not defined in GlobalConfiguration"].
Proof. do 2 eexists. split; [vm_compute; reflexivity |]. split; vm_compute; reflexivity. Qed.

(** C3 (amended) at a VirtualServer without a host. *)
Lemma invalid_resource_not_stored_at_vsInvalid :
  ∃ changes problems c',
    applyMutation (store false false) (MAddOrUpdateVirtualServer vsInvalid)
    = Some (changes, problems, c')
    ∧ storeEntry c' (MAddOrUpdateVirtualServer vsInvalid) = None.
Proof.
  do 3 eexists. split; [vm_compute; reflexivity |].
  eapply (invalid_resource_not_stored (store false false)
            (MAddOrUpdateVirtualServer vsInvalid)).
  - vm_compute. reflexivity.
  - vm_compute. eauto.
Defined.

(** X24 at the TransportServer that is moved from TLS passthrough to
    the TCP listener: the change list is the upsert of the listener
    rebuild followed by the delete of the host rebuild. *)
Lemma changes_squashed_per_rebuild_at_tsTcp :
  ∃ c changes problems c',
    afterCalls
      [MAddOrUpdateGlobalConfiguration gc1; MAddOrUpdateTransportServer tsPassthrough]
      (store true false) = Some c
    ∧ applyMutation c (MAddOrUpdateTransportServer tsTcp) = Some (changes, problems, c')
    ∧ (changes = []
       ∨ twoSquashed (alsoRebuildsHosts c (MAddOrUpdateTransportServer tsTcp)) c' changes).
Proof.
  assert (is_Some
            (c ← afterCalls
                   [MAddOrUpdateGlobalConfiguration gc1;
                    MAddOrUpdateTransportServer tsPassthrough]
                   (store true false);
             applyMutation c (MAddOrUpdateTransportServer tsTcp))) as Hrun
    by (apply (bool_decide_unpack _); vm_compute; exact I).
  revert Hrun. destruct (afterCalls _ _) as [c |]; [| by intros []].
  intros [[[changes problems] c'] Hm].
  change (applyMutation c (MAddOrUpdateTransportServer tsTcp)
          = Some (changes, problems, c')) in Hm.
  exists c, changes, problems, c'. split; [done | split; [done |]].
  exact (changes_squashed_per_rebuild c (MAddOrUpdateTransportServer tsTcp) _ _ _ Hm).
Defined.

(** C2 (amended) at the TransportServer that has the passthrough listener
    name and the TCP protocol. *)
Lemma passthrough_pass_candidates_at_tsNameOnly :
  ∃ c st,
    afterCalls [MAddOrUpdateTransportServer tsNameOnly] (store true false) = Some c
    ∧ buildHostsAndResources c = Some st
    ∧ transportServers c !! "default/odd" = Some tsNameOnly
    ∧ passthroughCandidate tsNameOnly
    ∧ is_Some (hb_heap st !! (KTransportServer, "default/odd")).
Proof.
  assert (is_Some
            (c ← afterCalls [MAddOrUpdateTransportServer tsNameOnly] (store true false);
             if bool_decide (isTLSPassthroughEnabled c = true
                             ∧ transportServers c !! "default/odd" = Some tsNameOnly)
             then buildHostsAndResources c else None)) as Hrun
    by (apply (bool_decide_unpack _); vm_compute; exact I).
  revert Hrun. destruct (afterCalls _ _) as [c |]; [| by intros []].
  intros [st Hrun]. simpl in Hrun. case_bool_decide as Hc; [| done].
  destruct Hc as [Hen Hts].
  assert (passthroughCandidate tsNameOnly) as Hcand by (by left).
  exists c, st. split; [done | split; [done | split; [done | split; [done |]]]].
  by apply (passthrough_pass_candidates c st "default/odd" tsNameOnly Hen Hrun Hts).
Defined.

(** The stores that a sequence of calls reaches from a fresh store file
    every resource under its own key. *)
Lemma afterCalls_storeKeyed ms c c' :
  afterCalls ms c = Some c' → storeKeyed c → storeKeyed c'.
Proof.
  unfold afterCalls. revert c.
  induction ms as [| m ms IH]; intros c Hrun Hc; simpl in Hrun.
  - by simplify_eq.
  - destruct (applyMutation c m) as [[[ch pr] c1] |] eqn:Hm; [| done].
    apply (IH c1); [done |]. by eapply applyMutation_storeKeyed.
Qed.

(** C10 at a TransportServer that names the listener [dns] with the
    protocol TCP, where the GlobalConfiguration has [dns] with UDP. *)
Lemma listener_does_not_exist_at_tsDnsTcp :
  ∃ c changes problems c',
    afterCalls [MAddOrUpdateGlobalConfiguration gc1; MAddOrUpdateTransportServer tsDnsTcp]
      (store false false) = Some c
    ∧ rebuildListenerHosts c = Some (changes, problems, c')
    ∧ transportServers c !! "default/dns" = Some tsDnsTcp
    ∧ listenerHosts c' !! ts_listenerHostKey tsDnsTcp = None
    ∧ listenerProblems c' !! "TransportServer/default/dns"
      = Some (mkProblem (ObjTransportServer tsDnsTcp) false EventReasonRejected
                "Listener dns doesn't exist").
Proof.
  assert (is_Some
            (c ← afterCalls
                   [MAddOrUpdateGlobalConfiguration gc1;
                    MAddOrUpdateTransportServer tsDnsTcp] (store false false);
             r ← rebuildListenerHosts c;
             if bool_decide (transportServers c !! "default/dns" = Some tsDnsTcp
                             ∧ listenerHosts r.2 !! ts_listenerHostKey tsDnsTcp = None)
             then Some (c, r) else None)) as Hrun
    by (apply (bool_decide_unpack _); vm_compute; exact I).
  revert Hrun. destruct (afterCalls _ _) as [c |] eqn:Hcalls; [| by intros []].
  assert (storeKeyed c) as Hkeyed
    by (eapply afterCalls_storeKeyed; [exact Hcalls | apply storeKeyed_NewConfiguration]).
  clear Hcalls. intros [[c0 [[changes problems] c']] Hrun].
  cbn [mbind option_bind] in Hrun.
  destruct (rebuildListenerHosts c) as [r |] eqn:Hr; [| done].
  cbn [mbind option_bind] in Hrun.
  case_bool_decide as Hc; [| done]. destruct Hc as [Hts Hfree].
  injection Hrun as <- ->. cbn [snd] in Hfree.
  exists c, changes, problems, c'.
  split; [reflexivity | split; [exact Hr | split; [exact Hts | split; [exact Hfree |]]]].
  by apply (listener_does_not_exist c changes problems c' "default/dns" tsDnsTcp).
Defined.

(** C5 at the Ingress created at instant 1 and the VirtualServer created
    at instant 2, both for the host [x.io]: the Ingress holds the host,
    and the VirtualServer carries the warning and has the problem. *)
Lemma host_collision_at_ingressA_vsB :
  ∃ c changes problems c' detected latest newProblems finalHosts vsc winner,
    afterCalls [MAddOrUpdateIngress ingressA; MAddOrUpdateVirtualServer vsB]
      (store false false) = Some c
    ∧ rebuildHosts c = Some (changes, problems, c')
    ∧ hostOutcome c = Some (detected, latest, newProblems, finalHosts)
    ∧ latest !! "VirtualServer/b/b" = Some (VirtualServerRes vsc)
    ∧ vsc_VirtualServer vsc = vsB
    ∧ hosts c' !! "x.io" = Some winner
    ∧ GetKeyWithKind winner = "Ingress/a/a"
    ∧ Wins (VirtualServerRes vsc) winner = false
    ∧ Wins winner (VirtualServerRes vsc) = true
    ∧ "host x.io is taken by another resource" ∈ vsc_Warnings vsc
    ∧ hostProblems c' !! "VirtualServer/b/b"
      = Some (mkProblem (ObjVirtualServer vsB) false EventReasonRejected
                "Host is taken by another resource").
Proof.
  assert (is_Some
            (c ← afterCalls [MAddOrUpdateIngress ingressA; MAddOrUpdateVirtualServer vsB]
                   (store false false);
             r ← rebuildHosts c;
             o ← hostOutcome c;
             loser ← o.1.1.2 !! "VirtualServer/b/b";
             winner ← hosts r.2 !! "x.io";
             match loser with
             | VirtualServerRes vsc =>
                 if bool_decide
                      (vsc_VirtualServer vsc = vsB
                       ∧ GetKeyWithKind winner = "Ingress/a/a"
                       ∧ orderKey (GetObjectMeta loser) ≠ orderKey (GetObjectMeta winner))
                 then Some (r, o, vsc, winner) else None
             | _ => None
             end)) as Hrun
    by (apply (bool_decide_unpack _); vm_compute; exact I).
  revert Hrun. destruct (afterCalls _ _) as [c |]; [| by intros []].
  intros [[[[[[changes problems] c'] [[[detected latest] newProblems] finalHosts]] vsc]
           winner] Hrun].
  cbn [mbind option_bind] in Hrun.
  destruct (rebuildHosts c) as [r |] eqn:Hr; [| done]. cbn [mbind option_bind] in Hrun.
  destruct (hostOutcome c) as [o |] eqn:Ho; [| done]. cbn [mbind option_bind] in Hrun.
  destruct (o.1.1.2 !! "VirtualServer/b/b") as [loser |] eqn:Hl; [| done].
  cbn [mbind option_bind] in Hrun.
  destruct (hosts r.2 !! "x.io") as [w |] eqn:Hw; [| done].
  cbn [mbind option_bind] in Hrun.
  destruct loser as [| vsc0 |]; [done | | done].
  case_bool_decide as Hc; [| done]. destruct Hc as (Hvs & Hkey & Horder).
  injection Hrun as -> -> -> ->. cbn [fst snd] in Hl, Hw.
  destruct (host_collision c changes problems c' detected latest newProblems finalHosts
              "VirtualServer/b/b" (VirtualServerRes vsc) "x.io" Hr Ho Hl)
    as (winner' & Hw' & Hlost).
  { cbn [resourceHosts]. rewrite Hvs. apply list_elem_of_singleton. reflexivity. }
  rewrite Hw in Hw'. injection Hw' as <-.
  destruct Hlost as (Hlost & Hwon & Hwarn & Hproblem).
  { rewrite Hkey. unfold GetKeyWithKind. rewrite Hvs. discriminate. }
  destruct (Hproblem vsc eq_refl) as [Hp _]. rewrite Hvs in Hp.
  exists c, changes, problems, c', detected, latest, newProblems, finalHosts, vsc, winner.
  repeat (split; [first [reflexivity | assumption | by apply Hwon] |]). exact Hp.
Defined.

(** C8 at the VirtualServer of the host [x.io] and the challenge Ingress
    for that host: no IngressConfiguration is derived for the Ingress and
    the VirtualServerConfiguration has the challenge route. *)
Lemma challenge_ingress_at_samples :
  ∃ c detected latest newProblems finalHosts vsc vsr,
    afterCalls [MAddOrUpdateVirtualServer vsB; MAddOrUpdateIngress ingressChallenge]
      (store false true) = Some c
    ∧ hostOutcome c = Some (detected, latest, newProblems, finalHosts)
    ∧ (∀ K ic, latest !! K = Some (IngressRes ic) → ic_Ingress ic ≠ ingressChallenge)
    ∧ latest !! "VirtualServer/b/b" = Some (VirtualServerRes vsc)
    ∧ vsr ∈ vsc_VirtualServerRoutes vsc
    ∧ vsr_Upstreams vsr
      = [ {| up_Name := "challenge"; up_Service := "cm-acme-http-solver";
             up_Port := 8089 |} ]
    ∧ vsr_Subroutes vsr
      = [ {| route_Path := "/.well-known/acme-challenge/token"; route_Route := "";
             route_Action := Some {| Pass := "challenge" |} |} ].
Proof.
  assert (is_Some
            (c ← afterCalls
                   [MAddOrUpdateVirtualServer vsB; MAddOrUpdateIngress ingressChallenge]
                   (store false true);
             o ← hostOutcome c;
             if bool_decide (isCertManagerEnabled c = true
                             ∧ ingresses c !! "a/acme" = Some ingressChallenge
                             ∧ virtualServers c !! "b/b" = Some vsB)
             then Some o else None)) as Hrun
    by (apply (bool_decide_unpack _); vm_compute; exact I).
  revert Hrun. destruct (afterCalls _ _) as [c |] eqn:Hcalls; [| by intros []].
  assert (storeKeyed c) as Hkeyed
    by (eapply afterCalls_storeKeyed; [exact Hcalls | apply storeKeyed_NewConfiguration]).
  clear Hcalls. intros [[[[detected latest] newProblems] finalHosts] Hrun].
  cbn [mbind option_bind] in Hrun.
  destruct (hostOutcome c) as [o |] eqn:Ho; [| done]. cbn [mbind option_bind] in Hrun.
  case_bool_decide as Hc; [| done]. destruct Hc as (Hcm & Hing & Hvs).
  injection Hrun as ->.
  assert (Labels (ing_ObjectMeta ingressChallenge) !! "acme.cert-manager.io/http01-solver"
          = Some "true") as Hlabel by (vm_compute; reflexivity).
  destruct (challenge_ingress c detected latest newProblems finalHosts "a/acme"
              ingressChallenge
              (rule "x.io" "/.well-known/acme-challenge/token" "cm-acme-http-solver" 8089)
              Hkeyed Ho Hcm Hing eq_refl Hlabel eq_refl) as [Hgains _].
  destruct (Hgains _ _ _ eq_refl eq_refl eq_refl) as (Hno & vsr & _ & Hup & Hsub & Hall).
  { exists "b/b", vsB. by split. }
  destruct (Hall "b/b" vsB Hvs eq_refl) as (vsc & Hl & _ & Hin).
  exists c, detected, latest, newProblems, finalHosts, vsc, vsr.
  split; [reflexivity |]. split; [exact Ho |]. split; [exact Hno |].
  split; [exact Hl |]. split; [exact Hin |]. split; [exact Hup | exact Hsub].
Defined.

Lemma settled_NewConfiguration cls plus ap apd ir vsv gcv tsv pt sn cm v6 :
  settled (NewConfiguration cls plus ap apd ir vsv gcv tsv pt sn cm v6).
Proof.
  split.
  - exists asListed, ∅. vm_compute. reflexivity.
  - exists asListed, ∅, ∅. destruct pt; vm_compute; reflexivity.
Qed.

Lemma afterCalls_settled ms c c' :
  afterCalls ms c = Some c' → settled c → settled c'.
Proof.
  unfold afterCalls. revert c.
  induction ms as [| m ms IH]; intros c Hrun Hc; simpl in Hrun.
  - by simplify_eq.
  - destruct (applyMutation c m) as [[[ch pr] c1] |] eqn:Hm; [| done].
    apply (IH c1); [done |]. exact (applyMutation_keeps_settled asListed _ _ _ _ _ Hc Hm).
Qed.

(** X8 at a GlobalConfiguration that names the listener [tcp-9000]
    twice: it is stored, the validator's error is returned, and the
    listener map has the listener. *)
Lemma AddOrUpdateGlobalConfiguration_stores_at_gcBad :
  ∃ changes problems err c',
    AddOrUpdateGlobalConfiguration (store false false) gcBad
      = Some (changes, problems, err, c')
    ∧ GetGlobalConfiguration c' = Some gcBad
    ∧ err = Some "spec.listeners: Duplicate value"
    ∧ listenerMap c' !! "tcp-9000" = Some tcpListener
    ∧ listenerMap c' !! "dns" = None.
Proof.
  assert (is_Some (AddOrUpdateGlobalConfiguration (store false false) gcBad))
    as [[[[changes problems] err] c'] Hrun]
    by (apply (bool_decide_unpack _); vm_compute; exact I).
  destruct (AddOrUpdateGlobalConfiguration_stores _ _ _ _ _ _ Hrun)
    as (Hget & Herr & Hmap & _).
  exists changes, problems, err, c'.
  split; [exact Hrun |]. split; [exact Hget |].
  split; [rewrite Herr; vm_compute; reflexivity |].
  split; rewrite Hmap; vm_compute; reflexivity.
Defined.

(** X9 at a store with a GlobalConfiguration and a TransportServer that
    holds one of its listeners. *)
Lemma DeleteGlobalConfiguration_clears_at_gc1 :
  ∃ c changes problems c',
    afterCalls [MAddOrUpdateGlobalConfiguration gc1; MAddOrUpdateTransportServer tsTcp]
      (store false false) = Some c
    ∧ listenerHosts c ≠ ∅
    ∧ DeleteGlobalConfiguration c = Some (changes, problems, c')
    ∧ GetGlobalConfiguration c' = None
    ∧ listenerMap c' = ∅
    ∧ listenerHosts c' = ∅.
Proof.
  assert (is_Some
            (c ← afterCalls
                   [MAddOrUpdateGlobalConfiguration gc1; MAddOrUpdateTransportServer tsTcp]
                   (store false false);
             r ← DeleteGlobalConfiguration c;
             if bool_decide (listenerHosts c ≠ ∅) then Some r else None)) as Hrun
    by (apply (bool_decide_unpack _); vm_compute; exact I).
  revert Hrun. destruct (afterCalls _ _) as [c |]; [| by intros []].
  intros [[[changes problems] c'] Hrun]. cbn [mbind option_bind] in Hrun.
  destruct (DeleteGlobalConfiguration c) as [r |] eqn:Hr; [| done].
  cbn [mbind option_bind] in Hrun.
  case_bool_decide as Hc; [| done]. injection Hrun as ->.
  exists c, changes, problems, c'.
  split; [reflexivity |]. split; [exact Hc |]. split; [exact Hr |].
  exact (DeleteGlobalConfiguration_clears c changes problems c' Hr).
Defined.

(** X10 at the host [x.io], asked for by an Ingress and a
    VirtualServer. *)
Lemma hosts_held_by_stored_at_ingressA_vsB :
  ∃ c changes problems c' ic,
    afterCalls [MAddOrUpdateIngress ingressA; MAddOrUpdateVirtualServer vsB]
      (store false false) = Some c
    ∧ rebuildHosts c = Some (changes, problems, c')
    ∧ hosts c' !! "x.io" = Some (IngressRes ic)
    ∧ "x.io" ∈ rule_Host <$> ing_Rules (ic_Ingress ic)
    ∧ isMinion (ic_Ingress ic) = false
    ∧ ∃ key, ingresses c !! key = Some (ic_Ingress ic).
Proof.
  assert (is_Some
            (c ← afterCalls [MAddOrUpdateIngress ingressA; MAddOrUpdateVirtualServer vsB]
                   (store false false);
             r ← rebuildHosts c;
             holder ← hosts r.2 !! "x.io";
             match holder with
             | IngressRes ic => Some (r, ic)
             | _ => None
             end)) as Hrun
    by (apply (bool_decide_unpack _); vm_compute; exact I).
  revert Hrun. destruct (afterCalls _ _) as [c |]; [| by intros []].
  intros [[[[changes problems] c'] ic] Hrun]. cbn [mbind option_bind] in Hrun.
  destruct (rebuildHosts c) as [r |] eqn:Hr; [| done]. cbn [mbind option_bind] in Hrun.
  destruct (hosts r.2 !! "x.io") as [holder |] eqn:Hh; [| done].
  cbn [mbind option_bind] in Hrun.
  destruct holder as [ic0 | |]; [| done | done]. injection Hrun as -> ->.
  cbn [snd] in Hh.
  exists c, changes, problems, c', ic.
  split; [reflexivity |]. split; [exact Hr |]. split; [exact Hh |].
  exact (hosts_held_by_stored c changes problems c' "x.io" (IngressRes ic) Hr Hh).
Defined.

(** X11 at a VirtualServerRoute for the host of a VirtualServer that has
    no route to it. *)
Lemma VirtualServerRoute_problem_at_vsrC :
  ∃ c changes problems c',
    afterCalls [MAddOrUpdateVirtualServer vsB; MAddOrUpdateVirtualServerRoute vsrC]
      (store false false) = Some c
    ∧ rebuildHosts c = Some (changes, problems, c')
    ∧ virtualServerRoutes c !! "b/route" = Some vsrC
    ∧ hostProblems c' !! "VirtualServerRoute/b/route"
      = Some (mkProblem (ObjVirtualServerRoute vsrC) false EventReasonIgnored
                "VirtualServer b/b ignores VirtualServerRoute").
Proof.
  assert (is_Some
            (c ← afterCalls
                   [MAddOrUpdateVirtualServer vsB; MAddOrUpdateVirtualServerRoute vsrC]
                   (store false false);
             r ← rebuildHosts c;
             holder ← hosts r.2 !! "x.io";
             match holder with
             | VirtualServerRes vsc =>
                 if bool_decide (virtualServerRoutes c !! "b/route" = Some vsrC
                                 ∧ vsc_VirtualServerRoutes vsc = []
                                 ∧ vsc_VirtualServer vsc = vsB)
                 then Some (r, vsc) else None
             | _ => None
             end)) as Hrun
    by (apply (bool_decide_unpack _); vm_compute; exact I).
  revert Hrun. destruct (afterCalls _ _) as [c |] eqn:Hcalls; [| by intros []].
  assert (storeKeyed c) as Hkeyed
    by (eapply afterCalls_storeKeyed; [exact Hcalls | apply storeKeyed_NewConfiguration]).
  clear Hcalls. intros [[[[changes problems] c'] vsc] Hrun].
  cbn [mbind option_bind] in Hrun.
  destruct (rebuildHosts c) as [r |] eqn:Hr; [| done]. cbn [mbind option_bind] in Hrun.
  destruct (hosts r.2 !! "x.io") as [holder |] eqn:Hh; [| done].
  cbn [mbind option_bind] in Hrun.
  destruct holder as [| vsc0 |]; [done | | done].
  case_bool_decide as Hc; [| done]. destruct Hc as (Hvsr & Hroutes & Hvs).
  injection Hrun as -> ->. cbn [snd] in Hh.
  exists c, changes, problems, c'.
  split; [reflexivity |]. split; [exact Hr |]. split; [exact Hvsr |].
  pose proof (VirtualServerRoute_problem c changes problems c' "b/route" vsrC Hkeyed Hr Hvsr)
    as Hproblem.
  change (vsr_Host vsrC) with "x.io" in Hproblem.
  rewrite Hh, Hroutes, Hvs in Hproblem. exact Hproblem.
Defined.

(** X12 at a minion Ingress for a host that a regular Ingress holds. *)
Lemma minion_problem_at_ingressMinion :
  ∃ c changes problems c',
    afterCalls [MAddOrUpdateIngress ingressA; MAddOrUpdateIngress ingressMinion]
      (store false false) = Some c
    ∧ rebuildHosts c = Some (changes, problems, c')
    ∧ ingresses c !! "a/tea" = Some ingressMinion
    ∧ hostProblems c' !! "Ingress/a/tea"
      = Some (mkProblem (ObjIngress ingressMinion) false EventReasonNoIngressMasterFound
                "Ingress master is invalid or doesn't exist").
Proof.
  assert (is_Some
            (c ← afterCalls
                   [MAddOrUpdateIngress ingressA; MAddOrUpdateIngress ingressMinion]
                   (store false false);
             r ← rebuildHosts c;
             holder ← hosts r.2 !! "x.io";
             match holder with
             | IngressRes ic =>
                 if bool_decide (ingresses c !! "a/tea" = Some ingressMinion
                                 ∧ ic_IsMaster ic = false)
                 then Some (r, ic) else None
             | _ => None
             end)) as Hrun
    by (apply (bool_decide_unpack _); vm_compute; exact I).
  revert Hrun. destruct (afterCalls _ _) as [c |] eqn:Hcalls; [| by intros []].
  assert (storeKeyed c) as Hkeyed
    by (eapply afterCalls_storeKeyed; [exact Hcalls | apply storeKeyed_NewConfiguration]).
  clear Hcalls. intros [[[[changes problems] c'] ic] Hrun].
  cbn [mbind option_bind] in Hrun.
  destruct (rebuildHosts c) as [r |] eqn:Hr; [| done]. cbn [mbind option_bind] in Hrun.
  destruct (hosts r.2 !! "x.io") as [holder |] eqn:Hh; [| done].
  cbn [mbind option_bind] in Hrun.
  destruct holder as [ic0 | |]; [| done | done].
  case_bool_decide as Hc; [| done]. destruct Hc as (Hing & Hmaster).
  injection Hrun as -> ->. cbn [snd] in Hh.
  exists c, changes, problems, c'.
  split; [reflexivity |]. split; [exact Hr |]. split; [exact Hing |].
  destruct (minion_problem c changes problems c' "a/tea" ingressMinion Hkeyed Hr Hing eq_refl)
    as (rule0 & Hrule & Hproblem).
  injection Hrule as <-. change (rule_Host _) with "x.io" in Hproblem.
  rewrite Hh, Hmaster in Hproblem. exact Hproblem.
Defined.

(** X13 at a VirtualServer without a host, on an empty store: no change
    is for it, and the validation problem is the one problem returned. *)
Lemma validation_error_reported_at_vsInvalid :
  ∃ changes problems c',
    applyMutation (store false false) (MAddOrUpdateVirtualServer vsInvalid)
      = Some (changes, problems, c')
    ∧ validationError (store false false) (MAddOrUpdateVirtualServer vsInvalid)
      = Some "spec.host: Required value"
    ∧ ((∃ pre ch post,
          changes = pre ++ ch :: post ∧ rc_key ch = "VirtualServer/b/bad"
          ∧ rc_Error ch = "spec.host: Required value"
          ∧ Forall (λ x, rc_key x ≠ "VirtualServer/b/bad" ∧ rc_Error x = "") pre
          ∧ Forall (λ x, rc_Error x = "") post
          ∧ Forall softProblem problems)
       ∨ (Forall (λ x, rc_key x ≠ "VirtualServer/b/bad" ∧ rc_Error x = "") changes
          ∧ ∃ soft p,
              validationProblem (store false false) (MAddOrUpdateVirtualServer vsInvalid)
                = Some p
              ∧ p_IsError p = true ∧ Forall softProblem soft ∧ problems = soft ++ [p])).
Proof.
  assert (is_Some (applyMutation (store false false) (MAddOrUpdateVirtualServer vsInvalid)))
    as [[[changes problems] c'] Hrun]
    by (apply (bool_decide_unpack _); vm_compute; exact I).
  exists changes, problems, c'.
  split; [exact Hrun |]. split; [reflexivity |].
  exact (validation_error_reported _ _ changes problems c' Hrun).
Defined.

(** X14 at an Ingress added to a store with a VirtualServer for the same
    host. *)
Lemma mutators_keep_settled_at_ingressA :
  ∃ c changes problems c',
    afterCalls [MAddOrUpdateVirtualServer vsB] (store false false) = Some c
    ∧ applyMutation (order := backwards) c (MAddOrUpdateIngress ingressA)
      = Some (changes, problems, c')
    ∧ settled c'
    ∧ (twinFree c' →
       ∀ o' : RangeOrder,
         ∃ c'', rebuildListenerHostsThenHosts (order := o') c' = Some ([], [], c'')
                ∧ sameButWarnings c' c'').
Proof.
  assert (is_Some
            (c ← afterCalls [MAddOrUpdateVirtualServer vsB] (store false false);
             applyMutation (order := backwards) c (MAddOrUpdateIngress ingressA))) as Hrun
    by (apply (bool_decide_unpack _); vm_compute; exact I).
  revert Hrun. destruct (afterCalls _ _) as [c |] eqn:Hcalls; [| by intros []].
  assert (settled c) as Hsettled
    by (eapply afterCalls_settled; [exact Hcalls | apply settled_NewConfiguration]).
  clear Hcalls. intros [[[changes problems] c'] Hrun].
  cbn [mbind option_bind] in Hrun.
  exists c, changes, problems, c'.
  split; [reflexivity |]. split; [exact Hrun |].
  exact (mutators_keep_settled backwards c (MAddOrUpdateIngress ingressA) changes problems c'
           Hsettled Hrun).
Defined.

(** X15 at a VirtualServer added to and deleted from a store where an
    Ingress holds its host; the two calls range over the maps in opposite
    orders. *)
Lemma add_then_delete_at_vsB :
  ∃ c changes1 problems1 c1 changes2 problems2 c2,
    afterCalls [MAddOrUpdateIngress ingressA] (store false false) = Some c
    ∧ twinFree c
    ∧ virtualServers c !! "b/b" = None
    ∧ applyMutation (order := asListed) c (MAddOrUpdateVirtualServer vsB)
      = Some (changes1, problems1, c1)
    ∧ applyMutation (order := backwards) c1 (MDeleteVirtualServer "b/b")
      = Some (changes2, problems2, c2)
    ∧ sameButWarnings c c2.
Proof.
  assert (is_Some
            (c ← afterCalls [MAddOrUpdateIngress ingressA] (store false false);
             r1 ← applyMutation (order := asListed) c (MAddOrUpdateVirtualServer vsB);
             r2 ← applyMutation (order := backwards) r1.2 (MDeleteVirtualServer "b/b");
             if bool_decide (virtualServers c !! "b/b" = None) && twinFreeb c
             then Some (r1, r2) else None)) as Hrun
    by (apply (bool_decide_unpack _); vm_compute; exact I).
  revert Hrun. destruct (afterCalls _ _) as [c |] eqn:Hcalls; [| by intros []].
  assert (settled c) as Hsettled
    by (eapply afterCalls_settled; [exact Hcalls | apply settled_NewConfiguration]).
  clear Hcalls.
  intros [[[[changes1 problems1] c1] [[changes2 problems2] c2]] Hrun].
  cbn [mbind option_bind] in Hrun.
  destruct (applyMutation c _) as [r1 |] eqn:H1; [| done]. cbn [mbind option_bind] in Hrun.
  destruct (applyMutation r1.2 _) as [r2 |] eqn:H2; [| done].
  cbn [mbind option_bind] in Hrun.
  destruct (bool_decide (virtualServers c !! "b/b" = None)) eqn:Hfree; [| done].
  destruct (twinFreeb c) eqn:Htwins; [| done].
  apply bool_decide_eq_true in Hfree.
  injection Hrun as -> ->. cbn [snd] in H2.
  exists c, changes1, problems1, c1, changes2, problems2, c2.
  split; [reflexivity |]. split; [exact (twinFreeb_sound c Htwins) |].
  split; [exact Hfree |]. split; [exact H1 |]. split; [exact H2 |].
  apply (add_then_delete asListed backwards c (MAddOrUpdateVirtualServer vsB)
           (MDeleteVirtualServer "b/b") changes1 problems1 c1 changes2 problems2 c2 Hsettled
           (twinFreeb_sound c Htwins)); [| reflexivity | exact H1 | exact H2].
  cbn [storeEntry]. change (getResourceKey (vs_ObjectMeta vsB)) with "b/b".
  by rewrite Hfree.
Defined.

(** X16 at a TransportServer added to a store without TLS
    passthrough. *)
Lemma mutators_write_their_own_part_at_tsTcp :
  ∃ c changes problems c',
    afterCalls [MAddOrUpdateGlobalConfiguration gc1; MAddOrUpdateIngress ingressA]
      (store false false) = Some c
    ∧ applyMutation c (MAddOrUpdateTransportServer tsTcp) = Some (changes, problems, c')
    ∧ sameSettings c c'
    ∧ ingresses c' = ingresses c
    ∧ virtualServers c' = virtualServers c
    ∧ virtualServerRoutes c' = virtualServerRoutes c
    ∧ sameGlobalConfiguration c c'
    ∧ (isTLSPassthroughEnabled c = false → sameHostSide c c').
Proof.
  assert (is_Some
            (c ← afterCalls
                   [MAddOrUpdateGlobalConfiguration gc1; MAddOrUpdateIngress ingressA]
                   (store false false);
             applyMutation c (MAddOrUpdateTransportServer tsTcp))) as Hrun
    by (apply (bool_decide_unpack _); vm_compute; exact I).
  revert Hrun. destruct (afterCalls _ _) as [c |]; [| by intros []].
  intros [[[changes problems] c'] Hrun]. cbn [mbind option_bind] in Hrun.
  exists c, changes, problems, c'.
  split; [reflexivity |]. split; [exact Hrun |].
  exact (mutators_write_their_own_part c (MAddOrUpdateTransportServer tsTcp)
           changes problems c' Hrun).
Defined.

(** X18 at two TransportServers for the listener [tcp-9000] and the host
    [secure.io]: the older one holds them, the later one is warned and
    has the problem. *)
Lemma listener_collision_at_tsTcpLate :
  ∃ c changes problems c' newListenerHosts newTSConfigs newProblems holder,
    afterCalls [MAddOrUpdateGlobalConfiguration gc1; MAddOrUpdateTransportServer tsTcp;
                MAddOrUpdateTransportServer tsTcpLate] (store false false) = Some c
    ∧ rebuildListenerHosts c = Some (changes, problems, c')
    ∧ listenerOutcome c = Some (newListenerHosts, newTSConfigs, newProblems)
    ∧ listenerHosts c' !! ts_listenerHostKey tsTcpLate = Some holder
    ∧ tsc_TransportServer holder = tsTcp
    ∧ tsc_Wins (NewTransportServerConfiguration tsTcpLate) holder = false
    ∧ tsc_Wins holder (NewTransportServerConfiguration tsTcpLate) = true
    ∧ newTSConfigs !! "default/late"
      = Some (tsc_AddWarning "listener tcp-9000 and host secure.io are taken by another resource"
                (tsc_setListener tcpListener (NewTransportServerConfiguration tsTcpLate)))
    ∧ listenerProblems c' !! "TransportServer/default/late"
      = Some (mkProblem (ObjTransportServer tsTcpLate) false EventReasonRejected
                "Listener tcp-9000 with host secure.io is taken by another resource").
Proof.
  assert (is_Some
            (c ← afterCalls
                   [MAddOrUpdateGlobalConfiguration gc1; MAddOrUpdateTransportServer tsTcp;
                    MAddOrUpdateTransportServer tsTcpLate] (store false false);
             r ← rebuildListenerHosts c;
             o ← listenerOutcome c;
             holder ← listenerHosts r.2 !! ts_listenerHostKey tsTcpLate;
             if bool_decide (transportServers c !! "default/late" = Some tsTcpLate
                             ∧ listenerOf c tsTcpLate = Some tcpListener
                             ∧ tsc_TransportServer holder = tsTcp)
             then Some (r, o, holder) else None)) as Hrun
    by (apply (bool_decide_unpack _); vm_compute; exact I).
  revert Hrun. destruct (afterCalls _ _) as [c |] eqn:Hcalls; [| by intros []].
  assert (storeKeyed c) as Hkeyed
    by (eapply afterCalls_storeKeyed; [exact Hcalls | apply storeKeyed_NewConfiguration]).
  clear Hcalls.
  intros [[[[[changes problems] c'] [[newListenerHosts newTSConfigs] newProblems]] holder]
          Hrun].
  cbn [mbind option_bind] in Hrun.
  destruct (rebuildListenerHosts c) as [r |] eqn:Hr; [| done].
  cbn [mbind option_bind] in Hrun.
  destruct (listenerOutcome c) as [o |] eqn:Ho; [| done]. cbn [mbind option_bind] in Hrun.
  destruct (listenerHosts r.2 !! ts_listenerHostKey tsTcpLate) as [holder0 |] eqn:Hh; [| done].
  cbn [mbind option_bind] in Hrun.
  case_bool_decide as Hc; [| done]. destruct Hc as (Hts & Hlistener & Hholder).
  injection Hrun as -> -> ->. cbn [snd] in Hh.
  destruct (listener_collision c changes problems c' newListenerHosts newTSConfigs
              newProblems "default/late" tsTcpLate tcpListener Hkeyed Hr Ho Hts)
    as (holder' & Hh' & Hcase); [discriminate | exact Hlistener |].
  rewrite Hh in Hh'. injection Hh' as <-. rewrite Hholder in Hcase.
  destruct (decide (tsTcp = tsTcpLate)) as [Heq | _]; [discriminate Heq |].
  destruct Hcase as (Hlost & Hwon & Hwarned & p & -> & Hp & _).
  exists c, changes, problems, c', newListenerHosts, newTSConfigs, newProblems, holder.
  split; [reflexivity |]. split; [exact Hr |]. split; [exact Ho |]. split; [exact Hh |].
  split; [exact Hholder |]. split; [exact Hlost |].
  split; [apply Hwon; discriminate |]. split; [exact Hwarned | exact Hp].
Defined.

(** X19 at an Ingress for the host [x.io], created after the
    VirtualServer that holds the host: the host is marked false and the
    Ingress has the problem. *)
Lemma ingress_valid_hosts_at_ingressChallenge :
  ∃ c changes problems c' detected latest newProblems finalHosts ic,
    afterCalls [MAddOrUpdateVirtualServer vsB; MAddOrUpdateIngress ingressChallenge]
      (store false false) = Some c
    ∧ rebuildHosts c = Some (changes, problems, c')
    ∧ hostOutcome c = Some (detected, latest, newProblems, finalHosts)
    ∧ latest !! "Ingress/a/acme" = Some (IngressRes ic)
    ∧ ic_Ingress ic = ingressChallenge
    ∧ GetKeyWithKind <$> hosts c' !! "x.io" = Some "VirtualServer/b/b"
    ∧ ic_ValidHosts ic !! "x.io" = Some false
    ∧ hostProblems c' !! "Ingress/a/acme"
      = Some (mkProblem (ObjIngress ingressChallenge) false EventReasonRejected
                "All hosts are taken by other resources").
Proof.
  assert (is_Some
            (c ← afterCalls
                   [MAddOrUpdateVirtualServer vsB; MAddOrUpdateIngress ingressChallenge]
                   (store false false);
             r ← rebuildHosts c;
             o ← hostOutcome c;
             derived ← o.1.1.2 !! "Ingress/a/acme";
             match derived with
             | IngressRes ic =>
                 if bool_decide (ic_Ingress ic = ingressChallenge
                                 ∧ GetKeyWithKind <$> hosts r.2 !! "x.io"
                                   = Some "VirtualServer/b/b")
                 then Some (r, o, ic) else None
             | _ => None
             end)) as Hrun
    by (apply (bool_decide_unpack _); vm_compute; exact I).
  revert Hrun. destruct (afterCalls _ _) as [c |] eqn:Hcalls; [| by intros []].
  assert (storeKeyed c) as Hkeyed
    by (eapply afterCalls_storeKeyed; [exact Hcalls | apply storeKeyed_NewConfiguration]).
  clear Hcalls.
  intros [[[[[changes problems] c'] [[[detected latest] newProblems] finalHosts]] ic] Hrun].
  cbn [mbind option_bind] in Hrun.
  destruct (rebuildHosts c) as [r |] eqn:Hr; [| done]. cbn [mbind option_bind] in Hrun.
  destruct (hostOutcome c) as [o |] eqn:Ho; [| done]. cbn [mbind option_bind] in Hrun.
  destruct (o.1.1.2 !! "Ingress/a/acme") as [derived |] eqn:Hl; [| done].
  cbn [mbind option_bind] in Hrun.
  destruct derived as [ic0 | |]; [| done | done].
  case_bool_decide as Hc; [| done]. destruct Hc as (Hic & Hholder).
  injection Hrun as -> -> ->. cbn [fst snd] in Hl, Hholder.
  destruct (ingress_valid_hosts c changes problems c' detected latest newProblems finalHosts
              "Ingress/a/acme" ic Hkeyed Hr Ho Hl) as (Hmarks & _ & Hproblem).
  specialize (Hmarks "x.io"). rewrite Hic in Hmarks, Hproblem.
  change (rule_Host <$> ing_Rules ingressChallenge) with ["x.io"] in Hmarks, Hproblem.
  rewrite decide_True in Hmarks by left.
  cbn [existsb] in Hproblem. rewrite Hholder in Hmarks, Hproblem.
  exists c, changes, problems, c', detected, latest, newProblems, finalHosts, ic.
  split; [reflexivity |]. split; [exact Hr |]. split; [exact Ho |]. split; [exact Hl |].
  split; [exact Hic |]. split; [exact Hholder |]. split; [exact Hmarks | exact Hproblem].
Defined.

(** X20 at a VirtualServer that names a listener while no
    GlobalConfiguration is deployed, and whose host an older Ingress
    holds: the Ingress carries the warning. *)
Lemma listener_warning_on_holder_at_vsListeners :
  ∃ c changes problems c' detected latest newProblems finalHosts vsc holder,
    afterCalls [MAddOrUpdateIngress ingressA; MAddOrUpdateVirtualServer vsListeners]
      (store false false) = Some c
    ∧ rebuildHosts c = Some (changes, problems, c')
    ∧ hostOutcome c = Some (detected, latest, newProblems, finalHosts)
    ∧ latest !! "VirtualServer/b/web" = Some (VirtualServerRes vsc)
    ∧ vsc_VirtualServer vsc = vsListeners
    ∧ hosts c' !! "x.io" = Some holder
    ∧ GetKeyWithKind holder = "Ingress/a/a"
    ∧ "Listeners defined, but no GlobalConfiguration is deployed" ∈ GetWarnings holder.
Proof.
  assert (is_Some
            (c ← afterCalls
                   [MAddOrUpdateIngress ingressA; MAddOrUpdateVirtualServer vsListeners]
                   (store false false);
             r ← rebuildHosts c;
             o ← hostOutcome c;
             derived ← o.1.1.2 !! "VirtualServer/b/web";
             holder ← hosts r.2 !! "x.io";
             match derived with
             | VirtualServerRes vsc =>
                 if bool_decide (vsc_VirtualServer vsc = vsListeners
                                 ∧ GetKeyWithKind holder = "Ingress/a/a"
                                 ∧ globalConfiguration c = None)
                 then Some (r, o, vsc, holder) else None
             | _ => None
             end)) as Hrun
    by (apply (bool_decide_unpack _); vm_compute; exact I).
  revert Hrun. destruct (afterCalls _ _) as [c |]; [| by intros []].
  intros [[[[[[changes problems] c'] [[[detected latest] newProblems] finalHosts]] vsc]
           holder] Hrun].
  cbn [mbind option_bind] in Hrun.
  destruct (rebuildHosts c) as [r |] eqn:Hr; [| done]. cbn [mbind option_bind] in Hrun.
  destruct (hostOutcome c) as [o |] eqn:Ho; [| done]. cbn [mbind option_bind] in Hrun.
  destruct (o.1.1.2 !! "VirtualServer/b/web") as [derived |] eqn:Hl; [| done].
  cbn [mbind option_bind] in Hrun.
  destruct (hosts r.2 !! "x.io") as [holder0 |] eqn:Hh; [| done].
  cbn [mbind option_bind] in Hrun.
  destruct derived as [| vsc0 |]; [done | | done].
  case_bool_decide as Hc; [| done]. destruct Hc as (Hvs & Hid & Hgc).
  injection Hrun as -> -> -> ->. cbn [fst snd] in Hl, Hh.
  destruct (listener_warning_on_holder c changes problems c' detected latest newProblems
              finalHosts "VirtualServer/b/web" vsc
              {| vsl_HTTP := "http-8080"; vsl_HTTPS := "" |}
              "Listeners defined, but no GlobalConfiguration is deployed" Hr Ho Hl)
    as (holder' & Hh' & Hwarned).
  { by rewrite Hvs. }
  { unfold listenerWarning. by rewrite bool_decide_eq_true_2. }
  rewrite Hvs in Hh'. change (vs_Host vsListeners) with "x.io" in Hh'.
  rewrite Hh in Hh'. injection Hh' as <-.
  exists c, changes, problems, c', detected, latest, newProblems, finalHosts, vsc, holder.
  split; [reflexivity |]. split; [exact Hr |]. split; [exact Ho |]. split; [exact Hl |].
  split; [exact Hvs |]. split; [exact Hh |]. split; [exact Hid | exact Hwarned].
Defined.

(** X21 at a minion Ingress added to a fresh store. *)
Lemma mutators_return_at_ingressMinion :
  ∃ changes problems c',
    applyMutation (store false false) (MAddOrUpdateIngress ingressMinion)
      = Some (changes, problems, c')
    ∧ safeStore c'.
Proof.
  apply (mutators_return (store false false) (MAddOrUpdateIngress ingressMinion)).
  - intros key ing Hkey. cbn in Hkey. by rewrite lookup_empty in Hkey.
  - intros _ _. unfold safeIngress, hasHTTP.
    replace (isMinion ingressMinion) with true by (vm_compute; reflexivity).
    eexists. reflexivity.
Defined.

(** X22 at a store that holds a minion Ingress without rules. *)
Lemma ingress_without_rules_panics_at_minionNoRules :
  ingresses storeWithMinionNoRules !! "a/empty" = Some minionNoRules
  ∧ rebuildHosts storeWithMinionNoRules = None.
Proof.
  assert (ingresses storeWithMinionNoRules !! "a/empty" = Some minionNoRules) as Hstored
    by (vm_compute; reflexivity).
  split; [exact Hstored |].
  refine (proj1 (ingress_without_rules_panics storeWithMinionNoRules minionNoRules
                   eq_refl _) "a/empty" Hstored).
  vm_compute. reflexivity.
Defined.

(** X23 at two minions with the path [/tea]: the older one, visited
    second, takes the path over. *)
Lemma buildMinionConfigs_paths_at_tea :
  ∃ minions childWarnings,
    buildMinionConfigs storeWithMinions "x.io" = Some (minions, childWarnings)
    ∧ mc_Ingress <$> minions = [ingressMinion; ingressMinionOld]
    ∧ mc_ValidPaths <$> minions = [{[ "/tea" := false ]}; {[ "/tea" := true ]}]
    ∧ (∀ i j m1 m2 p, minions !! i = Some m1 → minions !! j = Some m2 →
         mc_ValidPaths m1 !! p = Some true →
         (mc_ValidPaths m2 !! p = Some true → i = j)
         ∧ (p ∈ minionPaths (mc_Ingress m2) →
            i = j ∨ chooseObjectMetaWinner (ing_ObjectMeta (mc_Ingress m2))
                      (ing_ObjectMeta (mc_Ingress m1)) = false)).
Proof.
  assert (is_Some
            (r ← buildMinionConfigs storeWithMinions "x.io";
             if bool_decide (mc_Ingress <$> r.1 = [ingressMinion; ingressMinionOld]
                             ∧ mc_ValidPaths <$> r.1
                               = [{[ "/tea" := false ]}; {[ "/tea" := true ]}])
             then Some r else None)) as Hrun
    by (apply (bool_decide_unpack _); vm_compute; exact I).
  revert Hrun. destruct (buildMinionConfigs _ _) as [[minions childWarnings] |] eqn:Hb;
    [| by intros []].
  intros [r Hrun]. simpl in Hrun. case_bool_decide as Hc; [| done].
  destruct Hc as [Hing Hpaths].
  exists minions, childWarnings. split; [done |]. split; [done |]. split; [done |].
  exact (proj2 (proj2 (proj2
           (buildMinionConfigs_paths storeWithMinions "x.io" minions childWarnings Hb)))).
Defined.

End AtSamples.
